(* ===== verification/_CoqProject ===== *)
-Q . S2P
Prelude.v
Prog.v
Wire.v
GoStrings.v
Json.v
Subdomain.v
TunnelManager.v
Quota.v
Auth.v
KeyStore.v
RequestLog.v
LogFeed.v
Config.v
Server.v
Permits.v
Sessions.v
Relay.v
Handlers.v
System.v
HttpProxy.v
Dashboard.v
Display.v
Client.v
Cli.v
Host.v
Ops.v
Wizard.v
Startup.v
