(* ===== verification/Prelude.v ===== *)
(** * htn-tunnel: a verification development

    htn-tunnel publishes a local service: a client (cmd/htn-tunnel) keeps one
    multiplexed connection to a relay server (cmd/server), the server gives it a
    subdomain or a TCP port, and what a visitor sends there is carried through a
    stream of that connection to the client and on to the local service.  This
    library models the Go code of both programs and proves what makes it
    correct.  File and function names below are those under src/.

    ** How the program is put together, and where it is modelled

    The server, internal/server:
    - Wire: internal/protocol, the frames of the control connection;
    - Subdomain: names, API key strings and their masks;
    - TunnelManager: tunnel_manager.go, the registry of tunnels: two maps of
      pointers into a store of [TunnelSession]s, one definition for each
      critical section of [tm.mu];
    - Quota: the interface "count a tunnel, discount a tunnel" as a class, with
      its two implementations in Auth ([TokenStore], with the rate limiters of
      auth.go) and KeyStore (key_store.go, its JSON file with the codec of its
      records by their tags, and its adapter);
    - RequestLog and LogFeed: request_log.go and request_log_adapter.go, the ring
      buffer and its analytics, then its subscribers and forwarding goroutines;
    - Config: internal/config and config_provider.go;
    - Server: server.go and the registration of tcp_proxy.go, each handler as a
      program (Prog) over the atomic operations of those components;
    - Permits, Sessions, Handlers, System: what is proved of them.  Handlers runs
      one handler from beginning to end; Permits and Sessions say what each
      goroutine may do to the counts, whatever runs in between; System is the
      whole server as a step relation of goroutines;
    - Relay: the copying of bytes in tcp_proxy.go and in the client, as the
      interleavings of two goroutines between two connections;
    - HttpProxy: http_proxy.go, from a visitor's host name to a tunnel, and the
      streams of one request;
    - Dashboard: internal/dashboard, the JSON API and the event stream;
    - Startup: the certificates, and every goroutine that [Server.Start] and
      [HTTPProxy.Start] start, with the listeners they hold.

    The client, internal/client and cmd/htn-tunnel: Client (the handshake, the
    requests, the reconnect loop, heartbeats), Display (the status box and the
    log line), Cli (the commands).

    The other commands of the server, cmd/server: Host (files, ports,
    commands and queries of a machine, and [sed] on its files), Ops (backup,
    restore, upgrade, health, status), Wizard (init, with its shell script).

    GoStrings has the functions of Go's standard library that the code uses on
    strings, Json what encoding/json makes of the values kept in a file, Prog the
    programs over events with their weakest preconditions,
    and this file the machine integers, ranges over maps, reachability and the
    shared tactics.

    ** Conventions

    A Go [int] has 64 bits; what can overflow is wrapped with [int64] or
    [uint32].  A pair (value, error) is a [result].  A [range] over a map visits
    it in the order of the class [RangeOrder], and the theorems hold for each.
    Shared objects are locations in a store ([loc]), so that what two holders of
    a pointer see is one object.  A critical section, a channel operation, a
    message or a system call is one event; an event's outcome (a clock reading,
    random bytes, whether I/O fails) is supplied by the environment, and every
    theorem about a program quantifies over these supplies.

    ** What the theorems show

    - The tunnel limit ([tunnel_limit_safe], System): in every interleaving of
      every goroutine, the tunnels a token has registered are at most its count
      and that is at most its limit.  It rests on the laws of Quota, on Permits
      for each handler and on the registry's invariant ([registry_wf]).
    - The control plane (Handlers): what a connection, a tunnel request and the
      end of a session do on every branch.
    - The registry: what [RegisterHTTP] and [RegisterTCP] grant, the latter with
      the other goroutines free to act between its two critical sections.
    - Keys and tokens: well-formedness, when a key is created, revocation for
      good, and that what was saved is what is decoded again; the limiter's
      clean-up cannot be observed.
    - The wire protocol: decoding accepts exactly the frames, and inverts
      encoding for whole sequences of messages.
    - The way of the bytes: a visitor's host leads to its tunnel, and through the
      relays of both programs each side receives in order a prefix of what the
      other sent, and all of it when neither relay saw an error and the end of
      file of the stream was its end; no stream is left open, and when one
      direction of a relay ends the other follows ([relay_ends]).
    - The log: the ring buffer refines the history of all entries; subscribers
      never make the server panic.
    - The dashboards: what a request may change, and what it may see.
    - The client: connecting leaves nothing open on an error, [Run] never gives
      up, and in the messages it sends asks for its old name again.
    - The commands: resolution of the http command, login, backup and restore,
      upgrade, the wizard; and how the server starts and stops.

    Facts that are no success of the code are proved too, as theorems of their
    own or in the modules called Examples: counts that leak on a kill, a tunnel
    registered after its session's clean-up, a lost update of the byte
    counters, [Shutdown] without cancellation, a binary lost by a failed upgrade.

    ** Bounds and fuel

    [RegisterTCP] makes at most 100 attempts and a random subdomain at most 10,
    as in the code.  [reverse_loop] has as much fuel as the buffer is long, which
    its lemma shows to be enough.  [decode_loop] ends on any finite stream
    shorter than its fuel ([decode_loop_terminates]).  [Client.Run] has one unit
    of fuel for each round of its endless loop; its theorem says that running
    out is the only way it stops by itself.  A relay one of whose directions has
    ended returns within 7 operations and 2 more for each read that a connection
    closed on this side still answers without an error, the forwarder of a
    subscription ends once its source is closed, and a cancelled server ends in
    at most 23 actions; these are theorems, not fuel.

    ** What is not modelled, and why

    Parameters with their documented laws: bcrypt, golang.org/x/time/rate, the
    JSON codec of the messages and of GitHub's release information, YAML, crypto
    and certmagic.  The key file is a JSON value: its text is encoding/json's.
    [net/http], [httputil], yamux and TLS appear by what they promise their
    callers; the syntax of HTTP messages is theirs.  The dashboards' static
    pages and scripts (embed.go), cobra's parsing of command lines, the texts
    around prompts and the log lines of slog, save where a theorem speaks of
    them, are left out.  Files have no symbolic links.  Case folding and
    trimming are those of ASCII.  The minute index of the analytics is an
    integer quotient, which the code's float64 agrees with below 2^17 minutes.
    *)

From Stdlib Require Export ZArith Lia Bool Ascii String.
From Stdlib Require Export Strings.Byte.
From stdpp Require Export base tactics option list gmap strings.

#[export] Set Default Goal Selector "!".
#[export] Set Warnings "-clear-no-such-hyp".

#[global] Arguments String.append : simpl nomatch.

(** The scope of the development's own notations. *)
Declare Scope htn_scope.
Delimit Scope htn_scope with htn.

(** ** Fallible results: a Go [(T, error)] pair *)

Inductive result (E A : Type) : Type :=
  | Ok (a : A)
  | Err (e : E).
Arguments Ok {E A} a.
Arguments Err {E A} e.

#[export] Instance result_ret E : MRet (result E) := fun A a => Ok a.
#[export] Instance result_bind E : MBind (result E) :=
  fun A B f m => match m with Ok a => f a | Err e => Err e end.
#[export] Instance result_fmap E : FMap (result E) :=
  fun A B f m => match m with Ok a => Ok (f a) | Err e => Err e end.

Definition is_ok {E A} (r : result E A) : bool :=
  match r with Ok _ => true | Err _ => false end.

(** [fmt.Errorf("...: %w", err)] *)
Definition wrap_error {A} (prefix : string) (r : result string A) : result string A :=
  match r with Ok a => Ok a | Err e => Err (prefix +:+ e)%string end.

#[export] Instance result_eq_dec E A `{EqDecision E, EqDecision A} :
  EqDecision (result E A).
Proof. solve_decision. Defined.

(** ** Machine integers

    The binaries are built for amd64 and arm64 only, so a Go [int] has 64 bits. *)

Definition wrapU (w z : Z) : Z := z mod 2 ^ w.
Definition wrapS (w z : Z) : Z := (z + 2 ^ (w - 1)) mod 2 ^ w - 2 ^ (w - 1).
Definition int64 (z : Z) : Z := wrapS 64 z.
Definition uint32 (z : Z) : Z := wrapU 32 z.

#[global] Arguments wrapU : simpl never.
#[global] Arguments wrapS : simpl never.
#[global] Arguments int64 : simpl never.
#[global] Arguments uint32 : simpl never.

Definition in_int64 (z : Z) : Prop := (- 2 ^ 63 <= z < 2 ^ 63)%Z.

Lemma int64_id (z : Z) : in_int64 z -> int64 z = z.
Proof.
  unfold in_int64, int64, wrapS. intros H.
  rewrite Z.mod_small; lia.
Qed.

Lemma int64_range (z : Z) : in_int64 (int64 z).
Proof.
  unfold in_int64, int64, wrapS.
  pose proof (Z.mod_pos_bound (z + 2 ^ (64 - 1)) (2 ^ 64) ltac:(lia)). lia.
Qed.

Lemma int64_add_l (a b : Z) : int64 (int64 a + b) = int64 (a + b).
Proof.
  unfold int64, wrapS.
  replace ((a + 2 ^ (64 - 1)) mod 2 ^ 64 - 2 ^ (64 - 1) + b + 2 ^ (64 - 1))%Z
    with ((a + 2 ^ (64 - 1)) mod 2 ^ 64 + b)%Z by lia.
  rewrite Zplus_mod_idemp_l. do 2 f_equal. lia.
Qed.

Lemma uint32_id (z : Z) : (0 <= z < 2 ^ 32)%Z -> uint32 z = z.
Proof. intros H. unfold uint32, wrapU. apply Z.mod_small; lia. Qed.

Lemma uint32_range (z : Z) : (0 <= uint32 z < 2 ^ 32)%Z.
Proof. unfold uint32, wrapU. apply Z.mod_pos_bound. lia. Qed.

(** ** Time

    A [time.Time] is an instant in nanoseconds, a [time.Duration] a number of
    nanoseconds. *)

Definition Nanosecond : Z := 1.
Definition Millisecond : Z := 1000000 * Nanosecond.
Definition Second : Z := 1000 * Millisecond.
Definition Minute : Z := 60 * Second.

(** ** Bytes *)

Definition byte_val (b : byte) : Z := Z.of_N (Byte.to_N b).
Definition byte_of (z : Z) : byte := default x00 (Byte.of_N (Z.to_N (z mod 256))).

#[global] Arguments byte_val : simpl never.
#[global] Arguments byte_of : simpl never.

Lemma byte_val_range b : (0 <= byte_val b < 256)%Z.
Proof.
  unfold byte_val. pose proof (Byte.to_N_bounded b). lia.
Qed.

Lemma byte_val_of z : byte_val (byte_of z) = (z mod 256)%Z.
Proof.
  unfold byte_val, byte_of.
  pose proof (Z.mod_pos_bound z 256 ltac:(lia)) as Hb.
  destruct (Byte.of_N (Z.to_N (z mod 256))) as [b|] eqn:E; simpl.
  - apply Byte.to_of_N in E. rewrite E. lia.
  - apply Byte.of_N_None_iff in E. lia.
Qed.

Lemma byte_of_val b : byte_of (byte_val b) = b.
Proof.
  unfold byte_of. pose proof (byte_val_range b) as Hb.
  rewrite Z.mod_small by lia. unfold byte_val.
  by rewrite N2Z.id, Byte.of_to_N.
Qed.

#[export] Instance byte_eq_dec' : EqDecision byte := Byte.byte_eq_dec.

(** ** Iteration over a Go map

    [for k, v := range m] visits the entries of [m] once each, in an order the
    language leaves open.  An operation that ranges over a map takes the order
    as an instance of this class; every theorem holds for all of them. *)

Class RangeOrder (K : Type) `{Countable K} := {
  range : forall {A : Type}, gmap K A -> list (K * A);
  range_perm : forall {A : Type} (m : gmap K A), range m ≡ₚ map_to_list m;
}.

(** One possible order, for running the definitions. *)
Definition canonical_order K `{Countable K} : RangeOrder K :=
  {| range := fun A m => map_to_list m; range_perm := fun A m => Permutation_refl _ |}.

Section Range.
Context {K : Type} `{RangeOrder K} {A : Type}.
Implicit Types (m : gmap K A).

Lemma elem_of_range m k v : (k, v) ∈ range m <-> m !! k = Some v.
Proof. rewrite (range_perm m). apply elem_of_map_to_list. Qed.

Lemma NoDup_fst_range m : NoDup (range m).*1.
Proof. rewrite (range_perm m). apply NoDup_fst_map_to_list. Qed.

Lemma NoDup_range m : NoDup (range m).
Proof. rewrite (range_perm m). apply NoDup_map_to_list. Qed.

Lemma length_range m : length (range m) = size m.
Proof. rewrite (range_perm m). by rewrite length_map_to_list. Qed.
End Range.

(** ** Lists *)

(** The first element that satisfies [p]: the shape of a [for] loop that
    returns from its body. *)
Fixpoint first_such {A} (p : A -> bool) (l : list A) : option A :=
  match l with
  | [] => None
  | x :: l => if p x then Some x else first_such p l
  end.

Lemma first_such_Some {A} (p : A -> bool) (l : list A) (x : A) :
  first_such p l = Some x -> x ∈ l /\ p x = true.
Proof.
  induction l as [|y l IH]; simpl; [done|].
  destruct (p y) eqn:E; intros Hx.
  - simplify_eq. split; [apply list_elem_of_here | done].
  - destruct (IH Hx). split; [by apply list_elem_of_further | done].
Qed.

Lemma first_such_None {A} (p : A -> bool) (l : list A) :
  first_such p l = None <-> forall x, x ∈ l -> p x = false.
Proof.
  induction l as [|y l IH]; simpl.
  - split; [intros _ x Hx; by apply elem_of_nil in Hx | done].
  - destruct (p y) eqn:E.
    + split; [done|]. intros H. rewrite (H y) in E; [done | apply list_elem_of_here].
    + rewrite IH. split.
      * intros H x Hx. apply elem_of_cons in Hx as [->|Hx]; [done | by apply H].
      * intros H x Hx. apply H. by apply list_elem_of_further.
Qed.

Lemma filter_all {A} (P : A -> Prop) `{forall x, Decision (P x)} (l : list A) :
  Forall P l -> filter P l = l.
Proof. induction 1; [done|]. rewrite filter_cons_True by done. by f_equal. Qed.

(** Sums of machine integers. *)
Definition sumZ {A} (f : A -> Z) (l : list A) : Z := foldr (fun x n => (f x + n)%Z) 0%Z l.

Lemma sumZ_app {A} (f : A -> Z) (l1 l2 : list A) : sumZ f (l1 ++ l2) = (sumZ f l1 + sumZ f l2)%Z.
Proof. unfold sumZ. induction l1 as [|x l IH]; simpl; [done|]. rewrite IH. lia. Qed.

Lemma sumZ_perm {A} (f : A -> Z) (l1 l2 : list A) : l1 ≡ₚ l2 -> sumZ f l1 = sumZ f l2.
Proof. unfold sumZ. induction 1; simpl; lia. Qed.

(** ** Reachability of a step relation by rule induction *)

Section Reachable.
Context {S : Type} (init : S -> Prop) (step : S -> S -> Prop).

Inductive reachable : S -> Prop :=
  | reach_init s : init s -> reachable s
  | reach_step s s' : reachable s -> step s s' -> reachable s'.

Lemma reachable_invariant (I : S -> Prop) :
  (forall s, init s -> I s) ->
  (forall s s', I s -> step s s' -> I s') ->
  forall s, reachable s -> I s.
Proof. intros Hi Hs s Hr. induction Hr; eauto. Qed.
End Reachable.

(** ** Automation shared by the components *)

Create HintDb htn.
Create Rewrite HintDb htn.
#[export] Hint Resolve byte_val_range uint32_range int64_range : htn.
#[export] Hint Rewrite byte_val_of byte_of_val : htn.

(** Split a conjunction goal and finish what the hint database can. *)
Ltac htn := repeat split; eauto with htn lia.

(** Case analysis on every match or conditional of hypothesis [H]. *)
Ltac cases_in H :=
  repeat match type of H with
  | context [match ?x with _ => _ end] => destruct x eqn:?; simplify_eq/=
  end.

(** Case analysis on every match or conditional of the goal. *)
Ltac cases_goal :=
  repeat match goal with
  | |- context [match ?x with _ => _ end] => destruct x eqn:?; simplify_eq/=
  end.
