(* ===== verification/Prog.v ===== *)
(** * Programs over events

    Code that runs concurrently with other goroutines is written as a program:
    a tree whose nodes are the atomic operations it performs on shared state
    (one critical section, one channel operation, one message) and whose
    branches are their results.  A program can be run on its own against a
    handler of its events, or interleaved with others one event at a time. *)

From S2P Require Import Prelude.

Section Prog.
Context {E : Type -> Type}.

(** [Crash] is a run-time panic: the process ends. *)
Inductive prog (A : Type) : Type :=
  | Ret (a : A)
  | Crash
  | Vis {R : Type} (e : E R) (k : R -> prog A).

Fixpoint prog_bind {A B} (f : A -> prog B) (p : prog A) : prog B :=
  match p with
  | Ret _ a => f a
  | Crash _ => Crash B
  | Vis _ e k => Vis B e (fun r => prog_bind f (k r))
  end.
End Prog.
Arguments prog E A : clear implicits.
Arguments Ret {E A} a.
Arguments Crash {E A}.
Arguments Vis {E A R} e k.

#[export] Instance prog_ret E : MRet (prog E) := fun A a => Ret a.
#[export] Instance prog_mbind E : MBind (prog E) := fun A B f p => prog_bind f p.

(** One event, with its result. *)
Definition trigger {E R} (e : E R) : prog E R := Vis e Ret.

(** [for _, x := range l { body }] *)
Fixpoint for_each {E A} (body : A -> prog E unit) (l : list A) : prog E unit :=
  match l with [] => Ret tt | x :: l => body x ≫= fun _ => for_each body l end.

(** ** Running a program alone *)

Section Run.
Context {E : Type -> Type} {S C : Type}.

(** The effect of an event on the state; [C] is what the environment supplies
    (a clock reading, a random draw, the outcome of I/O); [None] when the
    environment cannot supply that. *)
Variable exec : forall R, E R -> C -> S -> option (S * R).

(** A run with the environment's supplies [cs]: [None] if they do not fit, and
    [inr] of the final state if the process crashed. *)
Fixpoint run {A} (p : prog E A) (cs : list C) (s : S) : option (S * option A * list C) :=
  match p with
  | Ret a => Some (s, Some a, cs)
  | Crash => Some (s, None, cs)
  | Vis e k =>
      match cs with
      | [] => None
      | c :: cs => match exec _ e c s with
                   | Some (s, r) => run (k r) cs s
                   | None => None
                   end
      end
  end.

(** Running [p] from [s] can end in [s'] with result [a]. *)
Definition runs {A} (p : prog E A) (s s' : S) (a : A) : Prop :=
  exists cs, run p cs s = Some (s', Some a, []).

Lemma run_bind {A B} (f : A -> prog E B) (p : prog E A) cs s :
  run (p ≫= f) cs s =
    match run p cs s with
    | Some (s', Some a, cs') => run (f a) cs' s'
    | Some (s', None, cs') => Some (s', None, cs')
    | None => None
    end.
Proof.
  revert cs s. induction p as [a| |R e k IH]; intros cs s; [done..|].
  destruct cs as [|c cs]; [done|]. simpl.
  destruct (exec R e c s) as [[s' r]|]; [apply IH|done].
Qed.

Lemma runs_ret {A} (a b : A) s s' : runs (Ret a) s s' b <-> s' = s /\ b = a.
Proof.
  split.
  - intros (cs & Hr). simpl in Hr. by simplify_eq.
  - intros [-> ->]. by exists [].
Qed.

Lemma runs_vis {A R} (e : E R) (k : R -> prog E A) s s' a :
  runs (Vis e k) s s' a <-> exists c s1 r, exec R e c s = Some (s1, r) /\ runs (k r) s1 s' a.
Proof.
  split.
  - intros ([|c cs] & Hr); [done|]. simpl in Hr.
    destruct (exec R e c s) as [[s1 r]|] eqn:He; [|done]. exists c, s1, r. split; [done|]. by exists cs.
  - intros (c & s1 & r & He & cs & Hr). exists (c :: cs). simpl. by rewrite He.
Qed.

(** Supplies left over do not matter. *)
Lemma run_app {A} (p : prog E A) cs cs' s s' r rest :
  run p cs s = Some (s', r, rest) -> run p (cs ++ cs') s = Some (s', r, rest ++ cs').
Proof.
  revert cs s. induction p as [a| |R e k IH]; intros cs s; simpl; [by intros [= <- <- <-]..|].
  destruct cs as [|c cs]; [done|]. simpl.
  destruct (exec R e c s) as [[s1 x]|]; [apply IH|done].
Qed.

Lemma run_consumes {A} (p : prog E A) cs s s' r rest :
  run p cs s = Some (s', r, rest) -> exists used, cs = used ++ rest /\ run p used s = Some (s', r, []).
Proof.
  revert cs s. induction p as [a| |R e k IH]; intros cs s; simpl; [intros [= <- <- <-]; by exists []..|].
  destruct cs as [|c cs]; [done|].
  destruct (exec R e c s) as [[s1 x]|] eqn:He; [|done]. intros Hr.
  destruct (IH x cs s1 Hr) as (used & -> & Hu). exists (c :: used). split; [done|]. by rewrite He.
Qed.

Lemma runs_bind {A B} (f : A -> prog E B) (p : prog E A) s s' b :
  runs (p ≫= f) s s' b <-> exists s1 a, runs p s s1 a /\ runs (f a) s1 s' b.
Proof.
  split.
  - intros (cs & Hr). rewrite run_bind in Hr.
    destruct (run p cs s) as [[[s1 [a|]] rest]|] eqn:Hp; [|done..].
    destruct (run_consumes _ _ _ _ _ _ Hp) as (used & -> & Hu).
    exists s1, a. split; [by exists used | by exists rest].
  - intros (s1 & a & (cs1 & H1) & (cs2 & H2)). exists (cs1 ++ cs2).
    rewrite run_bind, (run_app _ _ cs2 _ _ _ _ H1). done.
Qed.

(** ** Total correctness

    [wp p Q s]: whatever the environment supplies, [p] started in [s] does not
    crash and ends with a result and a state that satisfy [Q]. *)
Fixpoint wp {A} (p : prog E A) (Q : A -> S -> Prop) (s : S) : Prop :=
  match p with
  | Ret a => Q a s
  | Crash => False
  | Vis e k => forall c s1 r, exec _ e c s = Some (s1, r) -> wp (k r) Q s1
  end.

Lemma wp_mono {A} (Q Q' : A -> S -> Prop) p s :
  (forall a s, Q a s -> Q' a s) -> wp p Q s -> wp p Q' s.
Proof.
  intros HQ. revert s. induction p as [a| |R e k IH]; intros s; simpl; [apply HQ | done |].
  intros Hp c s1 r He. by apply IH, (Hp c).
Qed.

Lemma wp_bind {A B} (Q : B -> S -> Prop) (f : A -> prog E B) p s :
  wp p (fun a => wp (f a) Q) s -> wp (p ≫= f) Q s.
Proof.
  revert s. induction p as [a| |R e k IH]; intros s; [done..|].
  intros Hp c s1 r He. by apply IH, (Hp c).
Qed.

(** The rule to use a specification of the first part of a program. *)
Lemma wp_seq {A B} (Q : B -> S -> Prop) (M : A -> S -> Prop) (f : A -> prog E B) p s :
  wp p M s -> (forall a s, M a s -> wp (f a) Q s) -> wp (p ≫= f) Q s.
Proof. intros Hp Hf. apply wp_bind. by apply (wp_mono M). Qed.

Lemma wp_trigger {A R} (Q : A -> S -> Prop) (e : E R) (f : R -> prog E A) s :
  (forall c s1 r, exec _ e c s = Some (s1, r) -> wp (f r) Q s1) -> wp (trigger e ≫= f) Q s.
Proof. done. Qed.

Lemma wp_run {A} (Q : A -> S -> Prop) p cs s s' r rest :
  wp p Q s -> run p cs s = Some (s', r, rest) -> exists a, r = Some a /\ Q a s'.
Proof.
  revert cs s. induction p as [a| |R e k IH]; intros cs s; simpl; [|done|].
  - intros HQ [= <- <- <-]. by exists a.
  - intros Hp. destruct cs as [|c cs]; [done|].
    destruct (exec R e c s) as [[s1 x]|] eqn:He; [|done]. by apply IH, (Hp c).
Qed.

(** A loop that keeps [I] of the state and the elements left. *)
Lemma wp_for_each {A} (I : list A -> S -> Prop) (body : A -> prog E unit) l s :
  (forall x l s, I (x :: l) s -> wp (body x) (fun _ => I l) s) ->
  I l s -> wp (for_each body l) (fun _ => I []) s.
Proof.
  intros Hb. revert s. induction l as [|x l IH]; intros s Hl; [done|].
  eapply wp_seq; [by apply Hb | intros ?; apply IH].
Qed.
End Run.
