(* ===== verification/Wire.v ===== *)
(** * The control-plane wire protocol (internal/protocol)

    [message.go]'s types and constants and [codec.go]'s [Encoder] and [Decoder]:
    frames of a 4-byte big-endian length, a version byte, a type byte and a JSON
    payload.  The writer and the JSON codec are parameters; the reader is the
    stream of bytes still to arrive. *)

From S2P Require Import Prelude.
Local Open Scope Z_scope.

(** ** message.go: constants *)

Definition MsgType : Type := Z.

Definition ProtocolVersion : byte := x01.
Definition MaxMessageSize : Z := Z.shiftl 1 20.

Definition MsgAuth : MsgType := 1.
Definition MsgAuthResponse : MsgType := 2.
Definition MsgTunnelReq : MsgType := 3.
Definition MsgTunnelResp : MsgType := 4.
Definition MsgHeartbeat : MsgType := 5.
Definition MsgHeartbeatAck : MsgType := 6.
Definition MsgRegister : MsgType := 10.
Definition MsgRegisterResp : MsgType := 11.
Definition MsgAccountInfo : MsgType := 14.
Definition MsgAccountInfoResp : MsgType := 15.
Definition MsgRequestLog : MsgType := 16.

(** A [MsgType] is a [uint8]. *)
Definition is_uint8 (z : Z) : Prop := 0 <= z < 256.

(** ** message.go: the messages *)

Record AuthMsg := { am_Token : string }.
Record AuthResponseMsg := { ar_Success : bool; ar_Message : string }.

Definition TunnelType : Type := string.
Definition TunnelHTTP : TunnelType := "http"%string.
Definition TunnelTCP : TunnelType := "tcp"%string.

Record TunnelRequestMsg := {
  tq_Type : TunnelType;
  tq_Subdomain : string;
  tq_LocalPort : Z;
}.

Record TunnelResponseMsg := {
  tr_Success : bool;
  tr_URL : string;
  tr_RemotePort : Z;
  tr_Message : string;
}.

Record RegisterMsg := { rg_Name : string; rg_Subdomain : string }.

Record RegisterResponseMsg := {
  rr_Success : bool;
  rr_Key : string;
  rr_Subdomains : list string;
  rr_Message : string;
}.

Record AccountInfoRespMsg := {
  ai_Name : string;
  ai_Subdomains : list string;
  ai_MaxTunnels : Z;
  ai_Domain : string;
}.

Record RequestLogMsg := {
  rl_Method : string;
  rl_Path : string;
  rl_Status : Z;
  rl_Duration : Z;
  rl_Size : Z;
}.

(** ** encoding/binary: big-endian 32-bit words *)

Definition PutUint32 (v : Z) : list byte :=
  [byte_of (Z.shiftr v 24); byte_of (Z.shiftr v 16); byte_of (Z.shiftr v 8); byte_of v].

Definition Uint32 (b0 b1 b2 b3 : byte) : Z :=
  Z.lor (byte_val b3)
    (Z.lor (Z.shiftl (byte_val b2) 8)
      (Z.lor (Z.shiftl (byte_val b1) 16) (Z.shiftl (byte_val b0) 24))).

#[global] Arguments Uint32 : simpl never.

(** ** Encoder *)

(** An [io.Writer]: the writer after the call and the error, if any. *)
Class Writer (W : Type) := Write : W -> list byte -> W * option string.

Section Encoder.
Context {W : Type} `{Writer W}.
Context {P : Type} (json_Marshal : P -> result string (list byte)).

Inductive encode_error :=
  | ErrMarshal (e : string)
  | ErrWriteHeader (e : string)
  | ErrWritePayload (e : string).

(** The six bytes in front of a payload of [n] bytes. *)
Definition frame_header (msgType : MsgType) (n : Z) : list byte :=
  let frameLen := uint32 (2 + n) in
  PutUint32 frameLen ++ [ProtocolVersion; byte_of msgType].

(** [Encoder.Encode]: a nil payload is [None]. *)
Definition Encode (w : W) (msgType : MsgType) (payload : option P) : W * option encode_error :=
  let marshalled := match payload with
                    | None => Ok []
                    | Some p => json_Marshal p
                    end in
  match marshalled with
  | Err e => (w, Some (ErrMarshal e))
  | Ok payloadBytes =>
      let header := frame_header msgType (Z.of_nat (length payloadBytes)) in
      let '(w, err) := Write w header in
      match err with
      | Some e => (w, Some (ErrWriteHeader e))
      | None =>
          if bool_decide (0 < length payloadBytes)%nat then
            let '(w, err) := Write w payloadBytes in
            (w, ErrWritePayload <$> err)
          else (w, None)
      end
  end.
End Encoder.

(** A [bytes.Buffer]: writing appends and never fails. *)
Definition buffer_Write (w b : list byte) : list byte * option string := (w ++ b, None).
#[export] Instance buffer_writer : Writer (list byte) := buffer_Write.

(** ** Decoder *)

Inductive read_error := EOF | ErrUnexpectedEOF.

Inductive decode_error :=
  | ErrReadLength (e : read_error)
  | ErrFrameTooShort (n : Z)
  | ErrTooLarge (n : Z)
  | ErrReadMeta (e : read_error)
  | ErrVersion (v : byte)
  | ErrReadPayload (e : read_error).

(** [io.ReadFull] of [n] bytes from a reader that has [r] left before the end
    of the stream; the bytes it did read are consumed. *)
Definition ReadFull (r : list byte) (n : nat) : result read_error (list byte) * list byte :=
  if bool_decide (n <= length r)%nat then (Ok (take n r), drop n r)
  else match r with
       | [] => (Err EOF, [])
       | _ => (Err ErrUnexpectedEOF, [])
       end.

#[global] Arguments ReadFull : simpl never.

(** [Decoder.Decode]: the message or the error, and the rest of the stream. *)
Definition Decode (r : list byte) : result decode_error (MsgType * list byte) * list byte :=
  match ReadFull r 4 with
  | (Ok [b0; b1; b2; b3], r) =>
      let frameLen := Uint32 b0 b1 b2 b3 in
      if bool_decide (frameLen < 2) then (Err (ErrFrameTooShort frameLen), r)
      else
        let payloadLen := int64 (int64 frameLen - 2) in
        if bool_decide (payloadLen > MaxMessageSize) then (Err (ErrTooLarge payloadLen), r)
        else match ReadFull r 2 with
             | (Ok [version; msgType], r) =>
                 if bool_decide (version <> ProtocolVersion) then (Err (ErrVersion version), r)
                 else if bool_decide (payloadLen > 0) then
                   match ReadFull r (Z.to_nat payloadLen) with
                   | (Ok payload, r) => (Ok (byte_val msgType, payload), r)
                   | (Err e, r) => (Err (ErrReadPayload e), r)
                   end
                 else (Ok (byte_val msgType, []), r)
             | (Ok _, r) => (Err (ErrReadMeta ErrUnexpectedEOF), r)
             | (Err e, r) => (Err (ErrReadMeta e), r)
             end
  | (Ok _, r) => (Err (ErrReadLength ErrUnexpectedEOF), r)
  | (Err e, r) => (Err (ErrReadLength e), r)
  end.

(** [DecodeInto]: the type of the message, and the value [v] after
    [json.Unmarshal] stored the payload into it. *)
Section DecodeInto.
Context {V : Type} (json_Unmarshal : list byte -> V -> result string V).

Inductive decode_into_error :=
  | ErrDecode (e : decode_error)
  | ErrUnmarshal (t : MsgType) (e : string).

Definition DecodeInto (r : list byte) (v : V) : result decode_into_error (MsgType * V) * list byte :=
  match Decode r with
  | (Err e, r) => (Err (ErrDecode e), r)
  | (Ok (msgType, raw), r) =>
      if bool_decide (0 < length raw)%nat then
        match json_Unmarshal raw v with
        | Err e => (Err (ErrUnmarshal msgType e), r)
        | Ok v => (Ok (msgType, v), r)
        end
      else (Ok (msgType, v), r)
  end.
End DecodeInto.

(** A loop that decodes [fuel] messages, as the control loops of the server
    and of the client do; it stops at the first error. *)
Fixpoint decode_loop (fuel : nat) (r : list byte)
    : list (MsgType * list byte) * option decode_error * list byte :=
  match fuel with
  | O => ([], None, r)
  | S fuel =>
      match Decode r with
      | (Ok m, r) => let '(ms, e, r) := decode_loop fuel r in (m :: ms, e, r)
      | (Err e, r) => ([], Some e, r)
      end
  end.

(** ** Lemmas on words, reads and headers *)

Lemma lor_shiftl_add (a b n : Z) :
  0 <= n -> 0 <= a < 2 ^ n -> Z.lor a (Z.shiftl b n) = a + b * 2 ^ n.
Proof.
  intros Hn Ha. rewrite <- Z.shiftl_mul_pow2 by done.
  symmetry. apply Z.add_nocarry_lor.
  apply Z.bits_inj'. intros i Hi.
  rewrite Z.land_spec, Z.bits_0.
  destruct (decide (i < n)) as [Hlt|Hge].
  - rewrite Z.shiftl_spec_low by done. by rewrite andb_false_r.
  - destruct (decide (a = 0)) as [->|]; [by rewrite Z.bits_0|].
    rewrite (Z.bits_above_log2 a i); [done | lia |].
    apply Z.log2_lt_pow2; [lia|].
    eapply Z.lt_le_trans; [apply Ha | apply Z.pow_le_mono_r; lia].
Qed.

Lemma Uint32_arith b0 b1 b2 b3 :
  Uint32 b0 b1 b2 b3 =
  byte_val b3 + byte_val b2 * 2 ^ 8 + byte_val b1 * 2 ^ 16 + byte_val b0 * 2 ^ 24.
Proof.
  unfold Uint32.
  pose proof (byte_val_range b0). pose proof (byte_val_range b1).
  pose proof (byte_val_range b2). pose proof (byte_val_range b3).
  replace (Z.lor (Z.shiftl (byte_val b1) 16) (Z.shiftl (byte_val b0) 24))
    with (Z.shiftl (byte_val b1 + byte_val b0 * 2 ^ 8) 16).
  2: { rewrite <- (lor_shiftl_add (byte_val b1) (byte_val b0) 8) by lia.
       rewrite Z.shiftl_lor, Z.shiftl_shiftl by lia. done. }
  replace (Z.lor (Z.shiftl (byte_val b2) 8)
             (Z.shiftl (byte_val b1 + byte_val b0 * 2 ^ 8) 16))
    with (Z.shiftl (byte_val b2 + (byte_val b1 + byte_val b0 * 2 ^ 8) * 2 ^ 8) 8).
  2: { rewrite <- (lor_shiftl_add (byte_val b2) _ 8) by lia.
       rewrite Z.shiftl_lor, Z.shiftl_shiftl by lia. done. }
  rewrite lor_shiftl_add by lia. lia.
Qed.

Lemma Uint32_range b0 b1 b2 b3 : 0 <= Uint32 b0 b1 b2 b3 < 2 ^ 32.
Proof.
  rewrite Uint32_arith.
  pose proof (byte_val_range b0). pose proof (byte_val_range b1).
  pose proof (byte_val_range b2). pose proof (byte_val_range b3). lia.
Qed.
#[export] Hint Resolve Uint32_range : htn.

(** Big-endian words round trip, both ways. *)
Lemma Uint32_PutUint32 (v : Z) :
  0 <= v < 2 ^ 32 ->
  Uint32 (byte_of (Z.shiftr v 24)) (byte_of (Z.shiftr v 16))
         (byte_of (Z.shiftr v 8)) (byte_of v) = v.
Proof.
  intros Hv. rewrite Uint32_arith, !byte_val_of, !Z.shiftr_div_pow2 by lia.
  change (2 ^ 24) with (2 ^ 16 * 2 ^ 8). change (2 ^ 16) with (2 ^ 8 * 2 ^ 8).
  rewrite <- !Z.div_div by lia.
  set (q := v / 2 ^ 8). set (q2 := q / 2 ^ 8). set (q3 := q2 / 2 ^ 8).
  change (2 ^ 8) with 256 in *.
  pose proof (Z.div_mod v 256 ltac:(lia)). pose proof (Z.div_mod q 256 ltac:(lia)).
  pose proof (Z.div_mod q2 256 ltac:(lia)).
  fold q in H. fold q2 in H0. fold q3 in H1.
  assert (0 <= q3 < 256).
  { subst q3 q2 q. rewrite !Z.div_div by lia. split.
    - apply Z.div_pos; lia.
    - apply Z.div_lt_upper_bound; lia. }
  rewrite (Z.mod_small q3) by lia. lia.
Qed.

Lemma PutUint32_Uint32 b0 b1 b2 b3 : PutUint32 (Uint32 b0 b1 b2 b3) = [b0; b1; b2; b3].
Proof.
  pose proof (byte_val_range b0) as H0. pose proof (byte_val_range b1) as H1.
  pose proof (byte_val_range b2) as H2. pose proof (byte_val_range b3) as H3.
  unfold PutUint32. rewrite Uint32_arith.
  assert (forall z b, z mod 256 = byte_val b -> byte_of z = b) as Hof.
  { intros z b Hz. rewrite <- (byte_of_val b).
    unfold byte_of. rewrite Hz.
    by rewrite (Z.mod_small (byte_val b)) by apply byte_val_range. }
  rewrite !Z.shiftr_div_pow2 by lia.
  f_equal; [|f_equal; [|f_equal; [|f_equal]]]; apply Hof.
  - symmetry. apply Z.mod_unique with 0; [lia|].
    symmetry. apply Z.div_unique with (byte_val b3 + byte_val b2 * 2 ^ 8 + byte_val b1 * 2 ^ 16); lia.
  - symmetry. apply Z.mod_unique with (byte_val b0); [lia|].
    symmetry. apply Z.div_unique with (byte_val b3 + byte_val b2 * 2 ^ 8); lia.
  - symmetry. apply Z.mod_unique with (byte_val b1 + byte_val b0 * 2 ^ 8); [lia|].
    symmetry. apply Z.div_unique with (byte_val b3); lia.
  - symmetry. apply Z.mod_unique with (byte_val b2 + byte_val b1 * 2 ^ 8 + byte_val b0 * 2 ^ 16); lia.
Qed.

Lemma ReadFull_app (a r : list byte) (n : nat) :
  n = length a -> ReadFull (a ++ r) n = (Ok a, r).
Proof.
  intros ->. unfold ReadFull. rewrite bool_decide_true by (rewrite length_app; lia).
  by rewrite take_app_length, drop_app_length.
Qed.

Lemma ReadFull_Ok (r : list byte) (n : nat) a r' :
  ReadFull r n = (Ok a, r') -> r = a ++ r' /\ length a = n.
Proof.
  unfold ReadFull. case_bool_decide as Hn; [|by destruct r]. intros ?; simplify_eq.
  rewrite take_drop, length_take. split; [done | lia].
Qed.

(** A read past the end of the stream fails and leaves nothing. *)
Lemma ReadFull_short (r : list byte) (n : nat) :
  (length r < n)%nat -> exists e, ReadFull r n = (Err e, []).
Proof. intros H. unfold ReadFull. rewrite bool_decide_false by lia. destruct r; eauto. Qed.

(** ** Frames *)

(** The bytes of one message. *)
Definition frame (t : MsgType) (p : list byte) : list byte :=
  frame_header t (Z.of_nat (length p)) ++ p.

#[global] Arguments PutUint32 : simpl never.
#[global] Arguments frame_header : simpl never.
#[global] Arguments frame : simpl never.

(** A message the protocol carries: a one-byte type and a payload in bounds. *)
Definition sendable (m : MsgType * list byte) : Prop :=
  is_uint8 m.1 /\ Z.of_nat (length m.2) <= MaxMessageSize.

Lemma MaxMessageSize_eq : MaxMessageSize = 1048576.
Proof. reflexivity. Qed.
#[export] Hint Rewrite MaxMessageSize_eq : htn.

Lemma payloadLen_eq n : 0 <= n < 2 ^ 32 -> int64 (int64 n - 2) = n - 2.
Proof. intros H. rewrite (int64_id n), int64_id; unfold in_int64; lia. Qed.

Lemma byte_val_type t : is_uint8 t -> byte_val (byte_of t) = t.
Proof. unfold is_uint8. intros. rewrite byte_val_of, Z.mod_small; lia. Qed.

(** [Decode] past its two header reads. *)
Lemma Decode_length (b0 b1 b2 b3 : byte) (r : list byte) :
  Decode (b0 :: b1 :: b2 :: b3 :: r) =
    let frameLen := Uint32 b0 b1 b2 b3 in
    if bool_decide (frameLen < 2) then (Err (ErrFrameTooShort frameLen), r)
    else
      let payloadLen := frameLen - 2 in
      if bool_decide (payloadLen > MaxMessageSize) then (Err (ErrTooLarge payloadLen), r)
      else match ReadFull r 2 with
           | (Ok [version; msgType], r) =>
               if bool_decide (version <> ProtocolVersion) then (Err (ErrVersion version), r)
               else if bool_decide (payloadLen > 0) then
                 match ReadFull r (Z.to_nat payloadLen) with
                 | (Ok payload, r) => (Ok (byte_val msgType, payload), r)
                 | (Err e, r) => (Err (ErrReadPayload e), r)
                 end
               else (Ok (byte_val msgType, []), r)
           | (Ok _, r) => (Err (ErrReadMeta ErrUnexpectedEOF), r)
           | (Err e, r) => (Err (ErrReadMeta e), r)
           end.
Proof.
  unfold Decode. change (b0 :: b1 :: b2 :: b3 :: r) with ([b0; b1; b2; b3] ++ r).
  rewrite (ReadFull_app [b0; b1; b2; b3]) by done. cbv beta iota zeta.
  by rewrite payloadLen_eq by apply Uint32_range.
Qed.

Lemma Decode_word (n : Z) (r : list byte) :
  2 <= n < 2 ^ 32 ->
  Decode (PutUint32 n ++ r) =
    if bool_decide (n - 2 > MaxMessageSize) then (Err (ErrTooLarge (n - 2)), r)
    else match ReadFull r 2 with
         | (Ok [version; msgType], r) =>
             if bool_decide (version <> ProtocolVersion) then (Err (ErrVersion version), r)
             else if bool_decide (n - 2 > 0) then
               match ReadFull r (Z.to_nat (n - 2)) with
               | (Ok payload, r) => (Ok (byte_val msgType, payload), r)
               | (Err e, r) => (Err (ErrReadPayload e), r)
               end
             else (Ok (byte_val msgType, []), r)
         | (Ok _, r) => (Err (ErrReadMeta ErrUnexpectedEOF), r)
         | (Err e, r) => (Err (ErrReadMeta e), r)
         end.
Proof.
  intros Hn. unfold PutUint32. cbn [app]. rewrite Decode_length.
  rewrite Uint32_PutUint32 by lia. cbv zeta. by rewrite bool_decide_false by lia.
Qed.

(** What [Decode] does on a complete header with a length in bounds. *)
Lemma Decode_header (n t : Z) (r : list byte) :
  0 <= n <= MaxMessageSize -> is_uint8 t ->
  Decode (frame_header t n ++ r) =
    if bool_decide (n > 0) then
      match ReadFull r (Z.to_nat n) with
      | (Ok payload, r) => (Ok (t, payload), r)
      | (Err e, r) => (Err (ErrReadPayload e), r)
      end
    else (Ok (t, []), r).
Proof.
  rewrite MaxMessageSize_eq. intros Hn Ht. unfold frame_header. cbv zeta.
  rewrite uint32_id by lia. rewrite <- app_assoc, Decode_word by lia.
  replace (2 + n - 2) with n by lia.
  rewrite bool_decide_false by (rewrite MaxMessageSize_eq; lia).
  rewrite (ReadFull_app [ProtocolVersion; byte_of t]) by done.
  cbv beta iota. by rewrite bool_decide_false, byte_val_type by (done || tauto).
Qed.

Lemma Decode_frame (m : MsgType * list byte) (r : list byte) :
  sendable m -> Decode (frame m.1 m.2 ++ r) = (Ok m, r).
Proof.
  intros [Ht Hp]. destruct m as [t p]; cbn [fst snd] in *. unfold frame.
  rewrite <- app_assoc, Decode_header by (try done; lia).
  case_bool_decide as Hn.
  - by rewrite ReadFull_app by lia.
  - destruct p; [done | simpl in Hn; lia].
Qed.

Lemma Encode_buffer {P} (marshal : P -> result string (list byte)) w t p pb :
  marshal p = Ok pb ->
  Encode marshal w t (Some p) = (w ++ frame t pb, None).
Proof.
  intros Hp. unfold Encode. rewrite Hp. simpl.
  case_bool_decide as Hl; unfold frame.
  - by rewrite app_assoc.
  - destruct pb; [by rewrite app_nil_r | simpl in Hl; lia].
Qed.

(** [Decode] accepts nothing but frames. *)
Lemma Decode_Ok_inv (r r' : list byte) (m : MsgType * list byte) :
  Decode r = (Ok m, r') -> r = frame m.1 m.2 ++ r' /\ sendable m.
Proof.
  destruct (decide (length r < 4)%nat) as [Hl|Hl].
  { unfold Decode. by destruct (ReadFull_short r 4 Hl) as [e ->]. }
  destruct r as [|b0 [|b1 [|b2 [|b3 r4]]]]; try (simpl in Hl; lia).
  rewrite Decode_length. cbv zeta.
  pose proof (Uint32_range b0 b1 b2 b3) as Hr.
  set (n := Uint32 b0 b1 b2 b3) in *.
  case_bool_decide as Hs; [done|].
  case_bool_decide as Hm; [done|].
  destruct (ReadFull r4 2) as [[l2|] r2] eqn:E2; [|done].
  apply ReadFull_Ok in E2 as [-> H2].
  destruct l2 as [|v [|t [|]]]; try done.
  case_bool_decide as Hv; [done|].
  assert (v = ProtocolVersion) as -> by (destruct (decide (v = ProtocolVersion)); tauto).
  assert (forall p, Z.of_nat (length p) = n - 2 ->
    [b0; b1; b2; b3] ++ [ProtocolVersion; t] ++ p = frame (byte_val t) p /\
    sendable (byte_val t, p)) as Hfr.
  { intros p Hp. split; [|split; simpl; [apply byte_val_range | lia]].
    unfold frame, frame_header. rewrite Hp, uint32_id by lia.
    replace (2 + (n - 2)) with n by lia.
    subst n. by rewrite PutUint32_Uint32, byte_of_val. }
  case_bool_decide as Hp.
  - destruct (ReadFull r2 _) as [[p|] r3] eqn:E3; [|done].
    apply ReadFull_Ok in E3 as [-> H3]. intros ?; simplify_eq.
    destruct (Hfr p) as [Hf ?]; [lia|]. split; [cbn [fst snd]; by rewrite <- Hf | done].
  - intros ?; simplify_eq. destruct (Hfr []) as [Hf ?]; [simpl; lia|].
    split; [cbn [fst snd]; by rewrite <- Hf | done].
Qed.

Lemma length_frame t p : length (frame t p) = (6 + length p)%nat.
Proof. unfold frame. by rewrite length_app. Qed.
#[export] Hint Rewrite length_frame : htn.

(** ** Properties *)

(** C23: a sequence of messages written by [Encode] to one buffer is what a
    decoding loop reads back, in order, whatever follows on the stream: the
    framing is self-delimiting and loses nothing. *)
Theorem encode_decode_sequence (w r : list byte) (ms : list (MsgType * list byte)) :
  Forall sendable ms ->
  let out := foldl (fun w m => (Encode (fun p => Ok p) w m.1 (Some m.2)).1) w ms in
  exists sent, out = w ++ sent /\
    decode_loop (length ms) (sent ++ r) = (ms, None, r).
Proof.
  intros Hms. revert w. induction Hms as [|m ms Hm Hms IH]; intros w; cbn [foldl length].
  - exists []. by rewrite app_nil_r.
  - rewrite (Encode_buffer _ w m.1 m.2 m.2) by done. cbn [fst].
    destruct (IH (w ++ frame m.1 m.2)) as (sent & -> & Hd).
    exists (frame m.1 m.2 ++ sent). split; [by rewrite app_assoc|].
    cbn [decode_loop]. rewrite <- app_assoc, Decode_frame by done. by rewrite Hd.
Qed.

Lemma encode_decode_sequence_witness :
  exists sent,
    foldl (fun w m => (Encode (fun p => Ok p) w m.1 (Some m.2)).1) [x41]
      [(MsgHeartbeat, []); (MsgAuth, [x7b; x7d])] = [x41] ++ sent /\
    decode_loop 2 (sent ++ [xff]) = ([(MsgHeartbeat, []); (MsgAuth, [x7b; x7d])], None, [xff]).
Proof.
  apply (encode_decode_sequence [x41] [xff] [(MsgHeartbeat, []); (MsgAuth, [x7b; x7d])]).
  repeat constructor; vm_compute; discriminate.
Defined.

(** C24: [Decode] succeeds on exactly the streams that start with a frame of
    this protocol version whose payload is at most [MaxMessageSize] bytes, and
    consumes exactly that frame. *)
Theorem decode_accepts_exactly_frames (r r' : list byte) (m : MsgType * list byte) :
  Decode r = (Ok m, r') <-> r = frame m.1 m.2 ++ r' /\ sendable m.
Proof.
  split; [apply Decode_Ok_inv|]. intros [-> Hm]. by apply Decode_frame.
Qed.

(** A length prefix above the 1 MB cap is rejected from the four length
    bytes alone: neither the version nor any byte of the payload is read, and
    nothing of that size is allocated. *)
Theorem decode_rejects_oversized (n : Z) (r : list byte) :
  MaxMessageSize + 2 < n < 2 ^ 32 ->
  Decode (PutUint32 n ++ r) = (Err (ErrTooLarge (n - 2)), r).
Proof.
  intros Hn. pose proof MaxMessageSize_eq. rewrite Decode_word by lia.
  by rewrite bool_decide_true by lia.
Qed.

Lemma decode_rejects_oversized_witness :
  Decode (PutUint32 4294967295 ++ [x01; x05]) = (Err (ErrTooLarge 4294967293), [x01; x05]).
Proof. apply (decode_rejects_oversized 4294967295 [x01; x05]). vm_compute. split; reflexivity. Defined.

(** A stream cut anywhere inside a frame never yields a message: every
    strict prefix of a frame decodes to a read error at end of stream. *)
Theorem decode_truncated_fails (m : MsgType * list byte) (n : nat) :
  sendable m -> (n < length (frame m.1 m.2))%nat ->
  exists e, Decode (take n (frame m.1 m.2)) = (Err e, []).
Proof.
  intros [Ht Hp] Hn. rewrite length_frame in Hn. destruct m as [t p]; cbn [fst snd] in *.
  destruct (decide (n < 6)%nat) as [H6|H6].
  - unfold frame, frame_header. cbv zeta. rewrite MaxMessageSize_eq in Hp.
    rewrite uint32_id by lia. rewrite take_app_le by (simpl; lia).
    destruct (decide (n < 4)%nat) as [H4|H4].
    + unfold Decode. edestruct ReadFull_short as [e ->]; [|eauto].
      rewrite length_take. simpl. lia.
    + rewrite take_app_ge by (simpl; lia). rewrite Decode_word by lia.
      rewrite bool_decide_false by (rewrite MaxMessageSize_eq; lia).
      edestruct ReadFull_short as [e ->]; [|eauto]. rewrite length_take. simpl. lia.
  - unfold frame. rewrite take_app_ge by (simpl; lia).
    rewrite Decode_header by (try done; lia). simpl length.
    rewrite bool_decide_true by lia.
    destruct (ReadFull_short (take (n - 6) p) (Z.to_nat (Z.of_nat (length p)))) as [e ->].
    + rewrite length_take. lia.
    + eauto.
Qed.

Lemma decode_truncated_fails_witness :
  exists e, Decode (take 7 (frame MsgAuth [x7b; x7d])) = (Err e, []).
Proof.
  apply (decode_truncated_fails (MsgAuth, [x7b; x7d]) 7).
  - split; vm_compute; intuition discriminate.
  - vm_compute. lia.
Defined.

(** A decoding loop terminates on every finite stream: once its fuel
    exceeds the length of the stream it ends with an error (end of stream or a
    malformed frame), because each message consumes at least six bytes. *)
Theorem decode_loop_terminates (fuel : nat) (r : list byte) :
  (length r < fuel)%nat ->
  exists ms e r', decode_loop fuel r = (ms, Some e, r') /\
    Forall sendable ms /\ (6 * length ms <= length r)%nat.
Proof.
  revert r. induction fuel as [|fuel IH]; intros r Hf; [lia|]. cbn [decode_loop].
  destruct (Decode r) as [[m|e] r1] eqn:E.
  - apply Decode_Ok_inv in E as [-> Hm].
    rewrite length_app, length_frame in *.
    destruct (IH r1) as (ms & e & r' & -> & Hms & Hlen); [lia|].
    exists (m :: ms), e, r'. simpl. split_and!; [done | by constructor | lia].
  - exists [], e, r1. split_and!; [done | constructor | simpl; lia].
Qed.

Lemma decode_loop_terminates_witness :
  exists ms e r', decode_loop 20 (frame MsgHeartbeat [] ++ [x00]) = (ms, Some e, r') /\
    Forall sendable ms /\ (6 * length ms <= 7)%nat.
Proof. apply (decode_loop_terminates 20 (frame MsgHeartbeat [] ++ [x00])). vm_compute. lia. Defined.
