(* ===== verification/GoStrings.v ===== *)
(** * Go strings

    The functions of the [strings], [strconv] and [encoding/hex] packages that
    the program uses, on byte strings.  [ToLower], [TrimSpace] and [EqualFold]
    fold and trim ASCII only: bytes of multi-byte characters are left alone. *)

From S2P Require Import Prelude.
Local Open Scope Z_scope.

(** [len(s)] *)
Definition len (s : string) : Z := Z.of_nat (String.length s).

(** [s[i:j]] for [0 <= i <= j <= len(s)] *)
Definition slice (s : string) (i j : nat) : string := String.substring i (j - i) s.
(** [s[i:]] *)
Definition slice_from (s : string) (i : nat) : string := slice s i (String.length s).
(** [s[:j]] *)
Definition slice_to (s : string) (j : nat) : string := slice s 0 j.

(** [strings.HasPrefix(s, p)] *)
Definition HasPrefix (s p : string) : bool := String.prefix p s.

(** [strings.TrimPrefix(s, p)] *)
Definition TrimPrefix (s p : string) : string :=
  if HasPrefix s p then slice_from s (String.length p) else s.

(** [strings.HasSuffix(s, p)] *)
Definition HasSuffix (s p : string) : bool :=
  let n := String.length s in let k := String.length p in
  (k <=? n)%nat && String.eqb (slice_from s (n - k)) p.

(** [strings.TrimSuffix(s, p)] *)
Definition TrimSuffix (s p : string) : string :=
  if HasSuffix s p then slice_to s (String.length s - String.length p) else s.

(** [strings.IndexByte(s, c)], [None] for -1 *)
Fixpoint IndexByte (s : string) (c : ascii) : option nat :=
  match s with
  | EmptyString => None
  | String a s => if Ascii.eqb a c then Some O else S <$> IndexByte s c
  end.

(** [strings.LastIndexByte(s, c)], [None] for -1 *)
Fixpoint LastIndexByte (s : string) (c : ascii) : option nat :=
  match s with
  | EmptyString => None
  | String a s => match LastIndexByte s c with
                  | Some i => Some (S i)
                  | None => if Ascii.eqb a c then Some O else None
                  end
  end.

(** [strings.SplitN(s, c, 2)] for a one-byte separator *)
Definition SplitN2 (s : string) (c : ascii) : list string :=
  match IndexByte s c with
  | None => [s]
  | Some i => [slice_to s i; slice_from s (S i)]
  end.

(** [strings.Split(s, c)] for a one-byte separator *)
Fixpoint Split_go (acc : string) (s : string) (c : ascii) : list string :=
  match s with
  | EmptyString => [acc]
  | String a s => if Ascii.eqb a c then acc :: Split_go EmptyString s c
                  else Split_go (acc +:+ String a EmptyString) s c
  end.
Definition Split (s : string) (c : ascii) : list string := Split_go EmptyString s c.

(** [strings.Contains(s, p)] *)
Fixpoint Contains (s p : string) : bool :=
  HasPrefix s p || match s with EmptyString => false | String _ s => Contains s p end.

(** [strings.ReplaceAll], for a text [from] that is not empty; [skip] bytes of
    the occurrence just replaced are left. *)
Fixpoint replace_go (from to : string) (skip : nat) (s : string) : string :=
  match s with
  | EmptyString => EmptyString
  | String c s' =>
      match skip with
      | S skip => replace_go from to skip s'
      | O => if HasPrefix s from then to +:+ replace_go from to (pred (String.length from)) s'
             else String c (replace_go from to 0 s')
      end
  end.
Definition ReplaceAll (s from to : string) : string := replace_go from to 0 s.

Definition in_range (lo hi : ascii) (c : ascii) : bool :=
  (N_of_ascii lo <=? N_of_ascii c)%N && (N_of_ascii c <=? N_of_ascii hi)%N.

Definition lower_ascii (c : ascii) : ascii :=
  if in_range "A" "Z" c then ascii_of_N (N_of_ascii c + 32) else c.

Fixpoint string_map (f : ascii -> ascii) (s : string) : string :=
  match s with EmptyString => EmptyString | String a s => String (f a) (string_map f s) end.

(** [strings.ToLower] *)
Definition ToLower (s : string) : string := string_map lower_ascii s.
(** [strings.EqualFold] *)
Definition EqualFold (s t : string) : bool := String.eqb (ToLower s) (ToLower t).

Definition is_space (c : ascii) : bool :=
  let n := N_of_ascii c in (n =? 32)%N || ((9 <=? n)%N && (n <=? 13)%N).

Fixpoint trim_left (s : string) : string :=
  match s with
  | String a s' => if is_space a then trim_left s' else s
  | EmptyString => EmptyString
  end.
Fixpoint trim_right (s : string) : string :=
  match s with
  | EmptyString => EmptyString
  | String a s => match trim_right s with
                  | EmptyString => if is_space a then EmptyString else String a EmptyString
                  | s' => String a s'
                  end
  end.
(** [strings.TrimSpace] *)
Definition TrimSpace (s : string) : string := trim_right (trim_left s).

(** [strconv.Atoi]: an optional sign and decimal digits, within an int64. *)
Definition digit_val (c : ascii) : option Z :=
  if in_range "0" "9" c then Some (Z.of_N (N_of_ascii c) - 48) else None.

Fixpoint Atoi_digits (acc : Z) (s : string) : option Z :=
  match s with
  | EmptyString => Some acc
  | String c s => d ← digit_val c; Atoi_digits (10 * acc + d) s
  end.

Definition Atoi_magnitude (s : string) : option Z :=
  match s with EmptyString => None | _ => Atoi_digits 0 s end.

Definition Atoi (s : string) : option Z :=
  n ← match s with
      | String "-" s => Z.opp <$> Atoi_magnitude s
      | String "+" s => Atoi_magnitude s
      | _ => Atoi_magnitude s
      end;
  if (- 2 ^ 63 <=? n) && (n <? 2 ^ 63) then Some n else None.

(** [fmt.Sprintf("%d", n)] *)
Definition digit_char (d : Z) : ascii := ascii_of_N (Z.to_N (48 + d)).
Fixpoint Itoa_digits (fuel : nat) (n : Z) (acc : string) : string :=
  match fuel with
  | O => acc
  | S fuel =>
      let acc := String (digit_char (n mod 10)) acc in
      if n <? 10 then acc else Itoa_digits fuel (n / 10) acc
  end.
Definition Itoa (n : Z) : string :=
  let digits n := Itoa_digits (S (Z.to_nat (Z.log2 n))) n EmptyString in
  if n <? 0 then String "-" (digits (- n)) else digits n.

(** [hex.EncodeToString] and [fmt.Sprintf("%x", b)] *)
Definition hex_digit (d : Z) : ascii :=
  if d <? 10 then ascii_of_N (Z.to_N (48 + d)) else ascii_of_N (Z.to_N (87 + d)).
Fixpoint hex_EncodeToString (b : list byte) : string :=
  match b with
  | [] => EmptyString
  | x :: b => String (hex_digit (byte_val x / 16))
                (String (hex_digit (byte_val x mod 16)) (hex_EncodeToString b))
  end.

(** [strconv.Quote], the verb [%q]: ASCII as Go prints it; bytes of multi-byte
    characters are kept, as Go keeps the printable ones. *)
Definition quote_char (c : ascii) : string :=
  let n := N_of_ascii c in
  let esc (d : ascii) := String "\" (String d EmptyString) in
  if (n =? 34)%N || (n =? 92)%N then esc c
  else if (n =? 7)%N then esc "a"%char
  else if (n =? 8)%N then esc "b"%char
  else if (n =? 9)%N then esc "t"%char
  else if (n =? 10)%N then esc "n"%char
  else if (n =? 11)%N then esc "v"%char
  else if (n =? 12)%N then esc "f"%char
  else if (n =? 13)%N then esc "r"%char
  else if (n <? 32)%N || (n =? 127)%N then
    String "\" (String "x" (String (hex_digit (Z.of_N n / 16)) (String (hex_digit (Z.of_N n mod 16)) EmptyString)))
  else String c EmptyString.
Fixpoint quote_chars (s : string) : string :=
  match s with EmptyString => EmptyString | String c s => quote_char c +:+ quote_chars s end.
Definition Quote (s : string) : string := String "034" (quote_chars s +:+ String "034" EmptyString).

(** [net.SplitHostPort]: host and port, [None] for an error. *)
Definition SplitHostPort (hostport : string) : option (string * string) :=
  i ← LastIndexByte hostport ":";
  let port := slice_from hostport (S i) in
  let no_bracket s c := match IndexByte s c with Some _ => false | None => true end in
  match hostport with
  | String "[" _ =>
      e ← IndexByte hostport "]";
      if Nat.eqb (S e) i && no_bracket (slice_from hostport 1) "["%char && no_bracket (slice_from hostport (S e)) "]"%char
      then Some (slice hostport 1 e, port) else None
  | _ =>
      let host := slice_to hostport i in
      if no_bracket host ":"%char && no_bracket hostport "["%char && no_bracket hostport "]"%char
      then Some (host, port) else None
  end.

(** [strings.Join] *)
Fixpoint Join (l : list string) (sep : string) : string :=
  match l with
  | [] => EmptyString
  | [s] => s
  | s :: l => s +:+ sep +:+ Join l sep
  end.

(** [filepath.Join] *)

(** The elements a path keeps: no empty ones, no dots, and each [..] takes back
    the element before it where there is one. *)
Fixpoint clean_parts (rooted : bool) (kept parts : list string) : list string :=
  match parts with
  | [] => rev kept
  | p :: parts =>
      if String.eqb p "" || String.eqb p "." then clean_parts rooted kept parts
      else if String.eqb p ".." then
        match kept with
        | k :: rest => if String.eqb k ".." then clean_parts rooted (p :: kept) parts
                       else clean_parts rooted rest parts
        | [] => clean_parts rooted (if rooted then [] else [p]) parts
        end
      else clean_parts rooted (p :: kept) parts
  end.

(** [filepath.Clean] *)
Definition Clean (path : string) : string :=
  let rooted := HasPrefix path "/" in
  let body := Join (clean_parts rooted [] (Split path "/")) "/" in
  if rooted then "/" +:+ body else if String.eqb body "" then "." else body.

Definition FilepathJoin (elems : list string) : string :=
  match List.filter (fun e => negb (String.eqb e "")) elems with
  | [] => ""
  | es => Clean (Join es "/")
  end.

(** ** Runes (unicode/utf8) *)

Definition byte_in (lo hi : N) (c : ascii) : bool := ((lo <=? N_of_ascii c) && (N_of_ascii c <=? hi))%N.
(** A continuation byte. *)
Definition is_cont (c : ascii) : bool := byte_in 128 191 c.

Fixpoint all_cont (n : nat) (s : string) : bool :=
  match n, s with
  | O, _ => true
  | S n, String c s => is_cont c && all_cont n s
  | S _, EmptyString => false
  end.

(** The bytes the first rune takes ([utf8.DecodeRuneInString]); a byte that
    starts no well-formed rune is one rune of its own. *)
Definition rune_len (c : ascii) (s : string) : nat :=
  let second lo hi := match s with String d _ => byte_in lo hi d | EmptyString => false end in
  let tail n lo hi := if second lo hi && all_cont n s then S n else 1%nat in
  if byte_in 194 223 c then tail 1%nat 128%N 191%N
  else if byte_in 224 224 c then tail 2%nat 160%N 191%N
  else if byte_in 237 237 c then tail 2%nat 128%N 159%N
  else if byte_in 225 239 c then tail 2%nat 128%N 191%N
  else if byte_in 240 240 c then tail 3%nat 144%N 191%N
  else if byte_in 244 244 c then tail 3%nat 128%N 143%N
  else if byte_in 241 243 c then tail 3%nat 128%N 191%N
  else 1%nat.

(** ** Lemmas *)

Lemma length_string_app (s t : string) :
  String.length (s +:+ t) = (String.length s + String.length t)%nat.
Proof. induction s as [|a s IH]; simpl; [done|]. by rewrite IH. Qed.

Lemma string_app_nil_r (s : string) : s +:+ EmptyString = s.
Proof. induction s as [|a s IH]; simpl; [done | by f_equal]. Qed.

Lemma string_app_assoc (s t u : string) : s +:+ (t +:+ u) = (s +:+ t) +:+ u.
Proof. induction s as [|a s IH]; simpl; [done | by f_equal]. Qed.

Lemma HasPrefix_app (p s : string) : HasPrefix (p +:+ s) p = true.
Proof.
  unfold HasPrefix. induction p as [|a p IH]; simpl; [by destruct s|].
  by destruct (ascii_dec a a).
Qed.

Lemma HasPrefix_true (s p : string) : HasPrefix s p = true -> exists t, s = p +:+ t.
Proof.
  unfold HasPrefix. revert s. induction p as [|a p IH]; intros s; [by exists s|].
  destruct s as [|b s]; [done|]. simpl. destruct (ascii_dec a b) as [->|]; [|done].
  intros H. apply IH in H as [t ->]. by exists t.
Qed.

Lemma substring_all (s : string) : String.substring 0 (String.length s) s = s.
Proof. induction s as [|a s IH]; simpl; [done | by f_equal]. Qed.

Lemma substring_app_skip (p s : string) (n : nat) :
  String.substring (String.length p) n (p +:+ s) = String.substring 0 n s.
Proof. induction p; simpl; [done | assumption]. Qed.

Lemma substring_app_take (p s : string) : String.substring 0 (String.length p) (p +:+ s) = p.
Proof. induction p as [|a p IH]; simpl; [by destruct s | by f_equal]. Qed.

Lemma slice_from_app (p s : string) : slice_from (p +:+ s) (String.length p) = s.
Proof.
  unfold slice_from, slice. rewrite substring_app_skip, length_string_app.
  replace (_ + _ - _)%nat with (String.length s) by lia. apply substring_all.
Qed.

Lemma slice_to_app (p s : string) : slice_to (p +:+ s) (String.length p) = p.
Proof. unfold slice_to, slice. rewrite Nat.sub_0_r. apply substring_app_take. Qed.

Lemma TrimPrefix_app (p s : string) : TrimPrefix (p +:+ s) p = s.
Proof. unfold TrimPrefix. by rewrite HasPrefix_app, slice_from_app. Qed.

Lemma HasSuffix_app (s p : string) : HasSuffix (s +:+ p) p = true.
Proof.
  unfold HasSuffix. rewrite length_string_app.
  replace (_ + _ - _)%nat with (String.length s) by lia.
  rewrite slice_from_app, String.eqb_refl, andb_true_r. apply Nat.leb_le. lia.
Qed.

Lemma TrimSuffix_app (s p : string) : TrimSuffix (s +:+ p) p = s.
Proof.
  unfold TrimSuffix. rewrite HasSuffix_app, length_string_app.
  replace (_ + _ - _)%nat with (String.length s) by lia. apply slice_to_app.
Qed.

Lemma ToLower_app (s t : string) : ToLower (s +:+ t) = ToLower s +:+ ToLower t.
Proof. unfold ToLower. induction s as [|a s IH]; simpl; [done | by f_equal]. Qed.

Lemma lower_ascii_idemp c : lower_ascii (lower_ascii c) = lower_ascii c.
Proof. destruct c as [[] [] [] [] [] [] [] []]; vm_compute; reflexivity. Qed.

Lemma ToLower_idemp (s : string) : ToLower (ToLower s) = ToLower s.
Proof. unfold ToLower. induction s; simpl; [done|]. by rewrite lower_ascii_idemp, IHs. Qed.

Lemma LastIndexByte_None_app (s t : string) (c : ascii) :
  LastIndexByte t c = None -> LastIndexByte (s +:+ t) c = LastIndexByte s c.
Proof. intros H. induction s as [|a s IH]; simpl; [done|]. by rewrite IH. Qed.

Lemma LastIndexByte_sep (s t : string) (c : ascii) :
  LastIndexByte t c = None ->
  LastIndexByte (s +:+ String c t) c = Some (String.length s).
Proof.
  intros H. induction s as [|a s IH]; simpl.
  - by rewrite H, Ascii.eqb_refl.
  - by rewrite IH.
Qed.

Lemma IndexByte_sep (s t : string) (c : ascii) :
  IndexByte s c = None -> IndexByte (s +:+ String c t) c = Some (String.length s).
Proof.
  induction s as [|a s IH]; simpl; intros H.
  - by rewrite Ascii.eqb_refl.
  - destruct (Ascii.eqb a c); [done|].
    destruct (IndexByte s c) eqn:E; [done|]. by rewrite IH.
Qed.

Lemma SplitN2_sep (s t : string) (c : ascii) :
  IndexByte s c = None -> SplitN2 (s +:+ String c t) c = [s; t].
Proof.
  intros H. unfold SplitN2. rewrite IndexByte_sep by done. f_equal; [apply slice_to_app|].
  f_equal. rewrite <- (slice_from_app (s +:+ String c EmptyString) t) at 2.
  rewrite length_string_app. simpl. rewrite Nat.add_1_r.
  f_equal. induction s as [|a s IH]; simpl in *; [done|].
  destruct (Ascii.eqb a c); [done|]. destruct (IndexByte s c); [done|]. by rewrite IH.
Qed.

Lemma IndexByte_cut (s : string) (c : ascii) (i : nat) :
  IndexByte s c = Some i -> exists t u, s = t +:+ String c u /\ IndexByte t c = None.
Proof.
  revert i. induction s as [|a s IH]; intros i; simpl; [done|].
  destruct (Ascii.eqb a c) eqn:E.
  - apply Ascii.eqb_eq in E as ->. intros _. by exists EmptyString, s.
  - destruct (IndexByte s c) as [j|] eqn:Hj; [|done]. intros _. destruct (IH j eq_refl) as (t & u & -> & Ht).
    exists (String a t), u. split; [done|]. simpl. by rewrite E, Ht.
Qed.

(** [SplitN2] cuts at the first separator, if there is one. *)
Lemma SplitN2_cases (s : string) (c : ascii) :
  (IndexByte s c = None /\ SplitN2 s c = [s]) \/
  exists t u, s = t +:+ String c u /\ IndexByte t c = None /\ SplitN2 s c = [t; u].
Proof.
  destruct (IndexByte s c) as [i|] eqn:Hi.
  - right. apply IndexByte_cut in Hi as (t & u & -> & Ht). exists t, u. by rewrite SplitN2_sep.
  - left. unfold SplitN2. by rewrite Hi.
Qed.

#[export] Hint Rewrite length_string_app string_app_nil_r HasPrefix_app TrimPrefix_app
  HasSuffix_app TrimSuffix_app slice_from_app slice_to_app ToLower_app ToLower_idemp : htn.

(** Decimal printing and parsing of a machine integer round trip. *)
Lemma digit_val_char d : 0 <= d < 10 -> digit_val (digit_char d) = Some d.
Proof.
  intros H.
  assert (d = 0 \/ d = 1 \/ d = 2 \/ d = 3 \/ d = 4 \/ d = 5 \/ d = 6 \/ d = 7 \/ d = 8 \/ d = 9)
    as Hd by lia.
  by repeat destruct Hd as [->|Hd]; [..|subst].
Qed.

Lemma Atoi_digits_Itoa (fuel : nat) (n acc0 : Z) (acc : string) :
  0 <= n < 2 ^ Z.of_nat fuel ->
  exists k, 0 <= k /\
    Atoi_digits acc0 (Itoa_digits fuel n acc) = Atoi_digits (acc0 * 10 ^ k + n) acc.
Proof.
  revert n acc. induction fuel as [|fuel IH]; intros n acc Hn.
  - exists 0. replace n with 0 by (change (2 ^ Z.of_nat 0) with 1 in Hn; lia).
    simpl. split; [lia|]. f_equal. lia.
  - cbn [Itoa_digits]. cbv zeta. pose proof (Z.div_mod n 10 ltac:(lia)).
    pose proof (Z.mod_pos_bound n 10 ltac:(lia)).
    destruct (n <? 10) eqn:E.
    + apply Z.ltb_lt in E. exists 1. split; [lia|]. cbn [Atoi_digits].
      rewrite digit_val_char by done. cbn. f_equal. rewrite Z.mod_small by lia. lia.
    + apply Z.ltb_ge in E.
      destruct (IH (n / 10) (String (digit_char (n mod 10)) acc)) as (k & Hk & Heq).
      { split; [apply Z.div_pos; lia|]. apply Z.div_lt_upper_bound; [lia|].
        replace (Z.of_nat (S fuel)) with (Z.of_nat fuel + 1) in Hn by lia.
        rewrite Z.pow_add_r in Hn by lia. change (2 ^ 1) with 2 in Hn.
        pose proof (Z.pow_pos_nonneg 2 (Z.of_nat fuel) ltac:(lia) ltac:(lia)). lia. }
      exists (k + 1). split; [lia|]. rewrite Heq. cbn [Atoi_digits].
      rewrite digit_val_char by done. cbn. f_equal.
      rewrite Z.pow_add_r by lia. change (10 ^ 1) with 10. lia.
Qed.

Lemma Itoa_digits_head (fuel : nat) (n : Z) (acc : string) :
  0 <= n -> (exists c s, acc = String c s /\ is_Some (digit_val c)) \/ (0 < fuel)%nat ->
  exists c s, Itoa_digits fuel n acc = String c s /\ is_Some (digit_val c).
Proof.
  revert n acc. induction fuel as [|fuel IH]; intros n acc Hn Hacc.
  - destruct Hacc as [(c & s & -> & Hc)|]; [simpl; eauto | lia].
  - cbn [Itoa_digits]. cbv zeta.
    assert (is_Some (digit_val (digit_char (n mod 10)))) as Hd.
    { rewrite digit_val_char; [eauto | apply Z.mod_pos_bound; lia]. }
    destruct (n <? 10); [eauto|]. apply IH; [apply Z.div_pos; lia | eauto].
Qed.

Lemma Atoi_magnitude_Itoa (n : Z) (fuel : nat) :
  0 <= n < 2 ^ Z.of_nat (S fuel) ->
  Atoi_magnitude (Itoa_digits (S fuel) n EmptyString) = Some n.
Proof.
  intros Hn. destruct (Itoa_digits_head (S fuel) n EmptyString) as (c & s & E & Hc);
    [lia | right; lia |].
  destruct (Atoi_digits_Itoa (S fuel) n 0 EmptyString Hn) as (k & Hk & Ha).
  unfold Atoi_magnitude. rewrite E in *. rewrite Ha. reflexivity.
Qed.

Lemma Atoi_Itoa (n : Z) : in_int64 n -> Atoi (Itoa n) = Some n.
Proof.
  unfold in_int64. intros Hn. unfold Itoa.
  assert (forall m, 0 <= m -> 0 <= m < 2 ^ Z.of_nat (S (Z.to_nat (Z.log2 m)))) as Hfuel.
  { intros m Hm. split; [done|]. pose proof (Z.log2_nonneg m).
    rewrite Nat2Z.inj_succ, Z2Nat.id by done.
    destruct (decide (m = 0)) as [->|]; [done|]. apply Z.log2_spec. lia. }
  assert (forall m, m = n ->
    (if (- 2 ^ 63 <=? m) && (m <? 2 ^ 63) then Some m else None) = Some n) as Hrange.
  { intros m ->. rewrite (proj2 (Z.leb_le _ _)), (proj2 (Z.ltb_lt _ _)) by lia. done. }
  cbv zeta. destruct (n <? 0) eqn:E.
  - apply Z.ltb_lt in E. unfold Atoi. rewrite Atoi_magnitude_Itoa by (apply Hfuel; lia).
    cbn. apply Hrange. lia.
  - apply Z.ltb_ge in E. pose proof (Atoi_magnitude_Itoa n _ (Hfuel n E)) as Hm.
    edestruct (Itoa_digits_head (S (Z.to_nat (Z.log2 n))) n EmptyString)
      as (c & s & Hs & Hc); [lia | right; lia |].
    rewrite Hs in *. unfold Atoi.
    destruct (decide (c = "-"%char)) as [->|Hm1]; [by destruct Hc|].
    destruct (decide (c = "+"%char)) as [->|Hm2]; [by destruct Hc|].
    destruct c as [[] [] [] [] [] [] [] []]; try done; rewrite Hm; cbn; by apply Hrange.
Qed.

Module Examples.
Example joined : [FilepathJoin ["/a/"; ""; "../b"; "./c"]; FilepathJoin ["a"; "../../b"]; FilepathJoin [""; ""];
                  FilepathJoin ["a"; ".."]; FilepathJoin ["/"; ".."]]%string = ["/b/c"; "../b"; ""; "."; "/"]%string.
Proof. vm_compute. reflexivity. Qed.
End Examples.
