(* ===== verification/Json.v ===== *)
(** * JSON values (encoding/json)

    What [json.Marshal] and [json.Unmarshal] do with the values the program keeps
    in files, between Go values and JSON values: how the fields of a struct are
    found, what a missing or null member leaves behind, which values are refused.
    The text of a JSON value (white space, escapes, digits) is left out; so is
    the text of a date: a string in RFC 3339 form is a constructor of its own,
    with the instant it denotes in nanoseconds. *)

From stdpp Require Import sorting.
From S2P Require Import Prelude GoStrings.
Local Open Scope Z_scope.

(** ** Values *)

(** A number is an integer literal or another one (with a fraction or an
    exponent); the members of an object are in the order of the text. *)
#[warnings="-register-all"]
Inductive jvalue :=
  | JNull
  | JBool (b : bool)
  | JInt (n : Z)
  | JFloat (text : string)
  | JString (s : string)
  | JTime (t : Z)
  | JArray (elems : list jvalue)
  | JObject (members : list (string * jvalue)).

(** The outcome of decoding: an error; a Go value; or one the model has no value
    for (a nil pointer, the text of a date). *)
Inductive decoded (A : Type) :=
  | Good (a : A)
  | Bad (e : string)
  | Outside.
Arguments Good {A} a.
Arguments Bad {A} e.
Arguments Outside {A}.

#[export] Instance decoded_fmap : FMap decoded := fun A B f x =>
  match x with Good a => Good (f a) | Bad e => Bad e | Outside => Outside end.

(** Two parts of one value; an error of either is the error of the whole. *)
Definition both {A B C} (f : A -> B -> C) (x : decoded A) (y : decoded B) : decoded C :=
  match x, y with
  | Bad e, _ | _, Bad e => Bad e
  | Good a, Good b => Good (f a b)
  | _, _ => Outside
  end.

(** ** Strings *)

(** A string as it is marshalled: every byte that belongs to no well-formed rune
    becomes U+FFFD; [skip] bytes of the current rune are left. *)
Fixpoint json_text_go (skip : nat) (s : string) : string :=
  match s with
  | EmptyString => EmptyString
  | String c s =>
      match skip with
      | S skip => String c (json_text_go skip s)
      | O =>
          let n := rune_len c s in
          if (n =? 1)%nat && byte_in 128 255 c
          then String "239" (String "191" (String "189" (json_text_go 0 s)))
          else String c (json_text_go (pred n) s)
      end
  end.
Definition json_text (s : string) : string := json_text_go 0 s.

(** Valid UTF-8. *)
Definition valid_text (s : string) : bool := String.eqb (json_text s) s.

(** ** Times *)

(** [Time.MarshalJSON] (in UTC): only the years 0 to 9999 have a form. *)
Definition year_0 : Z := -62167219200 * Second.
Definition year_10000 : Z := 253402300800 * Second.
Definition time_encodable (t : Z) : bool := (year_0 <=? t) && (t <? year_10000).
Definition encode_time (t : Z) : result string jvalue :=
  if time_encodable t then Ok (JTime t)
  else Err "json: error calling MarshalJSON for type time.Time: Time.MarshalJSON: year outside of range [0,9999]"%string.

(** [time.Time{}]: the first of January of the year 1. *)
Definition zero_time : Z := -62135596800 * Second.

(** ** Decoding into a field that holds [old] *)

Definition type_error : string := "json: cannot unmarshal".

Definition decode_bool (v : jvalue) (old : bool) : decoded bool :=
  match v with JBool b => Good b | JNull => Good old | _ => Bad type_error end.

(** Into an [int]: an integer literal that fits. *)
Definition decode_int (v : jvalue) (old : Z) : decoded Z :=
  match v with
  | JInt n => if decide (in_int64 n) then Good n else Bad type_error
  | JNull => Good old
  | _ => Bad type_error
  end.

Definition decode_string (v : jvalue) (old : string) : decoded string :=
  match v with JString s => Good s | JTime _ => Outside | JNull => Good old | _ => Bad type_error end.

Definition decode_time (v : jvalue) (old : Z) : decoded Z :=
  match v with JTime t => Good t | JNull => Good old | _ => Bad "parsing time"%string end.

(** Into a [[]string]; null is a nil slice, as an element it leaves what the
    slice happens to hold there. *)
Definition decode_element (v : jvalue) : decoded string :=
  match v with JNull => Outside | _ => decode_string v "" end.
Definition decode_strings (v : jvalue) : decoded (list string) :=
  match v with
  | JNull => Good []
  | JArray elems => foldr (fun v l => both cons (decode_element v) l) (Good []) elems
  | _ => Bad type_error
  end.

(** ** Objects *)

(** The members of an object one after the other, by [field]; the first error
    remains. *)
Definition decode_member {A} (field : string -> jvalue -> A -> decoded A) (zero : A) (st : decoded A) (m : string * jvalue) : decoded A :=
  match st with
  | Good a => field m.1 m.2 a
  | Bad e => Bad e
  | Outside => match field m.1 m.2 zero with Bad e => Bad e | _ => Outside end
  end.
Definition decode_members {A} (field : string -> jvalue -> A -> decoded A) (zero old : A) (ms : list (string * jvalue)) : decoded A :=
  foldl (decode_member field zero) (Good old) ms.

(** Into a struct (null leaves it as it is). *)
Definition decode_struct {A} (field : string -> jvalue -> A -> decoded A) (zero : A) (v : jvalue) : decoded A :=
  match v with
  | JObject ms => decode_members field zero zero ms
  | JNull => Good zero
  | _ => Bad type_error
  end.

(** Into a [map[string]*T] (null makes it nil); a null entry is a nil pointer. *)
Definition decode_map {A} (elem : jvalue -> decoded A) (v : jvalue) (old : option (gmap string A)) : decoded (option (gmap string A)) :=
  match v with
  | JObject ms =>
      Some <$> decode_members (fun k v m => match v with JNull => Outside | _ => (fun a => <[k := a]> m) <$> elem v end)
                 ∅ (default ∅ old) ms
  | JNull => Good None
  | _ => Bad type_error
  end.

(** ** Encoding *)

Definition encode_strings (l : list string) : jvalue := JArray (JString ∘ json_text <$> l).

(** A map: its entries in the order of their keys; the first error remains. *)
Fixpoint encode_entries {A} (elem : A -> result string jvalue) (l : list (string * A)) : result string (list (string * jvalue)) :=
  match l with
  | [] => Ok []
  | (k, a) :: l =>
      v ← elem a;
      ms ← encode_entries elem l;
      Ok ((json_text k, v) :: ms)
  end.
Definition key_le {A} (x y : string * A) : Prop := String.leb x.1 y.1 = true.
#[export] Instance key_le_dec {A} : RelDecision (@key_le A).
Proof. intros x y. unfold key_le. apply _. Defined.
Definition sorted_entries {A} (m : gmap string A) : list (string * A) := merge_sort key_le (map_to_list m).
Definition encode_map {A} (elem : A -> result string jvalue) (m : gmap string A) : result string jvalue :=
  JObject <$> encode_entries elem (sorted_entries m).

(** ** Lemmas *)

Lemma valid_text_eq s : valid_text s = true -> json_text s = s.
Proof. apply String.eqb_eq. Qed.

(** ASCII is valid. *)
Lemma json_text_ascii s :
  (forall c, In c (list_ascii_of_string s) -> byte_in 128 255 c = false) -> valid_text s = true.
Proof.
  intros Hs. apply String.eqb_eq. unfold json_text. induction s as [|c s IH]; [done|].
  assert (byte_in 128 255 c = false) as Hc by (apply Hs; by left).
  assert (rune_len c s = 1%nat) as Hr.
  { unfold rune_len. assert (forall lo hi, (128 <= lo)%N -> byte_in lo hi c = false) as Hno.
    { intros lo hi Hlo. unfold byte_in in *. pose proof (N_ascii_bounded c).
      rewrite andb_false_iff, !N.leb_gt in *. lia. }
    by rewrite !Hno by lia. }
  cbn [json_text_go]. rewrite Hr, Hc. cbn [Nat.eqb andb pred]. f_equal. apply IH. intros d Hd. apply Hs. by right.
Qed.

Lemma decode_encode_strings l :
  Forall (fun s => valid_text s = true) l -> decode_strings (encode_strings l) = Good l.
Proof.
  intros Hl. cbn [decode_strings encode_strings]. induction Hl as [|s l Hs Hl IH]; [done|].
  cbn [fmap list_fmap foldr]. rewrite IH. cbn [compose decode_element decode_string both]. by rewrite valid_text_eq.
Qed.

Lemma decode_encode_int n old : in_int64 n -> decode_int (JInt n) old = Good n.
Proof. intros Hn. unfold decode_int. by rewrite decide_True. Qed.

Lemma encode_time_Ok t v : encode_time t = Ok v <-> time_encodable t = true /\ v = JTime t.
Proof.
  unfold encode_time. destruct (time_encodable t); split; [by intros [= <-] | by intros [_ ->] | done | by intros [? _]].
Qed.

Lemma decode_members_cons {A} (field : string -> jvalue -> A -> decoded A) zero old old' name v ms :
  field name v old = Good old' ->
  decode_members field zero old ((name, v) :: ms) = decode_members field zero old' ms.
Proof. unfold decode_members. cbn [foldl decode_member fst snd]. by intros ->. Qed.

(** A map whose entries are each read back is read back. *)
Lemma decode_encode_entries {A} (elem : A -> result string jvalue) (delem : jvalue -> decoded A) (f : A -> A) l ms m0 :
  Forall (fun e => valid_text e.1 = true) l ->
  (forall k a v, (k, a) ∈ l -> elem a = Ok v -> v <> JNull /\ delem v = Good (f a)) ->
  encode_entries elem l = Ok ms ->
  decode_members (fun k v m => match v with JNull => Outside | _ => (fun a => <[k := a]> m) <$> delem v end) ∅ m0 ms
  = Good (foldl (fun (m : gmap string A) e => <[e.1 := f e.2]> m) m0 l).
Proof.
  revert ms m0. induction l as [|[k a] l IH]; intros ms m0 Hv He; cbn [encode_entries]; [by intros [= <-]|].
  apply Forall_cons in Hv as [Hk Hv].
  destruct (elem a) as [v|e] eqn:Ev; [|done]. destruct (encode_entries elem l) as [ms'|e]; [|done].
  cbn [mbind result_bind]. intros [= <-].
  destruct (He k a v) as [Hnn Hd]; [apply list_elem_of_here | done|].
  rewrite (decode_members_cons _ _ _ (<[k := f a]> m0)).
  - cbn [foldl fst snd]. apply IH; [done | | done]. intros k' a' v' Hin. apply (He k'). by apply list_elem_of_further.
  - rewrite (valid_text_eq k) by done. by destruct v; rewrite ?Hd.
Qed.

Lemma foldl_insert {A} (f : A -> A) (l : list (string * A)) (m0 : gmap string A) :
  NoDup l.*1 ->
  foldl (fun (m : gmap string A) e => <[e.1 := f e.2]> m) m0 l = (f <$> list_to_map l) ∪ m0.
Proof.
  revert m0. induction l as [|[k a] l IH]; intros m0; cbn [foldl fmap list_fmap list_to_map foldr].
  - intros _. by rewrite fmap_empty, (left_id_L ∅ (∪)).
  - intros [Hk Hnd]%NoDup_cons. rewrite IH by done. cbn [fst snd]. rewrite fmap_insert, <- insert_union_l.
    rewrite insert_union_r; [done|]. by rewrite lookup_fmap, not_elem_of_list_to_map_1.
Qed.

Lemma sorted_entries_perm {A} (m : gmap string A) : sorted_entries m ≡ₚ map_to_list m.
Proof. apply merge_sort_Permutation. Qed.

(** A map is read back when its keys are valid and its elements are read back. *)
Lemma decode_encode_map {A} (elem : A -> result string jvalue) (delem : jvalue -> decoded A) (f : A -> A) (m : gmap string A) v :
  (forall k a, m !! k = Some a -> valid_text k = true /\ forall w, elem a = Ok w -> w <> JNull /\ delem w = Good (f a)) ->
  encode_map elem m = Ok v -> decode_map delem v None = Good (Some (f <$> m)).
Proof.
  intros Hm. unfold encode_map. destruct (encode_entries elem (sorted_entries m)) as [ms|e] eqn:E; [|done].
  intros [= <-]. unfold decode_map. cbn [default].
  assert (forall k a, (k, a) ∈ sorted_entries m <-> m !! k = Some a) as Hin
    by (intros k a; rewrite sorted_entries_perm; apply elem_of_map_to_list).
  rewrite (decode_encode_entries elem delem f _ _ _) with (3 := E).
  - cbn [fmap decoded_fmap]. f_equal. f_equal. rewrite foldl_insert, (right_id_L ∅ (∪)).
    + f_equal. rewrite <- (list_to_map_to_list m) at 2. apply list_to_map_proper; [|apply sorted_entries_perm].
      rewrite sorted_entries_perm. apply NoDup_fst_map_to_list.
    + rewrite sorted_entries_perm. apply NoDup_fst_map_to_list.
  - apply Forall_forall. intros [k a] Hka%Hin. by apply (Hm k a).
  - intros k a w Hka%Hin Hw. by apply (Hm k a).
Qed.

(** Encoding fails only at an element. *)
Lemma encode_map_Ok {A} (elem : A -> result string jvalue) (m : gmap string A) :
  is_ok (encode_map elem m) = true <-> forall k a, m !! k = Some a -> is_ok (elem a) = true.
Proof.
  assert (forall l : list (string * A), is_ok (encode_entries elem l) = true <-> forall k a, (k, a) ∈ l -> is_ok (elem a) = true) as Hl.
  { induction l as [|[k a] l IH]; cbn [encode_entries]; [split; [intros _ ? ? []%elem_of_nil | done]|].
    destruct (elem a) as [v|e] eqn:Ev.
    - destruct (encode_entries elem l) as [ms|e]; cbn [mbind result_bind is_ok] in *.
      + split; [|done]. intros _ k' a' [[= -> ->]|Hin]%elem_of_cons; [by rewrite Ev | by eapply (proj1 IH)].
      + split; [done|]. intros H. apply IH. intros k' a' Hin. apply (H k'). by apply list_elem_of_further.
    - split; [done|]. intros H. specialize (H k a (list_elem_of_here _ _)). by rewrite Ev in H. }
  unfold encode_map. assert (is_ok (JObject <$> encode_entries elem (sorted_entries m)) = is_ok (encode_entries elem (sorted_entries m))) as ->
    by (by destruct (encode_entries _ _)).
  rewrite Hl. assert (forall k a, (k, a) ∈ sorted_entries m <-> m !! k = Some a) as Hin
    by (intros k a; rewrite sorted_entries_perm; apply elem_of_map_to_list).
  split; intros H k a Hka; apply (H k); by apply Hin.
Qed.
