(* ===== verification/Subdomain.v ===== *)
(** * Names: subdomain labels, API keys and their masks

    [ValidateSubdomain] and [RandomSubdomain] of [tunnel_manager.go], the key
    helpers of [key_store.go] and the two masking functions of [server.go] and
    [dashboard/handler.go]. *)

From S2P Require Import Prelude GoStrings.
Local Open Scope Z_scope.

(** ** Anchored regular expressions over bytes

    The fragment [tunnel_manager.go] uses: character classes, bounded
    repetition, concatenation. *)

Inductive re :=
  | Cls (p : ascii -> bool)
  | Rep (p : ascii -> bool) (lo hi : nat)
  | Cat (r1 r2 : re).

(** What may be left of the input after a match of [r] at its front. *)
Fixpoint rep_rests (p : ascii -> bool) (lo hi : nat) (s : string) : list string :=
  (if bool_decide (lo = O) then [s] else []) ++
  match hi, s with
  | S hi, String c s => if p c then rep_rests p (pred lo) hi s else []
  | _, _ => []
  end.

Fixpoint rests (r : re) (s : string) : list string :=
  match r with
  | Cls p => match s with String c s => if p c then [s] else [] | EmptyString => [] end
  | Rep p lo hi => if bool_decide (lo <= hi)%nat then rep_rests p lo hi s else []
  | Cat r1 r2 => rests r1 s ≫= rests r2
  end.

(** [^r$] *)
Definition MatchString (r : re) (s : string) : bool :=
  existsb (fun t => String.eqb t EmptyString) (rests r s).

(** ** tunnel_manager.go *)

Definition is_alnum (c : ascii) : bool := in_range "a" "z" c || in_range "0" "9" c.
Definition is_label (c : ascii) : bool := is_alnum c || Ascii.eqb c "-".

Definition subdomainRe : re :=
  Cat (Cls is_alnum) (Cat (Rep is_label 1 61) (Cls is_alnum)).

Definition reservedSubdomains : list string :=
  ["www"; "api"; "admin"; "mail"; "ftp"; "localhost"; "tunnel"; "dashboard"]%string.

Inductive subdomain_error :=
  | ErrLength (sub : string)
  | ErrFormat (sub : string)
  | ErrReserved (sub : string).

#[export] Instance subdomain_error_eq_dec : EqDecision subdomain_error.
Proof. solve_decision. Defined.

(** [ValidateSubdomain]: [None] is the nil error. *)
Definition ValidateSubdomain (sub : string) : option subdomain_error :=
  if (len sub <? 3) || (63 <? len sub) then Some (ErrLength sub)
  else if negb (MatchString subdomainRe sub) then Some (ErrFormat sub)
  else if bool_decide (sub ∈ reservedSubdomains) then Some (ErrReserved sub)
  else None.

Definition random_chars : string := "abcdefghijklmnopqrstuvwxyz0123456789".

(** [RandomSubdomain]: [draws] are the results of the eight calls of
    [rand.Intn(len(chars))]. *)
Definition RandomSubdomain (draws : list nat) : string :=
  string_of_list_ascii
    ((fun d => default "a"%char (String.get d random_chars)) <$> draws).

(** The draws the generator can make. *)
Definition random_draws (draws : list nat) : Prop :=
  length draws = 8%nat /\ Forall (fun d => (d < 36)%nat) draws.

(** ** key_store.go *)

(** [GenerateAPIKey], from the sixteen random bytes. *)
Definition GenerateAPIKey (b : list byte) : string := "htk_" +:+ hex_EncodeToString b.

(** [MaskKey] *)
Definition MaskKey (key : string) : string :=
  if len key <? 12 then key
  else slice_to key 8 +:+ "..." +:+ slice_from key (String.length key - 4).

(** [IsAPIKey] *)
Definition IsAPIKey (token : string) : bool := HasPrefix token "htk_".

(** ** server.go and dashboard/handler.go *)

(** [maskToken] *)
Definition maskToken (t : string) : string :=
  if len t <=? 8 then "***"%string
  else slice_to t 4 +:+ "..." +:+ slice_from t (String.length t - 4).

(** [maskKey] of the dashboard *)
Definition maskKey (key : string) : string :=
  if len key <=? 8 then "***"%string
  else slice_to key 4 +:+ "..." +:+ slice_from key (String.length key - 4).

(** [strings.HasPrefix(token, "anon:")] *)
Definition is_anon (token : string) : bool := HasPrefix token "anon:".

(** ** The regular expressions mean what they say *)

Fixpoint all_chars (p : ascii -> bool) (s : string) : bool :=
  match s with EmptyString => true | String c s => p c && all_chars p s end.

(** The language of a regular expression. *)
Inductive denotes : re -> string -> Prop :=
  | den_cls p c : p c = true -> denotes (Cls p) (String c EmptyString)
  | den_rep p lo hi s :
      all_chars p s = true -> (lo <= String.length s <= hi)%nat -> denotes (Rep p lo hi) s
  | den_cat r1 r2 s1 s2 :
      denotes r1 s1 -> denotes r2 s2 -> denotes (Cat r1 r2) (s1 +:+ s2).

Lemma string_app_inj_nil (s t : string) : s = t +:+ s -> t = EmptyString.
Proof.
  intros H. apply (f_equal String.length) in H. rewrite length_string_app in H.
  destruct t; [done | simpl in H; lia].
Qed.

Lemma elem_of_rep_rests p lo hi s t :
  (lo <= hi)%nat ->
  t ∈ rep_rests p lo hi s <->
  exists u, s = u +:+ t /\ all_chars p u = true /\ (lo <= String.length u <= hi)%nat.
Proof.
  revert lo s. induction hi as [|hi IH]; intros lo s Hlo; cbn [rep_rests].
  - replace lo with O by lia. rewrite bool_decide_true by done.
    rewrite app_nil_r, list_elem_of_singleton. split.
    + intros ->. exists EmptyString. split_and!; [done | done | simpl; lia | simpl; lia].
    + intros (u & -> & _ & Hu). destruct u; [done | simpl in Hu; lia].
  - rewrite elem_of_app. split.
    + intros [Ht|Ht].
      * case_bool_decide; [|by apply elem_of_nil in Ht].
        apply list_elem_of_singleton in Ht as ->. exists EmptyString.
        split_and!; [done | done | simpl; lia | simpl; lia].
      * destruct s as [|c s]; [by apply elem_of_nil in Ht|].
        destruct (p c) eqn:Ep; [|by apply elem_of_nil in Ht].
        apply IH in Ht as (u & -> & Hu & Hl); [|lia]. exists (String c u).
        simpl. rewrite Ep. split_and!; [done | done | lia | lia].
    + intros (u & -> & Hu & Hl). destruct u as [|c u]; simpl in *.
      * left. rewrite bool_decide_true by lia. apply list_elem_of_here.
      * right. apply andb_true_iff in Hu as [-> Hu]. apply IH; [lia|].
        exists u. split_and!; [done | done | lia | lia].
Qed.

Lemma elem_of_rests (r : re) (s t : string) :
  t ∈ rests r s <-> exists u, s = u +:+ t /\ denotes r u.
Proof.
  revert s t. induction r as [p|p lo hi|r1 IH1 r2 IH2]; intros s t; cbn [rests].
  - destruct s as [|c s].
    + split; [intros Ht; by apply elem_of_nil in Ht|].
      intros (u & Hs & Hu). inversion Hu; subst. by simpl in Hs.
    + split.
      * destruct (p c) eqn:E; [|intros Ht; by apply elem_of_nil in Ht].
        intros ->%list_elem_of_singleton. exists (String c EmptyString). split; [done | by constructor].
      * intros (u & Hs & Hu). inversion Hu; subst. simpl in Hs. simplify_eq.
        rewrite H0. apply list_elem_of_here.
  - case_bool_decide as Hlo.
    + rewrite elem_of_rep_rests by done. split; intros (u & -> & Hu).
      * exists u. destruct Hu. split; [done|]. by apply den_rep.
      * inversion Hu; subst. eauto.
    + split; [intros Ht; by apply elem_of_nil in Ht|].
      intros (u & -> & Hu). inversion Hu; subst. lia.
  - rewrite list_elem_of_bind. split.
    + intros (v & Ht & Hv). apply IH1 in Hv as (u1 & -> & H1).
      apply IH2 in Ht as (u2 & -> & H2). exists (u1 +:+ u2).
      split; [by rewrite string_app_assoc | by constructor].
    + intros (u & -> & Hu). inversion Hu; subst. exists (s2 +:+ t). split.
      * apply IH2. eauto.
      * apply IH1. rewrite <- string_app_assoc. eauto.
Qed.

Lemma MatchString_denotes (r : re) (s : string) : MatchString r s = true <-> denotes r s.
Proof.
  unfold MatchString. rewrite existsb_exists. split.
  - intros (t & Ht & Heq). apply String.eqb_eq in Heq as ->.
    apply list_elem_of_In, elem_of_rests in Ht as (u & -> & Hu). by rewrite string_app_nil_r.
  - intros Hs. exists EmptyString. split; [|done]. apply list_elem_of_In, elem_of_rests.
    exists s. by rewrite string_app_nil_r.
Qed.

(** ** The rule the documentation states for subdomain labels *)

Definition first_char (s : string) : option ascii := String.get 0 s.
Definition last_char (s : string) : option ascii := String.get (String.length s - 1) s.

(** 3 to 63 characters, lowercase letters, digits and hyphens, no hyphen at
    either end, not a reserved name. *)
Record label_rule (s : string) : Prop := {
  lr_length : (3 <= String.length s <= 63)%nat;
  lr_chars : all_chars is_label s = true;
  lr_first : exists c, first_char s = Some c /\ is_alnum c = true;
  lr_last : exists c, last_char s = Some c /\ is_alnum c = true;
  lr_unreserved : s ∉ reservedSubdomains;
}.

Lemma get_app_last (s : string) (c : ascii) :
  String.get (String.length (s +:+ String c EmptyString) - 1) (s +:+ String c EmptyString) = Some c.
Proof.
  rewrite length_string_app. simpl. replace (_ + 1 - 1)%nat with (String.length s) by lia.
  induction s; simpl; [done | assumption].
Qed.

Lemma string_snoc (s : string) (n : nat) :
  String.length s = S n -> exists t c, s = t +:+ String c EmptyString /\ String.length t = n.
Proof.
  revert n. induction s as [|a s IH]; intros n; simpl; [lia|]. intros [= <-].
  destruct s as [|b s].
  - exists EmptyString, a. done.
  - destruct (IH (String.length s)) as (t & c & Hs & Ht); [done|].
    exists (String a t), c. split; [by rewrite Hs | simpl; by rewrite Ht].
Qed.

Lemma all_chars_app p s t : all_chars p (s +:+ t) = all_chars p s && all_chars p t.
Proof. induction s as [|c s IH]; simpl; [done|]. by rewrite IH, andb_assoc. Qed.

Lemma is_alnum_label c : is_alnum c = true -> is_label c = true.
Proof. unfold is_label. by intros ->. Qed.

Lemma denotes_subdomainRe (s : string) :
  denotes subdomainRe s <->
  exists c m d, s = String c (m +:+ String d EmptyString) /\
    is_alnum c = true /\ is_alnum d = true /\
    all_chars is_label m = true /\ (1 <= String.length m <= 61)%nat.
Proof.
  unfold subdomainRe. split.
  - intros H. inversion H as [| |r1 r2 s1 s2 Ha Hb]; subst. inversion Ha; subst.
    inversion Hb as [| |r3 r4 s3 s4 Hm Hd]; subst. inversion Hm; subst. inversion Hd; subst.
    eauto 10.
  - intros (c & m & d & -> & Hc & Hd & Hm & Hl).
    apply (den_cat _ _ (String c EmptyString)); [by apply den_cls|].
    apply den_cat; [by apply den_rep | by apply den_cls].
Qed.

Lemma subdomainRe_rule (s : string) :
  (3 <= String.length s <= 63)%nat ->
  MatchString subdomainRe s = true <->
  all_chars is_label s = true /\
  (exists c, first_char s = Some c /\ is_alnum c = true) /\
  (exists c, last_char s = Some c /\ is_alnum c = true).
Proof.
  intros Hl. rewrite MatchString_denotes, denotes_subdomainRe. split.
  - intros (c & m & d & -> & Hc & Hd & Hm & _).
    change (String c (m +:+ String d EmptyString)) with (String c m +:+ String d EmptyString).
    unfold last_char. rewrite get_app_last, all_chars_app. simpl.
    rewrite Hm, !is_alnum_label by done. split_and!; [done | by exists c | by exists d].
  - intros (Hall & (c & Hc & Hca) & (d & Hd & Hda)).
    destruct s as [|c' s]; [done|]. unfold first_char in Hc. simpl in Hc. simplify_eq.
    destruct (string_snoc s (String.length s - 1)) as (m & d' & -> & Hm); [simpl in Hl; lia|].
    change (String c (m +:+ String d' EmptyString)) with (String c m +:+ String d' EmptyString) in *.
    unfold last_char in Hd. rewrite get_app_last in Hd. simplify_eq.
    rewrite all_chars_app in Hall. simpl in Hall. rewrite !andb_true_iff in Hall.
    rewrite length_string_app in Hl. simpl in Hl.
    exists c, m, d. split_and!; try done; [tauto | lia | lia].
Qed.

Lemma ValidateSubdomain_None (s : string) : ValidateSubdomain s = None <-> label_rule s.
Proof.
  unfold ValidateSubdomain, len. split.
  - destruct (_ || _) eqn:Elen; [done|]. apply orb_false_iff in Elen as [H1 H2].
    apply Z.ltb_ge in H1, H2.
    destruct (MatchString subdomainRe s) eqn:Em; [|done]. simpl.
    case_bool_decide; [done|]. intros _.
    apply subdomainRe_rule in Em as (? & ? & ?); [|lia]. by constructor; [lia|..].
  - intros [Hl Hc Hf Hla Hr]. rewrite (proj2 (Z.ltb_ge _ _)), (proj2 (Z.ltb_ge _ _)) by lia.
    rewrite (proj2 (subdomainRe_rule s Hl)) by done. simpl. by rewrite bool_decide_false.
Qed.

(** C33: [ValidateSubdomain] accepts exactly the labels of the documented rule:
    3 to 63 lowercase alphanumerics and hyphens, alphanumeric at both ends, and
    not one of the eight reserved names. *)
Theorem ValidateSubdomain_rule (s : string) :
  ValidateSubdomain s = None <-> label_rule s.
Proof. apply ValidateSubdomain_None. Qed.

(** A label is its own lower case and contains no colon or dot. *)
Lemma label_chars_spec c : is_label c = true ->
  lower_ascii c = c /\ Ascii.eqb c ":" = false /\ Ascii.eqb c "." = false.
Proof. destruct c as [[] [] [] [] [] [] [] []]; vm_compute; intros H; (done || by split_and!). Qed.

Lemma label_chars s : all_chars is_label s = true ->
  ToLower s = s /\ LastIndexByte s ":" = None /\ IndexByte s "." = None.
Proof.
  induction s as [|c s IH]; simpl; [done|]. intros [Hc Hs]%andb_true_iff.
  destruct (label_chars_spec c Hc) as (E1 & E2 & E3). destruct (IH Hs) as (I1 & I2 & I3).
  unfold ToLower in *. simpl. by rewrite E1, I1, I2, I3, E2, E3.
Qed.

(** ** Random subdomains *)

Lemma random_chars_alnum (d : nat) :
  (d < 36)%nat -> is_alnum (default "a"%char (String.get d random_chars)) = true.
Proof.
  intros Hd.
  assert (forallb (fun d => is_alnum (default "a"%char (String.get d random_chars))) (seq 0 36)
          = true) as Hall by (vm_compute; reflexivity).
  rewrite forallb_forall in Hall. apply Hall, in_seq. lia.
Qed.

(** Whatever the generator draws, [RandomSubdomain] returns a label that
    [ValidateSubdomain] accepts: the random path of a tunnel request can fail
    only on a collision. *)
Theorem RandomSubdomain_valid (draws : list nat) :
  random_draws draws -> ValidateSubdomain (RandomSubdomain draws) = None.
Proof.
  intros [Hl Hd]. apply ValidateSubdomain_None.
  destruct draws as [|d0 [|d1 [|d2 [|d3 [|d4 [|d5 [|d6 [|d7 [|]]]]]]]]]; try done.
  rewrite !Forall_cons in Hd. destruct Hd as (H0 & H1 & H2 & H3 & H4 & H5 & H6 & H7 & _).
  apply random_chars_alnum in H0, H1, H2, H3, H4, H5, H6, H7.
  unfold RandomSubdomain. simpl. constructor.
  - simpl. lia.
  - simpl. by rewrite !is_alnum_label.
  - eauto.
  - unfold last_char. simpl. eauto.
  - intros Hin.
    repeat (apply elem_of_cons in Hin as [Hin|Hin]; [by apply (f_equal String.length) in Hin|]).
    by apply elem_of_nil in Hin.
Qed.

Lemma RandomSubdomain_valid_witness :
  ValidateSubdomain (RandomSubdomain [0; 35; 7; 25; 26; 1; 2; 3]%nat) = None.
Proof.
  apply (RandomSubdomain_valid [0; 35; 7; 25; 26; 1; 2; 3]%nat).
  split; [reflexivity | repeat constructor].
Defined.
