(* ===== verification/TunnelManager.v ===== *)
(** * The tunnel registry (internal/server/tunnel_manager.go)

    [TunnelSession] objects live in a store shared by everyone who holds a
    pointer to them; the registry's two maps hold pointers.  Each method of
    [TunnelManager] is a function on the registry that stands for one critical
    section of [tm.mu]; [RegisterTCP] alone leaves the lock in the middle and is
    composed of two.  An operation that closes sessions or listeners returns the
    closings as effects, in order. *)

From S2P Require Import Prelude GoStrings Subdomain.
Local Open Scope Z_scope.

(** ** State *)

Definition loc : Type := nat.        (* pointer to a TunnelSession *)
Definition session_id : Type := nat. (* pointer to a yamux session *)
Definition listener_id : Type := nat.

Record TunnelSession := {
  ts_ID : string;
  ts_Token : string;
  ts_Type : string;
  ts_Subdomain : string;
  ts_Port : Z;
  ts_LocalPort : Z;
  ts_Session : option session_id;
  ts_Listener : option listener_id;
  ts_CreatedAt : Z;
  ts_BytesIn : Z;
  ts_BytesOut : Z;
  ts_Reserved : bool;
  ts_ReservedUntil : Z;
}.

(** The object a nil dereference would panic on; never reached in a
    well-formed registry. *)
Definition zero_session : TunnelSession := {|
  ts_ID := ""; ts_Token := ""; ts_Type := ""; ts_Subdomain := ""; ts_Port := 0;
  ts_LocalPort := 0; ts_Session := None; ts_Listener := None; ts_CreatedAt := 0;
  ts_BytesIn := 0; ts_BytesOut := 0; ts_Reserved := false; ts_ReservedUntil := 0
|}.

Definition set_CreatedAt (now : Z) (s : TunnelSession) : TunnelSession := {|
  ts_ID := ts_ID s; ts_Token := ts_Token s; ts_Type := ts_Type s;
  ts_Subdomain := ts_Subdomain s; ts_Port := ts_Port s; ts_LocalPort := ts_LocalPort s;
  ts_Session := ts_Session s; ts_Listener := ts_Listener s; ts_CreatedAt := now;
  ts_BytesIn := ts_BytesIn s; ts_BytesOut := ts_BytesOut s;
  ts_Reserved := ts_Reserved s; ts_ReservedUntil := ts_ReservedUntil s
|}.

Definition set_Subdomain (sub : string) (s : TunnelSession) : TunnelSession := {|
  ts_ID := ts_ID s; ts_Token := ts_Token s; ts_Type := ts_Type s;
  ts_Subdomain := sub; ts_Port := ts_Port s; ts_LocalPort := ts_LocalPort s;
  ts_Session := ts_Session s; ts_Listener := ts_Listener s; ts_CreatedAt := ts_CreatedAt s;
  ts_BytesIn := ts_BytesIn s; ts_BytesOut := ts_BytesOut s;
  ts_Reserved := ts_Reserved s; ts_ReservedUntil := ts_ReservedUntil s
|}.

Definition set_Reserved (until : Z) (s : TunnelSession) : TunnelSession := {|
  ts_ID := ts_ID s; ts_Token := ts_Token s; ts_Type := ts_Type s;
  ts_Subdomain := ts_Subdomain s; ts_Port := ts_Port s; ts_LocalPort := ts_LocalPort s;
  ts_Session := ts_Session s; ts_Listener := ts_Listener s; ts_CreatedAt := ts_CreatedAt s;
  ts_BytesIn := ts_BytesIn s; ts_BytesOut := ts_BytesOut s;
  ts_Reserved := true; ts_ReservedUntil := until
|}.

(** The three assignments [RegisterTCP] makes before it takes the lock again. *)
Definition set_TCP (port : Z) (ln : listener_id) (now : Z) (s : TunnelSession) : TunnelSession := {|
  ts_ID := ts_ID s; ts_Token := ts_Token s; ts_Type := ts_Type s;
  ts_Subdomain := ts_Subdomain s; ts_Port := port; ts_LocalPort := ts_LocalPort s;
  ts_Session := ts_Session s; ts_Listener := Some ln; ts_CreatedAt := now;
  ts_BytesIn := ts_BytesIn s; ts_BytesOut := ts_BytesOut s;
  ts_Reserved := ts_Reserved s; ts_ReservedUntil := ts_ReservedUntil s
|}.

Record TunnelManager := mkTM {
  httpTunnels : gmap string loc;
  tcpTunnels : gmap Z loc;
  portMin : Z;
  portMax : Z;
  objects : gmap loc TunnelSession;
}.

Definition deref (tm : TunnelManager) (l : loc) : TunnelSession :=
  default zero_session (objects tm !! l).

Definition with_http (f : gmap string loc -> gmap string loc) (tm : TunnelManager) : TunnelManager :=
  mkTM (f (httpTunnels tm)) (tcpTunnels tm) (portMin tm) (portMax tm) (objects tm).
Definition with_tcp (f : gmap Z loc -> gmap Z loc) (tm : TunnelManager) : TunnelManager :=
  mkTM (httpTunnels tm) (f (tcpTunnels tm)) (portMin tm) (portMax tm) (objects tm).
(** An assignment to fields of the object [l]. *)
Definition update (l : loc) (f : TunnelSession -> TunnelSession) (tm : TunnelManager) : TunnelManager :=
  mkTM (httpTunnels tm) (tcpTunnels tm) (portMin tm) (portMax tm) (alter f l (objects tm)).
(** [l := &TunnelSession{...}] *)
Definition alloc (l : loc) (s : TunnelSession) (tm : TunnelManager) : TunnelManager :=
  mkTM (httpTunnels tm) (tcpTunnels tm) (portMin tm) (portMax tm) (<[l := s]> (objects tm)).

Inductive effect :=
  | CloseSession (y : session_id)
  | CloseListener (ln : listener_id)
  | OpenListener (ln : listener_id).

#[export] Instance effect_eq_dec : EqDecision effect.
Proof. solve_decision. Defined.

(** [if x != nil { x.Close() }] *)
Definition close_session (y : option session_id) : list effect :=
  match y with Some y => [CloseSession y] | None => [] end.
Definition close_listener (ln : option listener_id) : list effect :=
  match ln with Some ln => [CloseListener ln] | None => [] end.

(** ** Operations *)

Definition NewTunnelManager (portMin portMax : Z) : TunnelManager :=
  mkTM ∅ ∅ portMin portMax ∅.

Inductive register_error :=
  | ErrInvalid (e : subdomain_error)
  | ErrInUse (sub : string).

(** [RegisterHTTP]; the calls of [time.Now] in one critical section return one
    instant [now]. *)
Definition RegisterHTTP (now : Z) (subdomain : string) (session : loc) (tm : TunnelManager)
    : TunnelManager * option register_error :=
  let store := with_http (insert subdomain session) (update session (set_CreatedAt now) tm) in
  match ValidateSubdomain subdomain with
  | Some e => (tm, Some (ErrInvalid e))
  | None =>
      match httpTunnels tm !! subdomain with
      | Some l =>
          let existing := deref tm l in
          if ts_Reserved existing
             && String.eqb (ts_Token existing) (ts_Token (deref tm session))
             && (now <? ts_ReservedUntil existing)
          then (store, None)
          else (tm, Some (ErrInUse subdomain))
      | None => (store, None)
      end
  end.

(** One attempt of [RegisterTCP]: the result of [rand.Intn], the listener
    [net.Listen] opens (or its failure), the time, and what other goroutines do
    to the registry before the first and before the second critical section. *)
Record attempt := {
  at_draw : Z;
  at_listen : option listener_id;
  at_now : Z;
  at_before : TunnelManager -> TunnelManager;
  at_between : TunnelManager -> TunnelManager;
}.

Inductive tcp_error :=
  | ErrNoPort        (* unable to allocate TCP port *)
  | PanicIntn.       (* rand.Intn panics on a range that is not positive *)

Definition maxAttempts : nat := 100.

(** The second critical section: re-check, then store. *)
Definition RegisterTCP_commit (port : Z) (session : loc) (tm : TunnelManager)
    : TunnelManager * bool :=
  match tcpTunnels tm !! port with
  | Some _ => (tm, false)
  | None => (with_tcp (insert port session) tm, true)
  end.

Fixpoint RegisterTCP_loop (attempts : list attempt) (session : loc) (tm : TunnelManager)
    : TunnelManager * list effect * result tcp_error Z :=
  match attempts with
  | [] => (tm, [], Err ErrNoPort)
  | a :: attempts =>
      if portMax tm - portMin tm + 1 <=? 0 then (tm, [], Err PanicIntn)
      else
        let port := portMin tm + at_draw a in
        let tm := at_before a tm in
        match tcpTunnels tm !! port with
        | Some _ => RegisterTCP_loop attempts session tm
        | None =>
            match at_listen a with
            | None => RegisterTCP_loop attempts session tm
            | Some ln =>
                let tm := update session (set_TCP port ln (at_now a)) tm in
                let tm := at_between a tm in
                match RegisterTCP_commit port session tm with
                | (tm, true) => (tm, [OpenListener ln], Ok port)
                | (tm, false) =>
                    let '(tm, effs, r) := RegisterTCP_loop attempts session tm in
                    (tm, OpenListener ln :: CloseListener ln :: effs, r)
                end
            end
        end
  end.

(** [RegisterTCP]: [attempt_at i] is what attempt [i] meets. *)
Definition RegisterTCP (attempt_at : nat -> attempt) (session : loc) (tm : TunnelManager)
    : TunnelManager * list effect * result tcp_error Z :=
  RegisterTCP_loop (attempt_at <$> seq 0 maxAttempts) session tm.

(** [UnregisterHTTP] *)
Definition UnregisterHTTP (subdomain : string) (tm : TunnelManager) : TunnelManager :=
  with_http (delete subdomain) tm.

(** [ReserveHTTP] *)
Definition ReserveHTTP (now ttl : Z) (subdomain : string) (tm : TunnelManager) : TunnelManager :=
  match httpTunnels tm !! subdomain with
  | Some l => update l (set_Reserved (now + ttl)) tm
  | None => tm
  end.

(** [UnregisterTCP] *)
Definition UnregisterTCP (port : Z) (tm : TunnelManager) : TunnelManager * list effect :=
  (with_tcp (delete port) tm,
   match tcpTunnels tm !! port with
   | Some l => close_listener (ts_Listener (deref tm l))
   | None => []
   end).

(** [LookupHTTP] *)
Definition LookupHTTP (subdomain : string) (tm : TunnelManager) : option loc :=
  match httpTunnels tm !! subdomain with
  | None => None
  | Some l => if ts_Reserved (deref tm l) then None else Some l
  end.

(** [LookupTCP] *)
Definition LookupTCP (port : Z) (tm : TunnelManager) : option loc := tcpTunnels tm !! port.

Section Ranging.
Context `{!RangeOrder string, !RangeOrder Z}.

(** The values of a map in the order of its iteration. *)
Definition http_list (tm : TunnelManager) : list loc := (range (httpTunnels tm)).*2.
Definition tcp_list (tm : TunnelManager) : list loc := (range (tcpTunnels tm)).*2.

(** [SessionTunnels] *)
Definition SessionTunnels (ySession : session_id) (tm : TunnelManager) : list loc :=
  let owned l := bool_decide (ts_Session (deref tm l) = Some ySession) in
  List.filter owned (http_list tm) ++ List.filter owned (tcp_list tm).

(** One tick of [reservationReaper]: deleting the entry an iteration stands
    on does not disturb it. *)
Definition reaper_tick (now : Z) (tm : TunnelManager) : TunnelManager :=
  let expired l := ts_Reserved (deref tm l) && (ts_ReservedUntil (deref tm l) <? now) in
  with_http (fun m =>
    foldl (fun m e => if expired e.2 then delete e.1 m else m) m (range m)) tm.

Record DashboardStats := {
  ActiveHTTP : Z;
  ActiveTCP : Z;
  TotalTunnels : Z;
  StatsBytesIn : Z;
  StatsBytesOut : Z;
}.

(** [Stats]; byte counters are int64. *)
Definition Stats (tm : TunnelManager) : DashboardStats :=
  let s := {| ActiveHTTP := 0; ActiveTCP := 0; TotalTunnels := 0;
              StatsBytesIn := 0; StatsBytesOut := 0 |} in
  let s := foldl (fun s l =>
    let t := deref tm l in
    if ts_Reserved t then s
    else {| ActiveHTTP := ActiveHTTP s + 1; ActiveTCP := ActiveTCP s;
            TotalTunnels := TotalTunnels s;
            StatsBytesIn := int64 (StatsBytesIn s + ts_BytesIn t);
            StatsBytesOut := int64 (StatsBytesOut s + ts_BytesOut t) |}) s (http_list tm) in
  let s := foldl (fun s l =>
    let t := deref tm l in
    {| ActiveHTTP := ActiveHTTP s; ActiveTCP := ActiveTCP s + 1;
       TotalTunnels := TotalTunnels s;
       StatsBytesIn := int64 (StatsBytesIn s + ts_BytesIn t);
       StatsBytesOut := int64 (StatsBytesOut s + ts_BytesOut t) |}) s (tcp_list tm) in
  {| ActiveHTTP := ActiveHTTP s; ActiveTCP := ActiveTCP s;
     TotalTunnels := ActiveHTTP s + ActiveTCP s;
     StatsBytesIn := StatsBytesIn s; StatsBytesOut := StatsBytesOut s |}.

(** [ListTunnels] *)
Definition ListTunnels (tm : TunnelManager) : list loc :=
  List.filter (fun l => negb (ts_Reserved (deref tm l))) (http_list tm) ++ tcp_list tm.

(** [dashboard.TunnelStats]; [Uptime] is the whole seconds since creation. *)
Record TunnelStats := {
  st_ID : string;
  st_Type : string;
  st_Subdomain : string;
  st_Port : Z;
  st_LocalPort : Z;
  st_Token : string;
  st_Uptime : Z;
  st_BytesIn : Z;
  st_BytesOut : Z;
  st_CreatedAt : Z;
}.

Definition tunnel_stats (now : Z) (t : TunnelSession) : TunnelStats := {|
  st_ID := ts_ID t; st_Type := ts_Type t; st_Subdomain := ts_Subdomain t;
  st_Port := ts_Port t; st_LocalPort := ts_LocalPort t;
  st_Token := maskToken (ts_Token t);
  st_Uptime := Z.quot (now - ts_CreatedAt t) Second * Second;
  st_BytesIn := ts_BytesIn t; st_BytesOut := ts_BytesOut t;
  st_CreatedAt := ts_CreatedAt t
|}.

(** [ListTunnelsForDashboard] *)
Definition ListTunnelsForDashboard (now : Z) (tm : TunnelManager) : list TunnelStats :=
  (fun l => tunnel_stats now (deref tm l)) <$> ListTunnels tm.

(** [TunnelsForToken] *)
Definition TunnelsForToken (now : Z) (token : string) (tm : TunnelManager) : list TunnelStats :=
  (fun l => tunnel_stats now (deref tm l)) <$>
    List.filter (fun l => String.eqb (ts_Token (deref tm l)) token) (ListTunnels tm).

(** [TunnelsForAnon] *)
Definition TunnelsForAnon (token : string) (tm : TunnelManager) : list loc :=
  List.filter (fun l => String.eqb (ts_Token (deref tm l)) token
                        && negb (ts_Reserved (deref tm l))) (http_list tm) ++
  List.filter (fun l => String.eqb (ts_Token (deref tm l)) token) (tcp_list tm).

(** [KillTunnelByID] *)
Definition KillTunnelByID (id : string) (tm : TunnelManager)
    : TunnelManager * list effect * bool :=
  let has_id {K} (e : K * loc) := String.eqb (ts_ID (deref tm e.2)) id in
  match first_such has_id (range (httpTunnels tm)) with
  | Some (sub, l) =>
      (with_http (delete sub) tm, close_session (ts_Session (deref tm l)), true)
  | None =>
      match first_such has_id (range (tcpTunnels tm)) with
      | Some (port, l) =>
          (with_tcp (delete port) tm,
           close_listener (ts_Listener (deref tm l)) ++ close_session (ts_Session (deref tm l)),
           true)
      | None => (tm, [], false)
      end
  end.

(** One tick of [StartAnonymousExpiry]: collect the IDs under the read lock,
    then kill them one by one. *)
Definition expiry_targets (now ttl : Z) (tm : TunnelManager) : list string :=
  let old t := is_anon (ts_Token t) && (ttl <? now - ts_CreatedAt t) in
  (fun l => ts_ID (deref tm l)) <$>
    (List.filter (fun l => old (deref tm l) && negb (ts_Reserved (deref tm l))) (http_list tm) ++
     List.filter (fun l => old (deref tm l)) (tcp_list tm)).

Definition kill_all (ids : list string) (tm : TunnelManager) : TunnelManager * list effect :=
  foldl (fun '(tm, effs) id => let '(tm, e, _) := KillTunnelByID id tm in (tm, effs ++ e))
        (tm, []) ids.

Definition expiry_tick (now ttl : Z) (tm : TunnelManager) : TunnelManager * list effect :=
  kill_all (expiry_targets now ttl tm) tm.
End Ranging.

(** ** Lemmas on the store *)

Lemma deref_update_ne tm l l' f : l <> l' -> deref (update l f tm) l' = deref tm l'.
Proof. intros H. unfold deref. simpl. by rewrite lookup_alter_ne. Qed.

Lemma lookup_update_eq tm l f s :
  objects tm !! l = Some s -> objects (update l f tm) !! l = Some (f s).
Proof. intros H. simpl. by rewrite lookup_alter_eq, H. Qed.

Lemma deref_lookup tm l s : objects tm !! l = Some s -> deref tm l = s.
Proof. intros H. unfold deref. by rewrite H. Qed.

Lemma deref_with_http tm f l : deref (with_http f tm) l = deref tm l.
Proof. done. Qed.
Lemma deref_with_tcp tm f l : deref (with_tcp f tm) l = deref tm l.
Proof. done. Qed.
#[export] Hint Rewrite deref_with_http deref_with_tcp : htn.

(** ** The registry invariant *)

(** Every entry of [httpTunnels] points to an HTTP tunnel that carries the
    subdomain it is filed under, a valid one; every entry of [tcpTunnels] points
    to a TCP tunnel that carries its port, in the configured range, with its
    listener. *)
Record http_entry (sub : string) (s : TunnelSession) : Prop := {
  he_type : ts_Type s = "http"%string;
  he_sub : ts_Subdomain s = sub;
  he_valid : ValidateSubdomain sub = None;
}.

Record tcp_entry (lo hi p : Z) (s : TunnelSession) : Prop := {
  te_type : ts_Type s = "tcp"%string;
  te_port : ts_Port s = p;
  te_range : lo <= p <= hi;
  te_listener : is_Some (ts_Listener s);
  te_active : ts_Reserved s = false;
}.

Record wf (tm : TunnelManager) : Prop := {
  wf_http sub l : httpTunnels tm !! sub = Some l ->
    exists s, objects tm !! l = Some s /\ http_entry sub s;
  wf_tcp p l : tcpTunnels tm !! p = Some l ->
    exists s, objects tm !! l = Some s /\ tcp_entry (portMin tm) (portMax tm) p s;
}.

(** No map points to [l]: the object is still private to its creator. *)
Definition unlinked (l : loc) (tm : TunnelManager) : Prop :=
  (forall sub, httpTunnels tm !! sub <> Some l) /\ (forall p, tcpTunnels tm !! p <> Some l).

(** An object is filed at most once. *)
Lemma wf_http_inj tm sub1 sub2 l :
  wf tm -> httpTunnels tm !! sub1 = Some l -> httpTunnels tm !! sub2 = Some l -> sub1 = sub2.
Proof.
  intros Hwf H1 H2. apply (wf_http _ Hwf) in H1 as (s & Hs & [_ <- _]).
  apply (wf_http _ Hwf) in H2 as (s' & Hs' & [_ <- _]). congruence.
Qed.

Lemma wf_tcp_inj tm p1 p2 l :
  wf tm -> tcpTunnels tm !! p1 = Some l -> tcpTunnels tm !! p2 = Some l -> p1 = p2.
Proof.
  intros Hwf H1 H2. apply (wf_tcp _ Hwf) in H1 as (s & Hs & []).
  apply (wf_tcp _ Hwf) in H2 as (s' & Hs' & []). congruence.
Qed.

Lemma wf_disjoint tm sub p l :
  wf tm -> httpTunnels tm !! sub = Some l -> tcpTunnels tm !! p <> Some l.
Proof.
  intros Hwf H1 H2. apply (wf_http _ Hwf) in H1 as (s & Hs & []).
  apply (wf_tcp _ Hwf) in H2 as (s' & Hs' & []). congruence.
Qed.

Lemma wf_new lo hi : wf (NewTunnelManager lo hi).
Proof. split; simpl; intros ?? H; by rewrite lookup_empty in H. Qed.

Lemma wf_shrink_http tm f :
  wf tm -> (forall sub l, f (httpTunnels tm) !! sub = Some l -> httpTunnels tm !! sub = Some l) ->
  wf (with_http f tm).
Proof. intros [H1 H2] Hf. split; simpl; eauto. Qed.

Lemma wf_shrink_tcp tm f :
  wf tm -> (forall p l, f (tcpTunnels tm) !! p = Some l -> tcpTunnels tm !! p = Some l) ->
  wf (with_tcp f tm).
Proof. intros [H1 H2] Hf. split; simpl; eauto. Qed.

Lemma lookup_delete_inv `{Countable K} {A} (m : gmap K A) (i j : K) x :
  delete i m !! j = Some x -> m !! j = Some x /\ i <> j.
Proof. rewrite lookup_delete_Some. tauto. Qed.

Lemma wf_insert_http tm sub l s :
  wf tm -> objects tm !! l = Some s -> http_entry sub s ->
  wf (with_http (insert sub l) tm).
Proof.
  intros [H1 H2] Hs He. split; simpl; [|done].
  intros sub' l'. rewrite lookup_insert_Some. intros [[<- <-]|[_ ?]]; eauto.
Qed.

Lemma wf_insert_tcp tm p l s :
  wf tm -> objects tm !! l = Some s -> tcp_entry (portMin tm) (portMax tm) p s ->
  wf (with_tcp (insert p l) tm).
Proof.
  intros [H1 H2] Hs He. split; simpl; [done|].
  intros p' l'. rewrite lookup_insert_Some. intros [[<- <-]|[_ ?]]; eauto.
Qed.

Lemma wf_update_unlinked tm l f : wf tm -> unlinked l tm -> wf (update l f tm).
Proof.
  intros [H1 H2] [Hh Ht]. split; simpl.
  - intros sub l' Hl. destruct (H1 _ _ Hl) as (s & Hs & He). exists s.
    rewrite lookup_alter_ne by (intros <-; by eapply Hh). done.
  - intros p l' Hl. destruct (H2 _ _ Hl) as (s & Hs & He). exists s.
    rewrite lookup_alter_ne by (intros <-; by eapply Ht). done.
Qed.

Lemma wf_alloc tm l s : wf tm -> objects tm !! l = None -> wf (alloc l s tm).
Proof.
  intros [H1 H2] Hl. split; simpl; intros k l' Hk.
  - destruct (H1 _ _ Hk) as (t & Ht & He). exists t.
    rewrite lookup_insert_ne by congruence. done.
  - destruct (H2 _ _ Hk) as (t & Ht & He). exists t.
    rewrite lookup_insert_ne by congruence. done.
Qed.

Lemma wf_unlinked_fresh tm l : wf tm -> objects tm !! l = None -> unlinked l tm.
Proof.
  intros Hwf Hl. split; intros k Hk.
  - apply (wf_http _ Hwf) in Hk as (? & ? & _). congruence.
  - apply (wf_tcp _ Hwf) in Hk as (? & ? & _). congruence.
Qed.

#[export] Hint Resolve wf_new wf_shrink_http wf_shrink_tcp wf_update_unlinked wf_alloc
  wf_unlinked_fresh : htn.

(** ** Registration over HTTP *)

(** When a caller may register [session] under [sub]. *)
Definition may_claim (now : Z) (sub : string) (session : loc) (tm : TunnelManager) : Prop :=
  match httpTunnels tm !! sub with
  | None => True
  | Some l => ts_Reserved (deref tm l) = true /\
              ts_Token (deref tm l) = ts_Token (deref tm session) /\
              now < ts_ReservedUntil (deref tm l)
  end.

Lemma RegisterHTTP_cases now sub session tm :
  (ValidateSubdomain sub = None /\ may_claim now sub session tm /\
   RegisterHTTP now sub session tm =
     (with_http (insert sub session) (update session (set_CreatedAt now) tm), None)) \/
  ((ValidateSubdomain sub <> None \/ ~ may_claim now sub session tm) /\
   exists e, RegisterHTTP now sub session tm = (tm, Some e)).
Proof.
  unfold RegisterHTTP, may_claim. destruct (ValidateSubdomain sub) as [e|]; [right; eauto|].
  destruct (httpTunnels tm !! sub) as [l|]; [|by left].
  destruct (_ && _) eqn:E.
  - left. rewrite !andb_true_iff, String.eqb_eq, Z.ltb_lt in E. by destruct E as [[] ].
  - right. split; [|eauto]. right. intros (H1 & H2 & H3).
    rewrite H1, H2, String.eqb_refl, (proj2 (Z.ltb_lt _ _)) in E by done. done.
Qed.

Lemma wf_RegisterHTTP now sub session tm s :
  wf tm -> unlinked session tm -> objects tm !! session = Some s ->
  ts_Type s = "http"%string -> ts_Subdomain s = sub ->
  wf (RegisterHTTP now sub session tm).1.
Proof.
  intros Hwf Hu Hs Ht Hsub.
  destruct (RegisterHTTP_cases now sub session tm) as [(Hv & _ & ->)|(_ & e & ->)]; [|done].
  simpl. eapply wf_insert_http; [by apply wf_update_unlinked | by apply lookup_update_eq |].
  by constructor.
Qed.

(** ** The other operations keep the invariant *)

Lemma wf_UnregisterHTTP sub tm : wf tm -> wf (UnregisterHTTP sub tm).
Proof. intros H. apply wf_shrink_http; [done|]. intros ?? Hd. by apply lookup_delete_inv in Hd as []. Qed.

Lemma wf_UnregisterTCP p tm : wf tm -> wf (UnregisterTCP p tm).1.
Proof. intros H. apply wf_shrink_tcp; [done|]. intros ?? Hd. by apply lookup_delete_inv in Hd as []. Qed.

Lemma wf_ReserveHTTP now ttl sub tm : wf tm -> wf (ReserveHTTP now ttl sub tm).
Proof.
  intros Hwf. unfold ReserveHTTP. destruct (httpTunnels tm !! sub) as [l|] eqn:Hl; [|done].
  split; simpl.
  - intros sub' l' Hl'. destruct (wf_http _ Hwf _ _ Hl') as (s & Hs & []).
    destruct (decide (l = l')) as [<-|].
    + exists (set_Reserved (now + ttl) s). by rewrite lookup_alter_eq, Hs.
    + exists s. by rewrite lookup_alter_ne.
  - intros p l' Hl'. rewrite lookup_alter_ne.
    + by apply (wf_tcp _ Hwf).
    + intros <-. by eapply wf_disjoint.
Qed.

#[export] Hint Resolve wf_UnregisterHTTP wf_UnregisterTCP wf_ReserveHTTP : htn.

Section RangingLemmas.
Context `{!RangeOrder string, !RangeOrder Z}.

Lemma elem_of_http_list tm l : l ∈ http_list tm <-> exists sub, httpTunnels tm !! sub = Some l.
Proof.
  unfold http_list. rewrite list_elem_of_fmap. split.
  - intros ([sub l'] & -> & Hin). apply elem_of_range in Hin. eauto.
  - intros (sub & Hl). exists (sub, l). by rewrite elem_of_range.
Qed.

Lemma elem_of_tcp_list tm l : l ∈ tcp_list tm <-> exists p, tcpTunnels tm !! p = Some l.
Proof.
  unfold tcp_list. rewrite list_elem_of_fmap. split.
  - intros ([p l'] & -> & Hin). apply elem_of_range in Hin. eauto.
  - intros (p & Hl). exists (p, l). by rewrite elem_of_range.
Qed.

(** Deleting along a [range] deletes the entries that satisfy the test. *)
Lemma lookup_delete_along {A} (p : A -> bool) (es : list (string * A)) (m : gmap string A) k :
  NoDup es.*1 -> (forall k v, (k, v) ∈ es -> m !! k = Some v) ->
  foldl (fun m e => if p e.2 then delete e.1 m else m) m es !! k =
    match m !! k with
    | Some v => if bool_decide (k ∈ es.*1) && p v then None else Some v
    | None => None
    end.
Proof.
  revert m. induction es as [|[k' v'] es IH]; intros m Hnd Hes; cbn [foldl fst snd fmap list_fmap].
  - by destruct (m !! k).
  - apply NoDup_cons in Hnd as [Hk' Hnd].
    assert (m !! k' = Some v') as Hm by (apply Hes, list_elem_of_here).
    destruct (p v') eqn:Ep.
    + rewrite IH; [|done|].
      * destruct (decide (k = k')) as [->|Hne].
        -- by rewrite lookup_delete_eq, Hm, bool_decide_true, Ep by apply list_elem_of_here.
        -- rewrite lookup_delete_ne by done.
           rewrite (bool_decide_ext (k ∈ k' :: es.*1) (k ∈ es.*1)); [done|].
           rewrite elem_of_cons. tauto.
      * intros k0 v0 Hin. rewrite lookup_delete_ne; [by apply Hes, list_elem_of_further|].
        intros ->. apply Hk'. by apply (list_elem_of_fmap_2 fst) in Hin.
    + rewrite IH; [|done|].
      * destruct (decide (k = k')) as [->|Hne].
        -- by rewrite Hm, Ep, !andb_false_r.
        -- rewrite (bool_decide_ext (k ∈ k' :: es.*1) (k ∈ es.*1)); [done|].
           rewrite elem_of_cons. tauto.
      * intros k0 v0 Hin. by apply Hes, list_elem_of_further.
Qed.

Lemma lookup_reaper_tick now tm sub :
  httpTunnels (reaper_tick now tm) !! sub =
    match httpTunnels tm !! sub with
    | Some l => if ts_Reserved (deref tm l) && (ts_ReservedUntil (deref tm l) <? now)
                then None else Some l
    | None => None
    end.
Proof.
  unfold reaper_tick, with_http. cbn [httpTunnels].
  rewrite (lookup_delete_along
    (fun l => ts_Reserved (deref tm l) && (ts_ReservedUntil (deref tm l) <? now))).
  - destruct (httpTunnels tm !! sub) as [l|] eqn:E; [|done].
    rewrite bool_decide_true; [done|]. apply list_elem_of_fmap.
    exists (sub, l). by rewrite elem_of_range.
  - apply NoDup_fst_range.
  - intros k v. by rewrite elem_of_range.
Qed.

Lemma wf_reaper_tick now tm : wf tm -> wf (reaper_tick now tm).
Proof.
  intros Hwf. apply wf_shrink_http; [done|]. intros sub l Hl.
  change (httpTunnels (reaper_tick now tm) !! sub = Some l) in Hl.
  rewrite lookup_reaper_tick in Hl. cases_in Hl; congruence.
Qed.

Lemma wf_KillTunnelByID id tm : wf tm -> wf (KillTunnelByID id tm).1.1.
Proof.
  intros Hwf. unfold KillTunnelByID.
  destruct (first_such _ (range (httpTunnels tm))) as [[sub l]|];
    [|destruct (first_such _ (range (tcpTunnels tm))) as [[p l]|]]; simpl; [| |done].
  - by apply wf_UnregisterHTTP.
  - by apply (wf_UnregisterTCP p).
Qed.

Lemma wf_expiry_tick now ttl tm : wf tm -> wf (expiry_tick now ttl tm).1.
Proof.
  unfold expiry_tick, kill_all. generalize (expiry_targets now ttl tm) as ids.
  generalize (@nil effect) as effs. intros effs ids. revert effs tm.
  induction ids as [|id ids IH]; intros effs tm Hwf; simpl; [done|].
  pose proof (wf_KillTunnelByID id tm Hwf) as Hk.
  destruct (KillTunnelByID id tm) as [[tm' e] b]; simpl in *. by apply IH.
Qed.
End RangingLemmas.
#[export] Hint Resolve wf_reaper_tick wf_KillTunnelByID wf_expiry_tick : htn.

(** ** Allocation of TCP ports *)

(** What other goroutines may do to the registry while [session] is private to
    the goroutine that registers it: keep the invariant, leave the object and
    the configured range alone, and not file the object. *)
Definition others_ok (session : loc) (f : TunnelManager -> TunnelManager) : Prop :=
  forall tm, wf tm -> unlinked session tm ->
    wf (f tm) /\ unlinked session (f tm) /\
    objects (f tm) !! session = objects tm !! session /\
    portMin (f tm) = portMin tm /\ portMax (f tm) = portMax tm.

Definition attempt_ok (session : loc) (tm : TunnelManager) (a : attempt) : Prop :=
  0 <= at_draw a < portMax tm - portMin tm + 1 /\
  others_ok session (at_before a) /\ others_ok session (at_between a).

(** A TCP session not filed yet. *)
Definition private_tcp (session : loc) (tm : TunnelManager) : Prop :=
  unlinked session tm /\
  exists s, objects tm !! session = Some s /\ ts_Type s = "tcp"%string /\ ts_Reserved s = false.

(** The listeners left open by a sequence of effects. *)
Definition listeners_open (effs : list effect) : gset listener_id :=
  foldl (fun s e => match e with
    | OpenListener ln => {[ln]} ∪ s
    | CloseListener ln => s ∖ {[ln]}
    | CloseSession _ => s
    end) ∅ effs.

Lemma listeners_open_retry ln effs :
  listeners_open (OpenListener ln :: CloseListener ln :: effs) = listeners_open effs.
Proof.
  unfold listeners_open. simpl. f_equal. apply leibniz_equiv. intros x. rewrite elem_of_difference, elem_of_union, elem_of_singleton.
  split; [tauto | intros Hx; by apply not_elem_of_empty in Hx].
Qed.

(** What [RegisterTCP] promises. *)
Definition RegisterTCP_post (session : loc) (lo hi : Z)
    (res : TunnelManager * list effect * result tcp_error Z) : Prop :=
  let '(tm', effs, r) := res in
  wf tm' /\ portMin tm' = lo /\ portMax tm' = hi /\
  match r with
  | Ok port => lo <= port <= hi /\ tcpTunnels tm' !! port = Some session /\
      ts_Port (deref tm' session) = port /\
      exists ln, ts_Listener (deref tm' session) = Some ln /\ listeners_open effs = {[ln]}
  | Err ErrNoPort => private_tcp session tm' /\ listeners_open effs = ∅
  | Err PanicIntn => hi < lo
  end.

Lemma private_tcp_others session f tm :
  others_ok session f -> wf tm -> private_tcp session tm ->
  wf (f tm) /\ private_tcp session (f tm) /\ portMin (f tm) = portMin tm /\ portMax (f tm) = portMax tm.
Proof.
  intros Hf Hwf [Hu (s & Hs & ?)]. destruct (Hf tm Hwf Hu) as (? & ? & Ho & ? & ?).
  split_and!; try done. split; [done|]. exists s. by rewrite Ho.
Qed.

Lemma private_tcp_update session port ln now tm :
  private_tcp session tm -> private_tcp session (update session (set_TCP port ln now) tm).
Proof.
  intros [[Hh Ht] (s & Hs & ? & ?)]. split; [done|].
  exists (set_TCP port ln now s). split; [by apply lookup_update_eq | done].
Qed.

Lemma RegisterTCP_commit_post session lo hi port ln s tm :
  wf tm -> unlinked session tm -> portMin tm = lo -> portMax tm = hi -> lo <= port <= hi ->
  objects tm !! session = Some s -> ts_Type s = "tcp"%string -> ts_Reserved s = false ->
  ts_Port s = port -> ts_Listener s = Some ln ->
  match RegisterTCP_commit port session tm with
  | (tm', true) => RegisterTCP_post session lo hi (tm', [OpenListener ln], Ok port)
  | (tm', false) => tm' = tm
  end.
Proof.
  intros Hwf Hu Hlo Hhi Hp Hs Hty Hre Hport Hln. unfold RegisterTCP_commit.
  destruct (tcpTunnels tm !! port) eqn:E; [done|].
  pose proof Hp as [Hp1 Hp2]. unfold RegisterTCP_post. split_and!; try done.
  - eapply wf_insert_tcp; [done..|]. subst. by constructor.
  - apply lookup_insert_eq.
  - by rewrite deref_with_tcp, (deref_lookup _ _ _ Hs).
  - exists ln. rewrite deref_with_tcp, (deref_lookup _ _ _ Hs). split; [done|].
    unfold listeners_open. simpl. by rewrite union_empty_r_L.
Qed.

Lemma RegisterTCP_loop_post session lo hi attempts tm :
  wf tm -> private_tcp session tm -> portMin tm = lo -> portMax tm = hi ->
  Forall (attempt_ok session tm) attempts ->
  RegisterTCP_post session lo hi (RegisterTCP_loop attempts session tm).
Proof.
  intros Hwf Hpriv Hlo Hhi Hatt.
  assert (Forall (fun a => 0 <= at_draw a < hi - lo + 1 /\
    others_ok session (at_before a) /\ others_ok session (at_between a)) attempts) as Hall.
  { subst. exact Hatt. }
  clear Hatt. revert tm Hwf Hpriv Hlo Hhi.
  induction Hall as [|a attempts (Hd & Hb & Hbt) Hall IH]; intros tm Hwf Hpriv Hlo Hhi;
    cbn [RegisterTCP_loop]; [done|].
  destruct (_ <=? 0) eqn:Er.
  { apply Z.leb_le in Er. split_and!; try done. simpl. lia. }
  destruct (private_tcp_others _ _ _ Hb Hwf Hpriv) as (Hwf1 & Hpriv1 & Hm1 & HM1).
  cbv zeta. set (port := portMin tm + at_draw a). set (tm1 := at_before a tm) in *.
  destruct (tcpTunnels tm1 !! port); [apply IH; congruence|].
  destruct (at_listen a) as [ln|]; [|apply IH; congruence].
  set (tm2 := update session (set_TCP port ln (at_now a)) tm1).
  assert (private_tcp session tm2) as Hpriv2 by by apply private_tcp_update.
  assert (wf tm2) as Hwf2 by (apply wf_update_unlinked; [done | apply Hpriv1]).
  destruct (private_tcp_others _ _ _ Hbt Hwf2 Hpriv2) as (Hwf3 & Hpriv3 & Hm3 & HM3).
  destruct (Hbt tm2 Hwf2 (proj1 Hpriv2)) as (_ & _ & Ho & _).
  destruct (proj2 Hpriv1) as (s & Hs & Hty & Hre).
  apply (lookup_update_eq _ _ (set_TCP port ln (at_now a))) in Hs.
  set (tm3 := at_between a tm2) in *.
  assert (portMin tm3 = lo) as Hlo3 by (simpl in *; congruence).
  assert (portMax tm3 = hi) as Hhi3 by (simpl in *; congruence).
  pose proof (RegisterTCP_commit_post session lo hi port ln (set_TCP port ln (at_now a) s) tm3
    Hwf3 (proj1 Hpriv3) Hlo3 Hhi3 ltac:(lia) ltac:(by rewrite Ho) Hty Hre eq_refl eq_refl) as Hc.
  destruct (RegisterTCP_commit port session tm3) as [tm4 []]; [done|]. subst tm4.
  specialize (IH tm3 Hwf3 Hpriv3 Hlo3 Hhi3).
  destruct (RegisterTCP_loop attempts session tm3) as [[tm5 effs] r].
  unfold RegisterTCP_post in *. by rewrite listeners_open_retry.
Qed.

(** ** The registry under every sequence of operations *)

Section Properties.
Context `{!RangeOrder string, !RangeOrder Z}.

(** One operation of the registry by some goroutine.  A goroutine mutates the
    fields of a [TunnelSession] other than the reservation and the counters
    only before the object is filed. *)
Inductive tm_step (tm : TunnelManager) : TunnelManager -> Prop :=
  | tm_alloc l s : objects tm !! l = None -> tm_step tm (alloc l s tm)
  | tm_subdomain l sub : unlinked l tm -> tm_step tm (update l (set_Subdomain sub) tm)
  | tm_RegisterHTTP now sub l s :
      unlinked l tm -> objects tm !! l = Some s -> ts_Type s = "http"%string ->
      ts_Subdomain s = sub -> tm_step tm (RegisterHTTP now sub l tm).1
  | tm_RegisterTCP attempt_at l :
      private_tcp l tm -> (forall i, attempt_ok l tm (attempt_at i)) ->
      tm_step tm (RegisterTCP attempt_at l tm).1.1
  | tm_UnregisterHTTP sub : tm_step tm (UnregisterHTTP sub tm)
  | tm_UnregisterTCP p : tm_step tm (UnregisterTCP p tm).1
  | tm_ReserveHTTP now ttl sub : tm_step tm (ReserveHTTP now ttl sub tm)
  | tm_reaper now : tm_step tm (reaper_tick now tm)
  | tm_kill id : tm_step tm (KillTunnelByID id tm).1.1
  | tm_expiry now ttl : tm_step tm (expiry_tick now ttl tm).1.

Lemma wf_RegisterTCP attempt_at l tm :
  wf tm -> private_tcp l tm -> (forall i, attempt_ok l tm (attempt_at i)) ->
  RegisterTCP_post l (portMin tm) (portMax tm) (RegisterTCP attempt_at l tm).
Proof.
  intros Hwf Hp Ha. apply RegisterTCP_loop_post; try done.
  apply Forall_fmap, Forall_forall. intros i _. apply Ha.
Qed.

Lemma tm_step_wf tm tm' : wf tm -> tm_step tm tm' -> wf tm'.
Proof.
  intros Hwf Hs. destruct Hs; eauto using wf_RegisterHTTP with htn.
  pose proof (wf_RegisterTCP attempt_at l tm Hwf H H0) as Hpost.
  destruct (RegisterTCP attempt_at l tm) as [[tm' effs] r]. apply Hpost.
Qed.

(** C6: whatever operations goroutines perform on the registry, in whatever
    order and with whatever iteration order, every entry stays filed under
    the valid subdomain (or the in-range port) that its object carries, and
    every TCP entry has its listener. *)
Theorem registry_wf lo hi tm :
  reachable (fun tm => tm = NewTunnelManager lo hi) tm_step tm -> wf tm.
Proof.
  apply reachable_invariant; [|by apply tm_step_wf]. intros ? ->. apply wf_new.
Qed.

(** C7: [RegisterHTTP] succeeds exactly when the subdomain is valid and either
    free or held by a live reservation of the same token; then the subdomain,
    and no other, points to the new session.  Otherwise it reports why and
    changes nothing: an active tunnel is never displaced. *)
Theorem RegisterHTTP_spec now sub l tm tm' r :
  RegisterHTTP now sub l tm = (tm', r) ->
  match r with
  | None =>
      ValidateSubdomain sub = None /\ may_claim now sub l tm /\
      httpTunnels tm' = <[sub := l]> (httpTunnels tm) /\ tcpTunnels tm' = tcpTunnels tm /\
      objects tm' = alter (set_CreatedAt now) l (objects tm)
  | Some (ErrInvalid e) => tm' = tm /\ ValidateSubdomain sub = Some e
  | Some (ErrInUse sub') => tm' = tm /\ sub' = sub /\ ~ may_claim now sub l tm
  end.
Proof.
  unfold RegisterHTTP, may_claim.
  destruct (ValidateSubdomain sub) as [e|]; [by intros [= <- <-]|].
  destruct (httpTunnels tm !! sub) as [l'|]; [|by intros [= <- <-]].
  destruct (_ && _) eqn:E; intros [= <- <-].
  - rewrite !andb_true_iff, String.eqb_eq, Z.ltb_lt in E. by destruct E as [[] ].
  - split_and!; [done..|]. intros (H1 & H2 & H3).
    by rewrite H1, H2, String.eqb_refl, (proj2 (Z.ltb_lt _ _)) in E.
Qed.

(** C13: [RegisterTCP] gives out a port of the configured range that is then
    filed under this session only, with exactly its listener left open; when
    it gives up after 100 attempts it leaves no listener open and the session
    unfiled, whatever the other goroutines did in between; it panics only on
    an empty range. *)
Theorem RegisterTCP_spec attempt_at l tm :
  wf tm -> private_tcp l tm -> (forall i, attempt_ok l tm (attempt_at i)) ->
  RegisterTCP_post l (portMin tm) (portMax tm) (RegisterTCP attempt_at l tm).
Proof. apply wf_RegisterTCP. Qed.

(** One tick of the reaper removes exactly the reservations that have
    expired: active tunnels and live reservations stay. *)
Theorem reaper_tick_spec now tm sub l :
  httpTunnels (reaper_tick now tm) !! sub = Some l <->
  httpTunnels tm !! sub = Some l /\
  (ts_Reserved (deref tm l) = false \/ now <= ts_ReservedUntil (deref tm l)).
Proof.
  rewrite lookup_reaper_tick.
  destruct (httpTunnels tm !! sub) as [l'|]; [|by split; [|intros [? _]]].
  destruct (ts_Reserved (deref tm l')) eqn:Er; simpl.
  - destruct (Z.ltb_spec (ts_ReservedUntil (deref tm l')) now).
    + split; [done|]. intros [[= <-] [?|?]]; [congruence | lia].
    + split; [intros [= <-]; split; [done | right; lia] | by intros [[= <-] _]].
  - split; [intros [= <-]; auto | by intros [[= <-] _]].
Qed.

(** ** Killing tunnels *)

Definition linked (l : loc) (tm : TunnelManager) : Prop :=
  (exists sub, httpTunnels tm !! sub = Some l) \/ (exists p, tcpTunnels tm !! p = Some l).

Lemma KillTunnelByID_cases id tm tm' effs b :
  KillTunnelByID id tm = (tm', effs, b) ->
  if b then
    exists l, ts_ID (deref tm l) = id /\
      ((exists sub, httpTunnels tm !! sub = Some l /\ tm' = UnregisterHTTP sub tm /\
                    effs = close_session (ts_Session (deref tm l))) \/
       (exists p, tcpTunnels tm !! p = Some l /\ tm' = (UnregisterTCP p tm).1 /\
                  effs = (UnregisterTCP p tm).2 ++ close_session (ts_Session (deref tm l))))
  else tm' = tm /\ effs = [] /\ forall l, linked l tm -> ts_ID (deref tm l) <> id.
Proof.
  unfold KillTunnelByID, UnregisterTCP.
  destruct (first_such _ (range (httpTunnels tm))) as [[sub l]|] eqn:E1.
  { intros [= <- <- <-]. apply first_such_Some in E1 as [Hin Hid].
    apply elem_of_range in Hin. apply String.eqb_eq in Hid. simpl in Hid. eauto 10. }
  destruct (first_such _ (range (tcpTunnels tm))) as [[p l]|] eqn:E2; intros [= <- <- <-].
  { apply first_such_Some in E2 as [Hin Hid].
    apply elem_of_range in Hin. apply String.eqb_eq in Hid. simpl in Hid.
    exists l. split; [done|]. right. exists p. by rewrite Hin. }
  split_and!; [done..|].
  intros l [[k Hk]|[k Hk]]; apply elem_of_range in Hk.
  - rewrite first_such_None in E1. by apply E1, String.eqb_neq in Hk.
  - rewrite first_such_None in E2. by apply E2, String.eqb_neq in Hk.
Qed.


(** [KillTunnelByID] reports [true] exactly when a tunnel carries the ID;
    it then removes one such tunnel and closes its listener and its session,
    and otherwise it changes and closes nothing. *)
Theorem KillTunnelByID_spec id tm tm' effs b :
  KillTunnelByID id tm = (tm', effs, b) ->
  if b then
    exists l, ts_ID (deref tm l) = id /\
      ((exists sub, httpTunnels tm !! sub = Some l /\ tm' = UnregisterHTTP sub tm /\
                    effs = close_session (ts_Session (deref tm l))) \/
       (exists p, tcpTunnels tm !! p = Some l /\ tm' = (UnregisterTCP p tm).1 /\
                  effs = (UnregisterTCP p tm).2 ++ close_session (ts_Session (deref tm l))))
  else tm' = tm /\ effs = [] /\ forall l, linked l tm -> ts_ID (deref tm l) <> id.
Proof. apply KillTunnelByID_cases. Qed.

(** No two tunnels carry one ID ([randomHex] draws 64 random bits). *)
Definition unique_ids (tm : TunnelManager) : Prop :=
  forall l1 l2, linked l1 tm -> linked l2 tm ->
    ts_ID (deref tm l1) = ts_ID (deref tm l2) -> l1 = l2.

Lemma objects_Kill id tm : objects (KillTunnelByID id tm).1.1 = objects tm.
Proof.
  unfold KillTunnelByID.
  destruct (first_such _ (range (httpTunnels tm))) as [[]|]; [done|].
  by destruct (first_such _ (range (tcpTunnels tm))) as [[]|].
Qed.

Lemma linked_UnregisterHTTP tm sub l0 l :
  wf tm -> httpTunnels tm !! sub = Some l0 ->
  linked l (UnregisterHTTP sub tm) <-> linked l tm /\ l <> l0.
Proof.
  intros Hwf Hl0. unfold linked. simpl. split.
  - intros [[s Hs]|[p Hp]].
    + apply lookup_delete_inv in Hs as [Hs Hne]. split; [eauto|].
      intros ->. apply Hne. by eapply wf_http_inj.
    + split; [eauto|]. intros ->. by eapply wf_disjoint.
  - intros [[[s Hs]|[p Hp]] Hne]; [left; exists s | right; eauto].
    rewrite lookup_delete_ne; [done|]. intros <-. congruence.
Qed.

Lemma linked_UnregisterTCP tm p l0 l :
  wf tm -> tcpTunnels tm !! p = Some l0 ->
  linked l (UnregisterTCP p tm).1 <-> linked l tm /\ l <> l0.
Proof.
  intros Hwf Hl0. unfold linked. simpl. split.
  - intros [[s Hs]|[q Hq]].
    + split; [eauto|]. intros ->. by eapply wf_disjoint.
    + apply lookup_delete_inv in Hq as [Hq Hne]. split; [eauto|].
      intros ->. apply Hne. by eapply wf_tcp_inj.
  - intros [[[s Hs]|[q Hq]] Hne]; [left; eauto | right; exists q].
    rewrite lookup_delete_ne; [done|]. intros <-. congruence.
Qed.

Lemma linked_Kill id tm l :
  wf tm -> unique_ids tm ->
  linked l (KillTunnelByID id tm).1.1 <-> linked l tm /\ ts_ID (deref tm l) <> id.
Proof.
  intros Hwf Huniq. destruct (KillTunnelByID id tm) as [[tm' effs] b] eqn:E.
  apply KillTunnelByID_cases in E. simpl. destruct b.
  - destruct E as (l0 & Hid & Hcase).
    assert (linked l0 tm) as Hl0.
    { destruct Hcase as [(sub & Hs & _)|(p & Hp & _)]; [left | right]; eauto. }
    transitivity (linked l tm /\ l <> l0).
    + destruct Hcase as [(sub & Hs & -> & _)|(p & Hp & -> & _)].
      * by apply linked_UnregisterHTTP.
      * by apply linked_UnregisterTCP.
    + split; intros [Hl Hne]; (split; [done|]); [|congruence].
      intros Heq. apply Hne, Huniq; congruence.
  - destruct E as (-> & _ & Hno). split; [|tauto]. auto.
Qed.

Lemma unique_ids_shrink tm tm' :
  unique_ids tm -> objects tm' = objects tm -> (forall l, linked l tm' -> linked l tm) ->
  unique_ids tm'.
Proof.
  intros Hu Ho Hs l1 l2 H1 H2. unfold deref. rewrite Ho. apply Hu; auto.
Qed.

Lemma linked_kill_all ids tm effs l :
  wf tm -> unique_ids tm ->
  let tm' := (foldl (fun '(tm, effs) id =>
    let '(tm, e, _) := KillTunnelByID id tm in (tm, effs ++ e)) (tm, effs) ids).1 in
  objects tm' = objects tm /\
  (linked l tm' <-> linked l tm /\ ts_ID (deref tm l) ∉ ids).
Proof.
  revert tm effs. induction ids as [|id ids IH]; intros tm effs Hwf Hu; cbn [foldl].
  - split; [done|]. split; [|tauto]. intros Hl. split; [done | by apply not_elem_of_nil].
  - pose proof (objects_Kill id tm) as Ho. pose proof (linked_Kill id tm) as Hk.
    pose proof (wf_KillTunnelByID id tm Hwf) as Hwf'.
    destruct (KillTunnelByID id tm) as [[tm1 e] b]. simpl in *.
    assert (unique_ids tm1) as Hu1.
    { eapply unique_ids_shrink; [done | done |]. intros l'. rewrite Hk by done. tauto. }
    destruct (IH tm1 (effs ++ e) Hwf' Hu1) as [Ho1 Hl1]. split; [congruence|].
    rewrite Hl1, Hk by done. unfold deref at 2. rewrite Ho. fold (deref tm l).
    rewrite elem_of_cons. tauto.
Qed.

(** A tunnel the expiry goroutine is after: anonymous, not reserved, older
    than the limit. *)
Definition overdue (now ttl : Z) (s : TunnelSession) : Prop :=
  is_anon (ts_Token s) = true /\ ts_Reserved s = false /\ ttl < now - ts_CreatedAt s.

Lemma elem_of_expiry_targets now ttl tm id :
  wf tm ->
  id ∈ expiry_targets now ttl tm <->
  exists l, linked l tm /\ overdue now ttl (deref tm l) /\ ts_ID (deref tm l) = id.
Proof.
  intros Hwf. unfold expiry_targets, overdue, linked.
  rewrite list_elem_of_fmap. setoid_rewrite elem_of_app.
  setoid_rewrite list_elem_of_In. setoid_rewrite filter_In.
  setoid_rewrite <- list_elem_of_In.
  setoid_rewrite elem_of_http_list. setoid_rewrite elem_of_tcp_list.
  setoid_rewrite andb_true_iff. setoid_rewrite andb_true_iff.
  setoid_rewrite negb_true_iff. setoid_rewrite Z.ltb_lt. split.
  - intros (l & -> & [(Hl & (Ha & Ht) & Hr)|(Hl & Ha & Ht)]); [by eauto 10|].
    exists l. split_and!; [eauto | done | | done | done].
    destruct Hl as [p Hp]. apply (wf_tcp _ Hwf) in Hp as (s & Hs & []).
    by rewrite (deref_lookup _ _ _ Hs).
  - intros (l & [Hl|Hl] & (Ha & Hr & Ht) & <-); exists l; eauto 10.
Qed.

(** One tick of the anonymous-expiry goroutine leaves exactly the tunnels
    that are not overdue: no anonymous tunnel older than its limit survives,
    and no other tunnel is lost. *)
Theorem expiry_tick_spec now ttl tm l :
  wf tm -> unique_ids tm ->
  linked l (expiry_tick now ttl tm).1 <->
  linked l tm /\ ~ overdue now ttl (deref tm l).
Proof.
  intros Hwf Hu. unfold expiry_tick, kill_all.
  destruct (linked_kill_all (expiry_targets now ttl tm) tm [] l Hwf Hu) as [_ ->].
  rewrite elem_of_expiry_targets by done. split; intros [Hl Hno]; (split; [done|]).
  - intros Ho. apply Hno. eauto.
  - intros (l' & Hl' & Ho & Hid). apply Hno. by rewrite <- (Hu l' l).
Qed.

(** ** Statistics *)

Lemma foldl_stats (c : TunnelSession -> bool) (f : DashboardStats -> loc -> DashboardStats)
    (h : DashboardStats -> Z) (g : TunnelSession -> Z) tm ls s :
  (forall s l, h (f s l) = if c (deref tm l) then int64 (h s + g (deref tm l)) else h s) ->
  h s = int64 (h s) ->
  h (foldl f s ls) =
    int64 (h s + sumZ (fun l => g (deref tm l)) (List.filter (fun l => c (deref tm l)) ls)).
Proof.
  intros Hf. revert s. induction ls as [|l ls IH]; intros s Hs; cbn [foldl List.filter].
  - simpl. by rewrite Z.add_0_r.
  - specialize (Hf s l). destruct (c (deref tm l)).
    + rewrite IH, Hf; [|rewrite Hf; symmetry; apply int64_id, int64_range].
      rewrite int64_add_l. f_equal. simpl. lia.
    + rewrite IH, Hf; [done | congruence].
Qed.

Lemma foldl_count (c : TunnelSession -> bool) (f : DashboardStats -> loc -> DashboardStats)
    (h : DashboardStats -> Z) tm ls s :
  (forall s l, h (f s l) = if c (deref tm l) then h s + 1 else h s) ->
  h (foldl f s ls) = h s + Z.of_nat (length (List.filter (fun l => c (deref tm l)) ls)).
Proof.
  intros Hf. revert s. induction ls as [|l ls IH]; intros s; cbn [foldl List.filter]; [simpl; lia|].
  rewrite IH, Hf. destruct (c (deref tm l)); simpl; lia.
Qed.

(** The dashboard's statistics are those of the listed tunnels: the totals
    count [ListTunnels], the byte counters are its sums in 64-bit arithmetic,
    whatever the iteration order. *)
Theorem Stats_ListTunnels tm :
  ActiveHTTP (Stats tm) =
    Z.of_nat (length (List.filter (fun l => negb (ts_Reserved (deref tm l))) (http_list tm))) /\
  ActiveTCP (Stats tm) = Z.of_nat (size (tcpTunnels tm)) /\
  TotalTunnels (Stats tm) = Z.of_nat (length (ListTunnels tm)) /\
  StatsBytesIn (Stats tm) = int64 (sumZ (fun l => ts_BytesIn (deref tm l)) (ListTunnels tm)) /\
  StatsBytesOut (Stats tm) = int64 (sumZ (fun l => ts_BytesOut (deref tm l)) (ListTunnels tm)).
Proof.
  assert (forall ls : list loc, List.filter (fun l => (fun _ => true) (deref tm l)) ls = ls) as Hid.
  { induction ls; simpl; congruence. }
  assert (length (tcp_list tm) = size (tcpTunnels tm)) as Hlen.
  { unfold tcp_list. by rewrite length_fmap, length_range. }
  unfold Stats, ListTunnels.
  set (s0 := {| ActiveHTTP := 0 |}).
  set (f1 := fun s l => if ts_Reserved (deref tm l) then s else _).
  set (f2 := fun s l => let t := deref tm l in _).
  cbn [ActiveHTTP ActiveTCP TotalTunnels StatsBytesIn StatsBytesOut].
  pose proof (foldl_count (fun t => negb (ts_Reserved t)) f1 ActiveHTTP tm (http_list tm) s0) as Hah.
  pose proof (foldl_count (fun _ => false) f1 ActiveTCP tm (http_list tm) s0) as Hat.
  pose proof (foldl_stats (fun t => negb (ts_Reserved t)) f1 StatsBytesIn ts_BytesIn tm (http_list tm) s0) as Hbi.
  pose proof (foldl_stats (fun t => negb (ts_Reserved t)) f1 StatsBytesOut ts_BytesOut tm (http_list tm) s0) as Hbo.
  set (s1 := foldl f1 s0 (http_list tm)) in *.
  pose proof (foldl_count (fun _ => false) f2 ActiveHTTP tm (tcp_list tm) s1) as Kah.
  pose proof (foldl_count (fun _ => true) f2 ActiveTCP tm (tcp_list tm) s1) as Kat.
  pose proof (foldl_stats (fun _ => true) f2 StatsBytesIn ts_BytesIn tm (tcp_list tm) s1) as Kbi.
  pose proof (foldl_stats (fun _ => true) f2 StatsBytesOut ts_BytesOut tm (tcp_list tm) s1) as Kbo.
  rewrite Hid in Kat, Kbi, Kbo.
  assert (forall ls : list loc, List.filter (fun l => (fun _ => false) (deref tm l)) ls = []) as Hnone.
  { induction ls; simpl; congruence. }
  rewrite Hnone in Kah, Hat.
  rewrite Kah, Kat, Kbi, Kbo, Hah, Hat, Hbi, Hbo; try done;
    try (intros s l; unfold f1, f2; by destruct (ts_Reserved (deref tm l)));
    try (rewrite ?Hbi, ?Hbo; try done;
         try (intros s l; unfold f1; by destruct (ts_Reserved (deref tm l)));
         symmetry; apply int64_id, int64_range).
  rewrite !int64_add_l, !sumZ_app, length_app, Hlen. simpl. split_and!; [lia|lia|lia|done|done].
Qed.
End Properties.

(** ** The properties at concrete registries *)

Module Examples.
#[local] Instance order_string : RangeOrder string := canonical_order string.
#[local] Instance order_Z : RangeOrder Z := canonical_order Z.

(** An anonymous HTTP tunnel [l] created at time 0. *)
Definition anon_http : TunnelSession := {|
  ts_ID := "a1"; ts_Token := "anon:10.0.0.1"; ts_Type := "http"; ts_Subdomain := "myapp";
  ts_Port := 0; ts_LocalPort := 3000; ts_Session := Some 7%nat; ts_Listener := None;
  ts_CreatedAt := 0; ts_BytesIn := 0; ts_BytesOut := 0; ts_Reserved := false;
  ts_ReservedUntil := 0
|}.
Definition tcp_private : TunnelSession := {|
  ts_ID := "b2"; ts_Token := "htk_x"; ts_Type := "tcp"; ts_Subdomain := "";
  ts_Port := 0; ts_LocalPort := 5432; ts_Session := Some 7%nat; ts_Listener := None;
  ts_CreatedAt := 0; ts_BytesIn := 0; ts_BytesOut := 0; ts_Reserved := false;
  ts_ReservedUntil := 0
|}.
Definition tm0 : TunnelManager :=
  alloc 2%nat tcp_private (alloc 1%nat anon_http (NewTunnelManager 10000 10001)).
Definition tm1 : TunnelManager := (RegisterHTTP 5 "myapp" 1%nat tm0).1.

Lemma wf_tm0 : wf tm0.
Proof. repeat apply wf_alloc; auto using wf_new. Qed.

Lemma unlinked_tm0 l : unlinked l tm0.
Proof. split; intros k Hk; simpl in Hk; by rewrite lookup_empty in Hk. Qed.

Lemma tm0_reachable : reachable (fun tm => tm = NewTunnelManager 10000 10001) tm_step tm0.
Proof.
  eapply reach_step; [eapply reach_step; [by apply reach_init | by apply tm_alloc] |].
  by apply tm_alloc.
Qed.

Lemma tm1_reachable : reachable (fun tm => tm = NewTunnelManager 10000 10001) tm_step tm1.
Proof.
  eapply reach_step; [apply tm0_reachable|].
  eapply tm_RegisterHTTP; [apply unlinked_tm0 | reflexivity..].
Qed.

Lemma wf_tm1 : wf tm1.
Proof. eapply wf_RegisterHTTP; [apply wf_tm0 | apply unlinked_tm0 | reflexivity..]. Qed.

Lemma registry_wf_witness : wf tm1.
Proof. apply (registry_wf 10000 10001), tm1_reachable. Defined.

Lemma RegisterHTTP_spec_witness :
  ValidateSubdomain "myapp" = None /\ may_claim 5 "myapp" 1%nat tm0 /\
  httpTunnels tm1 = <["myapp"%string := 1%nat]> (httpTunnels tm0) /\
  tcpTunnels tm1 = tcpTunnels tm0 /\
  objects tm1 = alter (set_CreatedAt 5) 1%nat (objects tm0).
Proof. apply (RegisterHTTP_spec 5 "myapp" 1%nat tm0 tm1 None). vm_compute. reflexivity. Defined.

Definition quiet_attempt (i : nat) : attempt := {|
  at_draw := Z.of_nat i mod 2; at_listen := if bool_decide (i = 0)%nat then None else Some 4%nat;
  at_now := 9; at_before := fun tm => tm; at_between := fun tm => tm
|}.

Lemma quiet_attempt_ok i : attempt_ok 2%nat tm0 (quiet_attempt i).
Proof.
  split; [|split; intros tm ??; split_and!; done]. simpl.
  pose proof (Z.mod_pos_bound (Z.of_nat i) 2). lia.
Qed.

Lemma RegisterTCP_spec_witness :
  RegisterTCP_post 2%nat 10000 10001 (RegisterTCP quiet_attempt 2%nat tm0) /\
  (RegisterTCP quiet_attempt 2%nat tm0).2 = Ok 10001.
Proof.
  split; [|vm_compute; reflexivity].
  apply (RegisterTCP_spec quiet_attempt 2%nat tm0 wf_tm0).
  - split; [apply unlinked_tm0|]. exists tcp_private. repeat split.
  - apply quiet_attempt_ok.
Defined.

Lemma KillTunnelByID_spec_witness :
  exists l, ts_ID (deref tm1 l) = "a1"%string /\
    ((exists sub, httpTunnels tm1 !! sub = Some l /\ (KillTunnelByID "a1" tm1).1.1 = UnregisterHTTP sub tm1 /\
                  [CloseSession 7%nat] = close_session (ts_Session (deref tm1 l))) \/
     (exists p, tcpTunnels tm1 !! p = Some l /\ (KillTunnelByID "a1" tm1).1.1 = (UnregisterTCP p tm1).1 /\
                [CloseSession 7%nat] = (UnregisterTCP p tm1).2 ++ close_session (ts_Session (deref tm1 l)))).
Proof.
  apply (KillTunnelByID_spec "a1" tm1 (KillTunnelByID "a1" tm1).1.1 [CloseSession 7%nat] true).
  vm_compute. reflexivity.
Defined.

Lemma linked_tm1 l : linked l tm1 <-> l = 1%nat.
Proof.
  split.
  - intros [[sub Hs]|[p Hp]]; [|by vm_compute in Hp].
    change (httpTunnels tm1) with (<["myapp"%string := 1%nat]> (∅ : gmap string loc)) in Hs.
    apply lookup_insert_Some in Hs as [[_ <-]|[_ Hs]]; [done | by rewrite lookup_empty in Hs].
  - intros ->. left. by exists "myapp"%string.
Qed.

Lemma expiry_tick_spec_witness :
  linked 1%nat (expiry_tick (8000 * Second) (7200 * Second) tm1).1 <->
  linked 1%nat tm1 /\ ~ overdue (8000 * Second) (7200 * Second) (deref tm1 1%nat).
Proof.
  apply (expiry_tick_spec (8000 * Second) (7200 * Second) tm1 1%nat wf_tm1).
  intros l1 l2 H1 H2 _. apply linked_tm1 in H1, H2. congruence.
Defined.
End Examples.
