(* ===== verification/Quota.v ===== *)
(** * The tunnel-count interface

    [TokenStore] (auth.go) and [KeyStore] (key_store.go) both keep a running
    count of the tunnels of each token and a maximum; the server calls one or
    the other through the same two methods.  This file states what the two
    promise to the server: the methods and their laws. *)

From S2P Require Import Prelude.
Local Open Scope Z_scope.

Inductive quota_error :=
  | ErrUnknownToken
  | ErrLimitReached (count max : Z).

#[export] Instance quota_error_eq_dec : EqDecision quota_error.
Proof. solve_decision. Defined.

(** The methods. [quota t s] is the count and the maximum of [t], if known. *)
Class TunnelCounter (St : Type) := {
  quota : string -> St -> option (Z * Z);
  IncrementTunnels : string -> St -> St * option quota_error;
  DecrementTunnels : string -> St -> St;
}.

(** The reference behaviour of the two methods on a count. *)
Definition incr_spec (q : option (Z * Z)) : result quota_error (Z * Z) :=
  match q with
  | None => Err ErrUnknownToken
  | Some (c, m) => if bool_decide (c >= m) then Err (ErrLimitReached c m) else Ok (c + 1, m)
  end.

Definition decr_spec (q : option (Z * Z)) : option (Z * Z) :=
  match q with
  | Some (c, m) => Some (if bool_decide (c > 0) then c - 1 else c, m)
  | None => None
  end.

(** The laws: each method acts on the count of its token as the reference
    does, leaves every other count alone, and a failed increment changes
    nothing at all. *)
Class TunnelCounterLaws (St : Type) `{TunnelCounter St} := {
  incr_err t s e : incr_spec (quota t s) = Err e -> IncrementTunnels t s = (s, Some e);
  incr_ok t s q : incr_spec (quota t s) = Ok q ->
    exists s', IncrementTunnels t s = (s', None) /\ quota t s' = Some q /\
               forall t', t' <> t -> quota t' s' = quota t' s;
  decr_self t s : quota t (DecrementTunnels t s) = decr_spec (quota t s);
  decr_other t t' s : t' <> t -> quota t' (DecrementTunnels t s) = quota t' s;
}.

Section Laws.
Context {St : Type} `{TunnelCounterLaws St}.
Implicit Types (s : St) (t : string).

Lemma incr_cases t s :
  (exists e, IncrementTunnels t s = (s, Some e)) \/
  (exists s' c m, IncrementTunnels t s = (s', None) /\ quota t s = Some (c, m) /\ c < m /\
     quota t s' = Some (c + 1, m) /\ forall t', t' <> t -> quota t' s' = quota t' s).
Proof.
  destruct (incr_spec (quota t s)) as [q|e] eqn:E.
  - right. destruct (incr_ok _ _ _ E) as (s' & Hi & Hq & Ho).
    destruct (quota t s) as [[c m]|] eqn:Eq; [|done]. simpl in E.
    case_bool_decide; [done|]. simplify_eq. exists s', c, m. split_and!; try done. lia.
  - left. exists e. by apply incr_err.
Qed.

(** A decrement gives back what an increment took. *)
Lemma decr_incr t s s' c m :
  quota t s = Some (c, m) -> 0 <= c ->
  IncrementTunnels t s = (s', None) -> quota t (DecrementTunnels t s') = Some (c, m).
Proof.
  intros Hq Hc Hi. destruct (incr_cases t s) as [(e & He)|(s2 & c2 & m2 & Hi2 & Hq2 & _ & Hq' & _)];
    [congruence|].
  rewrite Hi in Hi2. rewrite Hq in Hq2. simplify_eq. rewrite decr_self, Hq'. simpl. rewrite bool_decide_true by lia. do 2 f_equal. lia.
Qed.

(** The count never leaves [0..max]. *)
Definition in_bounds (q : option (Z * Z)) : Prop :=
  match q with Some (c, m) => 0 <= c <= m | None => True end.

Lemma incr_bounds t s t' : in_bounds (quota t' s) -> in_bounds (quota t' (IncrementTunnels t s).1).
Proof.
  intros Hb. destruct (incr_cases t s) as [(e & ->)|(s' & c & m & -> & Hq & Hlt & Hq' & Ho)]; [done|].
  simpl. destruct (decide (t' = t)) as [->|Hne]; [|by rewrite Ho].
  rewrite Hq' in *. rewrite Hq in Hb. simpl in *. lia.
Qed.

Lemma decr_bounds t s t' : in_bounds (quota t' s) -> in_bounds (quota t' (DecrementTunnels t s)).
Proof.
  intros Hb. destruct (decide (t' = t)) as [->|Hne]; [|by rewrite decr_other].
  rewrite decr_self. destruct (quota t s) as [[c m]|]; [|done]. simpl in *.
  case_bool_decide; lia.
Qed.
End Laws.
