(* ===== verification/Auth.v ===== *)
(** * Tokens and rate limits (internal/server/auth.go)

    [TokenStore], [ipRateLimiter] and [RateLimiter].  bcrypt and
    golang.org/x/time/rate are third-party packages: they are parameters, with
    the documented behaviour the code relies on as laws. *)

From S2P Require Import Prelude GoStrings Quota.
Local Open Scope Z_scope.

(** ** TokenStore *)

Record tokenInfo := {
  hash : string;
  tunnelCount : Z;
  maxTunnels : Z;
}.

Record TokenStore := { tokens : gmap string tokenInfo }.

(** golang.org/x/crypto/bcrypt: hashing is salted ([salt]) and fails on long
    passwords; a hash matches the password it was made from. *)
Class Bcrypt := {
  GenerateFromPassword : nat -> string -> result string string;
  CompareHashAndPassword : string -> string -> bool;
  bcrypt_match salt p h : GenerateFromPassword salt p = Ok h -> CompareHashAndPassword h p = true;
}.

Section TokenStore.
Context `{Bcrypt}.

(** [NewTokenStore]; the salts are drawn one by one. *)
Fixpoint NewTokenStore_loop (salt : nat) (rawTokens : list string) (maxTunnelsPerToken : Z)
    (ts : gmap string tokenInfo) : result string (gmap string tokenInfo) :=
  match rawTokens with
  | [] => Ok ts
  | raw :: rawTokens =>
      if String.eqb raw "" then NewTokenStore_loop salt rawTokens maxTunnelsPerToken ts
      else match GenerateFromPassword salt raw with
           | Err e => Err e
           | Ok h =>
               NewTokenStore_loop (S salt) rawTokens maxTunnelsPerToken
                 (<[raw := {| hash := h; tunnelCount := 0; maxTunnels := maxTunnelsPerToken |}]> ts)
           end
  end.

Definition NewTokenStore (rawTokens : list string) (maxTunnelsPerToken : Z) : result string TokenStore :=
  match NewTokenStore_loop 0 rawTokens maxTunnelsPerToken ∅ with
  | Ok m => Ok {| tokens := m |}
  | Err e => Err e
  end.

(** [TokenStore.Validate] *)
Definition TokenStore_Validate (token : string) (ts : TokenStore) : bool :=
  match tokens ts !! token with
  | None => false
  | Some info => CompareHashAndPassword (hash info) token
  end.
End TokenStore.

Definition set_tunnelCount (f : Z -> Z) (i : tokenInfo) : tokenInfo :=
  {| hash := hash i; tunnelCount := f (tunnelCount i); maxTunnels := maxTunnels i |}.

(** [TokenStore.IncrementTunnels] *)
Definition TokenStore_IncrementTunnels (token : string) (ts : TokenStore)
    : TokenStore * option quota_error :=
  match tokens ts !! token with
  | None => (ts, Some ErrUnknownToken)
  | Some info =>
      if bool_decide (tunnelCount info >= maxTunnels info)
      then (ts, Some (ErrLimitReached (tunnelCount info) (maxTunnels info)))
      else ({| tokens := <[token := set_tunnelCount (fun n => n + 1) info]> (tokens ts) |}, None)
  end.

(** [TokenStore.DecrementTunnels] *)
Definition TokenStore_DecrementTunnels (token : string) (ts : TokenStore) : TokenStore :=
  match tokens ts !! token with
  | Some info =>
      if bool_decide (tunnelCount info > 0)
      then {| tokens := <[token := set_tunnelCount (fun n => n - 1) info]> (tokens ts) |}
      else ts
  | None => ts
  end.

Definition TokenStore_quota (token : string) (ts : TokenStore) : option (Z * Z) :=
  (fun i => (tunnelCount i, maxTunnels i)) <$> tokens ts !! token.

#[export] Instance TokenStore_counter : TunnelCounter TokenStore := {|
  quota := TokenStore_quota;
  IncrementTunnels := TokenStore_IncrementTunnels;
  DecrementTunnels := TokenStore_DecrementTunnels;
|}.

(** ** Rate limiters *)

(** golang.org/x/time/rate: a limiter made for [n] events per minute (a
    [rate.Limit] of [float64(n)/60.0]) with a burst, and its [Allow] at an
    instant. *)
Class Limiter (L : Type) := {
  NewLimiter : Z -> Z -> L;
  AllowAt : Z -> L -> L * bool;
}.

Section Limiters.
Context {L : Type} `{Limiter L}.

(** [ipRateLimiter] *)
Record rateLimiterEntry := { limiter : L; lastSeen : Z }.
Record ipRateLimiter := {
  limiters : gmap string rateLimiterEntry;
  ip_rate : Z;
  ip_burst : Z;
}.

Definition newIPRateLimiter (connPerMin : Z) : ipRateLimiter :=
  {| limiters := ∅; ip_rate := connPerMin; ip_burst := connPerMin |}.

Definition with_limiters (m : gmap string rateLimiterEntry) (r : ipRateLimiter) : ipRateLimiter :=
  {| limiters := m; ip_rate := ip_rate r; ip_burst := ip_burst r |}.

(** [ipRateLimiter.Allow] *)
Definition ipAllow (now : Z) (ip : string) (r : ipRateLimiter) : ipRateLimiter * bool :=
  let lim := match limiters r !! ip with
             | Some entry => limiter entry
             | None => NewLimiter (ip_rate r) (ip_burst r)
             end in
  let '(lim, allowed) := AllowAt now lim in
  (with_limiters (<[ip := {| limiter := lim; lastSeen := now |}]> (limiters r)) r, allowed).

Definition staleAfter : Z := 10 * Minute.

(** One tick of [cleanup]. *)
Definition cleanup_tick (now : Z) (r : ipRateLimiter) : ipRateLimiter :=
  let cutoff := now - staleAfter in
  with_limiters (filter (fun '(_, entry) => ~ lastSeen entry < cutoff) (limiters r)) r.

(** [RateLimiter] *)
Record RateLimiter := {
  perTok : gmap string L;
  global : L;
  tokR : Z;
  tokB : Z;
}.

Definition NewRateLimiter (perTokenPerMin globalPerMin : Z) : RateLimiter :=
  {| perTok := ∅; global := NewLimiter globalPerMin globalPerMin;
     tokR := perTokenPerMin; tokB := perTokenPerMin |}.

(** [RateLimiter.Allow] *)
Definition rateAllow (now : Z) (token : string) (rl : RateLimiter) : RateLimiter * bool :=
  let '(g, ok) := AllowAt now (global rl) in
  if negb ok then
    ({| perTok := perTok rl; global := g; tokR := tokR rl; tokB := tokB rl |}, false)
  else
    let lim := default (NewLimiter (tokR rl) (tokB rl)) (perTok rl !! token) in
    let '(lim, ok) := AllowAt now lim in
    ({| perTok := <[token := lim]> (perTok rl); global := g; tokR := tokR rl; tokB := tokB rl |}, ok).
End Limiters.
Arguments ipRateLimiter : clear implicits.
Arguments RateLimiter : clear implicits.
Arguments rateLimiterEntry : clear implicits.

(** ** The token store keeps the counter's promises *)

#[export] Instance TokenStore_laws : TunnelCounterLaws TokenStore.
Proof.
  split; unfold quota, IncrementTunnels, DecrementTunnels; cbn;
    unfold TokenStore_quota, TokenStore_IncrementTunnels, TokenStore_DecrementTunnels.
  - intros t s e. destruct (tokens s !! t) as [i|]; simpl; [|by intros [= <-]].
    case_bool_decide; [by intros [= <-] | done].
  - intros t s q. destruct (tokens s !! t) as [i|]; simpl; [|done].
    case_bool_decide; [done|]. intros [= <-].
    eexists. split_and!; [done | cbn [tokens]; by rewrite lookup_insert_eq |].
    intros t' Hne. cbn [tokens]. by rewrite lookup_insert_ne.
  - intros t s. destruct (tokens s !! t) as [i|] eqn:E; simpl; [|by rewrite E].
    case_bool_decide; cbn [tokens]; [by rewrite lookup_insert_eq | by rewrite E].
  - intros t t' s Hne. destruct (tokens s !! t) as [i|] eqn:E; [|done].
    case_bool_decide; [|done]. cbn [tokens]. by rewrite lookup_insert_ne.
Qed.

(** ** Legacy tokens *)

Section TokenStoreProperties.
Context `{Bcrypt}.

Lemma NewTokenStore_loop_spec salt raws n m0 m :
  NewTokenStore_loop salt raws n m0 = Ok m ->
  forall t, match m !! t with
    | Some i => (m0 !! t = Some i) \/
                (t ∈ raws /\ t <> ""%string /\ CompareHashAndPassword (hash i) t = true /\
                 tunnelCount i = 0 /\ maxTunnels i = n)
    | None => m0 !! t = None /\ (t ∉ raws \/ t = ""%string)
    end.
Proof.
  revert salt m0. induction raws as [|raw raws IH]; intros salt m0; cbn [NewTokenStore_loop].
  - intros [= <-] t. destruct (m0 !! t); [by left|]. split; [done|]. left. by apply not_elem_of_nil.
  - destruct (String.eqb_spec raw "") as [->|Hraw].
    + intros Hm t. specialize (IH _ _ Hm t). destruct (m !! t); rewrite elem_of_cons; [tauto|].
      destruct IH as [? [Hn|]]; [split; [done|] | by auto].
      destruct (decide (t = ""%string)); [by right | left]. tauto.
    + destruct (GenerateFromPassword salt raw) as [h|] eqn:Eh; [|done].
      intros Hm t. specialize (IH _ _ Hm t).
      destruct (decide (raw = t)) as [->|Hne].
      * rewrite lookup_insert_eq in IH. destruct (m !! t) as [i|]; [|by destruct IH].
        right. rewrite elem_of_cons. destruct IH as [[= <-]|?]; [|tauto]. simpl.
        split_and!; [by left | done | by eapply bcrypt_match | done | done].
      * rewrite lookup_insert_ne in IH by done. destruct (m !! t); rewrite elem_of_cons; [tauto|].
        destruct IH as [? [Hn|]]; [split; [done|] | by auto]. left. intros [?|?]; congruence.
Qed.

(** The token store built from a configuration accepts exactly the
    non-empty tokens of the list: [Validate] is membership, whatever the
    salts. *)
Theorem TokenStore_validates_configured raws n ts t :
  NewTokenStore raws n = Ok ts ->
  TokenStore_Validate t ts = true <-> t ∈ raws /\ t <> ""%string.
Proof.
  unfold NewTokenStore, TokenStore_Validate.
  destruct (NewTokenStore_loop 0 raws n ∅) as [m|] eqn:E; [|done]. intros [= <-]. simpl.
  pose proof (NewTokenStore_loop_spec _ _ _ _ _ E t) as Ht. rewrite lookup_empty in Ht.
  destruct (m !! t) as [i|].
  - destruct Ht as [?|(? & ? & -> & _)]; [done|]. tauto.
  - destruct Ht as [_ [?|?]]; split; try done; tauto.
Qed.
End TokenStoreProperties.

(** ** Rate limits *)

(** A limiter made for [n] per minute with burst [n] and used up to [last]. *)
Inductive used {L} `{Limiter L} (n : Z) : Z -> L -> Prop :=
  | used_new t : used n t (NewLimiter n n)
  | used_allow last now l : used n last l -> last <= now -> used n now (AllowAt now l).1.

(** The documented behaviour of a token bucket: limiters that behave alike stay
    alike, and a bucket left alone for the time its whole burst takes to refill
    is as good as new. *)
Class LimiterLaws (L : Type) `{Limiter L} := {
  lim_equiv : relation L;
  #[global] lim_equivalence :: Equivalence lim_equiv;
  #[global] allow_proper now :: Proper (lim_equiv ==> prod_relation lim_equiv eq) (AllowAt now);
  allow_refill n last l now :
    0 < n -> used n last l -> last + Minute <= now ->
    prod_relation lim_equiv eq (AllowAt now l) (AllowAt now (NewLimiter n n));
}.

Section RateProperties.
Context {L : Type} `{LimiterLaws L}.

(** What happens to the pre-auth limiter over time. *)
Inductive ip_event := EvAllow (ip : string) | EvCleanup.

(** The answers of [Allow] along a history, with or without the clean-up
    goroutine. *)
Fixpoint ip_run (with_cleanup : bool) (evs : list (Z * ip_event)) (r : ipRateLimiter L) : list bool :=
  match evs with
  | [] => []
  | (now, EvAllow ip) :: evs =>
      let '(r, b) := ipAllow now ip r in b :: ip_run with_cleanup evs r
  | (now, EvCleanup) :: evs =>
      ip_run with_cleanup evs (if with_cleanup then cleanup_tick now r else r)
  end.

(** Times that never go back. *)
Fixpoint ordered_from (t : Z) (evs : list (Z * ip_event)) : Prop :=
  match evs with [] => True | (now, _) :: evs => t <= now /\ ordered_from now evs end.

(** The table with clean-up against the one without. *)
Definition tables_agree (n t : Z) (m1 m2 : gmap string (rateLimiterEntry L)) : Prop :=
  forall ip, match m1 !! ip, m2 !! ip with
    | Some e1, Some e2 =>
        lim_equiv (limiter e1) (limiter e2) /\ lastSeen e1 = lastSeen e2 /\ lastSeen e1 <= t /\
        used n (lastSeen e1) (limiter e1) /\ used n (lastSeen e1) (limiter e2)
    | None, Some e2 => lastSeen e2 + staleAfter < t /\ used n (lastSeen e2) (limiter e2)
    | None, None => True
    | Some _, None => False
    end.

Lemma tables_agree_later n t t' m1 m2 : t <= t' -> tables_agree n t m1 m2 -> tables_agree n t' m1 m2.
Proof.
  intros Ht Ha ip. specialize (Ha ip). destruct (m1 !! ip), (m2 !! ip); intuition lia.
Qed.

Lemma tables_agree_allow n t now ip m1 m2 l1 l2 :
  tables_agree n t m1 m2 -> t <= now ->
  lim_equiv l1 l2 -> used n now l1 -> used n now l2 ->
  tables_agree n now (<[ip := {| limiter := l1; lastSeen := now |}]> m1)
                     (<[ip := {| limiter := l2; lastSeen := now |}]> m2).
Proof.
  intros Ha Ht Hl H1 H2 ip'. destruct (decide (ip = ip')) as [<-|Hne].
  - rewrite !lookup_insert_eq. simpl. by split_and!.
  - rewrite !lookup_insert_ne by done. by apply (tables_agree_later n t).
Qed.

Lemma tables_agree_cleanup n t now r1 m2 :
  tables_agree n t (limiters r1) m2 -> t <= now ->
  tables_agree n now (limiters (cleanup_tick now r1)) m2.
Proof.
  intros Ha Ht ip. specialize (Ha ip). unfold cleanup_tick, with_limiters. cbn [limiters].
  rewrite map_lookup_filter. destruct (limiters r1 !! ip) as [e1|]; simpl.
  - destruct (m2 !! ip) as [e2|]; [|done]. destruct Ha as (He & Hls & Hle & Hu1 & Hu2).
    unfold guard. case_decide; simpl; [|rewrite <- Hls; split; [lia | done]].
    split_and!; try done. lia.
  - destruct (m2 !! ip) as [e2|]; [|done]. destruct Ha. split; [lia | done].
Qed.

Lemma ipAllow_agree n t now ip r1 r2 :
  0 < n -> ip_rate r1 = n -> ip_burst r1 = n -> ip_rate r2 = n -> ip_burst r2 = n ->
  tables_agree n t (limiters r1) (limiters r2) -> t <= now ->
  (ipAllow now ip r1).2 = (ipAllow now ip r2).2 /\
  tables_agree n now (limiters (ipAllow now ip r1).1) (limiters (ipAllow now ip r2).1).
Proof.
  intros Hn Hr1 Hb1 Hr2 Hb2 Ha Ht. unfold ipAllow. rewrite Hr1, Hb1, Hr2, Hb2.
  pose proof (Ha ip) as Hip.
  set (l1 := match limiters r1 !! ip with Some e => limiter e | None => NewLimiter n n end).
  set (l2 := match limiters r2 !! ip with Some e => limiter e | None => NewLimiter n n end).
  assert (prod_relation lim_equiv eq (AllowAt now l1) (AllowAt now l2) /\
          used n now (AllowAt now l1).1 /\ used n now (AllowAt now l2).1) as (Hp & Hu1 & Hu2).
  { subst l1 l2. destruct (limiters r1 !! ip) as [e1|], (limiters r2 !! ip) as [e2|]; try done.
    - destruct Hip as (He & Hls & Hle & U1 & U2). split_and!.
      + by apply allow_proper.
      + apply used_allow with (lastSeen e1); [done | lia].
      + apply used_allow with (lastSeen e1); [done | lia].
    - destruct Hip as (Hst & U2). unfold staleAfter in Hst. split_and!.
      + symmetry. apply allow_refill with (lastSeen e2); [done | done |].
        unfold Minute, Second, Millisecond, Nanosecond in *. lia.
      + apply used_allow with now; [constructor | lia].
      + apply used_allow with (lastSeen e2); [done|].
        unfold Minute, Second, Millisecond, Nanosecond in *. lia.
    - split_and!; [by apply allow_proper | |]; (apply used_allow with now; [constructor | lia]). }
  destruct (AllowAt now l1) as [l1' b1], (AllowAt now l2) as [l2' b2].
  destruct Hp as [Hl Hb]. simpl in *. split; [done|]. by apply (tables_agree_allow n t).
Qed.

Lemma ip_run_agree n evs t r1 r2 :
  0 < n -> ip_rate r1 = n -> ip_burst r1 = n -> ip_rate r2 = n -> ip_burst r2 = n ->
  tables_agree n t (limiters r1) (limiters r2) -> ordered_from t evs ->
  ip_run true evs r1 = ip_run false evs r2.
Proof.
  intros Hn. revert t r1 r2. induction evs as [|[now [ip|]] evs IH];
    intros t r1 r2 Hr1 Hb1 Hr2 Hb2 Ha; cbn [ip_run ordered_from]; [done| |]; intros [Ht Ho].
  - destruct (ipAllow_agree n t now ip r1 r2) as [Hb Ha']; try done.
    assert (forall r, ip_rate (ipAllow now ip r).1 = ip_rate r /\ ip_burst (ipAllow now ip r).1 = ip_burst r)
      as Hkeep by (intros r; unfold ipAllow; by destruct (AllowAt _ _)).
    pose proof (Hkeep r1) as []. pose proof (Hkeep r2) as [].
    destruct (ipAllow now ip r1) as [r1' b1], (ipAllow now ip r2) as [r2' b2]. simpl in *.
    f_equal; [done|]. apply (IH now); congruence || done.
  - apply (IH now); try done. by apply (tables_agree_cleanup n t).
Qed.

(** C36: the clean-up goroutine of the pre-auth limiter is invisible: along any
    history, dropping the entries idle for ten minutes gives the same answers
    as keeping every entry for ever, so forgetting an IP never loosens (or
    tightens) its limit. *)
Theorem ip_cleanup_transparent n t evs :
  0 < n -> ordered_from t evs ->
  ip_run true evs (newIPRateLimiter n) = ip_run false evs (newIPRateLimiter n).
Proof. intros Hn Ho. by apply (ip_run_agree n evs t). Qed.

(** A request is let through only when both limits permit it; it then
    counts against both; a request the server-wide limit rejects does not
    count against its token, and no other token's limiter ever changes. *)
Theorem rateAllow_spec now token rl rl' ok :
  rateAllow now token rl = (rl', ok) ->
  let g := AllowAt now (global rl) in
  let lim := AllowAt now (default (NewLimiter (tokR rl) (tokB rl)) (perTok rl !! token)) in
  ok = g.2 && lim.2 /\ global rl' = g.1 /\
  perTok rl' = (if g.2 then <[token := lim.1]> (perTok rl) else perTok rl).
Proof.
  unfold rateAllow. destruct (AllowAt now (global rl)) as [g b]. destruct b; simpl.
  - destruct (AllowAt now _) as [l b]. intros [= <- <-]. by destruct b.
  - intros [= <- <-]. done.
Qed.
End RateProperties.

(** ** The properties at concrete parameters *)

Module Bucket.
(** A token bucket in exact arithmetic: a token is [Minute] units, and [rate]
    units arrive per nanosecond. *)
Record bucket := { units : Z; last : Z; rate : Z; burst : Z }.

Definition new (n b : Z) : bucket := {| units := b * Minute; last := 0; rate := n; burst := b |}.

Definition refill (now : Z) (l : bucket) : Z :=
  Z.min (units l + Z.max 0 (now - last l) * rate l) (burst l * Minute).

Definition allow (now : Z) (l : bucket) : bucket * bool :=
  if bool_decide (Minute <= refill now l) then
    ({| units := refill now l - Minute; last := now; rate := rate l; burst := burst l |}, true)
  else (l, false).

#[export] Instance bucket_limiter : Limiter bucket := {| NewLimiter := new; AllowAt := allow |}.

Lemma used_inv n t l :
  0 < n -> used n t l ->
  rate l = n /\ burst l = n /\ 0 <= units l /\ (units l = n * Minute \/ last l <= t).
Proof.
  intros Hn Hu. assert (0 < Minute) as HM by done.
  induction Hu as [t|last0 now l Hu (Hr & Hb & Hp & Hl) Ht]; simpl.
  - split_and!; [done | done | lia | by left].
  - unfold allow. case_bool_decide as Hm; simpl.
    + split_and!; [done | done | lia | right; lia].
    + split_and!; try done. destruct Hl; [by left | right; lia].
Qed.

#[export] Instance bucket_laws : LimiterLaws bucket.
Proof.
  refine {| lim_equiv := eq |}.
  intros n t l now Hn Hu Ht. destruct (used_inv n t l Hn Hu) as (Hr & Hb & Hp & Hl).
  assert (0 < Minute) as HM by done. simpl. unfold allow.
  assert (refill now l = n * Minute) as ->.
  { unfold refill. rewrite Hr, Hb. destruct Hl as [->|Hl]; [lia|].
    assert (Minute * n <= Z.max 0 (now - last l) * n) by (apply Z.mul_le_mono_nonneg_r; lia). lia. }
  assert (refill now (new n n) = n * Minute) as -> by (unfold refill, new; simpl; lia).
  rewrite bool_decide_true by nia. simpl. rewrite Hr, Hb. done.
Qed.

Lemma ip_cleanup_transparent_witness :
  ip_run true [(0, EvAllow "a"); (1, EvAllow "a"); (2, EvCleanup); (11 * Minute, EvCleanup);
               (11 * Minute, EvAllow "a"); (11 * Minute, EvAllow "a")] (newIPRateLimiter 1) =
  ip_run false [(0, EvAllow "a"); (1, EvAllow "a"); (2, EvCleanup); (11 * Minute, EvCleanup);
               (11 * Minute, EvAllow "a"); (11 * Minute, EvAllow "a")] (newIPRateLimiter 1).
Proof.
  apply (ip_cleanup_transparent 1 0); [reflexivity|].
  vm_compute. repeat split; discriminate.
Defined.

Lemma rateAllow_spec_witness :
  let rl := NewRateLimiter 1 5 in
  (rateAllow 0 "t" rl).2 = (AllowAt 0 (global rl)).2 && (AllowAt 0 (NewLimiter 1 1)).2 /\
  global (rateAllow 0 "t" rl).1 = (AllowAt 0 (global rl)).1 /\
  perTok (rateAllow 0 "t" rl).1 =
    (if (AllowAt 0 (global rl)).2 then <["t"%string := (AllowAt 0 (NewLimiter 1 1)).1]> ∅ else ∅).
Proof. apply (rateAllow_spec 0 "t" (NewRateLimiter 1 5)). vm_compute. reflexivity. Defined.

(** A stand-in for bcrypt: passwords over 72 bytes are refused. *)
#[export] Program Instance plain_bcrypt : Bcrypt := {|
  GenerateFromPassword := fun salt p =>
    if bool_decide (72 < len p) then Err "password length exceeds 72 bytes"%string else Ok p;
  CompareHashAndPassword := String.eqb;
|}.
Next Obligation. intros salt p h. simpl. case_bool_decide; [done|]. intros [= <-]. apply String.eqb_refl. Qed.

Definition ts0 : TokenStore := {| tokens :=
  {["tok"%string := {| hash := "tok"; tunnelCount := 0; maxTunnels := 2 |}]} |}.

Lemma TokenStore_validates_configured_witness :
  TokenStore_Validate "tok" ts0 = true <->
  "tok"%string ∈ [""; "tok"]%string /\ "tok"%string <> ""%string.
Proof. apply (TokenStore_validates_configured [""; "tok"]%string 2). vm_compute. reflexivity. Defined.
End Bucket.
