(* ===== verification/KeyStore.v ===== *)
(** * API keys (internal/server/key_store.go, key_store_adapter.go)

    The map of keys in memory and the JSON file behind it, with the codec of its
    records by their json tags: what [saveLocked] writes and what [NewKeyStore]
    makes of any JSON value it finds.  Whether a write to disk succeeds is an
    input of the operations that save. *)

From S2P Require Import Prelude GoStrings Json Subdomain Quota.
Local Open Scope Z_scope.

(** ** State *)

Record APIKey := {
  Name : string;
  Subdomains : list string;
  MaxTunnels : Z;
  CreatedAt : Z;
  Active : bool;
  key_tunnelCount : Z;
}.

Definition set_Active (b : bool) (k : APIKey) : APIKey :=
  {| Name := Name k; Subdomains := Subdomains k; MaxTunnels := MaxTunnels k;
     CreatedAt := CreatedAt k; Active := b; key_tunnelCount := key_tunnelCount k |}.
Definition set_Subdomains (l : list string) (k : APIKey) : APIKey :=
  {| Name := Name k; Subdomains := l; MaxTunnels := MaxTunnels k;
     CreatedAt := CreatedAt k; Active := Active k; key_tunnelCount := key_tunnelCount k |}.
Definition set_key_tunnelCount (n : Z) (k : APIKey) : APIKey :=
  {| Name := Name k; Subdomains := Subdomains k; MaxTunnels := MaxTunnels k;
     CreatedAt := CreatedAt k; Active := Active k; key_tunnelCount := n |}.

Definition set_key_Name (s : string) (k : APIKey) : APIKey :=
  {| Name := s; Subdomains := Subdomains k; MaxTunnels := MaxTunnels k;
     CreatedAt := CreatedAt k; Active := Active k; key_tunnelCount := key_tunnelCount k |}.
Definition set_key_MaxTunnels (n : Z) (k : APIKey) : APIKey :=
  {| Name := Name k; Subdomains := Subdomains k; MaxTunnels := n;
     CreatedAt := CreatedAt k; Active := Active k; key_tunnelCount := key_tunnelCount k |}.
Definition set_key_CreatedAt (t : Z) (k : APIKey) : APIKey :=
  {| Name := Name k; Subdomains := Subdomains k; MaxTunnels := MaxTunnels k;
     CreatedAt := t; Active := Active k; key_tunnelCount := key_tunnelCount k |}.

(** [keyStoreData]: the value of the "keys" field, [None] when it is null or
    absent. *)
Record keyStoreData := { Keys : option (gmap string APIKey) }.

(** The file: missing, unreadable, blank, no JSON text, or the JSON value it
    holds. *)
Inductive disk_file :=
  | NoFile
  | Unreadable (e : string)
  | Blank
  | Garbage (e : string)
  | Stored (v : jvalue).

Record KeyStore := {
  keys : gmap string APIKey;
  filePath : string;
  disk : disk_file;
}.

Definition with_keys (m : gmap string APIKey) (ks : KeyStore) : KeyStore :=
  {| keys := m; filePath := filePath ks; disk := disk ks |}.
Definition with_disk (d : disk_file) (ks : KeyStore) : KeyStore :=
  {| keys := keys ks; filePath := filePath ks; disk := d |}.

Inductive key_error :=
  | ErrNameRequired
  | ErrSubdomain (e : subdomain_error)
  | ErrOwned (sub : string)
  | ErrPersist (e : string)
  | ErrKeyNotFound
  | ErrInvalidKey
  | ErrSave (e : string).

#[export] Instance key_error_eq_dec : EqDecision key_error.
Proof. solve_decision. Defined.

(** ** Loading and saving *)

(** *** The records in JSON, by their tags *)

Definition zero_key : APIKey :=
  {| Name := ""; Subdomains := []; MaxTunnels := 0; CreatedAt := zero_time; Active := false; key_tunnelCount := 0 |}.

(** [json.Unmarshal] of one member into an [APIKey]; a name that is no tag (in
    any case of its letters) is ignored. *)
Definition APIKey_field (name : string) (v : jvalue) (k : APIKey) : decoded APIKey :=
  if EqualFold name "name" then (fun x => set_key_Name x k) <$> decode_string v (Name k)
  else if EqualFold name "subdomains" then (fun x => set_Subdomains x k) <$> decode_strings v
  else if EqualFold name "max_tunnels" then (fun x => set_key_MaxTunnels x k) <$> decode_int v (MaxTunnels k)
  else if EqualFold name "created_at" then (fun x => set_key_CreatedAt x k) <$> decode_time v (CreatedAt k)
  else if EqualFold name "active" then (fun x => set_Active x k) <$> decode_bool v (Active k)
  else Good k.
Definition unmarshal_APIKey (v : jvalue) : decoded APIKey := decode_struct APIKey_field zero_key v.

Definition keyStoreData_field (name : string) (v : jvalue) (d : keyStoreData) : decoded keyStoreData :=
  if EqualFold name "keys" then (fun m => {| Keys := m |}) <$> decode_map unmarshal_APIKey v (Keys d) else Good d.
Definition unmarshal_keyStoreData (v : jvalue) : decoded keyStoreData :=
  decode_struct keyStoreData_field {| Keys := None |} v.

(** [json.MarshalIndent] (a nil slice of subdomains, which would be null, is the
    empty list here and is read back as one). *)
Definition marshal_APIKey (k : APIKey) : result string jvalue :=
  created ← encode_time (CreatedAt k);
  Ok (JObject [("name", JString (json_text (Name k))); ("subdomains", encode_strings (Subdomains k));
               ("max_tunnels", JInt (MaxTunnels k)); ("created_at", created); ("active", JBool (Active k))]%string).
Definition marshal_keyStoreData (m : gmap string APIKey) : result string jvalue :=
  v ← encode_map marshal_APIKey m;
  Ok (JObject [("keys"%string, v)]).

(** *** The file *)

(** [NewKeyStore]; [None] for a file outside the model: a key that is null, a
    nil pointer which the first operation to look at it dereferences; a null or
    a date among the texts.  The detail of an error of [json] is left out. *)
Definition NewKeyStore (path : string) (d : disk_file) : option (result string KeyStore) :=
  let ks m := Some (Ok {| keys := m; filePath := path; disk := d |}) in
  if String.eqb path "" then ks ∅
  else match d with
       | NoFile => ks ∅
       | Unreadable e => Some (Err ("read key store: " +:+ e))
       | Blank => ks ∅
       | Garbage e => Some (Err ("parse key store: " +:+ e))
       | Stored v =>
           match unmarshal_keyStoreData v with
           | Good stored => ks (default ∅ (Keys stored))
           | Bad e => Some (Err ("parse key store: " +:+ e))
           | Outside => None
           end
       end.

(** The outcome of [os.WriteFile]; a failed write may leave anything behind. *)
Inductive write_outcome :=
  | WriteOk
  | WriteFailed (residue : disk_file) (e : string).

(** [saveLocked] *)
Definition saveLocked (w : write_outcome) (ks : KeyStore) : KeyStore * option string :=
  if String.eqb (filePath ks) "" then (ks, None)
  else match marshal_keyStoreData (keys ks) with
       | Err e => (ks, Some e)
       | Ok data =>
           match w with
           | WriteOk => (with_disk (Stored data) ks, None)
           | WriteFailed residue e => (with_disk residue ks, Some e)
           end
       end.

(** ** Queries *)

(** [Validate] *)
Definition KeyStore_Validate (key : string) (ks : KeyStore) : bool :=
  match keys ks !! key with Some k => Active k | None => false end.

(** [GetKey] *)
Definition GetKey (key : string) (ks : KeyStore) : option APIKey := keys ks !! key.

(** [ListKeys] *)
Definition ListKeys (ks : KeyStore) : gmap string APIKey := keys ks.

(** [OwnedSubdomains] *)
Definition OwnedSubdomains (key : string) (ks : KeyStore) : list string :=
  match keys ks !! key with Some k => Subdomains k | None => [] end.

Section Ranging.
Context `{!RangeOrder string}.

(** [findSubdomainOwnerLocked]; the empty string stands for no owner. *)
Definition owns (subdomain : string) (e : string * APIKey) : bool :=
  Active e.2 && existsb (fun s => String.eqb s subdomain) (Subdomains e.2).

Definition findSubdomainOwnerLocked (subdomain : string) (ks : KeyStore) : string :=
  match first_such (owns subdomain) (range (keys ks)) with
  | Some (keyID, _) => keyID
  | None => ""%string
  end.

(** [FindSubdomainOwner] *)
Definition FindSubdomainOwner (subdomain : string) (ks : KeyStore) : string :=
  findSubdomainOwnerLocked subdomain ks.

(** [findKeyByIDOrPreview]: the ID of the key found. *)
Definition findKeyByIDOrPreview (idOrPreview : string) (ks : KeyStore) : option string :=
  match keys ks !! idOrPreview with
  | Some _ => Some idOrPreview
  | None => fst <$> first_such (fun e => String.eqb (MaskKey e.1) idOrPreview) (range (keys ks))
  end.

(** ** Updates *)

(** The loop of [CreateKey] over the requested subdomains. *)
Fixpoint check_subdomains (subdomains : list string) (ks : KeyStore) : option key_error :=
  match subdomains with
  | [] => None
  | sub :: subdomains =>
      match ValidateSubdomain sub with
      | Some e => Some (ErrSubdomain e)
      | None =>
          if negb (String.eqb (findSubdomainOwnerLocked sub ks) "") then Some (ErrOwned sub)
          else check_subdomains subdomains ks
      end
  end.

(** [CreateKey]; [b] are the random bytes of the key. *)
Definition CreateKey (b : list byte) (now : Z) (w : write_outcome)
    (name : string) (subdomains : list string) (maxTunnels : Z) (ks : KeyStore)
    : KeyStore * result key_error string :=
  if String.eqb name "" then (ks, Err ErrNameRequired)
  else
    let maxTunnels := if maxTunnels <=? 0 then 10 else maxTunnels in
    match check_subdomains subdomains ks with
    | Some e => (ks, Err e)
    | None =>
        let key := GenerateAPIKey b in
        let ks := with_keys (<[key := {| Name := name; Subdomains := subdomains;
                                        MaxTunnels := maxTunnels; CreatedAt := now;
                                        Active := true; key_tunnelCount := 0 |}]> (keys ks)) ks in
        match saveLocked w ks with
        | (ks, Some e) => (with_keys (delete key (keys ks)) ks, Err (ErrPersist e))
        | (ks, None) => (ks, Ok key)
        end
    end.

(** [RevokeKey] *)
Definition RevokeKey (w : write_outcome) (keyID : string) (ks : KeyStore)
    : KeyStore * option key_error :=
  match findKeyByIDOrPreview keyID ks with
  | None => (ks, Some ErrKeyNotFound)
  | Some id =>
      let '(ks, e) := saveLocked w (with_keys (alter (set_Active false) id (keys ks)) ks) in
      (ks, ErrSave <$> e)
  end.

(** [AddSubdomain] *)
Definition AddSubdomain (w : write_outcome) (keyID subdomain : string) (ks : KeyStore)
    : KeyStore * option key_error :=
  match ValidateSubdomain subdomain with
  | Some e => (ks, Some (ErrSubdomain e))
  | None =>
      match keys ks !! keyID with
      | None => (ks, Some ErrInvalidKey)
      | Some k =>
          if negb (Active k) then (ks, Some ErrInvalidKey)
          else
            let owner := findSubdomainOwnerLocked subdomain ks in
            if negb (String.eqb owner "") then
              if String.eqb owner keyID then (ks, None) else (ks, Some (ErrOwned subdomain))
            else
              let k := set_Subdomains (Subdomains k ++ [subdomain]) k in
              let '(ks, e) := saveLocked w (with_keys (<[keyID := k]> (keys ks)) ks) in
              (ks, ErrSave <$> e)
      end
  end.

(** [RemoveSubdomain] *)
Definition RemoveSubdomain (w : write_outcome) (keyID subdomain : string) (ks : KeyStore)
    : KeyStore * option key_error :=
  match keys ks !! keyID with
  | None => (ks, Some ErrInvalidKey)
  | Some k =>
      let filtered := List.filter (fun s => negb (String.eqb s subdomain)) (Subdomains k) in
      let '(ks, e) := saveLocked w (with_keys (<[keyID := set_Subdomains filtered k]> (keys ks)) ks) in
      (ks, ErrSave <$> e)
  end.
End Ranging.

(** ** Tunnel counts *)

(** [KeyStore.IncrementTunnels] *)
Definition KeyStore_IncrementTunnels (key : string) (ks : KeyStore) : KeyStore * option quota_error :=
  match keys ks !! key with
  | None => (ks, Some ErrUnknownToken)
  | Some k =>
      if bool_decide (key_tunnelCount k >= MaxTunnels k)
      then (ks, Some (ErrLimitReached (key_tunnelCount k) (MaxTunnels k)))
      else (with_keys (<[key := set_key_tunnelCount (key_tunnelCount k + 1) k]> (keys ks)) ks, None)
  end.

(** [KeyStore.DecrementTunnels] *)
Definition KeyStore_DecrementTunnels (key : string) (ks : KeyStore) : KeyStore :=
  match keys ks !! key with
  | Some k =>
      if bool_decide (key_tunnelCount k > 0)
      then with_keys (<[key := set_key_tunnelCount (key_tunnelCount k - 1) k]> (keys ks)) ks
      else ks
  | None => ks
  end.

Definition KeyStore_quota (key : string) (ks : KeyStore) : option (Z * Z) :=
  (fun k => (key_tunnelCount k, MaxTunnels k)) <$> keys ks !! key.

#[export] Instance KeyStore_counter : TunnelCounter KeyStore := {|
  quota := KeyStore_quota;
  IncrementTunnels := KeyStore_IncrementTunnels;
  DecrementTunnels := KeyStore_DecrementTunnels;
|}.

#[export] Instance KeyStore_laws : TunnelCounterLaws KeyStore.
Proof.
  split; unfold quota, IncrementTunnels, DecrementTunnels; cbn;
    unfold KeyStore_quota, KeyStore_IncrementTunnels, KeyStore_DecrementTunnels.
  - intros t s e. destruct (keys s !! t) as [k|]; simpl; [|by intros [= <-]].
    case_bool_decide; [by intros [= <-] | done].
  - intros t s q. destruct (keys s !! t) as [k|]; simpl; [|done].
    case_bool_decide; [done|]. intros [= <-].
    eexists. split_and!; [done | cbn [keys with_keys]; by rewrite lookup_insert_eq |].
    intros t' Hne. cbn [keys with_keys]. by rewrite lookup_insert_ne.
  - intros t s. destruct (keys s !! t) as [k|] eqn:E; simpl; [|by rewrite E].
    case_bool_decide; cbn [keys with_keys]; [by rewrite lookup_insert_eq | by rewrite E].
  - intros t t' s Hne. destruct (keys s !! t) as [k|] eqn:E; [|done].
    case_bool_decide; [|done]. cbn [keys with_keys]. by rewrite lookup_insert_ne.
Qed.

(** ** key_store_adapter.go: the dashboard's view of a key *)

Record APIKeyInfo := {
  info_Name : string;
  info_Subdomains : list string;
  info_MaxTunnels : Z;
  info_Active : bool;
  info_CreatedAt : Z;
}.

Definition toInfo (k : APIKey) : APIKeyInfo :=
  {| info_Name := Name k; info_Subdomains := Subdomains k; info_MaxTunnels := MaxTunnels k;
     info_Active := Active k; info_CreatedAt := CreatedAt k |}.

(** [KeyStoreAdapter.GetKey] *)
Definition Adapter_GetKey (key : string) (ks : KeyStore) : option APIKeyInfo :=
  toInfo <$> GetKey key ks.

(** [KeyStoreAdapter.ListKeys] *)
Definition Adapter_ListKeys (ks : KeyStore) : gmap string APIKeyInfo := toInfo <$> ListKeys ks.

(** ** Lemmas *)

(** What the file keeps of a key: all but the count of its open tunnels. *)
Definition persisted (k : APIKey) : APIKey := set_key_tunnelCount 0 k.

Lemma keys_saveLocked w ks : keys (saveLocked w ks).1 = keys ks.
Proof. unfold saveLocked. destruct (String.eqb _ _); [done|]. destruct (marshal_keyStoreData _), w; done. Qed.

Lemma filePath_saveLocked w ks : filePath (saveLocked w ks).1 = filePath ks.
Proof. unfold saveLocked. destruct (String.eqb _ _); [done|]. destruct (marshal_keyStoreData _), w; done. Qed.

(** The keys whose times have a JSON form. *)
Definition encodable (m : gmap string APIKey) : Prop :=
  forall id k, m !! id = Some k -> time_encodable (CreatedAt k) = true.

Lemma marshal_APIKey_ok k : is_ok (marshal_APIKey k) = time_encodable (CreatedAt k).
Proof. unfold marshal_APIKey, encode_time. by destruct (time_encodable _). Qed.

Lemma marshal_ok m : is_ok (marshal_keyStoreData m) = true <-> encodable m.
Proof.
  unfold marshal_keyStoreData, encodable.
  assert (forall r : result string jvalue, is_ok (v ← r; Ok (JObject [("keys"%string, v)])) = is_ok r) as -> by by intros [].
  rewrite encode_map_Ok. by setoid_rewrite marshal_APIKey_ok.
Qed.

(** A save that reports no error: there is no file to write, or the keys have a
    JSON form and the write succeeds. *)
Definition saves (w : write_outcome) (ks : KeyStore) : Prop :=
  filePath ks = ""%string \/ (encodable (keys ks) /\ w = WriteOk).

Lemma saveLocked_saves w ks : (saveLocked w ks).2 = None <-> saves w ks.
Proof.
  unfold saveLocked, saves. rewrite <- marshal_ok. destruct (String.eqb_spec (filePath ks) ""); [by intuition|].
  destruct (marshal_keyStoreData _) as [data|e], w; simpl; naive_solver.
Qed.

(** Text and numbers that JSON keeps as they are. *)
Record storable (id : string) (k : APIKey) : Prop := {
  st_id : valid_text id = true;
  st_name : valid_text (Name k) = true;
  st_subdomains : Forall (fun sub => valid_text sub = true) (Subdomains k);
  st_max : in_int64 (MaxTunnels k);
}.

Ltac find_field := unfold APIKey_field, keyStoreData_field;
  repeat match goal with |- context [EqualFold ?a ?b] =>
    let r := eval vm_compute in (EqualFold a b) in change (EqualFold a b) with r end; cbv iota.

Lemma APIKey_roundtrip id k v :
  storable id k -> marshal_APIKey k = Ok v -> v <> JNull /\ unmarshal_APIKey v = Good (persisted k).
Proof.
  intros [_ Hn Hs Hm]. unfold marshal_APIKey. destruct (encode_time _) as [t|] eqn:Et; [|done].
  apply encode_time_Ok in Et as [_ ->]. cbn [mbind result_bind]. intros [= <-]. split; [done|].
  cbn [unmarshal_APIKey decode_struct].
  rewrite (decode_members_cons _ _ _ (set_key_Name (Name k) zero_key)) by (find_field; cbn; by rewrite valid_text_eq).
  rewrite (decode_members_cons _ _ _ (set_Subdomains (Subdomains k) (set_key_Name (Name k) zero_key)))
    by (find_field; by rewrite decode_encode_strings).
  erewrite decode_members_cons by (find_field; by rewrite decode_encode_int).
  erewrite !decode_members_cons by (find_field; reflexivity). by destruct k.
Qed.

Lemma keyStoreData_roundtrip m v :
  (forall id k, m !! id = Some k -> storable id k) -> marshal_keyStoreData m = Ok v ->
  unmarshal_keyStoreData v = Good {| Keys := Some (persisted <$> m) |}.
Proof.
  intros Hm. unfold marshal_keyStoreData. destruct (encode_map _ _) as [w|] eqn:E; [|done].
  cbn [mbind result_bind]. intros [= <-]. cbn [unmarshal_keyStoreData decode_struct].
  erewrite decode_members_cons; [reflexivity|]. find_field. cbn [Keys]. rewrite (decode_encode_map marshal_APIKey unmarshal_APIKey persisted m w) with (2 := E); [done|].
  intros id k Hk. split; [by apply (Hm id k)|]. intros u. by apply (APIKey_roundtrip id), Hm.
Qed.

Lemma length_hex (b : list byte) : String.length (hex_EncodeToString b) = (2 * length b)%nat.
Proof. induction b as [|x b IH]; simpl; [done|]. rewrite IH. lia. Qed.

Lemma length_GenerateAPIKey (b : list byte) :
  length b = 16%nat -> String.length (GenerateAPIKey b) = 36%nat.
Proof. intros H. unfold GenerateAPIKey. by rewrite length_string_app, length_hex, H. Qed.

Lemma GenerateAPIKey_nonempty (b : list byte) : GenerateAPIKey b <> ""%string.
Proof. done. Qed.

(** ** The invariant of the key map *)

Definition key_owns (ks : KeyStore) (id sub : string) : Prop :=
  exists k, keys ks !! id = Some k /\ Active k = true /\ sub ∈ Subdomains k.

Record key_wf (ks : KeyStore) : Prop := {
  kw_ids id k : keys ks !! id = Some k -> id <> ""%string;
  kw_owner id1 id2 sub : key_owns ks id1 sub -> key_owns ks id2 sub -> id1 = id2;
  kw_valid id k sub : keys ks !! id = Some k -> sub ∈ Subdomains k -> ValidateSubdomain sub = None;
  kw_count id : in_bounds (KeyStore_quota id ks);
}.

Lemma owns_true sub id k : owns sub (id, k) = true <-> Active k = true /\ sub ∈ Subdomains k.
Proof.
  unfold owns. simpl. rewrite andb_true_iff, existsb_exists. split.
  - intros (? & s & Hin & ->%String.eqb_eq). split; [done | by apply list_elem_of_In].
  - intros (? & Hin). split; [done|]. exists sub. split; [by apply list_elem_of_In | apply String.eqb_refl].
Qed.

Lemma key_wf_saveLocked w ks : key_wf ks -> key_wf (saveLocked w ks).1.
Proof.
  intros [H1 H2 H3 H4]. pose proof (keys_saveLocked w ks) as Hk.
  split; unfold key_owns, KeyStore_quota in *; rewrite ?Hk; eauto.
Qed.

Lemma key_wf_insert ks id k :
  key_wf ks -> id <> ""%string ->
  (forall sub, sub ∈ Subdomains k -> ValidateSubdomain sub = None) ->
  (Active k = true -> forall sub id', sub ∈ Subdomains k -> key_owns ks id' sub -> id' = id) ->
  0 <= key_tunnelCount k <= MaxTunnels k ->
  key_wf (with_keys (<[id := k]> (keys ks)) ks).
Proof.
  intros [H1 H2 H3 H4] Hid Hv Hown Hc.
  assert (forall id' sub, key_owns (with_keys (<[id := k]> (keys ks)) ks) id' sub ->
    (id' = id /\ Active k = true /\ sub ∈ Subdomains k) \/ (id' <> id /\ key_owns ks id' sub)) as Hinv.
  { intros id' sub (k' & Hk' & Ha & Hs). cbn [keys with_keys] in Hk'.
    apply lookup_insert_Some in Hk' as [[<- <-]|[Hne Hk']]; [by left|]. right. split; [done|].
    by exists k'. }
  split; cbn [keys with_keys].
  - intros id' k'. rewrite lookup_insert_Some. intros [[<- _]|[_ ?]]; eauto.
  - intros id1 id2 sub O1 O2. apply Hinv in O1, O2.
    destruct O1 as [(-> & A1 & S1)|[N1 O1]], O2 as [(-> & A2 & S2)|[N2 O2]]; [done| | |by eapply H2].
    + symmetry. by eapply Hown.
    + by eapply Hown.
  - intros id' k' sub. rewrite lookup_insert_Some. intros [[<- <-]|[_ ?]]; eauto.
  - intros id'. unfold KeyStore_quota. cbn [keys with_keys].
    destruct (decide (id = id')) as [<-|Hne]; [by rewrite lookup_insert_eq|].
    rewrite lookup_insert_ne by done. apply H4.
Qed.

Lemma key_wf_delete ks id : key_wf ks -> key_wf (with_keys (delete id (keys ks)) ks).
Proof.
  intros [H1 H2 H3 H4]. split; unfold key_owns, KeyStore_quota in *; cbn [keys with_keys].
  - intros id' k'. rewrite lookup_delete_Some. intros [_ ?]. eauto.
  - intros id1 id2 sub (k1 & K1 & ?) (k2 & K2 & ?).
    apply lookup_delete_Some in K1 as [_ K1], K2 as [_ K2]. eapply H2; eauto.
  - intros id' k' sub. rewrite lookup_delete_Some. intros [_ ?]. eauto.
  - intros id'. destruct (decide (id = id')) as [<-|Hne]; [by rewrite lookup_delete_eq|].
    rewrite lookup_delete_ne by done. apply H4.
Qed.

Section Properties.
Context `{!RangeOrder string}.

Lemma owner_none ks sub :
  key_wf ks -> findSubdomainOwnerLocked sub ks = ""%string <-> forall id, ~ key_owns ks id sub.
Proof.
  intros Hwf. unfold findSubdomainOwnerLocked.
  destruct (first_such (owns sub) (range (keys ks))) as [[id k]|] eqn:E.
  - apply first_such_Some in E as [Hin Ho]. apply elem_of_range in Hin. apply owns_true in Ho.
    split; [intros ->; by apply (kw_ids _ Hwf) in Hin|].
    intros H. exfalso. apply (H id). by exists k.
  - split; [|done]. intros _ id (k & Hk & Ha). apply elem_of_range in Hk.
    rewrite first_such_None in E. apply E in Hk. apply not_true_iff_false in Hk.
    apply Hk, owns_true, Ha.
Qed.

(** The owner of a subdomain is the one active key that claims it: the
    answer of [FindSubdomainOwner] does not depend on the order in which the
    map is visited. *)
Theorem FindSubdomainOwner_spec ks sub id :
  key_wf ks -> id <> ""%string ->
  FindSubdomainOwner sub ks = id <-> key_owns ks id sub.
Proof.
  intros Hwf Hid. unfold FindSubdomainOwner, findSubdomainOwnerLocked.
  destruct (first_such (owns sub) (range (keys ks))) as [[id' k]|] eqn:E.
  - apply first_such_Some in E as [Hin Ho]. apply elem_of_range in Hin. apply owns_true in Ho.
    assert (key_owns ks id' sub) as Hown by by exists k.
    split; [by intros <-|]. intros Hown'. by eapply (kw_owner _ Hwf).
  - split; [by intros <-|]. intros Hown.
    assert (findSubdomainOwnerLocked sub ks = ""%string) as Hnone
      by (unfold findSubdomainOwnerLocked; by rewrite E).
    rewrite owner_none in Hnone by done. by apply Hnone in Hown.
Qed.

Lemma check_subdomains_None subs ks :
  key_wf ks ->
  check_subdomains subs ks = None <->
  forall sub, sub ∈ subs -> ValidateSubdomain sub = None /\ forall id, ~ key_owns ks id sub.
Proof.
  intros Hwf. induction subs as [|sub subs IH]; cbn [check_subdomains].
  - split; [|done]. intros _ sub Hin. by apply elem_of_nil in Hin.
  - destruct (ValidateSubdomain sub) as [e|] eqn:Ev.
    + split; [done|]. intros H. destruct (H sub) as [? _]; [apply list_elem_of_here | congruence].
    + destruct (String.eqb_spec (findSubdomainOwnerLocked sub ks) "") as [Eo|Eo]; simpl.
      * rewrite IH. rewrite owner_none in Eo by done. split.
        -- intros H s [->|Hs]%elem_of_cons; [done | by apply H].
        -- intros H s Hs. apply H. by apply list_elem_of_further.
      * split; [done|]. intros H. destruct (H sub) as [_ Hno]; [apply list_elem_of_here|].
        by apply (proj2 (owner_none ks sub Hwf)) in Hno.
Qed.

Lemma key_wf_CreateKey b now w name subs maxT ks :
  key_wf ks -> keys ks !! GenerateAPIKey b = None ->
  key_wf (CreateKey b now w name subs maxT ks).1.
Proof.
  intros Hwf Hfresh. unfold CreateKey. destruct (String.eqb name ""); [done|].
  destruct (check_subdomains subs ks) eqn:Ec; [done|].
  rewrite check_subdomains_None in Ec by done.
  match goal with |- context [saveLocked w ?k] => set (ks1 := k) end.
  assert (key_wf ks1) as H1.
  { apply key_wf_insert; [done | apply GenerateAPIKey_nonempty | | |]; simpl.
    - intros sub Hs. by apply Ec.
    - intros _ sub id Hs Ho. exfalso. by apply (proj2 (Ec sub Hs) id).
    - destruct (maxT <=? 0) eqn:Em; lia. }
  apply (key_wf_saveLocked w) in H1. destruct (saveLocked w ks1) as [ks2 [e|]]; simpl; [|done].
  by apply key_wf_delete.
Qed.

Lemma key_wf_alter_shrink id f ks :
  key_wf ks ->
  (forall k, (Active (f k) = true -> Active k = true) /\
             (forall sub, sub ∈ Subdomains (f k) -> sub ∈ Subdomains k) /\
             MaxTunnels (f k) = MaxTunnels k /\
             (0 <= key_tunnelCount k <= MaxTunnels k -> 0 <= key_tunnelCount (f k) <= MaxTunnels k)) ->
  key_wf (with_keys (alter f id (keys ks)) ks).
Proof.
  intros Hwf Hf. destruct (keys ks !! id) as [k|] eqn:Ek.
  - replace (alter f id (keys ks)) with (<[id := f k]> (keys ks)).
    2: { apply map_eq. intros i. destruct (decide (id = i)) as [<-|Hne].
         - by rewrite lookup_insert_eq, lookup_alter_eq, Ek.
         - by rewrite lookup_insert_ne, lookup_alter_ne. }
    destruct (Hf k) as (Ha & Hs & Hm & Hc).
    apply key_wf_insert; [done | by eapply kw_ids | | |].
    + intros sub Hsub. eapply (kw_valid _ Hwf); eauto.
    + intros Hact sub id' Hsub Ho. eapply (kw_owner _ Hwf); [done|]. exists k. auto.
    + rewrite Hm. apply Hc. pose proof (kw_count _ Hwf id) as Hb.
      unfold KeyStore_quota in Hb. by rewrite Ek in Hb.
  - replace (alter f id (keys ks)) with (keys ks); [by destruct ks|].
    apply map_eq. intros i. destruct (decide (id = i)) as [<-|Hne].
    + by rewrite lookup_alter_eq, Ek.
    + by rewrite lookup_alter_ne.
Qed.

Lemma key_wf_RevokeKey w keyID ks : key_wf ks -> key_wf (RevokeKey w keyID ks).1.
Proof.
  intros Hwf. unfold RevokeKey. destruct (findKeyByIDOrPreview keyID ks) as [id|]; [|done].
  assert (key_wf (with_keys (alter (set_Active false) id (keys ks)) ks)) as H1
    by (apply key_wf_alter_shrink; [done|]; intros k; by simpl).
  apply (key_wf_saveLocked w) in H1. by destruct (saveLocked w _).
Qed.

Lemma key_wf_AddSubdomain w keyID sub ks : key_wf ks -> key_wf (AddSubdomain w keyID sub ks).1.
Proof.
  intros Hwf. unfold AddSubdomain. destruct (ValidateSubdomain sub) eqn:Ev; [done|].
  destruct (keys ks !! keyID) as [k|] eqn:Ek; [|done].
  destruct (Active k) eqn:Ea; simpl; [|done].
  destruct (String.eqb_spec (findSubdomainOwnerLocked sub ks) "") as [Eo|Eo]; simpl.
  2: { by destruct (String.eqb _ keyID). }
  rewrite owner_none in Eo by done.
  match goal with |- context [saveLocked w ?x] => assert (key_wf x) as H1 end.
  { apply key_wf_insert; [done | by eapply kw_ids | | |]; simpl.
    - intros s [Hs| ->%list_elem_of_singleton]%elem_of_app; [|done]. by eapply (kw_valid _ Hwf).
    - intros _ s id' [Hs| ->%list_elem_of_singleton]%elem_of_app Ho; [|by apply Eo in Ho].
      eapply (kw_owner _ Hwf); [done|]. by exists k.
    - pose proof (kw_count _ Hwf keyID) as Hb. unfold KeyStore_quota in Hb. by rewrite Ek in Hb. }
  apply (key_wf_saveLocked w) in H1. by destruct (saveLocked w _).
Qed.

Lemma key_wf_RemoveSubdomain w keyID sub ks : key_wf ks -> key_wf (RemoveSubdomain w keyID sub ks).1.
Proof.
  intros Hwf. unfold RemoveSubdomain. destruct (keys ks !! keyID) as [k|] eqn:Ek; [|done].
  assert (forall s, s ∈ List.filter (fun s => negb (String.eqb s sub)) (Subdomains k) ->
                    s ∈ Subdomains k) as Hsub.
  { intros s. rewrite !list_elem_of_In, filter_In. tauto. }
  match goal with |- context [saveLocked w ?x] => assert (key_wf x) as H1 end.
  { apply key_wf_insert; [done | by eapply kw_ids | | |]; simpl.
    - intros s Hs. eapply (kw_valid _ Hwf); eauto.
    - intros Ha s id' Hs Ho. eapply (kw_owner _ Hwf); [done|]. exists k. auto.
    - pose proof (kw_count _ Hwf keyID) as Hb. unfold KeyStore_quota in Hb. by rewrite Ek in Hb. }
  apply (key_wf_saveLocked w) in H1. by destruct (saveLocked w _).
Qed.

Lemma quota_with_keys_wf ks ks' :
  key_wf ks -> (forall id, in_bounds (KeyStore_quota id ks')) ->
  (forall id, option_map persisted (keys ks' !! id) = option_map persisted (keys ks !! id)) ->
  key_wf ks'.
Proof.
  intros Hwf Hb Hsame.
  assert (forall id k', keys ks' !! id = Some k' -> exists k, keys ks !! id = Some k /\
            Active k = Active k' /\ Subdomains k = Subdomains k') as Hk.
  { intros id k' Hk'. specialize (Hsame id). rewrite Hk' in Hsame. simpl in Hsame.
    destruct (keys ks !! id) as [k|]; [|done]. injection Hsame as ? ? ? ? ?. by exists k. }
  assert (forall id sub, key_owns ks' id sub -> key_owns ks id sub) as Hown.
  { intros id sub (k' & Hk' & Ha & Hs). destruct (Hk id k' Hk') as (k & ? & E1 & E2).
    exists k. by rewrite E1, E2. }
  split; [| | | done].
  - intros id k' Hk'. destruct (Hk id k' Hk') as (k & ? & _). by eapply (kw_ids _ Hwf).
  - intros id1 id2 sub O1%Hown O2%Hown. by eapply (kw_owner _ Hwf).
  - intros id k' sub Hk'. destruct (Hk id k' Hk') as (k & ? & _ & <-). by eapply (kw_valid _ Hwf).
Qed.

Lemma key_wf_Increment key ks : key_wf ks -> key_wf (KeyStore_IncrementTunnels key ks).1.
Proof.
  intros Hwf. apply (quota_with_keys_wf ks); [done | |].
  - intros id. exact (incr_bounds (St:=KeyStore) key ks id (kw_count _ Hwf id)).
  - intros id. unfold KeyStore_IncrementTunnels.
    destruct (keys ks !! key) as [k|] eqn:Ek; [|done]. case_bool_decide; [done|].
    cbn [fst keys with_keys]. destruct (decide (key = id)) as [<-|Hne].
    + by rewrite lookup_insert_eq, Ek.
    + by rewrite lookup_insert_ne.
Qed.

Lemma key_wf_Decrement key ks : key_wf ks -> key_wf (KeyStore_DecrementTunnels key ks).
Proof.
  intros Hwf. apply (quota_with_keys_wf ks); [done | |].
  - intros id. exact (decr_bounds (St:=KeyStore) key ks id (kw_count _ Hwf id)).
  - intros id. unfold KeyStore_DecrementTunnels.
    destruct (keys ks !! key) as [k|] eqn:Ek; [|done]. case_bool_decide; [|done].
    cbn [keys with_keys]. destruct (decide (key = id)) as [<-|Hne].
    + by rewrite lookup_insert_eq, Ek.
    + by rewrite lookup_insert_ne.
Qed.

(** One operation on the store.  The sixteen random bytes of a new key do not
    repeat an existing one. *)
Inductive key_step (ks : KeyStore) : KeyStore -> Prop :=
  | ks_create b now w name subs maxT :
      keys ks !! GenerateAPIKey b = None -> key_step ks (CreateKey b now w name subs maxT ks).1
  | ks_revoke w keyID : key_step ks (RevokeKey w keyID ks).1
  | ks_add w keyID sub : key_step ks (AddSubdomain w keyID sub ks).1
  | ks_remove w keyID sub : key_step ks (RemoveSubdomain w keyID sub ks).1
  | ks_incr key : key_step ks (KeyStore_IncrementTunnels key ks).1
  | ks_decr key : key_step ks (KeyStore_DecrementTunnels key ks).

Lemma key_step_wf ks ks' : key_wf ks -> key_step ks ks' -> key_wf ks'.
Proof.
  intros Hwf Hs. destruct Hs; eauto using key_wf_CreateKey, key_wf_RevokeKey, key_wf_AddSubdomain,
    key_wf_RemoveSubdomain, key_wf_Increment, key_wf_Decrement.
Qed.

Lemma key_wf_empty path d : key_wf {| keys := ∅; filePath := path; disk := d |}.
Proof.
  split; unfold key_owns, KeyStore_quota; cbn [keys].
  - intros ?? H. by rewrite lookup_empty in H.
  - intros ??? (? & H & _). by rewrite lookup_empty in H.
  - intros ??? H. by rewrite lookup_empty in H.
  - intros ?. by rewrite lookup_empty.
Qed.

(** C14: from an empty store, under every sequence of operations and of disk
    failures, no two active keys ever own one subdomain, every claimed
    subdomain is valid, and every tunnel count stays between 0 and the key's
    maximum. *)
Theorem key_store_wf path d ks :
  reachable (fun ks => ks = {| keys := ∅; filePath := path; disk := d |}) key_step ks -> key_wf ks.
Proof.
  apply reachable_invariant; [|by apply key_step_wf]. intros ? ->. apply key_wf_empty.
Qed.

(** ** Outcomes *)

Lemma check_subdomains_error subs ks e :
  check_subdomains subs ks = Some e -> e <> ErrNameRequired /\ forall x, e <> ErrPersist x.
Proof.
  induction subs as [|sub subs IH]; cbn [check_subdomains]; [done|].
  destruct (ValidateSubdomain sub); [by intros [= <-]|].
  destruct (negb _); [by intros [= <-] | done].
Qed.

(** The key that [CreateKey] makes. *)
Definition new_key (now : Z) (name : string) (subs : list string) (maxT : Z) : APIKey :=
  {| Name := name; Subdomains := subs; MaxTunnels := if maxT <=? 0 then 10 else maxT; CreatedAt := now;
     Active := true; key_tunnelCount := 0 |}.

(** What is asked of a request for a key. *)
Definition acceptable (name : string) (subs : list string) (ks : KeyStore) : Prop :=
  name <> ""%string /\
  forall sub, sub ∈ subs -> ValidateSubdomain sub = None /\ forall id, ~ key_owns ks id sub.

Lemma CreateKey_outcome b now w name subs maxT ks ks' r :
  key_wf ks -> keys ks !! GenerateAPIKey b = None ->
  CreateKey b now w name subs maxT ks = (ks', r) ->
  let ks1 := with_keys (<[GenerateAPIKey b := new_key now name subs maxT]> (keys ks)) ks in
  (is_ok r = true <-> acceptable name subs ks /\ saves w ks1) /\
  match r with
  | Ok key => key = GenerateAPIKey b /\ keys ks' = keys ks1 /\ ks' = (saveLocked w ks1).1
  | Err ErrNameRequired => name = ""%string /\ ks' = ks
  | Err (ErrPersist e) => acceptable name subs ks /\ (saveLocked w ks1).2 = Some e /\ keys ks' = keys ks
  | Err e => check_subdomains subs ks = Some e /\ ks' = ks
  end.
Proof.
  intros Hwf Hfresh. unfold CreateKey, acceptable. destruct (String.eqb_spec name "") as [->|Hname].
  { intros [= <- <-]. split; [|done]. by split; [|intros [[] _]]. }
  destruct (check_subdomains subs ks) as [e|] eqn:Ec.
  { intros [= <- <-]. destruct (check_subdomains_error _ _ _ Ec) as [H1 H2]. split.
    - split; [done|]. intros [[_ Hs] _]. by rewrite (proj2 (check_subdomains_None subs ks Hwf) Hs) in Ec.
    - destruct e; try done; by destruct (H2 e). }
  rewrite check_subdomains_None in Ec by done.
  change {| Name := name; Subdomains := subs |} with (new_key now name subs maxT).
  set (ks1 := with_keys _ ks). rewrite <- saveLocked_saves.
  pose proof (keys_saveLocked w ks1) as Hk. destruct (saveLocked w ks1) as [ks2 [e|]];
    intros [= <- <-]; cbn [fst snd is_ok] in *; (split; [by intuition|]); [|done].
  cbn [keys with_keys]. rewrite Hk. split_and!; [done..|]. by apply delete_insert_id.
Qed.

Lemma CreateKey_cases b now w name subs maxT ks ks' r :
  key_wf ks -> keys ks !! GenerateAPIKey b = None ->
  CreateKey b now w name subs maxT ks = (ks', r) ->
  match r with
  | Ok key => key = GenerateAPIKey b /\ name <> ""%string /\
      (forall sub, sub ∈ subs -> ValidateSubdomain sub = None /\ forall id, ~ key_owns ks id sub) /\
      keys ks' = <[key := new_key now name subs maxT]> (keys ks)
  | Err _ => keys ks' = keys ks
  end.
Proof.
  intros Hwf Hf Hc. destruct (CreateKey_outcome _ _ _ _ _ _ _ _ _ Hwf Hf Hc) as [Hiff Hr]. destruct r as [key|e].
  - destruct (proj1 Hiff eq_refl) as [[Hn Hs] _], Hr as (-> & Hk & _). by split_and!.
  - by destruct e; destruct_and?; subst.
Qed.

(** C37: [CreateKey] succeeds exactly when the name is given, every requested
    subdomain is valid and unowned, and the save succeeds: there is no file, or
    the keys with the new one have a JSON form and the write goes through.  The
    new key is then active with those subdomains, the other keys are as before
    and the file is that of the new store.  When it fails, no key has changed,
    and the error tells why: no name, a subdomain, or else the save. *)
Theorem CreateKey_spec b now w name subs maxT ks ks' r :
  key_wf ks -> keys ks !! GenerateAPIKey b = None ->
  CreateKey b now w name subs maxT ks = (ks', r) ->
  let ks1 := with_keys (<[GenerateAPIKey b := new_key now name subs maxT]> (keys ks)) ks in
  (is_ok r = true <-> acceptable name subs ks /\ saves w ks1) /\
  match r with
  | Ok key => key = GenerateAPIKey b /\ keys ks' = keys ks1 /\ ks' = (saveLocked w ks1).1
  | Err ErrNameRequired => name = ""%string /\ ks' = ks
  | Err (ErrPersist e) => acceptable name subs ks /\ (saveLocked w ks1).2 = Some e /\ keys ks' = keys ks
  | Err e => check_subdomains subs ks = Some e /\ ks' = ks
  end.
Proof. apply CreateKey_outcome. Qed.

(** ** Revocation *)

Definition revoked (key : string) (ks : KeyStore) : Prop :=
  exists k, keys ks !! key = Some k /\ Active k = false.

Lemma revoked_Validate key ks :
  is_Some (keys ks !! key) /\ KeyStore_Validate key ks = false <-> revoked key ks.
Proof.
  unfold KeyStore_Validate, revoked. split; [intros [[k Hk] Hv] | intros (k & Hk & Hv)];
    rewrite Hk in *; eauto.
Qed.

Lemma revoked_saveLocked key w ks : revoked key ks -> revoked key (saveLocked w ks).1.
Proof. unfold revoked. by rewrite keys_saveLocked. Qed.

Lemma revoked_insert key ks id k' :
  (id = key -> Active k' = false) -> revoked key ks ->
  revoked key (with_keys (<[id := k']> (keys ks)) ks).
Proof.
  intros Ha (k & Hk & Hv). unfold revoked. cbn [keys with_keys].
  destruct (decide (id = key)) as [->|Hne]; [rewrite lookup_insert_eq | rewrite lookup_insert_ne by done]; eauto.
Qed.

(** An operation that updates one entry and saves keeps the key revoked. *)
Lemma revoked_update key ks w id k' ks' e :
  (id = key -> Active k' = false) -> revoked key ks ->
  saveLocked w (with_keys (<[id := k']> (keys ks)) ks) = (ks', e) -> revoked key ks'.
Proof.
  intros Ha Hr E. change ks' with (ks', e).1. rewrite <- E.
  by apply revoked_saveLocked, revoked_insert.
Qed.

Lemma revoked_CreateKey key b now w name subs maxT ks :
  keys ks !! GenerateAPIKey b = None -> revoked key ks ->
  revoked key (CreateKey b now w name subs maxT ks).1.
Proof.
  intros Hfresh Hr. assert (GenerateAPIKey b <> key) as Hne.
  { destruct Hr as (k & Hk & _). congruence. }
  unfold CreateKey. destruct (String.eqb name ""); [done|].
  destruct (check_subdomains subs ks); [done|].
  match goal with |- context [saveLocked w ?x] =>
    destruct (saveLocked w x) as [ks2 e] eqn:E end.
  assert (revoked key ks2) as Hr2 by (eapply revoked_update; [|exact Hr|exact E]; done).
  destruct e as [e|]; [|exact Hr2]. destruct Hr2 as (k & Hk & Hv).
  exists k. cbn [fst keys with_keys]. by rewrite lookup_delete_ne.
Qed.

Lemma revoked_RevokeKey key w keyID ks : revoked key ks -> revoked key (RevokeKey w keyID ks).1.
Proof.
  intros (k & Hk & Hv). unfold RevokeKey.
  destruct (findKeyByIDOrPreview keyID ks) as [id|]; [|by exists k].
  match goal with |- context [saveLocked w ?x] =>
    pose proof (revoked_saveLocked key w x) as Hs; destruct (saveLocked w x) as [ks2 e] end.
  apply Hs. unfold revoked. cbn [keys with_keys]. destruct (decide (id = key)) as [->|Hne].
  - rewrite lookup_alter_eq, Hk. by eexists.
  - rewrite lookup_alter_ne by done. by exists k.
Qed.

Lemma revoked_AddSubdomain key w keyID sub ks :
  revoked key ks -> revoked key (AddSubdomain w keyID sub ks).1.
Proof.
  intros Hr. unfold AddSubdomain. destruct (ValidateSubdomain sub); [done|].
  destruct (keys ks !! keyID) as [k1|] eqn:E1; [|done]. destruct (negb (Active k1)); [done|].
  destruct (negb _); [by destruct (String.eqb _ keyID)|].
  match goal with |- context [saveLocked w ?x] => destruct (saveLocked w x) as [ks2 e] eqn:E end.
  eapply revoked_update; [|exact Hr|exact E]. intros ->. destruct Hr as (k & ? & ?). simpl. congruence.
Qed.

Lemma revoked_RemoveSubdomain key w keyID sub ks :
  revoked key ks -> revoked key (RemoveSubdomain w keyID sub ks).1.
Proof.
  intros Hr. unfold RemoveSubdomain. destruct (keys ks !! keyID) as [k1|] eqn:E1; [|done].
  match goal with |- context [saveLocked w ?x] => destruct (saveLocked w x) as [ks2 e] eqn:E end.
  eapply revoked_update; [|exact Hr|exact E]. intros ->. destruct Hr as (k & ? & ?). simpl. congruence.
Qed.

Lemma revoked_quota key id ks :
  revoked key ks ->
  revoked key (KeyStore_IncrementTunnels id ks).1 /\ revoked key (KeyStore_DecrementTunnels id ks).
Proof.
  intros Hr. unfold KeyStore_IncrementTunnels, KeyStore_DecrementTunnels.
  destruct (keys ks !! id) as [k1|] eqn:E1; [|done].
  split; (case_bool_decide; try done; apply revoked_insert; [|done]);
    intros ->; destruct Hr as (k & ? & ?); simpl; congruence.
Qed.

(** C38: revocation is final: once a key is inactive, no sequence of operations
    makes it valid again. *)
Theorem revocation_final key ks ks' :
  is_Some (keys ks !! key) -> KeyStore_Validate key ks = false ->
  reachable (fun x => x = ks) key_step ks' ->
  is_Some (keys ks' !! key) /\ KeyStore_Validate key ks' = false.
Proof.
  intros Hk Hv Hr. apply revoked_Validate.
  revert ks' Hr. apply reachable_invariant; [by intros ? ->; apply revoked_Validate|].
  clear. intros ks ks' Hr [b now w name subs maxT Hfresh|w keyID|w keyID sub|w keyID sub|id|id];
    eauto using revoked_RevokeKey, revoked_AddSubdomain, revoked_RemoveSubdomain;
    [by apply revoked_CreateKey | by apply revoked_quota..].
Qed.

(** C40: the file reflects the store: when an operation that saves reports no
    error, and every text in the store is valid UTF-8 and every limit an int, a
    server restarted on the file decodes from it the same keys, member by member,
    with every tunnel count at zero. *)
Theorem save_reload w ks ks' :
  filePath ks <> ""%string -> (forall id k, keys ks !! id = Some k -> storable id k) ->
  saveLocked w ks = (ks', None) ->
  NewKeyStore (filePath ks') (disk ks') =
    Some (Ok {| keys := persisted <$> keys ks; filePath := filePath ks; disk := disk ks' |}).
Proof.
  intros Hp Hst Hs. pose proof (filePath_saveLocked w ks) as Hf. rewrite Hs in Hf. simpl in Hf.
  unfold NewKeyStore. rewrite Hf. unfold saveLocked in Hs.
  rewrite (proj2 (String.eqb_neq _ _)) in Hs |- * by done.
  destruct (marshal_keyStoreData (keys ks)) as [v|e] eqn:Em; [|done].
  destruct w; [|done]. injection Hs as <-. cbn [disk with_disk].
  by rewrite (keyStoreData_roundtrip _ _ Hst Em).
Qed.

(** ** Revocation from the admin dashboard *)

(** Keys as [GenerateAPIKey] makes them. *)
Definition generated_ids (ks : KeyStore) : Prop :=
  forall id, is_Some (keys ks !! id) -> exists b, length b = 16%nat /\ id = GenerateAPIKey b.

Lemma length_mask (s : string) (n : nat) :
  (n + 4 <= String.length s)%nat ->
  String.length (slice_to s n +:+ "..." +:+ slice_from s (String.length s - 4)) = (n + 7)%nat.
Proof.
  intros H. rewrite !length_string_app. unfold slice_to, slice_from, slice.
  assert (forall i k t, (i + k <= String.length t)%nat -> String.length (substring i k t) = k) as Hsub.
  { intros i k t. revert i k. induction t as [|c t IH]; intros [|i] [|k]; simpl; try lia; try done;
      intros; rewrite IH; lia. }
  rewrite !Hsub by lia. change (String.length "...") with 3%nat. lia.
Qed.

(** The admin dashboard identifies a key by the preview that its own
    listing shows, [maskKey id]; the store looks previews up by [MaskKey],
    which is longer, so revoking a generated key from the listing always
    answers "key not found" and changes nothing. *)
Theorem dashboard_preview_never_revokes w ks b :
  generated_ids ks -> length b = 16%nat ->
  RevokeKey w (maskKey (GenerateAPIKey b)) ks = (ks, Some ErrKeyNotFound).
Proof.
  intros Hgen Hb. pose proof (length_GenerateAPIKey b Hb) as Hl.
  assert (String.length (maskKey (GenerateAPIKey b)) = 11%nat) as Hm.
  { unfold maskKey, len. rewrite Hl. change (Z.of_nat 36 <=? 8) with false. cbv iota.
    rewrite <- Hl. apply (length_mask _ 4). lia. }
  unfold RevokeKey, findKeyByIDOrPreview.
  destruct (keys ks !! maskKey (GenerateAPIKey b)) as [k|] eqn:E.
  { destruct (Hgen (maskKey (GenerateAPIKey b))) as (b' & Hb' & Heq); [eauto|].
    rewrite Heq in Hm. rewrite length_GenerateAPIKey in Hm; done. }
  rewrite (proj2 (first_such_None _ _)); [done|].
  intros [id k] Hin. apply elem_of_range in Hin. simpl.
  apply String.eqb_neq. intros Heq.
  destruct (Hgen id) as (b' & Hb' & ->); [eauto|].
  pose proof (length_GenerateAPIKey b' Hb') as Hl'.
  apply (f_equal String.length) in Heq. rewrite Hm in Heq. revert Heq.
  unfold MaskKey, len. rewrite Hl'. change (Z.of_nat 36 <? 12) with false. cbv iota.
  rewrite <- Hl'. rewrite (length_mask _ 8) by lia. done.
Qed.
End Properties.

(** ** The properties at concrete stores *)

Module Examples.
#[local] Instance order_string : RangeOrder string := canonical_order string.

Definition seed : list byte := repeat xab 16.
Definition ks0 : KeyStore := {| keys := ∅; filePath := "keys.json"; disk := NoFile |}.
Definition ks1 : KeyStore := (CreateKey seed 100 WriteOk "An" ["myapp"%string] 10 ks0).1.
Definition ks2 : KeyStore := (RevokeKey WriteOk (GenerateAPIKey seed) ks1).1.

Lemma ks1_reachable : reachable (fun ks => ks = ks0) key_step ks1.
Proof. eapply reach_step; [by apply reach_init | by apply ks_create]. Qed.

Lemma wf_ks1 : key_wf ks1.
Proof. apply key_wf_CreateKey; [apply key_wf_empty | reflexivity]. Qed.

Lemma key_store_wf_witness : key_wf ks1.
Proof. apply (key_store_wf "keys.json" NoFile), ks1_reachable. Defined.

Lemma FindSubdomainOwner_spec_witness :
  FindSubdomainOwner "myapp" ks1 = GenerateAPIKey seed <-> key_owns ks1 (GenerateAPIKey seed) "myapp".
Proof. apply (FindSubdomainOwner_spec ks1 "myapp" (GenerateAPIKey seed) wf_ks1). discriminate. Defined.

Lemma acceptable_an : acceptable "An" ["myapp"%string] ks0.
Proof.
  split; [done|]. intros sub ->%list_elem_of_singleton. split; [vm_compute; reflexivity|].
  intros id (k & Hk & _). cbn [keys ks0] in Hk. by rewrite lookup_empty in Hk.
Qed.

Lemma CreateKey_spec_witness :
  is_ok (CreateKey seed 100 (WriteFailed Blank "no space left") "An" ["myapp"%string] 10 ks0).2 = true <->
  acceptable "An" ["myapp"%string] ks0 /\ saves (WriteFailed Blank "no space left")
    (with_keys (<[GenerateAPIKey seed := new_key 100 "An" ["myapp"%string] 10]> (keys ks0)) ks0).
Proof.
  exact (proj1 (CreateKey_spec seed 100 (WriteFailed Blank "no space left") "An" ["myapp"%string] 10 ks0 _ _
    (key_wf_empty "keys.json" NoFile) eq_refl (surjective_pairing _))).
Defined.

Lemma revocation_final_witness :
  is_Some (keys ks2 !! GenerateAPIKey seed) /\ KeyStore_Validate (GenerateAPIKey seed) ks2 = false.
Proof.
  apply (revocation_final (GenerateAPIKey seed) ks2 ks2).
  - eexists. vm_compute. reflexivity.
  - vm_compute. reflexivity.
  - by apply reach_init.
Defined.

(** The file of [ks1]. *)
Example file_of_ks1 :
  disk ks1 = Stored (JObject [("keys", JObject [("htk_abababababababababababababababab",
    JObject [("name", JString "An"); ("subdomains", JArray [JString "myapp"]); ("max_tunnels", JInt 10);
             ("created_at", JTime 100); ("active", JBool true)])])]%string).
Proof. vm_compute. reflexivity. Qed.

Lemma storable_ks1 id k : keys ks1 !! id = Some k -> storable id k.
Proof.
  change (keys ks1) with (<[GenerateAPIKey seed := new_key 100 "An" ["myapp"%string] 10]> (∅ : gmap string APIKey)).
  intros [[<- <-]|[_ Hk]]%lookup_insert_Some; [|by rewrite lookup_empty in Hk].
  split; [vm_compute; reflexivity.. | by repeat constructor | by vm_compute].
Qed.

Lemma saved_ks1 : saveLocked WriteOk ks1 = (ks1, None).
Proof. vm_compute. reflexivity. Qed.

Lemma save_reload_witness :
  NewKeyStore (filePath ks1) (disk ks1) =
    Some (Ok {| keys := persisted <$> keys ks1; filePath := "keys.json"; disk := disk ks1 |}).
Proof. exact (save_reload WriteOk ks1 ks1 ltac:(vm_compute; discriminate) storable_ks1 saved_ks1). Defined.

(** Files written by hand: a member in another case, an unknown and a null one
    are read; a limit that is no integer, or too large, and a subdomain that is
    no string are refused. *)
Example reads_by_hand :
  let f ms := NewKeyStore "keys.json" (Stored (JObject [("Keys", JObject [("k", JObject ms)])]))%string in
  let k t := {| Name := "a"; Subdomains := []; MaxTunnels := 5; CreatedAt := t; Active := true; key_tunnelCount := 0 |} in
  (forall ks, f [("NAME", JString "a"); ("Max_Tunnels", JInt 5); ("created_at", JNull); ("note", JArray []); ("active", JBool true)]%string
     = Some (Ok ks) -> keys ks = {[ "k"%string := k zero_time ]}) /\
  f [("max_tunnels", JFloat "1.5")]%string = Some (Err "parse key store: json: cannot unmarshal"%string) /\
  f [("max_tunnels", JInt (2 ^ 63))]%string = Some (Err "parse key store: json: cannot unmarshal"%string) /\
  f [("subdomains", JArray [JInt 1])]%string = Some (Err "parse key store: json: cannot unmarshal"%string).
Proof. split_and!; [intros ks; vm_compute; by intros [= <-] | vm_compute; reflexivity..]. Qed.

Lemma dashboard_preview_never_revokes_witness :
  RevokeKey WriteOk (maskKey (GenerateAPIKey seed)) ks1 = (ks1, Some ErrKeyNotFound).
Proof.
  apply (dashboard_preview_never_revokes WriteOk ks1 seed); [|reflexivity].
  intros id [k Hk].
  change (keys ks1) with (<[GenerateAPIKey seed := {| Name := "An"; Subdomains := ["myapp"%string];
    MaxTunnels := 10; CreatedAt := 100; Active := true; key_tunnelCount := 0 |}]>
    (∅ : gmap string APIKey)) in Hk.
  apply lookup_insert_Some in Hk as [[<- _]|[_ Hk]]; [|by rewrite lookup_empty in Hk].
  by exists seed.
Defined.
End Examples.
