(* ===== verification/RequestLog.v ===== *)
(** * The request log (internal/server/request_log.go)

    A circular buffer of the last [maxLogEntries] proxied requests and the
    analytics computed from it.  The subscribers of the log are in LogFeed.v. *)

From S2P Require Import Prelude.
From stdpp Require Import sorting.
Local Open Scope Z_scope.

(** ** State *)

Definition maxLogEntries : nat := Z.to_nat 10000.

Lemma maxLogEntries_eq : Z.of_nat maxLogEntries = 10000.
Proof. reflexivity. Qed.

#[global] Opaque maxLogEntries.

Record LogEntry := {
  le_Timestamp : Z;
  le_TunnelID : string;
  le_Subdomain : string;
  le_Token : string;
  le_Method : string;
  le_Path : string;
  le_Status : Z;
  le_DurationMs : Z;
  le_Size : Z;
}.

#[export] Instance LogEntry_eq_dec : EqDecision LogEntry.
Proof. solve_decision. Defined.

(** The zero [LogEntry] that [make] fills the buffer with (its timestamp is the
    zero [time.Time], the origin of the model's clock). *)
Definition zero_entry : LogEntry :=
  {| le_Timestamp := 0; le_TunnelID := ""; le_Subdomain := ""; le_Token := "";
     le_Method := ""; le_Path := ""; le_Status := 0; le_DurationMs := 0; le_Size := 0 |}.

Record TrafficBucket := {
  tb_Timestamp : Z;
  tb_Requests : Z;
  tb_BytesIn : Z;
  tb_BytesOut : Z;
  tb_Status2xx : Z;
  tb_Status3xx : Z;
  tb_Status4xx : Z;
  tb_Status5xx : Z;
  tb_AvgLatency : Z;
}.

Record PathCount := { pc_Path : string; pc_Count : Z }.

(** [RequestLog]: the part that [mu] guards. *)
Record RequestLog := {
  rl_entries : list LogEntry;
  rl_pos : nat;
  rl_full : bool;
}.

(** [NewRequestLog] *)
Definition NewRequestLog : RequestLog :=
  {| rl_entries := replicate maxLogEntries zero_entry; rl_pos := 0; rl_full := false |}.

(** ** Operations *)

(** [Add], under [mu]; [None] is the run-time panic of an index out of range. *)
Definition RequestLog_Add (e : LogEntry) (rl : RequestLog) : option RequestLog :=
  if decide (rl_pos rl < length (rl_entries rl))%nat then
    let entries := <[rl_pos rl := e]> (rl_entries rl) in
    let pos := S (rl_pos rl) in
    Some (if decide (maxLogEntries <= pos)%nat
          then {| rl_entries := entries; rl_pos := 0; rl_full := true |}
          else {| rl_entries := entries; rl_pos := pos; rl_full := rl_full rl |})
  else None.

(** [raw[i], raw[j] = raw[j], raw[i]] *)
Definition swap {A} (i j : nat) (raw : list A) : list A :=
  match raw !! i, raw !! j with
  | Some x, Some y => <[j := x]> (<[i := y]> raw)
  | _, _ => raw
  end.

(** The reversing loop of [snapshot]; [fuel] bounds the number of rounds. *)
Fixpoint reverse_loop {A} (fuel i j : nat) (raw : list A) : list A :=
  match fuel with
  | O => raw
  | S fuel => if decide (i < j)%nat
              then reverse_loop fuel (i + 1) (j - 1) (swap i j raw)
              else raw
  end.

(** The copy that [snapshot] takes under the lock, oldest entry first. *)
Definition raw_copy (rl : RequestLog) : list LogEntry :=
  if rl_full rl
  then drop (rl_pos rl) (rl_entries rl) ++ take (rl_pos rl) (rl_entries rl)
  else take (rl_pos rl) (rl_entries rl).

(** [snapshot] *)
Definition snapshot (token : string) (rl : RequestLog) : list LogEntry :=
  let raw := raw_copy rl in
  let raw := reverse_loop (length raw) 0 (length raw - 1) raw in
  if String.eqb token "" then raw
  else filter (fun e => le_Token e = token) raw.

(** [Recent] *)
Definition RequestLog_Recent (limit : Z) (token : string) (rl : RequestLog) : list LogEntry :=
  let all := snapshot token rl in
  if (limit <=? 0) || (Z.of_nat (length all) <=? limit) then all
  else take (Z.to_nat limit) all.

(** *** TrafficStats *)

Record accumulator := {
  ac_reqs : Z;
  ac_bytesOut : Z;
  ac_status2xx : Z;
  ac_status3xx : Z;
  ac_status4xx : Z;
  ac_status5xx : Z;
  ac_totalMs : Z;
}.

Definition zero_accumulator : accumulator :=
  {| ac_reqs := 0; ac_bytesOut := 0; ac_status2xx := 0; ac_status3xx := 0;
     ac_status4xx := 0; ac_status5xx := 0; ac_totalMs := 0 |}.

(** The updates of one bucket by one entry. *)
Definition accumulate (e : LogEntry) (b : accumulator) : accumulator :=
  let s := le_Status e in
  let hit (c : bool) (n : Z) := if c then int64 (n + 1) else n in
  {| ac_reqs := int64 (ac_reqs b + 1);
     ac_bytesOut := int64 (ac_bytesOut b + le_Size e);
     ac_status2xx := hit (negb (500 <=? s) && negb (400 <=? s) && negb (300 <=? s)) (ac_status2xx b);
     ac_status3xx := hit (negb (500 <=? s) && negb (400 <=? s) && (300 <=? s)) (ac_status3xx b);
     ac_status4xx := hit (negb (500 <=? s) && (400 <=? s)) (ac_status4xx b);
     ac_status5xx := hit (500 <=? s) (ac_status5xx b);
     ac_totalMs := int64 (ac_totalMs b + le_DurationMs e) |}.

(** [time.Time.Sub]: a difference that a Duration cannot hold saturates. *)
Definition time_Sub (t u : Z) : Z := Z.max (- 2 ^ 63) (Z.min (2 ^ 63 - 1) (t - u)).

(** [now.Add(-time.Duration(n) * time.Minute)] *)
Definition minutes_before (now n : Z) : Z := now + int64 (int64 (- n) * Minute).

(** [int(d.Minutes())].  The code goes through a float64; truncation gives the
    integer quotient for every [d] below 2^17 minutes (the fractional part is a
    multiple of 1/(6*10^10), well above the spacing of float64 there). *)
Definition whole_minutes (d : Z) : Z := Z.quot d Minute.

(** One round of the loop over the entries. *)
Definition traffic_step (now cutoff minutes : Z) (buckets : gmap Z accumulator) (e : LogEntry) :
    gmap Z accumulator :=
  if le_Timestamp e <? cutoff then buckets
  else
    let minuteIdx := whole_minutes (time_Sub now (le_Timestamp e)) in
    let minuteIdx := if minuteIdx <? 0 then 0 else minuteIdx in
    if minutes <=? minuteIdx then buckets
    else <[minuteIdx := accumulate e (default zero_accumulator (buckets !! minuteIdx))]> buckets.

(** One round of the loop over the result. *)
Definition traffic_bucket (now minutes : Z) (buckets : gmap Z accumulator) (i : nat) : TrafficBucket :=
  let back := minutes - 1 - Z.of_nat i in
  let t := minutes_before now back in
  let ts := t - t mod Minute in
  match buckets !! back with
  | None => {| tb_Timestamp := ts; tb_Requests := 0; tb_BytesIn := 0; tb_BytesOut := 0;
               tb_Status2xx := 0; tb_Status3xx := 0; tb_Status4xx := 0; tb_Status5xx := 0;
               tb_AvgLatency := 0 |}
  | Some b => {| tb_Timestamp := ts; tb_Requests := ac_reqs b; tb_BytesIn := 0;
                 tb_BytesOut := ac_bytesOut b; tb_Status2xx := ac_status2xx b;
                 tb_Status3xx := ac_status3xx b; tb_Status4xx := ac_status4xx b;
                 tb_Status5xx := ac_status5xx b;
                 tb_AvgLatency := if 0 <? ac_reqs b then Z.quot (ac_totalMs b) (ac_reqs b) else 0 |}
  end.

(** [TrafficStats] at the instant [now]. *)
Definition RequestLog_TrafficStats (now minutes : Z) (token : string) (rl : RequestLog) :
    list TrafficBucket :=
  let minutes := if minutes <=? 0 then 30 else minutes in
  let cutoff := minutes_before now minutes in
  let buckets := foldl (traffic_step now cutoff minutes) ∅ (snapshot token rl) in
  map (traffic_bucket now minutes buckets) (seq 0 (Z.to_nat minutes)).

(** *** TopPaths *)

(** [counts[e.Path]++] for every entry. *)
Definition count_paths (l : list LogEntry) : gmap string Z :=
  foldl (fun counts e => <[le_Path e := int64 (default 0 (counts !! le_Path e) + 1)]> counts) ∅ l.

(** The order of the sorted slice. *)
Definition hits_ge (a b : PathCount) : Prop := pc_Count b <= pc_Count a.

#[export] Instance hits_ge_dec : RelDecision hits_ge.
Proof. intros a b. unfold hits_ge. apply _. Defined.

#[export] Instance hits_ge_total : Total hits_ge.
Proof. intros a b. unfold hits_ge. lia. Qed.

#[export] Instance hits_ge_trans : Transitive hits_ge.
Proof. intros a b c. unfold hits_ge. lia. Qed.

Section Ranging.
Context `{!RangeOrder string}.

(** [TopPaths].  [sort.Slice] leaves the order of equal counts open; so does
    the order in which [range] delivers the paths, which the stable sort of the
    model keeps. *)
Definition RequestLog_TopPaths (n : Z) (token : string) (rl : RequestLog) : list PathCount :=
  let counts := count_paths (snapshot token rl) in
  let out := (fun pc => {| pc_Path := pc.1; pc_Count := pc.2 |}) <$> range counts in
  let out := merge_sort hits_ge out in
  if (0 <? n) && (n <? Z.of_nat (length out)) then take (Z.to_nat n) out else out.
End Ranging.

(** ** The buffer refines "the last [maxLogEntries] entries, newest first" *)

Lemma maxLogEntries_pos : (0 < maxLogEntries)%nat.
Proof. pose proof maxLogEntries_eq. lia. Qed.
#[export] Hint Resolve maxLogEntries_pos : htn.

Lemma swap_ends {A} (p m s : list A) (x y : A) :
  swap (length p) (length p + S (length m)) (p ++ x :: m ++ y :: s) = p ++ y :: m ++ x :: s.
Proof.
  unfold swap.
  assert ((p ++ x :: m ++ y :: s) !! (length p + S (length m))%nat = Some y) as ->.
  { replace (p ++ x :: m ++ y :: s) with ((p ++ x :: m) ++ y :: s) by by rewrite <- app_assoc.
    apply list_lookup_middle. rewrite length_app. simpl. lia. }
  rewrite list_lookup_middle by done.
  rewrite (insert_app_r_alt p) by lia. rewrite Nat.sub_diag. simpl.
  rewrite (insert_app_r_alt p) by lia.
  replace (length p + S (length m) - length p)%nat with (S (length m)) by lia. simpl.
  rewrite insert_app_r_alt by lia. by rewrite Nat.sub_diag.
Qed.

Lemma reverse_loop_middle {A} fuel (p m s : list A) :
  (length m <= fuel)%nat ->
  reverse_loop fuel (length p) (length p + length m - 1) (p ++ m ++ s) = p ++ reverse m ++ s.
Proof.
  revert p m s. induction fuel as [|fuel IH]; intros p m s Hf.
  { destruct m; simpl in Hf; [done | lia]. }
  cbn [reverse_loop]. case_decide as Hij.
  - destruct m as [|x m]; [simpl in Hij; lia|].
    destruct m as [|y m _] using rev_ind; [simpl in Hij; lia|].
    simpl length in *. rewrite length_app in *. simpl length in *.
    specialize (IH (p ++ [y]) m (x :: s)). rewrite length_app in IH. simpl length in IH.
    replace (length p + S (length m + 1) - 1)%nat with (length p + S (length m))%nat by lia.
    replace (length p + S (length m) - 1)%nat with (length p + 1 + length m - 1)%nat by lia.
    rewrite reverse_cons, reverse_app. simpl. rewrite <- !app_assoc in *. simpl in *.
    rewrite swap_ends. apply IH. lia.
  - destruct m as [|x [|y m]]; [done..|]. simpl in Hij. lia.
Qed.

Lemma reverse_loop_reverse {A} (l : list A) :
  reverse_loop (length l) 0 (length l - 1) l = reverse l.
Proof.
  pose proof (reverse_loop_middle (length l) [] l [] ltac:(lia)) as H.
  by rewrite !app_nil_r in H.
Qed.

(** The buffer after the entries [h] (newest first) were added. *)
Record log_rep (h : list LogEntry) (rl : RequestLog) : Prop := {
  rep_length : length (rl_entries rl) = maxLogEntries;
  rep_pos : (rl_pos rl < maxLogEntries)%nat;
  rep_fresh : rl_full rl = false -> rl_pos rl = length h;
  rep_wrapped : rl_full rl = true -> (maxLogEntries <= length h)%nat;
  rep_raw : raw_copy rl = reverse (take maxLogEntries h);
}.

Lemma log_rep_New : log_rep [] NewRequestLog.
Proof.
  pose proof maxLogEntries_pos.
  split; simpl; [by rewrite length_replicate | lia | intros _; done | done | by rewrite take_nil].
Qed.

Lemma raw_copy_Add e rl rl' :
  RequestLog_Add e rl = Some rl' -> length (rl_entries rl) = maxLogEntries ->
  raw_copy rl' = (if rl_full rl then drop 1 (raw_copy rl) else raw_copy rl) ++ [e].
Proof.
  unfold RequestLog_Add. intros Ha Hl. case_decide as Hp; [|done]. injection Ha as <-.
  pose proof (insert_take_drop (rl_entries rl) (rl_pos rl) e Hp) as Hi.
  assert (length (take (rl_pos rl) (rl_entries rl)) = rl_pos rl) as Ht by (rewrite length_take; lia).
  unfold raw_copy at 1. case_decide as Hw; simpl.
  - rewrite drop_0, app_nil_r, Hi, (drop_ge _ (S _)) by lia. unfold raw_copy.
    destruct (rl_full rl); [|done].
    destruct (lookup_lt_is_Some_2 (rl_entries rl) (rl_pos rl) Hp) as [x Hx].
    rewrite (drop_S _ x (rl_pos rl)) by done. rewrite (drop_ge _ (S (rl_pos rl))) by lia. done.
  - assert (take (S (rl_pos rl)) (<[rl_pos rl := e]> (rl_entries rl)) =
            take (rl_pos rl) (rl_entries rl) ++ [e]) as Hs.
    { rewrite Hi, take_app. rewrite Ht. rewrite take_ge by lia.
      by replace (S (rl_pos rl) - rl_pos rl)%nat with 1%nat by lia. }
    rewrite Hs. unfold raw_copy. destruct (rl_full rl); [|done].
    rewrite drop_insert_lt by lia.
    destruct (lookup_lt_is_Some_2 (rl_entries rl) (rl_pos rl) Hp) as [x Hx].
    rewrite (drop_S _ x (rl_pos rl)) by done. simpl. by rewrite drop_0, app_assoc.
Qed.

Lemma log_rep_Add h e rl :
  log_rep h rl -> exists rl', RequestLog_Add e rl = Some rl' /\ log_rep (e :: h) rl'.
Proof.
  intros [Hl Hp Hf Hw Hr]. pose proof maxLogEntries_pos.
  destruct (RequestLog_Add e rl) as [rl'|] eqn:Ha; [|unfold RequestLog_Add in Ha; case_decide; [done|lia]].
  exists rl'. split; [done|].
  pose proof (raw_copy_Add e rl rl' Ha Hl) as Hraw.
  unfold RequestLog_Add in Ha. case_decide; [|lia]. injection Ha as <-.
  split; try (case_decide; simpl; rewrite ?length_insert; try done; lia).
  - case_decide; simpl; [done|]. intros Hn. specialize (Hf Hn). simpl in *. lia.
  - case_decide; simpl.
    + intros _. destruct (rl_full rl); [specialize (Hw eq_refl) | specialize (Hf eq_refl)]; lia.
    + intros Ht. specialize (Hw Ht). lia.
  - rewrite Hraw, Hr.
    destruct maxLogEntries as [|k] eqn:Ek; [lia|]. cbn [take]. rewrite reverse_cons. f_equal.
    destruct (rl_full rl).
    + specialize (Hw eq_refl). destruct (lookup_lt_is_Some_2 h k ltac:(lia)) as [x Hx].
      rewrite (take_S_r _ _ x) by done. by rewrite reverse_app.
    + specialize (Hf eq_refl). by rewrite !take_ge by lia.
Qed.

(** The log after adding [es] in order. *)
Definition add_all (es : list LogEntry) : option RequestLog :=
  foldl (fun o e => o ≫= RequestLog_Add e) (Some NewRequestLog) es.

Lemma log_rep_all es : exists rl, add_all es = Some rl /\ log_rep (reverse es) rl.
Proof.
  induction es as [|e es IH] using rev_ind.
  - exists NewRequestLog. split; [done | apply log_rep_New].
  - destruct IH as (rl & Hrl & Hrep). unfold add_all. rewrite foldl_app.
    fold (add_all es). rewrite Hrl. rewrite reverse_app. simpl.
    destruct (log_rep_Add _ e _ Hrep) as (rl' & ? & ?). by exists rl'.
Qed.

Lemma snapshot_rep h rl token :
  log_rep h rl ->
  snapshot token rl = if String.eqb token "" then take maxLogEntries h
                      else filter (fun e => le_Token e = token) (take maxLogEntries h).
Proof.
  intros Hrep. unfold snapshot. rewrite reverse_loop_reverse.
  rewrite (rep_raw _ _ Hrep), reverse_involutive. done.
Qed.

(** The specification: what a query may see of the entries added so far. *)
Definition visible (es : list LogEntry) (token : string) : list LogEntry :=
  filter (fun e => token = ""%string \/ le_Token e = token) (take maxLogEntries (reverse es)).

Lemma snapshot_visible es rl token : add_all es = Some rl -> snapshot token rl = visible es token.
Proof.
  intros Ha. destruct (log_rep_all es) as (rl' & Hrl & Hrep). simplify_eq.
  rewrite (snapshot_rep _ _ _ Hrep). unfold visible.
  destruct (String.eqb_spec token "") as [->|Hne].
  - symmetry. apply filter_all. apply Forall_forall. by left.
  - apply list_filter_iff. intros x. split; [by right | by intros [?|?]].
Qed.

(** C25: the log never panics, and whatever was added, [Recent] returns the
    entries of the token (all of them for the empty token) among the last
    [maxLogEntries] added, newest first, cut to a positive limit. *)
Theorem Recent_refines_history (es : list LogEntry) :
  exists rl, add_all es = Some rl /\
    forall limit token,
      RequestLog_Recent limit token rl =
        if limit <=? 0 then visible es token else take (Z.to_nat limit) (visible es token).
Proof.
  destruct (log_rep_all es) as (rl & Hrl & _). exists rl. split; [done|].
  intros limit token. unfold RequestLog_Recent. rewrite (snapshot_visible es rl) by done.
  destruct (Z.leb_spec limit 0); [done|]. simpl.
  destruct (Z.leb_spec (Z.of_nat (length (visible es token))) limit); [|done].
  rewrite take_ge by lia. done.
Qed.

(** ** Traffic statistics *)

(** The bucket that an entry falls into, if it is counted at all. *)
Definition bucket_of (now cutoff minutes : Z) (e : LogEntry) : option Z :=
  if le_Timestamp e <? cutoff then None
  else let m := Z.max 0 (whole_minutes (time_Sub now (le_Timestamp e))) in
       if minutes <=? m then None else Some m.

(** What a bucket holds of the entries [es] that fall into it. *)
Definition sum_up (es : list LogEntry) : accumulator := foldl (fun b e => accumulate e b) zero_accumulator es.

Lemma traffic_step_bucket now cutoff minutes buckets e :
  traffic_step now cutoff minutes buckets e =
    match bucket_of now cutoff minutes e with
    | None => buckets
    | Some i => <[i := accumulate e (default zero_accumulator (buckets !! i))]> buckets
    end.
Proof.
  unfold traffic_step, bucket_of. set (m := whole_minutes _).
  assert ((if m <? 0 then 0 else m) = Z.max 0 m) as -> by (destruct (Z.ltb_spec m 0); lia).
  destruct (le_Timestamp e <? cutoff); [done|]. by destruct (minutes <=? Z.max 0 m).
Qed.

Lemma traffic_fold now cutoff minutes es i :
  foldl (traffic_step now cutoff minutes) ∅ es !! i =
    let mine := filter (fun e => bucket_of now cutoff minutes e = Some i) es in
    if decide (mine = []) then None else Some (sum_up mine).
Proof.
  induction es as [|e es IH] using rev_ind; [done|].
  rewrite foldl_app, filter_app, filter_cons, filter_nil. simpl in *.
  rewrite traffic_step_bucket.
  destruct (bucket_of now cutoff minutes e) as [k|].
  2: { rewrite (decide_False (P := None = Some i)) by done. by rewrite app_nil_r. }
  destruct (decide (k = i)) as [->|Hne].
  - rewrite lookup_insert_eq, IH. rewrite (decide_True (P := Some i = Some i)) by done.
    rewrite (decide_False (P := _ ++ [e] = [])) by (by destruct (filter _ es)).
    unfold sum_up. rewrite foldl_app. simpl. case_decide as Hd; [by rewrite Hd | done].
  - rewrite lookup_insert_ne by done. rewrite IH.
    rewrite (decide_False (P := Some k = Some i)) by congruence. by rewrite app_nil_r.
Qed.

(** The class of a status as the code's switch decides it. *)
Definition status_class (s : Z) : Z :=
  if 500 <=? s then 5 else if 400 <=? s then 4 else if 300 <=? s then 3 else 2.

Definition count_class (c : Z) (es : list LogEntry) : Z :=
  Z.of_nat (length (filter (fun e => status_class (le_Status e) = c) es)).

(** As long as the counts fit a machine integer, which a log of
    [maxLogEntries] entries guarantees, they are exact; byte and latency sums
    are sums modulo 2^64. *)
Lemma sum_up_spec es :
  Z.of_nat (length es) < 2 ^ 63 ->
  sum_up es =
    {| ac_reqs := Z.of_nat (length es);
       ac_bytesOut := int64 (sumZ le_Size es);
       ac_status2xx := count_class 2 es; ac_status3xx := count_class 3 es;
       ac_status4xx := count_class 4 es; ac_status5xx := count_class 5 es;
       ac_totalMs := int64 (sumZ le_DurationMs es) |}.
Proof.
  induction es as [|e es IH] using rev_ind; intros Hb; [done|].
  rewrite length_app in Hb. simpl in Hb.
  unfold sum_up. rewrite foldl_app. fold (sum_up es). rewrite IH by lia. simpl.
  assert (forall c, 0 <= count_class c es < 2 ^ 63 - 1) as Hc.
  { intros c. unfold count_class.
    pose proof (length_filter (fun e => status_class (le_Status e) = c) es). lia. }
  assert (forall c, count_class c (es ++ [e]) =
      if decide (status_class (le_Status e) = c) then int64 (count_class c es + 1) else count_class c es) as Hs.
  { intros c. specialize (Hc c). unfold count_class in *. rewrite filter_app, length_app, filter_cons.
    case_decide; simpl; [rewrite int64_id by (unfold in_int64; lia)|]; lia. }
  unfold accumulate. cbn [ac_reqs ac_bytesOut ac_status2xx ac_status3xx ac_status4xx ac_status5xx ac_totalMs].
  rewrite !Hs, !sumZ_app, length_app. unfold status_class. simpl sumZ. simpl length.
  f_equal; [rewrite int64_id by (unfold in_int64; lia); lia | by rewrite int64_add_l, Z.add_0_r | | | | |
            by rewrite int64_add_l, Z.add_0_r];
  destruct (500 <=? le_Status e), (400 <=? le_Status e), (300 <=? le_Status e); done.
Qed.

(** The entries of the [k]-th minute before [now]; an entry from the future
    counts in the current minute. *)
Definition in_window (now k : Z) (e : LogEntry) : Prop :=
  k * Minute <= now - le_Timestamp e < (k + 1) * Minute \/ (k = 0 /\ now < le_Timestamp e).

#[export] Instance in_window_dec now k e : Decision (in_window now k e).
Proof. unfold in_window. apply _. Defined.

Lemma whole_minutes_nonneg k d :
  0 <= d -> whole_minutes d = k <-> k * Minute <= d < (k + 1) * Minute.
Proof.
  intros Hd. unfold whole_minutes. rewrite Z.quot_div_nonneg by (unfold Minute, Second, Millisecond, Nanosecond; lia).
  assert (0 < Minute) as Hm by (unfold Minute, Second, Millisecond, Nanosecond; lia).
  pose proof (Z.mul_div_le d Minute Hm). pose proof (Z.mul_succ_div_gt d Minute Hm).
  split; [intros <-; lia|]. intros [Ha Hb]. symmetry. apply Z.div_unique with (d - k * Minute); lia.
Qed.

Lemma whole_minutes_neg d : d <= 0 -> whole_minutes d <= 0.
Proof.
  intros Hd. unfold whole_minutes.
  pose proof (Z.quot_pos (- d) Minute ltac:(lia) ltac:(unfold Minute, Second, Millisecond, Nanosecond; lia)) as H.
  rewrite Z.quot_opp_l in H by (unfold Minute, Second, Millisecond, Nanosecond; lia). lia.
Qed.

Lemma minutes_before_exact now n : 0 <= n <= 2 ^ 17 -> minutes_before now n = now - n * Minute.
Proof.
  intros Hn. unfold minutes_before. rewrite !int64_id; [lia|..];
    rewrite ?int64_id; unfold in_int64, Minute, Second, Millisecond, Nanosecond; lia.
Qed.

Lemma bucket_of_window now minutes e k :
  0 < minutes <= 2 ^ 17 ->
  bucket_of now (minutes_before now minutes) minutes e = Some k <->
  0 <= k < minutes /\ in_window now k e.
Proof.
  intros Hm. unfold bucket_of, in_window. rewrite minutes_before_exact by lia.
  assert (Minute = 60000000000) as HM by done.
  set (d := now - le_Timestamp e).
  destruct (Z.ltb_spec (le_Timestamp e) (now - minutes * Minute)) as [Hc|Hc].
  { split; [done|]. intros [Hk [Hw|[-> Hw]]]; nia. }
  destruct (Z.ltb_spec d 0) as [Hd|Hd].
  - pose proof (whole_minutes_neg (time_Sub now (le_Timestamp e)) ltac:(unfold time_Sub; lia)).
    rewrite Z.max_l by lia. destruct (Z.leb_spec minutes 0); [lia|].
    split; [intros [= <-]; split; [lia|right; lia]|]. intros [Hk [Hw|[-> Hw]]]; [nia|done].
  - assert (time_Sub now (le_Timestamp e) = d) as -> by (unfold time_Sub; nia).
    pose proof (whole_minutes_nonneg (whole_minutes d) d Hd) as [Hq _]. specialize (Hq eq_refl).
    rewrite Z.max_r by nia.
    destruct (Z.leb_spec minutes (whole_minutes d)).
    + split; [done|]. intros [Hk [Hw|[-> Hw]]]; [nia|lia].
    + rewrite <- whole_minutes_nonneg by done.
      split; [intros [= <-]; split; [nia | by left]|]. intros [Hk [Hw|[-> Hw]]]; [congruence|lia].
Qed.

(** The specification of one bucket of the answer. *)
Definition reference_bucket (now k : Z) (es : list LogEntry) : TrafficBucket :=
  let w := filter (in_window now k) es in
  let n := Z.of_nat (length w) in
  let t := now - k * Minute in
  {| tb_Timestamp := t - t mod Minute;
     tb_Requests := n;
     tb_BytesIn := 0;
     tb_BytesOut := int64 (sumZ le_Size w);
     tb_Status2xx := count_class 2 w; tb_Status3xx := count_class 3 w;
     tb_Status4xx := count_class 4 w; tb_Status5xx := count_class 5 w;
     tb_AvgLatency := Z.quot (int64 (sumZ le_DurationMs w)) n |}.

Lemma length_visible es token : Z.of_nat (length (visible es token)) < 2 ^ 63.
Proof.
  unfold visible. pose proof maxLogEntries_eq.
  pose proof (length_filter (fun e => token = ""%string \/ le_Token e = token)
                (take maxLogEntries (reverse es))) as Hf.
  rewrite length_take in Hf. lia.
Qed.

(** For up to 2^17 minutes, the traffic statistics have one bucket per
    minute, oldest first, each with the exact request and status-class counts of
    the visible entries of that minute, their byte total and mean latency;
    "bytes in" is always zero. *)
Theorem TrafficStats_refines_windows es rl now minutes token :
  add_all es = Some rl -> minutes <= 2 ^ 17 ->
  let m := if minutes <=? 0 then 30 else minutes in
  RequestLog_TrafficStats now minutes token rl =
    map (fun i => reference_bucket now (m - 1 - Z.of_nat i) (visible es token)) (seq 0 (Z.to_nat m)).
Proof.
  intros Ha Hb m. unfold RequestLog_TrafficStats. fold m. rewrite (snapshot_visible es rl token Ha).
  assert (0 < m <= 2 ^ 17) as Hm by (subst m; destruct (Z.leb_spec minutes 0); lia).
  apply map_ext_in. intros i Hi. apply in_seq in Hi.
  set (k := m - 1 - Z.of_nat i). unfold traffic_bucket, reference_bucket. fold k.
  rewrite traffic_fold, (minutes_before_exact now k) by lia. cbv zeta.
  rewrite (list_filter_iff _ (in_window now k)).
  2: { intros e. rewrite bucket_of_window by done. split; [by intros []|]. split; [lia|done]. }
  pose proof (length_visible es token) as Hl.
  pose proof (length_filter (in_window now k) (visible es token)) as Hf.
  case_decide as Hw; [by rewrite Hw|].
  rewrite sum_up_spec by lia. simpl.
  destruct (Z.ltb_spec 0 (Z.of_nat (length (filter (in_window now k) (visible es token))))) as [|Hz]; [done|].
  destruct (filter (in_window now k) (visible es token)); [done | simpl in Hz; lia].
Qed.

(** ** The most requested paths *)

Definition hits (p : string) (es : list LogEntry) : Z :=
  Z.of_nat (length (filter (fun e => le_Path e = p) es)).

Lemma count_paths_spec es p :
  Z.of_nat (length es) < 2 ^ 63 ->
  count_paths es !! p = if decide (hits p es = 0) then None else Some (hits p es).
Proof.
  unfold count_paths. induction es as [|e es IH] using rev_ind; intros Hb; [done|].
  rewrite length_app in Hb. simpl in Hb.
  rewrite foldl_app. simpl. specialize (IH ltac:(lia)).
  assert (0 <= hits p es < 2 ^ 63 - 1) as Hr.
  { unfold hits. pose proof (length_filter (fun e => le_Path e = p) es). lia. }
  assert (hits p (es ++ [e]) = hits p es + if decide (le_Path e = p) then 1 else 0) as ->.
  { unfold hits. rewrite filter_app, length_app, filter_cons, filter_nil.
    destruct (decide (le_Path e = p)); simpl; lia. }
  destruct (decide (le_Path e = p)) as [<-|Hne].
  - rewrite lookup_insert_eq, IH. rewrite (decide_False (P := _ + 1 = 0)) by lia. f_equal.
    case_decide as Hz; simpl; rewrite int64_id by (unfold in_int64; lia); lia.
  - by rewrite lookup_insert_ne, IH, Z.add_0_r.
Qed.

Section TopPathsProperties.
Context `{!RangeOrder string}.

(** All the paths, most requested first. *)
Definition ranked (es : list LogEntry) : list PathCount :=
  merge_sort hits_ge ((fun pc => {| pc_Path := pc.1; pc_Count := pc.2 |}) <$> range (count_paths es)).

Lemma elem_of_ranked es pc :
  Z.of_nat (length es) < 2 ^ 63 ->
  pc ∈ ranked es <-> pc_Count pc = hits (pc_Path pc) es /\ 0 < pc_Count pc.
Proof.
  intros Hl. unfold ranked. rewrite merge_sort_Permutation, list_elem_of_fmap.
  pose proof (count_paths_spec es (pc_Path pc) Hl) as Hc.
  assert (0 <= hits (pc_Path pc) es) by (unfold hits; lia).
  split.
  - intros ([p c] & -> & Hin). apply elem_of_range in Hin. simpl in *. rewrite Hin in Hc.
    case_decide; [done|]. simplify_eq. lia.
  - intros [Hn Hp]. exists (pc_Path pc, pc_Count pc). split; [by destruct pc|].
    apply elem_of_range. rewrite Hc, decide_False by lia. congruence.
Qed.

Lemma NoDup_ranked es : NoDup (map pc_Path (ranked es)).
Proof.
  unfold ranked. change (map pc_Path) with (fmap (M := list) pc_Path).
  rewrite merge_sort_Permutation. rewrite <- list_fmap_compose. apply NoDup_fst_range.
Qed.

Lemma ranked_sorted es : StronglySorted hits_ge (ranked es).
Proof. apply StronglySorted_merge_sort; apply _. Qed.

(** The top paths are sorted by hits, without repetition, each with its
    exact count of visible entries; a positive [n] cuts the list to at most [n]
    of them, and no path left out has more hits than one that is shown. *)
Theorem TopPaths_spec es rl n token :
  add_all es = Some rl ->
  let out := RequestLog_TopPaths n token rl in
  StronglySorted hits_ge out /\
  NoDup (map pc_Path out) /\
  (forall pc, pc ∈ out ->
     pc_Count pc = hits (pc_Path pc) (visible es token) /\ 0 < pc_Count pc) /\
  (0 < n -> Z.of_nat (length out) <= n) /\
  (forall p, 0 < hits p (visible es token) -> p ∉ map pc_Path out ->
     0 < n /\ Z.of_nat (length out) = n /\ forall pc, pc ∈ out -> hits p (visible es token) <= pc_Count pc).
Proof.
  intros Ha out. subst out. unfold RequestLog_TopPaths. rewrite (snapshot_visible es rl token Ha).
  fold (ranked (visible es token)).
  pose proof (length_visible es token) as Hl. set (v := visible es token) in *.
  pose proof (NoDup_ranked v) as Hnd. pose proof (ranked_sorted v) as Hs.
  pose proof (fun pc => elem_of_ranked v pc Hl) as Hin.
  assert (forall p, 0 < hits p v -> {| pc_Path := p; pc_Count := hits p v |} ∈ ranked v) as Hall.
  { intros p Hp. by apply Hin. }
  destruct ((0 <? n) && (n <? Z.of_nat (length (ranked v)))) eqn:Hn.
  - apply andb_true_iff in Hn as [Hn0 Hn1]. apply Z.ltb_lt in Hn0, Hn1.
    rewrite <- (take_drop (Z.to_nat n) (ranked v)) in Hs, Hnd, Hall.
    rewrite map_app in Hnd. apply NoDup_app in Hnd as (Hnd & _ & _).
    split_and!; [| done | | |].
    + by apply StronglySorted_app_1_l in Hs.
    + intros pc Hpc. apply Hin. eapply elem_of_take in Hpc as (i & ? & _). by eapply list_elem_of_lookup_2.
    + intros _. rewrite length_take. lia.
    + intros p Hp Hout. split_and!; [done | rewrite length_take; lia |].
      intros pc Hpc. specialize (Hall p Hp). apply elem_of_app in Hall as [Hi|Hi].
      * destruct Hout. apply (list_elem_of_fmap_2 pc_Path) in Hi. done.
      * exact (StronglySorted_app_1_elem_of _ _ _ pc _ Hs Hpc Hi).
  - split_and!; [done | done | apply Hin | | ].
    + intros Hpos. apply andb_false_iff in Hn as [Hn|Hn]; apply Z.ltb_ge in Hn; lia.
    + intros p Hp Hout. destruct Hout. apply (list_elem_of_fmap_2 pc_Path _ _ (Hall p Hp)).
Qed.
End TopPathsProperties.

(** ** The properties at a concrete log *)

Module Examples.
#[local] Instance order_string : RangeOrder string := canonical_order string.

Definition hit (ts : Z) (p : string) (status : Z) : LogEntry :=
  {| le_Timestamp := ts; le_TunnelID := "t"; le_Subdomain := "s"; le_Token := "tok"; le_Method := "GET";
     le_Path := p; le_Status := status; le_DurationMs := 4; le_Size := 10 |}.

Definition es3 : list LogEntry := [hit 0 "/a" 200; hit Minute "/b" 404; hit Minute "/a" 500].

Definition rl3 : RequestLog := default NewRequestLog (add_all es3).

Lemma TrafficStats_refines_windows_witness :
  RequestLog_TrafficStats (2 * Minute) 3 "tok" rl3 =
    map (fun i => reference_bucket (2 * Minute) (3 - 1 - Z.of_nat i) (visible es3 "tok")) (seq 0 3) /\
  map tb_Requests (RequestLog_TrafficStats (2 * Minute) 3 "tok" rl3) = [1; 2; 0].
Proof.
  split; [|vm_compute; reflexivity].
  apply (TrafficStats_refines_windows es3 rl3 (2 * Minute) 3 "tok"); [vm_compute; reflexivity | lia].
Defined.

Lemma TopPaths_spec_witness :
  RequestLog_TopPaths 1 "" rl3 = [{| pc_Path := "/a"; pc_Count := 2 |}] /\
  StronglySorted hits_ge (RequestLog_TopPaths 1 "" rl3).
Proof.
  split; [vm_compute; reflexivity|].
  apply (TopPaths_spec es3 rl3 1 ""). vm_compute; reflexivity.
Defined.
End Examples.
