(* ===== verification/LogFeed.v ===== *)
(** * Subscribers of the request log (internal/server/request_log.go,
    request_log_adapter.go)

    [RequestLog.Subscribe], [Unsubscribe] and the fan-out of [Add], and the
    adapter that forwards every subscription to a channel of dashboard entries
    in a goroutine of its own.  A step of the relation [feed_step] is one
    critical section, one channel operation or one round of a loop; any number
    of goroutines interleave.  Sending on a closed channel and closing one twice
    set [fd_panicked]. *)

From S2P Require Import Prelude RequestLog.

(** ** The dashboard's types *)

Record RequestLogEntry := {
  dbe_Timestamp : Z;
  dbe_TunnelID : string;
  dbe_Subdomain : string;
  dbe_Token : string;
  dbe_Method : string;
  dbe_Path : string;
  dbe_Status : Z;
  dbe_DurationMs : Z;
  dbe_Size : Z;
}.

(** [toDBEntry] *)
Definition toDBEntry (e : LogEntry) : RequestLogEntry :=
  {| dbe_Timestamp := le_Timestamp e; dbe_TunnelID := le_TunnelID e;
     dbe_Subdomain := le_Subdomain e; dbe_Token := le_Token e; dbe_Method := le_Method e;
     dbe_Path := le_Path e; dbe_Status := le_Status e; dbe_DurationMs := le_DurationMs e;
     dbe_Size := le_Size e |}.

(** [RequestLogAdapter.Recent] *)
Definition Adapter_Recent (limit : Z) (token : string) (rl : RequestLog) : list RequestLogEntry :=
  map toDBEntry (RequestLog_Recent limit token rl).

(** ** Channels *)

Record chan (A : Type) := { ch_buf : list A; ch_closed : bool }.
Arguments ch_buf {A}.
Arguments ch_closed {A}.

(** [make(chan T, 64)] *)
Definition chan_cap : nat := 64.
Definition make_chan {A} : chan A := {| ch_buf := []; ch_closed := false |}.

(** [select { case ch <- v: default: }]; [None] is a panic. *)
Definition try_send {A} (v : A) (c : chan A) : option (chan A) :=
  if ch_closed c then None
  else Some (if decide (length (ch_buf c) < chan_cap)
             then {| ch_buf := ch_buf c ++ [v]; ch_closed := false |} else c).

(** [close(ch)]; [None] is a panic. *)
Definition close_chan {A} (c : chan A) : option (chan A) :=
  if ch_closed c then None else Some {| ch_buf := ch_buf c; ch_closed := true |}.

(** ** State *)

(** A goroutine inside [Add], holding [subMu] for reading: the entry and the
    subscribers left to visit. *)
Record adder := { ad_entry : LogEntry; ad_left : list nat }.

(** The channel behind one [RequestLog.Subscribe], with everything that was
    ever offered to it. *)
Record source := { src_chan : chan LogEntry; src_offered : list LogEntry }.

(** The forwarding goroutine of a subscription: waiting, holding an entry it has
    received, or returned. *)
Inductive forwarder := FwRange | FwHolds (e : LogEntry) | FwDone.

(** One [RequestLogAdapter.Subscribe]: the dashboard's channel, what the
    dashboard has read from it, and the goroutine that feeds it. *)
Record stream := {
  st_chan : chan RequestLogEntry;
  st_received : list RequestLogEntry;
  st_src : nat;
  st_fw : forwarder;
}.

(** A call in progress between two of its atomic sections: [Adapter.Subscribe]
    that has its source; [Unsubscribe] before it takes [subMu], and after. *)
Inductive call := Joining (s : nat) | Leaving (s : nat) | Closing (s : nat).
Definition call_src (c : call) : nat :=
  match c with Joining s | Leaving s | Closing s => s end.

Record Feed := {
  fd_next : nat;
  fd_srcs : gmap nat source;
  fd_subs : gset nat;
  fd_dsts : gmap nat stream;
  fd_srcOf : gmap nat nat;
  fd_adders : gmap nat adder;
  fd_calls : list call;
  fd_panicked : bool;
}.

Definition fd_init : Feed :=
  {| fd_next := 0; fd_srcs := ∅; fd_subs := ∅; fd_dsts := ∅; fd_srcOf := ∅;
     fd_adders := ∅; fd_calls := []; fd_panicked := false |}.

Definition with_srcs m fd := {| fd_next := fd_next fd; fd_srcs := m; fd_subs := fd_subs fd;
  fd_dsts := fd_dsts fd; fd_srcOf := fd_srcOf fd; fd_adders := fd_adders fd;
  fd_calls := fd_calls fd; fd_panicked := fd_panicked fd |}.
Definition with_dsts m fd := {| fd_next := fd_next fd; fd_srcs := fd_srcs fd; fd_subs := fd_subs fd;
  fd_dsts := m; fd_srcOf := fd_srcOf fd; fd_adders := fd_adders fd;
  fd_calls := fd_calls fd; fd_panicked := fd_panicked fd |}.
Definition with_adders m fd := {| fd_next := fd_next fd; fd_srcs := fd_srcs fd; fd_subs := fd_subs fd;
  fd_dsts := fd_dsts fd; fd_srcOf := fd_srcOf fd; fd_adders := m;
  fd_calls := fd_calls fd; fd_panicked := fd_panicked fd |}.
Definition with_calls l fd := {| fd_next := fd_next fd; fd_srcs := fd_srcs fd; fd_subs := fd_subs fd;
  fd_dsts := fd_dsts fd; fd_srcOf := fd_srcOf fd; fd_adders := fd_adders fd;
  fd_calls := l; fd_panicked := fd_panicked fd |}.
Definition fd_panic fd := {| fd_next := fd_next fd; fd_srcs := fd_srcs fd; fd_subs := fd_subs fd;
  fd_dsts := fd_dsts fd; fd_srcOf := fd_srcOf fd; fd_adders := fd_adders fd;
  fd_calls := fd_calls fd; fd_panicked := true |}.

(** ** Steps *)

(** [RequestLog.Subscribe], the first line of the adapter's. *)
Definition subscribe_src (fd : Feed) : Feed :=
  {| fd_next := S (fd_next fd);
     fd_srcs := <[fd_next fd := {| src_chan := make_chan; src_offered := [] |}]> (fd_srcs fd);
     fd_subs := {[fd_next fd]} ∪ fd_subs fd;
     fd_dsts := fd_dsts fd; fd_srcOf := fd_srcOf fd; fd_adders := fd_adders fd;
     fd_calls := Joining (fd_next fd) :: fd_calls fd; fd_panicked := fd_panicked fd |}.

(** The rest of [Adapter.Subscribe]: the caller learns of the channel only when
    it returns. *)
Definition subscribe_dst (s : nat) (calls : list call) (fd : Feed) : Feed :=
  {| fd_next := S (fd_next fd); fd_srcs := fd_srcs fd; fd_subs := fd_subs fd;
     fd_dsts := <[fd_next fd := {| st_chan := make_chan; st_received := []; st_src := s; st_fw := FwRange |}]>
                  (fd_dsts fd);
     fd_srcOf := <[fd_next fd := s]> (fd_srcOf fd); fd_adders := fd_adders fd;
     fd_calls := calls; fd_panicked := fd_panicked fd |}.

(** [Adapter.Unsubscribe], under the adapter's lock; [d] is any channel. *)
Definition unsubscribe (d : nat) (fd : Feed) : Feed :=
  match fd_srcOf fd !! d with
  | None => fd
  | Some s =>
    {| fd_next := fd_next fd; fd_srcs := fd_srcs fd; fd_subs := fd_subs fd; fd_dsts := fd_dsts fd;
       fd_srcOf := delete d (fd_srcOf fd); fd_adders := fd_adders fd;
       fd_calls := Leaving s :: fd_calls fd; fd_panicked := fd_panicked fd |}
  end.

(** [delete(rl.subs, ch)] under [subMu]. *)
Definition leave (s : nat) (calls : list call) (fd : Feed) : Feed :=
  {| fd_next := fd_next fd; fd_srcs := fd_srcs fd; fd_subs := fd_subs fd ∖ {[s]};
     fd_dsts := fd_dsts fd; fd_srcOf := fd_srcOf fd; fd_adders := fd_adders fd;
     fd_calls := calls; fd_panicked := fd_panicked fd |}.

(** [close(ch)] at the end of [RequestLog.Unsubscribe]. *)
Definition close_src (s : nat) (calls : list call) (fd : Feed) : Feed :=
  match (src ← fd_srcs fd !! s; c ← close_chan (src_chan src); Some (src, c)) with
  | None => fd_panic fd
  | Some (src, c) =>
    with_calls calls (with_srcs (<[s := {| src_chan := c; src_offered := src_offered src |}]> (fd_srcs fd)) fd)
  end.

(** One round of the loop of [Add]. *)
Definition offer (g : nat) (e : LogEntry) (s : nat) (rest : list nat) (fd : Feed) : Feed :=
  match (src ← fd_srcs fd !! s; c ← try_send e (src_chan src); Some (src, c)) with
  | None => fd_panic fd
  | Some (src, c) =>
    with_adders (<[g := {| ad_entry := e; ad_left := rest |}]> (fd_adders fd))
      (with_srcs (<[s := {| src_chan := c; src_offered := src_offered src ++ [e] |}]> (fd_srcs fd)) fd)
  end.

(** One action of the forwarding goroutine of stream [d]: the next round of its
    [range] loop, or the send in its body; [None] when it is blocked or gone. *)
Definition forward (d : nat) (fd : Feed) : option Feed :=
  st ← fd_dsts fd !! d;
  match st_fw st with
  | FwRange =>
    src ← fd_srcs fd !! st_src st;
    match ch_buf (src_chan src) with
    | e :: buf =>
      Some (with_srcs (<[st_src st := {| src_chan := {| ch_buf := buf; ch_closed := ch_closed (src_chan src) |};
                                         src_offered := src_offered src |}]> (fd_srcs fd))
           (with_dsts (<[d := {| st_chan := st_chan st; st_received := st_received st;
                                 st_src := st_src st; st_fw := FwHolds e |}]> (fd_dsts fd)) fd))
    | [] =>
      if ch_closed (src_chan src) then
        Some (match close_chan (st_chan st) with
              | None => fd_panic fd
              | Some c => with_dsts (<[d := {| st_chan := c; st_received := st_received st;
                                               st_src := st_src st; st_fw := FwDone |}]> (fd_dsts fd)) fd
              end)
      else None
    end
  | FwHolds e =>
    Some (match try_send (toDBEntry e) (st_chan st) with
          | None => fd_panic fd
          | Some c => with_dsts (<[d := {| st_chan := c; st_received := st_received st;
                                           st_src := st_src st; st_fw := FwRange |}]> (fd_dsts fd)) fd
          end)
  | FwDone => None
  end.

(** The dashboard reads the next entry of stream [d]. *)
Definition consume (d : nat) (fd : Feed) : option Feed :=
  st ← fd_dsts fd !! d;
  match ch_buf (st_chan st) with
  | [] => None
  | x :: buf =>
    Some (with_dsts (<[d := {| st_chan := {| ch_buf := buf; ch_closed := ch_closed (st_chan st) |};
                               st_received := st_received st ++ [x];
                               st_src := st_src st; st_fw := st_fw st |}]> (fd_dsts fd)) fd)
  end.

Inductive feed_step : Feed -> Feed -> Prop :=
  | fs_subscribe_src fd : fd_adders fd = ∅ -> feed_step fd (subscribe_src fd)
  | fs_subscribe_dst fd s l1 l2 :
      fd_calls fd = l1 ++ Joining s :: l2 -> feed_step fd (subscribe_dst s (l1 ++ l2) fd)
  | fs_unsubscribe fd d : feed_step fd (unsubscribe d fd)
  | fs_leave fd s l1 l2 :
      fd_adders fd = ∅ -> fd_calls fd = l1 ++ Leaving s :: l2 ->
      feed_step fd (leave s (l1 ++ Closing s :: l2) fd)
  | fs_close fd s l1 l2 :
      fd_calls fd = l1 ++ Closing s :: l2 -> feed_step fd (close_src s (l1 ++ l2) fd)
  | fs_add fd g e order :
      fd_adders fd !! g = None -> order ≡ₚ elements (fd_subs fd) ->
      feed_step fd (with_adders (<[g := {| ad_entry := e; ad_left := order |}]> (fd_adders fd)) fd)
  | fs_offer fd g e s rest :
      fd_adders fd !! g = Some {| ad_entry := e; ad_left := s :: rest |} ->
      feed_step fd (offer g e s rest fd)
  | fs_add_done fd g e :
      fd_adders fd !! g = Some {| ad_entry := e; ad_left := [] |} ->
      feed_step fd (with_adders (delete g (fd_adders fd)) fd)
  | fs_forward fd d fd' : forward d fd = Some fd' -> feed_step fd fd'
  | fs_consume fd d fd' : consume d fd = Some fd' -> feed_step fd fd'.

(** ** Safety *)

(** Who may still close each source: the calls in progress and the adapter's
    table. *)
Definition owners (fd : Feed) : list nat := map call_src (fd_calls fd) ++ (map_to_list (fd_srcOf fd)).*2.

Definition open_src (fd : Feed) (s : nat) : Prop :=
  exists src, fd_srcs fd !! s = Some src /\ ch_closed (src_chan src) = false.

Definition call_ok (fd : Feed) (c : call) : Prop :=
  match c with
  | Joining s | Leaving s => (s ∈ fd_subs fd)
  | Closing s => (s ∉ fd_subs fd) /\ open_src fd s
  end.

Record feed_wf (fd : Feed) : Prop := {
  fw_panic : fd_panicked fd = false;
  fw_fresh_src : forall s, is_Some (fd_srcs fd !! s) -> s < fd_next fd;
  fw_fresh_dst : forall d, is_Some (fd_srcOf fd !! d) -> d < fd_next fd;
  fw_subs : forall s, s ∈ fd_subs fd -> open_src fd s;
  fw_adders : forall g a s, fd_adders fd !! g = Some a -> s ∈ ad_left a -> s ∈ fd_subs fd;
  fw_owners : NoDup (owners fd);
  fw_calls : Forall (call_ok fd) (fd_calls fd);
  fw_srcOf : forall d s, fd_srcOf fd !! d = Some s -> s ∈ fd_subs fd;
  fw_dsts : forall d st, fd_dsts fd !! d = Some st ->
    is_Some (fd_srcs fd !! st_src st) /\ (st_fw st <> FwDone -> ch_closed (st_chan st) = false);
}.

Lemma try_send_open {A} (v : A) c : ch_closed c = false -> exists c', try_send v c = Some c' /\ ch_closed c' = false.
Proof. unfold try_send. intros Hc. rewrite Hc. eexists. split; [done|]. by case_decide. Qed.

Lemma feed_wf_init : feed_wf fd_init.
Proof.
  split; simpl; try done; try (by intros ? [? Hx]; rewrite lookup_empty in Hx).
  all: constructor.
Qed.

(** A step that moves entries but neither opens nor closes a source and leaves
    the tables alone. *)
Lemma feed_wf_data fd fd' :
  feed_wf fd ->
  fd_panicked fd' = false -> fd_next fd' = fd_next fd -> fd_subs fd' = fd_subs fd ->
  fd_srcOf fd' = fd_srcOf fd -> fd_calls fd' = fd_calls fd ->
  (forall s, is_Some (fd_srcs fd' !! s) <-> is_Some (fd_srcs fd !! s)) ->
  (forall s, open_src fd s -> open_src fd' s) ->
  (forall g a s, fd_adders fd' !! g = Some a -> s ∈ ad_left a -> s ∈ fd_subs fd) ->
  (forall d st, fd_dsts fd' !! d = Some st ->
     is_Some (fd_srcs fd !! st_src st) /\ (st_fw st <> FwDone -> ch_closed (st_chan st) = false)) ->
  feed_wf fd'.
Proof.
  intros [Hp Hfs Hfd Hsub Had How Hca Hsr Hd] Hp' Hn Hs Ho Hc Hdom Hopen Had' Hd'.
  split; try done; rewrite ?Hn, ?Hs, ?Ho, ?Hc; try done.
  - intros s Hs'. by apply Hfs, Hdom.
  - eauto.
  - unfold owners. by rewrite Hc, Ho.
  - eapply Forall_impl; [done|]. intros [s|s|s]; simpl; rewrite Hs; naive_solver.
  - intros d st Hst. rewrite Hdom. by eapply Hd'.
Qed.

Lemma feed_wf_subscribe_src fd : feed_wf fd -> fd_adders fd = ∅ -> feed_wf (subscribe_src fd).
Proof.
  intros [Hp Hfs Hfd Hsub Had How Hca Hsr Hd] He.
  assert (fd_srcs fd !! fd_next fd = None) as Hnew.
  { apply eq_None_not_Some. intros Hs. specialize (Hfs _ Hs). lia. }
  assert (fd_next fd ∉ fd_subs fd) as Hns.
  { intros Hin. destruct (Hsub _ Hin) as (? & ? & _). congruence. }
  assert (forall s, open_src fd s -> open_src (subscribe_src fd) s) as Hopen.
  { intros s (src & Hsrc & Hc). exists src. split; [|done]. simpl. by rewrite lookup_insert_ne by congruence. }
  split; simpl; [done|..].
  - intros s [src Hs]. apply lookup_insert_Some in Hs as [[<- _]|[_ Hs]]; [lia|].
    enough (s < fd_next fd) by lia. apply Hfs. eauto.
  - intros d Hs. specialize (Hfd d Hs). lia.
  - intros s Hin. apply elem_of_union in Hin as [Hin|Hin]; [|auto].
    apply elem_of_singleton in Hin as ->. eexists. simpl. by rewrite lookup_insert_eq.
  - intros g a s Ha. rewrite He in Ha. set_solver.
  - unfold owners. simpl. constructor; [|done]. intros Hin. apply elem_of_app in Hin as [Hin|Hin].
    + apply list_elem_of_fmap in Hin as (c & Heq & Hin). rewrite Forall_forall in Hca.
      specialize (Hca c Hin). destruct c as [s|s|s]; simpl in *; subst s; [done..|].
      destruct Hca as [_ (? & ? & _)]. congruence.
    + apply list_elem_of_fmap in Hin as ([d s] & Heq & Hin). simpl in Heq. subst s.
      apply elem_of_map_to_list in Hin. by apply Hsr in Hin.
  - constructor; [set_solver|]. eapply Forall_impl; [done|].
    intros [s|s|s]; simpl; [set_solver..|]. intros [Hs Ho]. split; [|by apply Hopen].
    destruct Ho as (? & Hs' & _). intros Hin. apply elem_of_union in Hin as [Hin|Hin]; [|done].
    apply elem_of_singleton in Hin as ->. congruence.
  - set_solver.
  - intros d st Hst. destruct (Hd d st Hst) as [[src Hs] Hc]. split; [|done].
    rewrite lookup_insert_ne by congruence. eauto.
Qed.

Lemma owners_perm fd l1 c l2 :
  fd_calls fd = l1 ++ c :: l2 ->
  owners fd ≡ₚ call_src c :: map call_src (l1 ++ l2) ++ (map_to_list (fd_srcOf fd)).*2.
Proof. intros Hc. unfold owners. rewrite Hc. change (map call_src) with (fmap (M := list) call_src). by rewrite <- Permutation_middle. Qed.

Lemma feed_wf_subscribe_dst fd s l1 l2 :
  feed_wf fd -> fd_calls fd = l1 ++ Joining s :: l2 -> feed_wf (subscribe_dst s (l1 ++ l2) fd).
Proof.
  intros [Hp Hfs Hfd Hsub Had How Hca Hsr Hd] Hc.
  rewrite (owners_perm _ _ _ _ Hc) in How. rewrite Hc in Hca. simpl in How.
  rewrite <- Permutation_middle, Forall_cons in Hca. destruct Hca as [Hs Hca]. simpl in Hs.
  assert (fd_srcOf fd !! fd_next fd = None) as Hnew.
  { apply eq_None_not_Some. intros Hd'. specialize (Hfd _ Hd'). lia. }
  split; simpl; try done.
  - intros s' Hs'. specialize (Hfs s' Hs'). lia.
  - intros d [s' Hd']. apply lookup_insert_Some in Hd' as [[<- _]|[_ Hd']]; [lia|].
    enough (d < fd_next fd) by lia. apply Hfd. eauto.
  - unfold owners. simpl. rewrite map_to_list_insert by done. simpl.
    by rewrite <- Permutation_middle.
  - intros d s'. rewrite lookup_insert_Some. naive_solver.
  - intros d st Hst. apply lookup_insert_Some in Hst as [[_ <-]|[_ Hst]]; [|by eapply Hd].
    simpl. split; [|done]. destruct (Hsub s Hs) as (? & ? & _). eauto.
Qed.

Lemma feed_wf_unsubscribe fd d : feed_wf fd -> feed_wf (unsubscribe d fd).
Proof.
  intros Hwf. unfold unsubscribe. destruct (fd_srcOf fd !! d) as [s|] eqn:Hd; [|done].
  destruct Hwf as [Hp Hfs Hfd Hsub Had How Hca Hsr Hds]. split; simpl; try done.
  - intros d' Hd'. apply Hfd. destruct Hd' as [? Hd']. apply lookup_delete_Some in Hd' as []. eauto.
  - unfold owners in *. simpl. rewrite <- (map_to_list_delete (fd_srcOf fd) d s Hd) in How.
    simpl in How. by rewrite <- Permutation_middle in How.
  - constructor; [|done]. simpl. by eapply Hsr.
  - intros d' s' Hd'. apply lookup_delete_Some in Hd' as []. eauto.
Qed.

Lemma feed_wf_leave fd s l1 l2 :
  feed_wf fd -> fd_adders fd = ∅ -> fd_calls fd = l1 ++ Leaving s :: l2 ->
  feed_wf (leave s (l1 ++ Closing s :: l2) fd).
Proof.
  intros [Hp Hfs Hfd Hsub Had How Hca Hsr Hds] He Hc.
  pose proof (owners_perm _ _ _ _ Hc) as Hperm. rewrite Hperm in How. simpl in How.
  apply NoDup_cons in How as [Hni How]. rewrite Hc in Hca.
  rewrite <- Permutation_middle, Forall_cons in Hca. destruct Hca as [Hs Hca]. simpl in Hs.
  assert (forall c, c ∈ l1 ++ l2 -> call_src c <> s) as Hne.
  { intros c Hin <-. apply Hni. apply elem_of_app. left. by apply (list_elem_of_fmap_2 call_src). }
  split; simpl; try done.
  - intros s' Hin. apply Hsub. set_solver.
  - intros g a s' Ha. rewrite He in Ha. set_solver.
  - assert (owners (leave s (l1 ++ Closing s :: l2) fd) ≡ₚ owners fd) as ->.
    { rewrite Hperm. by apply (owners_perm (leave s (l1 ++ Closing s :: l2) fd) l1 (Closing s) l2). }
    rewrite Hperm. by constructor.
  - rewrite Forall_forall. intros c Hin. rewrite <- Permutation_middle in Hin.
    apply elem_of_cons in Hin as [->|Hin].
    + split; [set_solver|]. destruct (Hsub s Hs) as (src & ? & ?). by exists src.
    + rewrite Forall_forall in Hca. specialize (Hca c Hin). specialize (Hne c Hin).
      destruct c as [s'|s'|s']; simpl in *; [set_solver..|]. destruct Hca as [? (src & ? & ?)].
      split; [set_solver|]. by exists src.
  - intros d s' Hd'. apply elem_of_difference. split; [eauto|]. intros ->%elem_of_singleton.
    apply Hni. apply elem_of_app. right. apply list_elem_of_fmap. exists (d, s). split; [done|].
    by apply elem_of_map_to_list.
Qed.

Lemma feed_wf_close fd s l1 l2 :
  feed_wf fd -> fd_calls fd = l1 ++ Closing s :: l2 -> feed_wf (close_src s (l1 ++ l2) fd).
Proof.
  intros [Hp Hfs Hfd Hsub Had How Hca Hsr Hds] Hc.
  rewrite (owners_perm _ _ _ _ Hc) in How. apply NoDup_cons in How as [Hni How]. simpl in Hni.
  rewrite Hc, <- Permutation_middle, Forall_cons in Hca. destruct Hca as [[Hns (src & Hs & Hopen)] Hca].
  unfold close_src. rewrite Hs. simpl. unfold close_chan. rewrite Hopen.
  simpl. set (fd' := with_calls _ _).
  assert (forall s', s' <> s -> open_src fd s' -> open_src fd' s') as Hkeep.
  { intros s' Hne (src' & ? & ?). exists src'. split; [|done]. simpl. by rewrite lookup_insert_ne. }
  assert (forall s', is_Some (fd_srcs fd' !! s') <-> is_Some (fd_srcs fd !! s')) as Hdom.
  { intros s'. simpl. rewrite lookup_insert_is_Some'. naive_solver. }
  split; simpl; try done.
  - intros s' Hs'. by apply Hfs, Hdom.
  - intros s' Hin. apply Hkeep; [congruence | auto].
  - rewrite Forall_forall in Hca |- *. intros c' Hin. specialize (Hca c' Hin).
    destruct c' as [s'|s'|s']; simpl in *; [done..|]. destruct Hca as [? ?]. split; [done|].
    apply Hkeep; [|done]. intros ->. apply Hni, elem_of_app. left.
    by apply (list_elem_of_fmap_2 call_src _ (Closing s)).
  - intros d st Hst. destruct (Hds d st Hst) as [Hsrc ?]. split; [by apply Hdom | done].
Qed.

Lemma feed_wf_add fd g e order :
  feed_wf fd -> order ≡ₚ elements (fd_subs fd) ->
  feed_wf (with_adders (<[g := {| ad_entry := e; ad_left := order |}]> (fd_adders fd)) fd).
Proof.
  intros Hwf Ho. apply (feed_wf_data fd); try apply Hwf; try done.
  simpl. intros g' a s Ha Hs. apply lookup_insert_Some in Ha as [[_ <-]|[_ Ha]].
  - simpl in Hs. rewrite Ho in Hs. by apply elem_of_elements.
  - by eapply (fw_adders _ Hwf).
Qed.

Lemma feed_wf_add_done fd g : feed_wf fd -> feed_wf (with_adders (delete g (fd_adders fd)) fd).
Proof.
  intros Hwf. apply (feed_wf_data fd); try apply Hwf; try done.
  simpl. intros g' a s Ha Hs. apply lookup_delete_Some in Ha as [_ Ha]. by eapply (fw_adders _ Hwf).
Qed.

Lemma feed_wf_offer fd g e s rest :
  feed_wf fd -> fd_adders fd !! g = Some {| ad_entry := e; ad_left := s :: rest |} ->
  feed_wf (offer g e s rest fd).
Proof.
  intros Hwf Hg.
  destruct (fw_subs _ Hwf s) as (src & Hs & Hopen).
  { eapply (fw_adders _ Hwf); [done|]. simpl. by left. }
  destruct (try_send_open e _ Hopen) as (c & Hc & Hco).
  unfold offer. rewrite Hs. simpl. rewrite Hc. simpl.
  apply (feed_wf_data fd); try apply Hwf; try done; simpl.
  - intros s'. rewrite lookup_insert_is_Some'. naive_solver.
  - intros s' (src' & Hs' & Ho'). unfold open_src. simpl.
    destruct (decide (s = s')) as [<-|]; [rewrite lookup_insert_eq | rewrite lookup_insert_ne by done]; eauto.
  - intros g' a s' Ha Hin. apply lookup_insert_Some in Ha as [[_ <-]|[_ Ha]]; [|by eapply (fw_adders _ Hwf)].
    eapply (fw_adders _ Hwf); [exact Hg|]. simpl in *. by right.
Qed.

(** Replacing one stream by one with the same source. *)
Lemma feed_wf_stream fd d st0 st :
  feed_wf fd -> fd_dsts fd !! d = Some st0 -> st_src st = st_src st0 ->
  (st_fw st <> FwDone -> ch_closed (st_chan st) = false) ->
  feed_wf (with_dsts (<[d := st]> (fd_dsts fd)) fd).
Proof.
  intros Hwf Hd Hsrc Hc. apply (feed_wf_data fd); try apply Hwf; try done.
  simpl. intros d' st' Hst. apply lookup_insert_Some in Hst as [[_ <-]|[_ Hst]]; [|by eapply (fw_dsts _ Hwf)].
  rewrite Hsrc. split; [|done]. by apply (fw_dsts _ Hwf d st0).
Qed.

Lemma feed_wf_forward fd d fd' : feed_wf fd -> forward d fd = Some fd' -> feed_wf fd'.
Proof.
  intros Hwf. unfold forward. destruct (fd_dsts fd !! d) as [st|] eqn:Hd; [|done]. simpl.
  destruct (fw_dsts _ Hwf d st Hd) as [_ Hopen].
  destruct (st_fw st) eqn:Hf; [| |done].
  - specialize (Hopen ltac:(done)).
    destruct (fd_srcs fd !! st_src st) as [src|] eqn:Hs; [|done]. simpl.
    destruct (ch_buf (src_chan src)) as [|e buf] eqn:Hb.
    + destruct (ch_closed (src_chan src)); [|done]. intros [= <-].
      unfold close_chan. rewrite Hopen. by eapply feed_wf_stream.
    + intros [= <-].
      apply (feed_wf_data (with_dsts (<[d := {| st_chan := st_chan st; st_received := st_received st;
               st_src := st_src st; st_fw := FwHolds e |}]> (fd_dsts fd)) fd)); try done; simpl.
      * by eapply feed_wf_stream.
      * apply (fw_panic _ Hwf).
      * intros s'. rewrite lookup_insert_is_Some'. naive_solver.
      * intros s' (src' & Hs' & Ho'). unfold open_src. simpl in *.
        destruct (decide (st_src st = s')) as [<-|];
          [rewrite lookup_insert_eq | rewrite lookup_insert_ne by done]; eexists; split; eauto. simpl. congruence.
      * apply (fw_adders _ Hwf).
      * intros d' st' Hst. apply lookup_insert_Some in Hst as [[_ <-]|[_ Hst]]; simpl; [by eauto|].
        by apply (fw_dsts _ Hwf d').
  - specialize (Hopen ltac:(done)). intros [= <-].
    destruct (try_send_open (toDBEntry e) _ Hopen) as (c & -> & Hco). by eapply feed_wf_stream.
Qed.

Lemma feed_wf_consume fd d fd' : feed_wf fd -> consume d fd = Some fd' -> feed_wf fd'.
Proof.
  intros Hwf. unfold consume. destruct (fd_dsts fd !! d) as [st|] eqn:Hd; [|done]. simpl.
  destruct (ch_buf (st_chan st)) as [|x buf]; [done|]. intros [= <-].
  eapply feed_wf_stream; [done..|]. simpl. by apply (fw_dsts _ Hwf d st).
Qed.

(** C19: however the goroutines that add entries, subscribe, unsubscribe (any
    channel, any number of times), forward and read interleave, no one sends on
    a closed channel or closes one twice, every subscriber that [Add] still has
    to visit is open, and each source has at most one goroutine that will close
    it. *)
Theorem feed_safe fd : reachable (fun fd => fd = fd_init) feed_step fd -> feed_wf fd.
Proof.
  apply reachable_invariant; [intros ? ->; apply feed_wf_init|].
  intros fd1 fd2 Hwf Hstep. destruct Hstep;
    eauto using feed_wf_subscribe_src, feed_wf_subscribe_dst, feed_wf_unsubscribe, feed_wf_leave,
      feed_wf_close, feed_wf_add, feed_wf_offer, feed_wf_add_done, feed_wf_forward, feed_wf_consume.
Qed.

(** ** Order *)

Definition in_hand (f : forwarder) : list RequestLogEntry :=
  match f with FwHolds e => [toDBEntry e] | _ => [] end.

(** Everything of a stream that is read, buffered, held or still to be received
    was offered to its source, in that order. *)
Definition in_order (src : source) (st : stream) : Prop :=
  (st_received st ++ ch_buf (st_chan st) ++ in_hand (st_fw st) ++
     (toDBEntry <$> ch_buf (src_chan src))) `sublist_of` (toDBEntry <$> src_offered src).

Record feed_ordered (fd : Feed) : Prop := {
  fo_wf : feed_wf fd;
  fo_srcs : forall s src, fd_srcs fd !! s = Some src ->
    ch_buf (src_chan src) `sublist_of` src_offered src /\ length (ch_buf (src_chan src)) <= chan_cap;
  fo_dsts : forall d st, fd_dsts fd !! d = Some st -> length (ch_buf (st_chan st)) <= chan_cap /\
    exists src, fd_srcs fd !! st_src st = Some src /\ in_order src st;
}.

Lemma try_send_buf {A} (v : A) c c' :
  try_send v c = Some c' ->
  (ch_buf c' = ch_buf c \/ ch_buf c' = ch_buf c ++ [v]) /\
  (length (ch_buf c) <= chan_cap -> length (ch_buf c') <= chan_cap).
Proof.
  unfold try_send. destruct (ch_closed c); [done|]. intros [= <-].
  case_decide; simpl; [|by auto]. rewrite length_app. simpl. split; [by right | lia].
Qed.

(** Replacing the state of one source, or of one stream, keeps the order when
    that source or stream keeps it. *)
Lemma ordered_src fd fd' s src' :
  feed_ordered fd -> feed_wf fd' -> fd_dsts fd' = fd_dsts fd -> fd_srcs fd' = <[s := src']> (fd_srcs fd) ->
  ch_buf (src_chan src') `sublist_of` src_offered src' -> length (ch_buf (src_chan src')) <= chan_cap ->
  (forall st, (exists src, fd_srcs fd !! s = Some src /\ in_order src st) -> in_order src' st) ->
  feed_ordered fd'.
Proof.
  intros [_ Hs Hd] Hwf Ed Es Hsub Hlen Hst. split; [done|..]; rewrite ?Ed, ?Es.
  - intros s1 src1 Hs1. apply lookup_insert_Some in Hs1 as [[_ <-]|[_ Hs1]]; [done | by apply (Hs s1)].
  - intros d st Hd1. destruct (Hd d st Hd1) as (Hl & src & Hsrc & Ho). split; [done|].
    destruct (decide (s = st_src st)) as [->|Hne].
    + exists src'. rewrite lookup_insert_eq. eauto.
    + exists src. by rewrite lookup_insert_ne.
Qed.

Lemma ordered_dst fd fd' d st' :
  feed_ordered fd -> feed_wf fd' -> fd_srcs fd' = fd_srcs fd -> fd_dsts fd' = <[d := st']> (fd_dsts fd) ->
  length (ch_buf (st_chan st')) <= chan_cap ->
  (exists src, fd_srcs fd !! st_src st' = Some src /\ in_order src st') ->
  feed_ordered fd'.
Proof.
  intros [_ Hs Hd] Hwf Es Ed Hlen Ho. split; [done|..]; rewrite ?Ed, ?Es; [done|].
  intros d1 st1 Hd1. apply lookup_insert_Some in Hd1 as [[_ <-]|[_ Hd1]]; [done | by apply (Hd d1)].
Qed.

Lemma ordered_subscribe_src fd : feed_ordered fd -> fd_adders fd = ∅ -> feed_ordered (subscribe_src fd).
Proof.
  intros Ho He. pose proof (feed_wf_subscribe_src fd (fo_wf _ Ho) He) as Hwf.
  eapply (ordered_src fd); try done; simpl; [unfold chan_cap; lia|].
  intros st (src & Hs & _). exfalso.
  enough (fd_next fd < fd_next fd) by lia. apply (fw_fresh_src _ (fo_wf _ Ho)). eauto.
Qed.

Lemma ordered_subscribe_dst fd s l1 l2 :
  feed_ordered fd -> fd_calls fd = l1 ++ Joining s :: l2 -> feed_ordered (subscribe_dst s (l1 ++ l2) fd).
Proof.
  intros Ho Hc. pose proof (feed_wf_subscribe_dst fd s l1 l2 (fo_wf _ Ho) Hc) as Hwf.
  assert (s ∈ fd_subs fd) as Hin.
  { pose proof (fw_calls _ (fo_wf _ Ho)) as Hca. rewrite Hc, Forall_forall in Hca.
    apply (Hca (Joining s)). apply elem_of_app. right. by left. }
  destruct (fw_subs _ (fo_wf _ Ho) s Hin) as (src & Hs & _).
  eapply (ordered_dst fd); try done; simpl; [unfold chan_cap; lia|].
  exists src. split; [done|]. unfold in_order. simpl.
  destruct (fo_srcs _ Ho s src Hs) as [Hsub _]. by apply fmap_sublist.
Qed.

Lemma ordered_close fd s l1 l2 :
  feed_ordered fd -> fd_calls fd = l1 ++ Closing s :: l2 -> feed_ordered (close_src s (l1 ++ l2) fd).
Proof.
  intros Ho Hc. pose proof (feed_wf_close fd s l1 l2 (fo_wf _ Ho) Hc) as Hwf. revert Hwf.
  pose proof (fw_calls _ (fo_wf _ Ho)) as Hca. rewrite Hc, Forall_app, Forall_cons in Hca.
  destruct Hca as (_ & [_ (src & Hs & Hop)] & _).
  unfold close_src. rewrite Hs. simpl. unfold close_chan. rewrite Hop. intros Hwf.
  destruct (fo_srcs _ Ho s src Hs) as [Hsub Hlen].
  eapply (ordered_src fd _ s); try done; simpl in *; [done..|].
  intros st (src' & Hs' & Hin). simplify_eq. exact Hin.
Qed.

Lemma ordered_offer fd g e s rest :
  feed_ordered fd -> fd_adders fd !! g = Some {| ad_entry := e; ad_left := s :: rest |} ->
  feed_ordered (offer g e s rest fd).
Proof.
  intros Ho Hg. pose proof (feed_wf_offer fd g e s rest (fo_wf _ Ho) Hg) as Hwf. revert Hwf.
  destruct (fw_subs _ (fo_wf _ Ho) s) as (src & Hs & Hopen).
  { eapply (fw_adders _ (fo_wf _ Ho)); [done|]. simpl. by left. }
  destruct (try_send_open e _ Hopen) as (c & Hc & Hco).
  destruct (fo_srcs _ Ho s src Hs) as [Hsub Hlen].
  destruct (try_send_buf _ _ _ Hc) as [Hb Hl].
  unfold offer. rewrite Hs. simpl. rewrite Hc. simpl. intros Hwf.
  eapply (ordered_src fd _ s); try done; simpl in *.
  - destruct Hb as [-> | ->]; [by apply sublist_inserts_r | by apply sublist_app].
  - auto.
  - intros st (src' & Hs' & Hin). simplify_eq. unfold in_order in *. simpl.
    rewrite fmap_app. destruct Hb as [-> | ->]; [by apply sublist_inserts_r|].
    rewrite fmap_app, !app_assoc. apply sublist_app; [|done]. by rewrite <- !app_assoc.
Qed.

Lemma ordered_receive fd d st src e buf fd' :
  feed_ordered fd -> feed_wf fd' ->
  fd_dsts fd !! d = Some st -> fd_srcs fd !! st_src st = Some src ->
  ch_buf (src_chan src) = e :: buf -> st_fw st = FwRange -> in_order src st ->
  fd_srcs fd' = <[st_src st := {| src_chan := {| ch_buf := buf; ch_closed := ch_closed (src_chan src) |};
                                  src_offered := src_offered src |}]> (fd_srcs fd) ->
  fd_dsts fd' = <[d := {| st_chan := st_chan st; st_received := st_received st;
                          st_src := st_src st; st_fw := FwHolds e |}]> (fd_dsts fd) ->
  feed_ordered fd'.
Proof.
  intros Ho Hwf Hd Hs Hb Hf Hin Es Ed.
  destruct (fo_srcs _ Ho _ _ Hs) as [Hsub Hlen]. rewrite Hb in Hsub, Hlen. simpl in Hlen.
  split; [done|..]; rewrite ?Ed, ?Es.
  - intros s1 src1 Hs1. apply lookup_insert_Some in Hs1 as [[_ <-]|[_ Hs1]]; [|by apply (fo_srcs _ Ho s1)].
    simpl. split; [|lia]. etrans; [|exact Hsub]. by apply sublist_cons.
  - intros d1 st1 Hd1. apply lookup_insert_Some in Hd1 as [[_ <-]|[_ Hd1]]; simpl.
    + split; [by apply (fo_dsts _ Ho d)|]. eexists. rewrite lookup_insert_eq. split; [done|].
      unfold in_order in *. rewrite Hf, Hb in Hin. exact Hin.
    + destruct (fo_dsts _ Ho d1 st1 Hd1) as (Hl1 & src1 & Hs1 & Hin1). split; [done|].
      destruct (decide (st_src st = st_src st1)) as [Heq|Hne].
      * rewrite <- Heq in *. simplify_eq. eexists. rewrite lookup_insert_eq. split; [done|].
        unfold in_order in *. rewrite Hb in Hin1. simpl. etrans; [|exact Hin1].
        repeat apply sublist_app; try done. simpl. by apply sublist_cons.
      * exists src1. by rewrite lookup_insert_ne.
Qed.

Lemma ordered_forward fd d fd' : feed_ordered fd -> forward d fd = Some fd' -> feed_ordered fd'.
Proof.
  intros Ho Hf. pose proof (feed_wf_forward fd d fd' (fo_wf _ Ho) Hf) as Hwf. revert Hf.
  unfold forward. destruct (fd_dsts fd !! d) as [st|] eqn:Hd; [|done]. simpl.
  destruct (fw_dsts _ (fo_wf _ Ho) d st Hd) as [_ Hopen].
  destruct (fo_dsts _ Ho d st Hd) as (Hl & src & Hs & Hin).
  destruct (st_fw st) as [|e|] eqn:Hf; [rewrite Hs; simpl| |done].
  - specialize (Hopen ltac:(done)).
    destruct (ch_buf (src_chan src)) as [|e buf] eqn:Hb.
    + destruct (ch_closed (src_chan src)); [|done]. unfold close_chan. rewrite Hopen. intros [= <-].
      eapply (ordered_dst fd); try done; simpl. exists src. split; [done|].
      unfold in_order in *. rewrite Hf in Hin. exact Hin.
    + intros [= <-]. by eapply ordered_receive.
  - intros [= <-]. specialize (Hopen ltac:(done)).
    destruct (try_send (toDBEntry e) (st_chan st)) as [c|] eqn:Hc.
    2: { pose proof (fw_panic _ Hwf). done. }
    destruct (try_send_buf _ _ _ Hc) as [Hb Hlen].
    eapply (ordered_dst fd); try done; simpl; [auto|]. exists src. split; [done|].
    unfold in_order in *. rewrite Hf in Hin. simpl in *. etrans; [|exact Hin].
    destruct Hb as [-> | ->]; simpl; rewrite <- ?app_assoc; repeat apply sublist_app; try done.
    by apply sublist_cons.
Qed.

Lemma ordered_consume fd d fd' : feed_ordered fd -> consume d fd = Some fd' -> feed_ordered fd'.
Proof.
  intros Ho Hc. pose proof (feed_wf_consume fd d fd' (fo_wf _ Ho) Hc) as Hwf. revert Hc.
  unfold consume. destruct (fd_dsts fd !! d) as [st|] eqn:Hd; [|done]. simpl.
  destruct (fo_dsts _ Ho d st Hd) as (Hl & src & Hs & Hin).
  destruct (ch_buf (st_chan st)) as [|x buf] eqn:Hb; [done|]. intros [= <-]. simpl in Hl.
  eapply (ordered_dst fd); try done; simpl; [lia|]. exists src. split; [done|].
  unfold in_order in *. rewrite Hb in Hin. simpl. by rewrite <- app_assoc.
Qed.

(** The table-only steps. *)
Lemma ordered_tables fd fd' :
  feed_ordered fd -> feed_wf fd' -> fd_srcs fd' = fd_srcs fd -> fd_dsts fd' = fd_dsts fd -> feed_ordered fd'.
Proof. intros [_ Hs Hd] Hwf Es Ed. split; rewrite ?Es, ?Ed; done. Qed.

Lemma ordered_step fd fd' : feed_ordered fd -> feed_step fd fd' -> feed_ordered fd'.
Proof.
  intros Ho Hstep. pose proof (fo_wf _ Ho) as Hwf.
  destruct Hstep;
    eauto using ordered_subscribe_src, ordered_subscribe_dst, ordered_close, ordered_offer,
      ordered_forward, ordered_consume.
  - apply (ordered_tables fd); [done | by apply feed_wf_unsubscribe | |];
      unfold unsubscribe; by destruct (fd_srcOf fd !! d).
  - apply (ordered_tables fd); [done | by apply feed_wf_leave | done | done].
  - apply (ordered_tables fd); [done | by apply feed_wf_add | done | done].
  - apply (ordered_tables fd); [done | by apply feed_wf_add_done | done | done].
Qed.

(** Under every interleaving, what a dashboard stream has read is a
    subsequence, in order and without duplicates, of the entries that were
    offered to its subscription (a slow reader loses entries, nothing is
    invented or reordered), and no channel ever buffers more than 64 entries. *)
Theorem feed_in_order fd d st :
  reachable (fun fd => fd = fd_init) feed_step fd -> fd_dsts fd !! d = Some st ->
  exists src, fd_srcs fd !! st_src st = Some src /\
    st_received st `sublist_of` (toDBEntry <$> src_offered src) /\
    length (ch_buf (src_chan src)) <= 64 /\ length (ch_buf (st_chan st)) <= 64.
Proof.
  intros Hr Hd. revert Hr. intros Hr.
  assert (feed_ordered fd) as Ho.
  { revert Hr. apply reachable_invariant; [|intros; by eapply ordered_step].
    intros ? ->. split; [apply feed_wf_init | done | done]. }
  destruct (fo_dsts _ Ho d st Hd) as (Hl & src & Hs & Hin).
  exists src. split; [done|]. split; [|split; [by apply (fo_srcs _ Ho _ _ Hs) | done]].
  etrans; [|exact Hin]. by apply sublist_inserts_r.
Qed.

(** ** Termination of the forwarding goroutine *)

(** [n] actions of the goroutine of stream [d]. *)
Fixpoint forward_n (n : nat) (d : nat) (fd : Feed) : option Feed :=
  match n with O => Some fd | S n => forward d fd ≫= forward_n n d end.

(** The actions left once the source is closed. *)
Definition work_left (buf : list LogEntry) (f : forwarder) : nat :=
  match f with FwDone => 0 | FwRange => 2 * length buf + 1 | FwHolds _ => 2 * length buf + 2 end.

(** Once its source is closed the goroutine is never blocked: it closes the
    dashboard's channel and returns, or does one unit of the work left. *)
Lemma forward_closed fd d st src :
  feed_wf fd -> fd_dsts fd !! d = Some st -> fd_srcs fd !! st_src st = Some src ->
  ch_closed (src_chan src) = true -> st_fw st <> FwDone ->
  exists fd' st' src', forward d fd = Some fd' /\ feed_wf fd' /\
    fd_dsts fd' !! d = Some st' /\ fd_srcs fd' !! st_src st' = Some src' /\
    ch_closed (src_chan src') = true /\
    S (work_left (ch_buf (src_chan src')) (st_fw st')) = work_left (ch_buf (src_chan src)) (st_fw st) /\
    (st_fw st' = FwDone -> ch_closed (st_chan st') = true).
Proof.
  intros Hwf Hd Hs Hcl Hnd. pose proof (feed_wf_forward fd d) as Hpres.
  destruct (fw_dsts _ Hwf d st Hd) as [_ Hopen]. specialize (Hopen Hnd).
  destruct (forward d fd) as [fd'|] eqn:Hfw.
  2: { unfold forward in Hfw. rewrite Hd in Hfw. simpl in Hfw. rewrite Hs in Hfw. simpl in Hfw.
       destruct (st_fw st); [|done..]. destruct (ch_buf (src_chan src)); [|done]. by rewrite Hcl in Hfw. }
  specialize (Hpres fd' Hwf eq_refl). revert Hfw Hpres. unfold forward. rewrite Hd. simpl. rewrite Hs. simpl.
  destruct (st_fw st) eqn:Hf; [| |done].
  - destruct (ch_buf (src_chan src)) as [|e buf] eqn:Hb.
    + rewrite Hcl. unfold close_chan. rewrite Hopen. intros [= <-] Hwf'.
      do 3 eexists. repeat (split; [done|]). simpl. rewrite lookup_insert_eq. split; [done|].
      split; [exact Hs | done].
    + intros [= <-] Hwf'. do 3 eexists. repeat (split; [done|]). simpl.
      rewrite lookup_insert_eq. split; [done|]. simpl. rewrite lookup_insert_eq. split; [done|].
      simpl. split; [done|]. split; [lia | done].
  - destruct (try_send_open (toDBEntry e) _ Hopen) as (c & -> & Hco). intros [= <-] Hwf'.
    do 3 eexists. repeat (split; [done|]). simpl. rewrite lookup_insert_eq. split; [done|].
    simpl. rewrite Hs. split; [done|]. split; [done|]. split; [lia | done].
Qed.

(** After [Unsubscribe] has closed the source of a stream, the forwarding
    goroutine returns, after at most two actions per entry still buffered and
    two more, whatever it was doing, and leaves the dashboard's channel closed,
    so that the event stream that reads it ends too. *)
Theorem forwarder_terminates fd d st src :
  feed_wf fd -> fd_dsts fd !! d = Some st -> fd_srcs fd !! st_src st = Some src ->
  ch_closed (src_chan src) = true -> st_fw st <> FwDone ->
  exists fd' st', forward_n (work_left (ch_buf (src_chan src)) (st_fw st)) d fd = Some fd' /\
    fd_panicked fd' = false /\
    fd_dsts fd' !! d = Some st' /\ st_fw st' = FwDone /\ ch_closed (st_chan st') = true /\
    forward d fd' = None.
Proof.
  remember (work_left (ch_buf (src_chan src)) (st_fw st)) as n eqn:Hn.
  revert fd st src Hn. induction n as [|n IH]; intros fd st src Hn Hwf Hd Hs Hcl Hnd.
  { destruct (st_fw st); simpl in Hn; [lia..|done]. }
  destruct (forward_closed fd d st src Hwf Hd Hs Hcl Hnd)
    as (fd' & st' & src' & Hf & Hwf' & Hd' & Hs' & Hcl' & Hw & Hdone).
  rewrite <- Hn in Hw. injection Hw as Hw.
  cbn [forward_n]. rewrite Hf. simpl.
  destruct (st_fw st') eqn:Hst.
  3: { subst n. simpl. exists fd', st'. repeat (split; [first [done | by apply Hwf' | by apply Hdone]|]).
       unfold forward. rewrite Hd'. simpl. by rewrite Hst. }
  all: apply (IH fd' st' src'); rewrite ?Hst; done.
Qed.

(** ** The properties at a concrete feed *)

Module Examples.

(** One subscriber, one entry added and forwarded, then an unsubscription. *)
Definition e1 : LogEntry := zero_entry.
Definition fd1 := subscribe_dst 0 [] (subscribe_src fd_init).
Definition fd2 := offer 0 e1 0 [] (with_adders (<[0 := {| ad_entry := e1; ad_left := [0] |}]> (fd_adders fd1)) fd1).
Definition fd3 := with_adders (delete 0 (fd_adders fd2)) fd2.
Definition fd4 := default fd3 ((forward 1 fd3 ≫= forward 1) ≫= consume 1).
Definition fd5 := close_src 0 [] (leave 0 [Closing 0] (unsubscribe 1 fd4)).

Lemma fd4_reachable : reachable (fun fd => fd = fd_init) feed_step fd4.
Proof.
  apply (reach_step _ _ (default fd3 (forward 1 fd3 ≫= forward 1))).
  2: { eapply (fs_consume _ 1). reflexivity. }
  apply (reach_step _ _ (default fd3 (forward 1 fd3))).
  2: { eapply (fs_forward _ 1). reflexivity. }
  apply (reach_step _ _ fd3).
  2: { eapply (fs_forward _ 1). reflexivity. }
  apply (reach_step _ _ fd2). 2: { apply (fs_add_done _ 0 e1). reflexivity. }
  eapply reach_step. 2: { eapply (fs_offer _ 0 e1 0 []). reflexivity. }
  eapply reach_step. 2: { apply (fs_add _ 0 e1 [0]); reflexivity. }
  eapply reach_step. 2: { apply (fs_subscribe_dst _ 0 [] []). reflexivity. }
  eapply reach_step. 2: { apply fs_subscribe_src. reflexivity. }
  by apply reach_init.
Qed.

Lemma fd5_reachable : reachable (fun fd => fd = fd_init) feed_step fd5.
Proof.
  eapply reach_step. 2: { apply (fs_close _ 0 [] []). reflexivity. }
  eapply reach_step. 2: { apply (fs_leave _ 0 [] []); reflexivity. }
  eapply reach_step. 2: { apply fs_unsubscribe. }
  apply fd4_reachable.
Qed.

Lemma feed_safe_witness : feed_wf fd5 /\ fd_panicked fd5 = false.
Proof. split; [apply feed_safe, fd5_reachable | vm_compute; reflexivity]. Defined.

Definition st4 : stream :=
  {| st_chan := make_chan; st_received := [toDBEntry e1]; st_src := 0; st_fw := FwRange |}.

Lemma feed_in_order_witness :
  exists src, fd_srcs fd4 !! 0 = Some src /\
    [toDBEntry e1] `sublist_of` (toDBEntry <$> src_offered src) /\
    length (ch_buf (src_chan src)) <= 64 /\ length (ch_buf (st_chan st4)) <= 64.
Proof. apply (feed_in_order fd4 1 st4 fd4_reachable). vm_compute. reflexivity. Defined.

Lemma forwarder_terminates_witness :
  exists fd' st', forward_n 1 1 fd5 = Some fd' /\ fd_panicked fd' = false /\
    fd_dsts fd' !! 1 = Some st' /\ st_fw st' = FwDone /\ ch_closed (st_chan st') = true /\
    forward 1 fd' = None.
Proof.
  apply (forwarder_terminates fd5 1 st4
           {| src_chan := {| ch_buf := []; ch_closed := true |}; src_offered := [e1] |}).
  - apply feed_safe, fd5_reachable.
  - vm_compute. reflexivity.
  - vm_compute. reflexivity.
  - reflexivity.
  - discriminate.
Defined.
End Examples.
