(* ===== verification/Config.v ===== *)
(** * Configuration (internal/config/config.go, internal/server/config_provider.go)

    Loading with defaults and environment overrides, the client's configuration
    file, and the settings that the admin dashboard may read and change.  The
    YAML package is a parameter with the laws of the class [YamlLaws]; files are
    modelled by their content. *)

From Stdlib Require Import SpecFloat.
From S2P Require Import Prelude GoStrings.
Local Open Scope Z_scope.

(** ** Data *)

Record ServerConfig := {
  ListenAddr : string;
  Domain : string;
  Email : string;
  Tokens : list string;
  MaxTunnelsPerToken : Z;
  RateLimit : Z;
  GlobalRateLimit : Z;
  TCPPortRange : Z * Z;
  CertStorage : string;
  DevMode : bool;
  DNSProvider : string;
  DNSAPIToken : string;
  DashboardEnabled : bool;
  DashboardAddr : string;
  AdminToken : string;
  HTTPProxyAddr : string;
  HTTPRedirectAddr : string;
  KeyStorePath : string;
  AllowRegistration : option bool;
  AllowAnonymous : option bool;
  AnonTunnelTTL : Z;
}.

Definition zero_config : ServerConfig :=
  {| ListenAddr := ""; Domain := ""; Email := ""; Tokens := []; MaxTunnelsPerToken := 0;
     RateLimit := 0; GlobalRateLimit := 0; TCPPortRange := (0, 0); CertStorage := "";
     DevMode := false; DNSProvider := ""; DNSAPIToken := ""; DashboardEnabled := false;
     DashboardAddr := ""; AdminToken := ""; HTTPProxyAddr := ""; HTTPRedirectAddr := "";
     KeyStorePath := ""; AllowRegistration := None; AllowAnonymous := None; AnonTunnelTTL := 0 |}.

Record ClientConfig := { ServerAddr : string; Token : string }.

(** ** Defaults and environment *)

Definition or_string (d v : string) : string := if String.eqb v "" then d else v.
Definition or_int (d v : Z) : Z := if v =? 0 then d else v.

(** [defaults] *)
Definition defaults (c : ServerConfig) : ServerConfig :=
  {| ListenAddr := or_string ":4443" (ListenAddr c);
     Domain := Domain c; Email := Email c; Tokens := Tokens c;
     MaxTunnelsPerToken := or_int 10 (MaxTunnelsPerToken c);
     RateLimit := or_int 100 (RateLimit c);
     GlobalRateLimit := or_int 1000 (GlobalRateLimit c);
     TCPPortRange := if decide (TCPPortRange c = (0, 0)) then (10000, 65535) else TCPPortRange c;
     CertStorage := or_string "/var/lib/htn-tunnel/certs" (CertStorage c);
     DevMode := DevMode c; DNSProvider := DNSProvider c; DNSAPIToken := DNSAPIToken c;
     DashboardEnabled := DashboardEnabled c;
     DashboardAddr := or_string ":1807" (DashboardAddr c);
     AdminToken := AdminToken c;
     HTTPProxyAddr := or_string ":443" (HTTPProxyAddr c);
     HTTPRedirectAddr := or_string ":80" (HTTPRedirectAddr c);
     KeyStorePath := or_string "/etc/htn-tunnel/keys.json" (KeyStorePath c);
     AllowRegistration := Some (default true (AllowRegistration c));
     AllowAnonymous := Some (default true (AllowAnonymous c));
     AnonTunnelTTL := or_int 7200 (AnonTunnelTTL c) |}.

(** [splitCSV] *)
Definition splitCSV (s : string) : list string :=
  let parts := Split s "," in
  foldr (fun p out => let t := TrimSpace p in if String.eqb t "" then out else t :: out) [] parts.

(** [if v := os.Getenv(name); v != "" {...}] for a string, an integer, a
    boolean. *)
Definition env_string (v old : string) : string := if String.eqb v "" then old else v.
Definition env_int (v : string) (old : Z) : Z :=
  if String.eqb v "" then old else match Atoi v with Some n => n | None => old end.
Definition env_bool (v : string) (old : bool) : bool :=
  if String.eqb v "" then old else String.eqb v "true" || String.eqb v "1".

(** [applyEnv]; [env] is [os.Getenv]. *)
Definition applyEnv (env : string -> string) (c : ServerConfig) : ServerConfig :=
  {| ListenAddr := env_string (env "HTN_LISTEN_ADDR"%string) (ListenAddr c);
     Domain := env_string (env "HTN_DOMAIN"%string) (Domain c);
     Email := env_string (env "HTN_EMAIL"%string) (Email c);
     Tokens := if String.eqb (env "HTN_TOKENS"%string) "" then Tokens c
               else splitCSV (env "HTN_TOKENS"%string);
     MaxTunnelsPerToken := env_int (env "HTN_MAX_TUNNELS_PER_TOKEN"%string) (MaxTunnelsPerToken c);
     RateLimit := env_int (env "HTN_RATE_LIMIT"%string) (RateLimit c);
     GlobalRateLimit := env_int (env "HTN_GLOBAL_RATE_LIMIT"%string) (GlobalRateLimit c);
     TCPPortRange := (env_int (env "HTN_TCP_PORT_MIN"%string) (TCPPortRange c).1,
                      env_int (env "HTN_TCP_PORT_MAX"%string) (TCPPortRange c).2);
     CertStorage := env_string (env "HTN_CERT_STORAGE"%string) (CertStorage c);
     DevMode := env_bool (env "HTN_DEV_MODE"%string) (DevMode c);
     DNSProvider := env_string (env "HTN_DNS_PROVIDER"%string) (DNSProvider c);
     DNSAPIToken := env_string (env "HTN_DNS_API_TOKEN"%string) (DNSAPIToken c);
     DashboardEnabled := env_bool (env "HTN_DASHBOARD_ENABLED"%string) (DashboardEnabled c);
     DashboardAddr := env_string (env "HTN_DASHBOARD_ADDR"%string) (DashboardAddr c);
     AdminToken := env_string (env "HTN_ADMIN_TOKEN"%string) (AdminToken c);
     HTTPProxyAddr := HTTPProxyAddr c; HTTPRedirectAddr := HTTPRedirectAddr c;
     KeyStorePath := KeyStorePath c; AllowRegistration := AllowRegistration c;
     AllowAnonymous := AllowAnonymous c; AnonTunnelTTL := AnonTunnelTTL c |}.

(** ** Files *)

(** [os.ReadFile] *)
Inductive read_outcome := FileMissing | ReadFails (e : string) | FileData (data : string).

Class Yaml (C : Type) := {
  yaml_Marshal : C -> result string string;
  yaml_Unmarshal : string -> C -> result string C;
}.

(** What the program relies on: a marshalled configuration is read back as it
    was, and marshalling these records does not fail. *)
Class YamlLaws (C : Type) (zero : C) `{Yaml C} := {
  yaml_roundtrip c : exists data, yaml_Marshal c = Ok data /\ yaml_Unmarshal data zero = Ok c;
}.

Inductive config_error := ErrReadConfig (e : string) | ErrParseConfig (e : string)
  | ErrMarshalConfig (e : string) | ErrWriteConfig (e : string) | ErrConfigDir (e : string).

Section Loading.
Context `{Yaml ServerConfig} `{Yaml ClientConfig}.

(** [LoadServerConfig]; [file] is the outcome of reading [path]. *)
Definition LoadServerConfig (env : string -> string) (path : string) (file : read_outcome) :
    result config_error ServerConfig :=
  cfg ← (if String.eqb path "" then Ok zero_config
         else match file with
              | FileMissing => Ok zero_config
              | ReadFails e => Err (ErrReadConfig e)
              | FileData data => match yaml_Unmarshal data zero_config with
                                 | Err e => Err (ErrParseConfig e)
                                 | Ok cfg => Ok cfg
                                 end
              end);
  Ok (applyEnv env (defaults cfg)).

(** [configDir]; [home] is the outcome of [os.UserHomeDir], [mkdir] that of
    [os.MkdirAll]. *)
Definition configDir (home : result string string) (mkdir : option string) : result string string :=
  dir ← home;
  match mkdir with
  | Some e => Err ("create config dir: " +:+ e)%string
  | None => Ok (FilepathJoin [dir; ".htn-tunnel"])%string
  end.

Definition ClientConfigPath (home : result string string) (mkdir : option string) : result string string :=
  dir ← configDir home mkdir; Ok (FilepathJoin [dir; "config.yaml"])%string.

(** [LoadClientConfig]; [path] is the outcome of [ClientConfigPath]. *)
Definition LoadClientConfig (path : result string string) (file : read_outcome) :
    result config_error ClientConfig :=
  match path with
  | Err e => Err (ErrConfigDir e)
  | Ok _ =>
    match file with
    | FileMissing => Ok {| ServerAddr := ""; Token := "" |}
    | ReadFails e => Err (ErrReadConfig e)
    | FileData data => match yaml_Unmarshal data {| ServerAddr := ""; Token := "" |} with
                       | Err e => Err (ErrParseConfig e)
                       | Ok cfg => Ok cfg
                       end
    end
  end.

(** [SaveClientConfig]: the new content of the file, or an error; [written] is
    the outcome of [os.WriteFile]. *)
Definition SaveClientConfig (path : result string string) (written : option string) (cfg : ClientConfig) :
    result config_error read_outcome :=
  match path with
  | Err e => Err (ErrConfigDir e)
  | Ok _ =>
    match yaml_Marshal cfg with
    | Err e => Err (ErrMarshalConfig e)
    | Ok data => match written with None => Ok (FileData data) | Some e => Err (ErrWriteConfig e) end
    end
  end.
End Loading.

(** ** The settings of the admin dashboard *)

(** The dynamic values of [map[string]any]: what [encoding/json] produces, the
    two integer types that [toInt] also accepts, and the port range. *)
Inductive any :=
  | AnyNil
  | AnyString (s : string)
  | AnyBool (b : bool)
  | AnyFloat64 (f : spec_float)
  | AnyInt (n : Z)
  | AnyInt64 (n : Z)
  | AnyPorts (p : Z * Z)
  | AnyOther.

(** [int(n)] of a float64: truncation; the language leaves the result open when
    it does not fit, so that case is a parameter. *)
Class FloatOverflow := float_overflow : spec_float -> Z.

Definition float_trunc (f : spec_float) : option Z :=
  match f with
  | S754_zero _ => Some 0
  | S754_finite s m e =>
      let v := if 0 <=? e then Zpos m * 2 ^ e else Z.quot (Zpos m) (2 ^ (- e)) in
      Some (if s then - v else v)
  | S754_infinity _ | S754_nan => None
  end.

Definition float_to_int `{FloatOverflow} (f : spec_float) : Z :=
  match float_trunc f with
  | Some n => if decide (in_int64 n) then n else float_overflow f
  | None => float_overflow f
  end.

(** [toInt] *)
Definition toInt `{FloatOverflow} (v : any) : option Z :=
  match v with
  | AnyFloat64 n => Some (float_to_int n)
  | AnyInt n => Some n
  | AnyInt64 n => Some n
  | _ => None
  end.

Record ConfigProvider := {
  cp_cfg : ServerConfig;
  cp_filePath : string;
  cp_file : read_outcome;
}.

(** [GetEditableConfig] *)
Definition GetEditableConfig (p : ConfigProvider) : gmap string any :=
  let c := cp_cfg p in
  let allowReg := match AllowRegistration c with Some b => b | None => true end in
  list_to_map
    [("domain", AnyString (Domain c));
     ("listen_addr", AnyString (ListenAddr c));
     ("http_proxy_addr", AnyString (HTTPProxyAddr c));
     ("http_redirect_addr", AnyString (HTTPRedirectAddr c));
     ("dashboard_addr", AnyString (DashboardAddr c));
     ("max_tunnels_per_token", AnyInt (MaxTunnelsPerToken c));
     ("rate_limit", AnyInt (RateLimit c));
     ("global_rate_limit", AnyInt (GlobalRateLimit c));
     ("tcp_port_range", AnyPorts (TCPPortRange c));
     ("allow_registration", AnyBool allowReg);
     ("dashboard_enabled", AnyBool (DashboardEnabled c));
     ("dev_mode", AnyBool (DevMode c))]%string.

(** A configuration with other values of the six editable settings. *)
Definition with_editable (domain : string) (maxTunnels rate globalRate : Z)
    (allowReg : option bool) (dashboard : bool) (c : ServerConfig) : ServerConfig :=
  {| ListenAddr := ListenAddr c; Domain := domain; Email := Email c; Tokens := Tokens c;
     MaxTunnelsPerToken := maxTunnels; RateLimit := rate; GlobalRateLimit := globalRate;
     TCPPortRange := TCPPortRange c; CertStorage := CertStorage c; DevMode := DevMode c;
     DNSProvider := DNSProvider c; DNSAPIToken := DNSAPIToken c; DashboardEnabled := dashboard;
     DashboardAddr := DashboardAddr c; AdminToken := AdminToken c; HTTPProxyAddr := HTTPProxyAddr c;
     HTTPRedirectAddr := HTTPRedirectAddr c; KeyStorePath := KeyStorePath c;
     AllowRegistration := allowReg; AllowAnonymous := AllowAnonymous c; AnonTunnelTTL := AnonTunnelTTL c |}.

Definition any_string (v : any) : option string := match v with AnyString s => Some s | _ => None end.
Definition any_bool (v : any) : option bool := match v with AnyBool b => Some b | _ => None end.

(** The switch of [UpdateConfig] on one entry. *)
Definition update_one `{FloatOverflow} (c : ServerConfig) (kv : string * any) : ServerConfig :=
  let '(key, val) := kv in
  let d := Domain c in let m := MaxTunnelsPerToken c in let r := RateLimit c in
  let g := GlobalRateLimit c in let a := AllowRegistration c in let e := DashboardEnabled c in
  if String.eqb key "domain" then
    match any_string val with Some s => with_editable s m r g a e c | None => c end
  else if String.eqb key "max_tunnels_per_token" then
    match toInt val with Some n => with_editable d n r g a e c | None => c end
  else if String.eqb key "rate_limit" then
    match toInt val with Some n => with_editable d m n g a e c | None => c end
  else if String.eqb key "global_rate_limit" then
    match toInt val with Some n => with_editable d m r n a e c | None => c end
  else if String.eqb key "allow_registration" then
    match any_bool val with Some b => with_editable d m r g (Some b) e c | None => c end
  else if String.eqb key "dashboard_enabled" then
    match any_bool val with Some b => with_editable d m r g a b c | None => c end
  else c.

(** [save]; [written] is the outcome of [os.WriteFile]: what a failed write
    leaves behind, and the error. *)
Definition save `{Yaml ServerConfig} (written : option (read_outcome * string)) (p : ConfigProvider) :
    ConfigProvider * option config_error :=
  if String.eqb (cp_filePath p) "" then (p, None)
  else match yaml_Marshal (cp_cfg p) with
       | Err e => (p, Some (ErrMarshalConfig e))
       | Ok data =>
         let with_file f := {| cp_cfg := cp_cfg p; cp_filePath := cp_filePath p; cp_file := f |} in
         match written with
         | None => (with_file (FileData data), None)
         | Some (residue, e) => (with_file residue, Some (ErrWriteConfig e))
         end
       end.

(** [UpdateConfig] *)
Definition UpdateConfig `{FloatOverflow} `{Yaml ServerConfig} `{!RangeOrder string}
    (written : option (read_outcome * string)) (updates : gmap string any) (p : ConfigProvider) :
    ConfigProvider * option config_error :=
  let cfg := foldl update_one (cp_cfg p) (range updates) in
  save written {| cp_cfg := cfg; cp_filePath := cp_filePath p; cp_file := cp_file p |}.

(** ** Loading *)

(** The value a setting gets: the environment wins over the file, the file
    over the default. *)
Definition layered (v : string) (file d : string) : string :=
  if String.eqb v "" then if String.eqb file "" then d else file else v.

Lemma env_or_string v d s : env_string v (or_string d s) = layered v s d.
Proof. unfold env_string, or_string, layered. done. Qed.

Lemma defaults_idemp c : defaults (defaults c) = defaults c.
Proof.
  unfold defaults. cbn [ListenAddr Domain Email Tokens MaxTunnelsPerToken RateLimit GlobalRateLimit
    TCPPortRange CertStorage DevMode DNSProvider DNSAPIToken DashboardEnabled DashboardAddr AdminToken
    HTTPProxyAddr HTTPRedirectAddr KeyStorePath AllowRegistration AllowAnonymous AnonTunnelTTL].
  assert (forall d s, d <> ""%string -> or_string d (or_string d s) = or_string d s) as Hs.
  { intros d s Hd. unfold or_string. destruct (String.eqb s "") eqn:E; [|by rewrite E].
    by destruct (String.eqb_spec d ""). }
  assert (forall d n, d <> 0 -> or_int d (or_int d n) = or_int d n) as Hi.
  { intros d n Hd. unfold or_int. destruct (n =? 0) eqn:E; [|by rewrite E].
    by destruct (Z.eqb_spec d 0). }
  rewrite !Hs, !Hi by done. do 2 f_equal. 
  destruct (decide (TCPPortRange c = (0, 0))); [done|]. by rewrite decide_False.
Qed.

(** With no environment, what [LoadServerConfig] returns is complete: no
    setting that has a default is left at its zero value. *)
Definition complete (c : ServerConfig) : Prop :=
  ListenAddr c <> ""%string /\ MaxTunnelsPerToken c <> 0 /\ RateLimit c <> 0 /\ GlobalRateLimit c <> 0 /\
  TCPPortRange c <> (0, 0) /\ CertStorage c <> ""%string /\ DashboardAddr c <> ""%string /\
  HTTPProxyAddr c <> ""%string /\ HTTPRedirectAddr c <> ""%string /\ KeyStorePath c <> ""%string /\
  AllowRegistration c <> None /\ AllowAnonymous c <> None /\ AnonTunnelTTL c <> 0.

Lemma defaults_complete c : complete (defaults c).
Proof.
  assert (forall d s, d <> ""%string -> or_string d s <> ""%string) as Hs.
  { intros d s Hd. unfold or_string. by destruct (String.eqb_spec s ""). }
  assert (forall d n, d <> 0 -> or_int d n <> 0) as Hi.
  { intros d n Hd. unfold or_int. by destruct (Z.eqb_spec n 0). }
  unfold complete. split_and!; simpl; try done; try (by apply Hs); try (by apply Hi).
  by case_decide.
Qed.

Lemma complete_defaults c : complete c -> defaults c = c.
Proof.
  intros (H1 & H2 & H3 & H4 & H5 & H6 & H7 & H8 & H9 & H10 & H11 & H12 & H13).
  assert (forall d s, s <> ""%string -> or_string d s = s) as Hs.
  { intros d s Hd. unfold or_string. by destruct (String.eqb_spec s ""). }
  assert (forall d n, n <> 0 -> or_int d n = n) as Hi.
  { intros d n Hd. unfold or_int. by destruct (Z.eqb_spec n 0). }
  unfold defaults. rewrite !Hs, !Hi, decide_False by done.
  destruct c as [??????????????????[?|] [?|]?]; done.
Qed.

Lemma applyEnv_unset c : applyEnv (fun _ => ""%string) c = c.
Proof. destruct c as [???????[??]?????????????]. reflexivity. Qed.

(** ** Comma-separated lists *)

Definition no_comma (s : string) : Prop := IndexByte s "," = None.
Definition clean (t : string) : Prop := t <> ""%string /\ TrimSpace t = t /\ no_comma t.

Lemma Split_go_no_comma acc s : no_comma s -> Split_go acc s "," = [acc +:+ s].
Proof.
  unfold no_comma. revert acc. induction s as [|a s IH]; intros acc Hs; simpl in *.
  - by rewrite string_app_nil_r.
  - destruct (Ascii.eqb a ","); [done|]. destruct (IndexByte s ","); [done|].
    rewrite IH by done. by rewrite <- string_app_assoc.
Qed.

Lemma Split_go_sep acc a rest :
  no_comma a -> Split_go acc (a +:+ "," +:+ rest) "," = (acc +:+ a) :: Split_go "" rest ",".
Proof.
  unfold no_comma. revert acc. induction a as [|c a IH]; intros acc Ha; simpl in *.
  - by rewrite string_app_nil_r.
  - destruct (Ascii.eqb c ","); [done|]. destruct (IndexByte a ","); [done|].
    rewrite IH by done. by rewrite <- string_app_assoc.
Qed.

Lemma Split_pieces acc s : no_comma acc -> Forall no_comma (Split_go acc s ",").
Proof.
  unfold no_comma. revert acc. induction s as [|a s IH]; intros acc Ha; simpl.
  - by repeat constructor.
  - destruct (Ascii.eqb a ",") eqn:E.
    + constructor; [done|]. by apply IH.
    + apply IH. clear IH. induction acc as [|b acc IHa]; simpl in *; [by rewrite E|].
      destruct (Ascii.eqb b ","); [done|]. destruct (IndexByte acc ","); [done|]. by rewrite IHa.
Qed.

Lemma no_comma_trim s : no_comma s -> no_comma (TrimSpace s).
Proof.
  assert (forall s, no_comma s -> no_comma (trim_left s)) as Hl.
  { unfold no_comma. intros t. induction t as [|a t IH]; simpl; intros Ht; [done|].
    destruct (is_space a); [|done]. apply IH.
    destruct (Ascii.eqb a ","); [done|]. by destruct (IndexByte t ","). }
  assert (forall s, no_comma s -> no_comma (trim_right s)) as Hr.
  { unfold no_comma. intros t. induction t as [|a t IH]; intros Ht; [done|]. simpl in *.
    destruct (Ascii.eqb a ",") eqn:E; [done|].
    destruct (IndexByte t ",") eqn:F; [done|]. specialize (IH eq_refl).
    destruct (trim_right t); [destruct (is_space a); simpl; by rewrite ?E|].
    cbn [IndexByte] in IH |- *. rewrite E. by rewrite IH. }
  intros Hs. unfold TrimSpace. auto.
Qed.

Lemma TrimSpace_idemp s : TrimSpace (TrimSpace s) = TrimSpace s.
Proof.
  assert (forall t, trim_right (trim_right t) = trim_right t) as Hr.
  { intros t. induction t as [|a t IH]; simpl; [done|].
    destruct (trim_right t) eqn:E; [|cbn [trim_right] in *; by rewrite IH].
    destruct (is_space a) eqn:F; simpl; by rewrite ?F. }
  assert (forall t, trim_left (trim_right (trim_left t)) = trim_right (trim_left t)) as Hl.
  { intros t. induction t as [|a t IH]; simpl; [done|].
    destruct (is_space a) eqn:F; [done|]. simpl.
    destruct (trim_right t); rewrite ?F; simpl; by rewrite F. }
  unfold TrimSpace. by rewrite Hl, Hr.
Qed.

(** A comma-separated list yields only clean tokens (non-empty, trimmed,
    without a comma), and every list of clean tokens is read back from its
    comma-separated form. *)
Theorem splitCSV_roundtrip :
  (forall s, Forall clean (splitCSV s)) /\
  (forall l, Forall clean l -> splitCSV (Join l ",") = l).
Proof.
  split.
  - intros s. unfold splitCSV, Split. pose proof (Split_pieces "" s eq_refl) as Hp.
    induction Hp as [|p l Hp Hl IH]; simpl; [constructor|].
    destruct (String.eqb_spec (TrimSpace p) ""); [done|]. constructor; [|done].
    split_and!; [done | apply TrimSpace_idemp | by apply no_comma_trim].
  - intros l Hl. unfold splitCSV, Split.
    induction Hl as [|t l (Hne & Ht & Hc) Hl IH]; [done|].
    apply String.eqb_neq in Hne. destruct l as [|u l].
    + simpl Join. rewrite Split_go_no_comma by done. simpl. by rewrite Ht, Hne.
    + change (Join (t :: u :: l) ",") with (t +:+ "," +:+ Join (u :: l) ",").
      rewrite Split_go_sep by done. cbn [foldr]. rewrite IH. simpl. by rewrite Ht, Hne.
Qed.

(** ** Updates from the dashboard *)

(** Case analysis on the name of the setting that an update is for. *)
Ltac setting_cases key :=
  destruct (String.eqb_spec key "domain") as [->|?]; [reflexivity|];
  destruct (String.eqb_spec key "max_tunnels_per_token") as [->|?]; [reflexivity|];
  destruct (String.eqb_spec key "rate_limit") as [->|?]; [reflexivity|];
  destruct (String.eqb_spec key "global_rate_limit") as [->|?]; [reflexivity|];
  destruct (String.eqb_spec key "allow_registration") as [->|?]; [reflexivity|];
  destruct (String.eqb_spec key "dashboard_enabled") as [->|?]; reflexivity.

Section Updating.
Context `{FloatOverflow} `{!RangeOrder string}.

(** One setting under a sequence of updates with distinct keys. *)
Lemma update_field {A} (f : ServerConfig -> A) (k : string) (dec : any -> option A) :
  (forall c key val, f (update_one c (key, val)) = if String.eqb key k then default (f c) (dec val) else f c) ->
  forall m c, f (foldl update_one c (range m)) = default (f c) (m !! k ≫= dec).
Proof.
  intros Hf m c.
  assert (forall l, NoDup l.*1 -> f (foldl update_one c l) =
      default (f c) (list_to_map (M := gmap string any) l !! k ≫= dec)) as Hl.
  { intros l. revert c. induction l as [|[key val] l IH]; intros c Hnd; [done|].
    apply NoDup_cons in Hnd as [Hni Hnd]. cbn [foldl]. rewrite IH, Hf by done. simpl list_to_map.
    destruct (String.eqb_spec key k) as [->|Hne].
    - rewrite lookup_insert_eq. rewrite not_elem_of_list_to_map_1 by done. done.
    - by rewrite lookup_insert_ne. }
  rewrite Hl by apply NoDup_fst_range. do 2 f_equal.
  rewrite (list_to_map_proper _ (map_to_list m)); [|apply NoDup_fst_range | apply range_perm].
  by rewrite list_to_map_to_list.
Qed.

Lemma update_other {A} (f : ServerConfig -> A) :
  (forall d m r g a e c, f (with_editable d m r g a e c) = f c) ->
  forall l c, f (foldl update_one c l) = f c.
Proof.
  intros Hf l. induction l as [|[key val] l IH]; intros c; [done|]. simpl. rewrite IH. unfold update_one.
  destruct (any_string val), (toInt val), (any_bool val);
  repeat (destruct (String.eqb key _); [by rewrite ?Hf|]); done.
Qed.

(** The configuration that a set of updates asks for. *)
Definition updated (updates : gmap string any) (c : ServerConfig) : ServerConfig :=
  with_editable
    (default (Domain c) (updates !! "domain"%string ≫= any_string))
    (default (MaxTunnelsPerToken c) (updates !! "max_tunnels_per_token"%string ≫= toInt))
    (default (RateLimit c) (updates !! "rate_limit"%string ≫= toInt))
    (default (GlobalRateLimit c) (updates !! "global_rate_limit"%string ≫= toInt))
    (match updates !! "allow_registration"%string ≫= any_bool with
     | Some b => Some b | None => AllowRegistration c end)
    (default (DashboardEnabled c) (updates !! "dashboard_enabled"%string ≫= any_bool))
    c.

Lemma foldl_updated updates c : foldl update_one c (range updates) = updated updates c.
Proof.
  set (c' := foldl update_one c (range updates)).
  assert (c' = with_editable (Domain c') (MaxTunnelsPerToken c') (RateLimit c') (GlobalRateLimit c')
                 (AllowRegistration c') (DashboardEnabled c') c) as ->.
  { rewrite <- (update_other (with_editable (Domain c') (MaxTunnelsPerToken c') (RateLimit c')
      (GlobalRateLimit c') (AllowRegistration c') (DashboardEnabled c')) ltac:(done) (range updates) c).
    fold c'. by destruct c'. }
  unfold updated. subst c'.
  rewrite (update_field Domain "domain" any_string),
    (update_field MaxTunnelsPerToken "max_tunnels_per_token" toInt),
    (update_field RateLimit "rate_limit" toInt),
    (update_field GlobalRateLimit "global_rate_limit" toInt),
    (update_field AllowRegistration "allow_registration" (fun v => Some <$> any_bool v)),
    (update_field DashboardEnabled "dashboard_enabled" any_bool);
  [|intros c1 key val; unfold update_one;
    destruct (any_string val), (toInt val), (any_bool val); setting_cases key..].
  f_equal. by destruct (updates !! "allow_registration"%string) as [[]|].
Qed.

(** C34: whatever the order in which the map of updates is visited,
    [UpdateConfig] sets exactly the six whitelisted settings that are present
    with a value of the right type, keeps every other setting (secrets, addresses,
    ports), and reports exactly the failures of marshalling and writing; the
    change stays in memory when the write fails. *)
Theorem UpdateConfig_spec `{Yaml ServerConfig} written updates p p' err :
  UpdateConfig written updates p = (p', err) ->
  cp_cfg p' = updated updates (cp_cfg p) /\ cp_filePath p' = cp_filePath p /\
  (cp_filePath p = ""%string -> err = None /\ cp_file p' = cp_file p) /\
  (err = None -> cp_filePath p <> ""%string ->
     exists data, yaml_Marshal (updated updates (cp_cfg p)) = Ok data /\ cp_file p' = FileData data).
Proof.
  unfold UpdateConfig, save. rewrite foldl_updated. simpl.
  destruct (String.eqb_spec (cp_filePath p) ""); [intros [= <- <-]; by split_and!|].
  destruct (yaml_Marshal (updated updates (cp_cfg p))) as [data|e] eqn:Hm.
  - destruct written as [[residue e]|]; intros [= <- <-]; split_and!; try done; eauto.
  - intros [= <- <-]. by split_and!.
Qed.

(** An update that was saved without error survives a restart: loading the
    file again with an empty environment gives the updated configuration, in
    which only settings left at a zero value become their defaults. *)
Theorem update_survives_restart `{YamlLaws ServerConfig zero_config} written updates p p' :
  UpdateConfig written updates p = (p', None) -> cp_filePath p <> ""%string ->
  LoadServerConfig (fun _ => ""%string) (cp_filePath p) (cp_file p') = Ok (defaults (updated updates (cp_cfg p))) /\
  (complete (updated updates (cp_cfg p)) ->
   LoadServerConfig (fun _ => ""%string) (cp_filePath p) (cp_file p') = Ok (cp_cfg p')).
Proof.
  unfold UpdateConfig, save, LoadServerConfig. rewrite foldl_updated. simpl. intros Hu Hp.
  apply String.eqb_neq in Hp. rewrite Hp in *.
  destruct (yaml_roundtrip (updated updates (cp_cfg p))) as (data & Hm & Hr).
  rewrite Hm in Hu. destruct written as [[]|]; [done|]. injection Hu as <-.
  simpl. rewrite Hr. simpl. rewrite applyEnv_unset. split; [done|].
  intros Hc. by rewrite complete_defaults.
Qed.
End Updating.

(** The client's file: what [SaveClientConfig] wrote is what
    [LoadClientConfig] reads. *)
Lemma client_config_roundtrip `{YamlLaws ClientConfig {| ServerAddr := ""; Token := "" |}} path cfg file :
  SaveClientConfig path None cfg = Ok file -> LoadClientConfig path file = Ok cfg.
Proof.
  unfold SaveClientConfig, LoadClientConfig. destruct path as [path|e]; [|done].
  destruct (yaml_roundtrip cfg) as (data & Hm & Hr). rewrite Hm. intros [= <-]. by rewrite Hr.
Qed.

(** ** The properties at a concrete configuration *)

Module Examples.
Example client_path :
  ClientConfigPath (Ok "/home/u"%string) None = Ok "/home/u/.htn-tunnel/config.yaml"%string.
Proof. vm_compute. reflexivity. Qed.

#[local] Instance order_string : RangeOrder string := canonical_order string.
#[local] Instance no_overflow : FloatOverflow := fun _ => - 2 ^ 63.

(** A marshaller for any countable type: the bits of its code. *)
Fixpoint bits (p : positive) : string :=
  match p with xH => EmptyString | xO p => String "0" (bits p) | xI p => String "1" (bits p) end.
Fixpoint unbits (s : string) : positive :=
  match s with
  | EmptyString => xH
  | String a s => if Ascii.eqb a "0" then xO (unbits s) else xI (unbits s)
  end.

Lemma unbits_bits p : unbits (bits p) = p.
Proof. induction p; simpl; by f_equal. Qed.

#[export] Instance ServerConfig_eq_dec : EqDecision ServerConfig.
Proof. solve_decision. Defined.

Definition flatten (c : ServerConfig) :=
  ((ListenAddr c, Domain c, Email c, Tokens c, MaxTunnelsPerToken c, RateLimit c, GlobalRateLimit c),
   (TCPPortRange c, CertStorage c, DevMode c, DNSProvider c, DNSAPIToken c, DashboardEnabled c, DashboardAddr c),
   (AdminToken c, HTTPProxyAddr c, HTTPRedirectAddr c, KeyStorePath c, AllowRegistration c, AllowAnonymous c,
    AnonTunnelTTL c)).

Lemma flatten_inj c d : flatten c = flatten d -> c = d.
Proof. destruct c, d. unfold flatten. simpl. intros. by simplify_eq. Qed.

#[export] Instance ServerConfig_countable : Countable ServerConfig.
Proof.
  apply (inj_countable flatten (fun '((a1, a2, a3, a4, a5, a6, a7), (b1, b2, b3, b4, b5, b6, b7),
      (c1, c2, c3, c4, c5, c6, c7)) => Some (Build_ServerConfig a1 a2 a3 a4 a5 a6 a7 b1 b2 b3 b4 b5 b6 b7
      c1 c2 c3 c4 c5 c6 c7))).
  intros []. reflexivity.
Defined.

#[local] Instance bits_yaml : Yaml ServerConfig :=
  {| yaml_Marshal c := Ok (bits (encode c));
     yaml_Unmarshal s _ := match decode (unbits s) with Some c => Ok c | None => Err "bad"%string end |}.

#[local] Instance bits_yaml_laws : YamlLaws ServerConfig zero_config.
Proof. split. intros c. eexists. split; [done|]. simpl. by rewrite unbits_bits, decode_encode. Qed.

Definition p0 : ConfigProvider :=
  {| cp_cfg := defaults zero_config; cp_filePath := "server.yaml"; cp_file := FileMissing |}.
Definition updates0 : gmap string any :=
  <["rate_limit" := AnyInt 50]> (<["tokens" := AnyString "stolen"]> (<["domain" := AnyBool true]> ∅))%string.

Lemma UpdateConfig_spec_witness :
  let p' := (UpdateConfig None updates0 p0).1 in
  RateLimit (cp_cfg p') = 50 /\ Tokens (cp_cfg p') = [] /\ cp_cfg p' = updated updates0 (cp_cfg p0).
Proof.
  split; [vm_compute; reflexivity|]. split; [vm_compute; reflexivity|].
  apply (UpdateConfig_spec None updates0 p0 _ None). reflexivity.
Defined.

Lemma update_survives_restart_witness :
  LoadServerConfig (fun _ => ""%string) "server.yaml" (cp_file (UpdateConfig None updates0 p0).1) =
    Ok (defaults (updated updates0 (cp_cfg p0))).
Proof.
  refine (proj1 (update_survives_restart None updates0 p0 (UpdateConfig None updates0 p0).1 _ _));
    [reflexivity | discriminate].
Defined.
End Examples.
