(* ===== verification/Server.v ===== *)
(** * The relay server (internal/server/server.go, tcp_proxy.go)

    The handlers of the control plane as programs over the atomic operations of
    the server's components: authentication and registration of a connection,
    the messages of a control session, tunnel requests, and the clean-up after a
    session.  [exec] gives each operation its effect on the server's state; how
    the goroutines of many connections interleave is in Sessions.v. *)

From S2P Require Import Prelude Prog GoStrings Wire Subdomain TunnelManager Quota Auth KeyStore Config.
Local Open Scope Z_scope.

(** ** Messages and operations *)

(** Where an encoder writes to: a connection before it is authenticated, or the
    control stream of a session. *)
Inductive peer := ToConn | ToSession (y : session_id).

Inductive outmsg :=
  | OutAuthResponse (m : AuthResponseMsg)
  | OutRegisterResp (m : RegisterResponseMsg)
  | OutHeartbeatAck
  | OutAccountInfoResp (m : AccountInfoRespMsg)
  | OutTunnelResp (m : TunnelResponseMsg).

Inductive srvE : Type -> Type :=
  | EIPAllow (ip : string) : srvE bool
  | EReadFirst : srvE (result decode_error (MsgType * list byte))
  | ESend (to : peer) (m : outmsg) : srvE bool
  | EConfig : srvE ServerConfig
  | ECreateKey (name : string) (subdomains : list string) (maxTunnels : Z) : srvE (result key_error string)
  | EKeyValidate (key : string) : srvE bool
  | ETokenValidate (token : string) : srvE bool
  | EGetKey (key : string) : srvE (option APIKey)
  | EKeyIncrement (key : string) : srvE (option quota_error)
  | EKeyDecrement (key : string) : srvE unit
  | ETokenIncrement (token : string) : srvE (option quota_error)
  | ETokenDecrement (token : string) : srvE unit
  | ERateAllow (token : string) : srvE bool
  | ERandomHex (n : nat) : srvE string
  | ERandomSubdomain : srvE string
  | ENew (ts : TunnelSession) : srvE loc
  | EDeref (l : loc) : srvE TunnelSession
  | ESetSubdomain (l : loc) (sub : string) : srvE unit
  | ETunnelsForAnon (token : string) : srvE (list loc)
  | ERegisterHTTP (sub : string) (l : loc) : srvE (option register_error)
  | EDrawPort : srvE (option Z)
  | EPortTaken (port : Z) : srvE bool
  | EListen (port : Z) : srvE (option listener_id)
  | ESetTCP (l : loc) (port : Z) (ln : listener_id) : srvE unit
  | ECommitTCP (port : Z) (l : loc) : srvE bool
  | ECloseListener (ln : listener_id) : srvE unit
  | EUnregisterHTTP (sub : string) : srvE unit
  | EUnregisterTCP (port : Z) : srvE unit
  | ESessionTunnels (y : session_id) : srvE (list loc)
  | EReserveHTTP (sub : string) (ttl : Z) : srvE unit.

Definition P : Type -> Type := prog srvE.

(** The JSON of the messages a client sends. *)
Class ClientJSON := {
  unmarshal_Auth : list byte -> result string AuthMsg;
  unmarshal_Register : list byte -> result string RegisterMsg;
  unmarshal_TunnelRequest : list byte -> result string TunnelRequestMsg;
}.

(** ** Error texts: [err.Error()] *)

Definition subdomain_error_text (e : subdomain_error) : string :=
  match e with
  | ErrLength sub => "subdomain " +:+ Quote sub +:+ ": length must be 3-63 chars"
  | ErrFormat sub => "subdomain " +:+ Quote sub +:+
      ": must be lowercase alphanumeric and hyphens, cannot start/end with hyphen"
  | ErrReserved sub => "subdomain " +:+ Quote sub +:+ " is reserved"
  end.

Definition register_error_text (e : register_error) : string :=
  match e with
  | ErrInvalid e => subdomain_error_text e
  | ErrInUse sub => "subdomain " +:+ Quote sub +:+ " is already in use"
  end.

Definition quota_error_text (unknown : string) (e : quota_error) : string :=
  match e with
  | ErrUnknownToken => unknown
  | ErrLimitReached c m => "tunnel limit reached (" +:+ Itoa c +:+ "/" +:+ Itoa m +:+ ")"
  end.

Definition key_error_text (e : key_error) : string :=
  match e with
  | ErrNameRequired => "name is required"
  | ErrSubdomain e => subdomain_error_text e
  | ErrOwned sub => "subdomain " +:+ Quote sub +:+ " is already owned"
  | ErrPersist e => "persist key: " +:+ e
  | ErrKeyNotFound => "key not found"
  | ErrInvalidKey => "invalid key"
  | ErrSave e => e
  end.

(** ** Small functions *)

(** [extractIP] *)
Definition extractIP (addr : string) : string :=
  match SplitHostPort addr with Some (ip, _) => ip | None => addr end.

(** [randomHex(n)] for the bytes read from [crypto/rand] *)
Definition randomHex (b : list byte) : string := hex_EncodeToString b.

Definition sessionIdleTimeout : Z := 90 * Second.
Definition reservationTTL : Z := 60 * Second.
Definition authTimeout : Z := 5 * Second.

Definition send (to : peer) (m : outmsg) : P bool := trigger (ESend to m).

(** [sendTunnelError]; the result of [Encode] is dropped. *)
Definition sendTunnelError (y : session_id) (msg : string) : P unit :=
  _ ← send (ToSession y) (OutTunnelResp
    {| tr_Success := false; tr_URL := ""; tr_RemotePort := 0; tr_Message := msg |});
  mret tt.

(** ** Tunnel requests *)

(** [decrementTunnels] *)
Definition decrementTunnels (token : string) : P unit :=
  if is_anon token then mret tt
  else if IsAPIKey token then trigger (EKeyDecrement token)
  else trigger (ETokenDecrement token).

(** The ten attempts at a random subdomain. *)
Fixpoint register_random (attempts : nat) (l : loc) : P (option string) :=
  match attempts with
  | O => mret None
  | S attempts =>
      subdomain ← trigger ERandomSubdomain;
      _ ← trigger (ESetSubdomain l subdomain);
      err ← trigger (ERegisterHTTP subdomain l);
      match err with
      | None => mret (Some subdomain)
      | Some _ => register_random attempts l
      end
  end.

Definition registered (y : session_id) (subdomain : string) : P unit :=
  cfg ← trigger EConfig;
  _ ← send (ToSession y) (OutTunnelResp
    {| tr_Success := true; tr_URL := "https://" +:+ subdomain +:+ "." +:+ Domain cfg;
       tr_RemotePort := 0; tr_Message := "" |});
  mret tt.

(** [registerHTTPTunnel] *)
Definition registerHTTPTunnel (l : loc) (req : TunnelRequestMsg) (y : session_id) (token : string) : P unit :=
  let subdomain := tq_Subdomain req in
  if String.eqb subdomain "" then
    r ← register_random 10 l;
    match r with
    | Some subdomain => registered y subdomain
    | None =>
        _ ← decrementTunnels token;
        sendTunnelError y "could not allocate subdomain"
    end
  else
    _ ← trigger (ESetSubdomain l subdomain);
    err ← trigger (ERegisterHTTP subdomain l);
    match err with
    | Some err =>
        _ ← decrementTunnels token;
        sendTunnelError y (register_error_text err)
    | None => registered y subdomain
    end.

(** [RegisterTCP] with its two critical sections. *)
Fixpoint RegisterTCP_prog (attempts : nat) (l : loc) : P (option Z) :=
  match attempts with
  | O => mret None
  | S attempts =>
      draw ← trigger EDrawPort;
      match draw with
      | None => Crash
      | Some port =>
          taken ← trigger (EPortTaken port);
          if taken : bool then RegisterTCP_prog attempts l
          else
            ln ← trigger (EListen port);
            match ln with
            | None => RegisterTCP_prog attempts l
            | Some ln =>
                _ ← trigger (ESetTCP l port ln);
                ok ← trigger (ECommitTCP port l);
                if ok : bool then mret (Some port)
                else _ ← trigger (ECloseListener ln); RegisterTCP_prog attempts l
            end
      end
  end.

(** [StartTCPTunnel]: the accept loop it starts is outside the model. *)
Definition StartTCPTunnel (l : loc) : P (option Z) := RegisterTCP_prog maxAttempts l.

(** [StopTCPTunnel] *)
Definition StopTCPTunnel (port : Z) : P unit := trigger (EUnregisterTCP port).

(** [registerTCPTunnel]; [NewServer] always sets [tcpProxy]. *)
Definition registerTCPTunnel (tcpProxy : bool) (l : loc) (y : session_id) (token : string) : P unit :=
  if negb tcpProxy then
    _ ← decrementTunnels token;
    sendTunnelError y "TCP tunnels not available"
  else
    r ← StartTCPTunnel l;
    match r with
    | None =>
        _ ← decrementTunnels token;
        sendTunnelError y ("allocate TCP port: unable to allocate TCP port after " +:+
                           Itoa (Z.of_nat maxAttempts) +:+ " attempts")
    | Some port =>
        _ ← send (ToSession y) (OutTunnelResp
          {| tr_Success := true; tr_URL := ""; tr_RemotePort := port; tr_Message := "" |});
        mret tt
    end.

(** The object that [handleTunnelRequest] creates. *)
Definition new_tunnel (id token : string) (req : TunnelRequestMsg) (y : session_id) : TunnelSession := {|
  ts_ID := id; ts_Token := token; ts_Type := tq_Type req; ts_Subdomain := ""; ts_Port := 0;
  ts_LocalPort := tq_LocalPort req; ts_Session := Some y; ts_Listener := None; ts_CreatedAt := 0;
  ts_BytesIn := 0; ts_BytesOut := 0; ts_Reserved := false; ts_ReservedUntil := 0
|}.

(** The part of [handleTunnelRequest] after its checks. *)
Definition create_tunnel (tcpProxy : bool) (y : session_id) (token : string) (req : TunnelRequestMsg) : P unit :=
  id ← trigger (ERandomHex 8);
  l ← trigger (ENew (new_tunnel id token req y));
  if String.eqb (tq_Type req) TunnelHTTP then registerHTTPTunnel l req y token
  else if String.eqb (tq_Type req) TunnelTCP then registerTCPTunnel tcpProxy l y token
  else
    _ ← decrementTunnels token;
    sendTunnelError y ("unknown tunnel type " +:+ Quote (tq_Type req)).

(** The rate limit, the tunnel count, the tunnel. *)
Definition admit_tunnel (tcpProxy : bool) (y : session_id) (token : string) (req : TunnelRequestMsg) : P unit :=
  allowed ← trigger (ERateAllow token);
  if negb allowed then sendTunnelError y "rate limit exceeded"
  else if is_anon token then create_tunnel tcpProxy y token req
  else if IsAPIKey token then
    err ← trigger (EKeyIncrement token);
    match err with
    | Some e => sendTunnelError y (quota_error_text "unknown key" e)
    | None => create_tunnel tcpProxy y token req
    end
  else
    err ← trigger (ETokenIncrement token);
    match err with
    | Some e => sendTunnelError y (quota_error_text "unknown token" e)
    | None => create_tunnel tcpProxy y token req
    end.

(** [handleTunnelRequest] *)
Definition handleTunnelRequest (tcpProxy : bool) (y : session_id) (token : string) (req : TunnelRequestMsg) : P unit :=
  if (tq_LocalPort req <? 1) || (65535 <? tq_LocalPort req) then
    sendTunnelError y ("invalid local_port " +:+ Itoa (tq_LocalPort req))
  else if is_anon token then
    if String.eqb (tq_Type req) TunnelTCP then
      sendTunnelError y "anonymous users cannot create TCP tunnels — run 'htn-tunnel login' to register"
    else if negb (String.eqb (tq_Subdomain req) "") then
      sendTunnelError y "anonymous users cannot request custom subdomains — run 'htn-tunnel login' to register"
    else
      existing ← trigger (ETunnelsForAnon token);
      if (1 <=? length existing)%nat then
        sendTunnelError y "anonymous users are limited to 1 tunnel — run 'htn-tunnel login' for more"
      else admit_tunnel tcpProxy y token req
  else admit_tunnel tcpProxy y token req.

(** [handleAccountInfo] *)
Definition handleAccountInfo (y : session_id) (token : string) : P unit :=
  let reply name subs max :=
    cfg ← trigger EConfig;
    _ ← send (ToSession y) (OutAccountInfoResp
      {| ai_Name := name; ai_Subdomains := subs; ai_MaxTunnels := max; ai_Domain := Domain cfg |});
    mret tt in
  let legacy :=
    cfg ← trigger EConfig;
    reply "legacy"%string [] (MaxTunnelsPerToken cfg) in
  if is_anon token then reply "anonymous"%string [] 1
  else if IsAPIKey token then
    k ← trigger (EGetKey token);
    match k with
    | Some k => reply (Name k) (Subdomains k) (MaxTunnels k)
    | None => legacy
    end
  else legacy.

(** ** The control session *)

(** The body of the control loop for one decoded message: [false] when the
    goroutine ends. *)
Definition dispatch `{ClientJSON} (tcpProxy : bool) (y : session_id) (token : string)
    (msgType : MsgType) (raw : list byte) : P bool :=
  if msgType =? MsgHeartbeat then send (ToSession y) OutHeartbeatAck
  else if msgType =? MsgAccountInfo then _ ← handleAccountInfo y token; mret true
  else if msgType =? MsgTunnelReq then
    match unmarshal_TunnelRequest raw with
    | Err _ => mret true
    | Ok req => _ ← handleTunnelRequest tcpProxy y token req; mret true
    end
  else mret true.

(** The idle-timeout branch of [handleControlSession]. *)
Definition reserve_session (y : session_id) : P unit :=
  tunnels ← trigger (ESessionTunnels y);
  for_each (fun l =>
    ts ← trigger (EDeref l);
    if String.eqb (ts_Type ts) "http" then trigger (EReserveHTTP (ts_Subdomain ts) reservationTTL)
    else mret tt) tunnels.

(** The loop body of [cleanupSession]. *)
Definition cleanup_one (tcpProxy : bool) (token : string) (l : loc) : P unit :=
  ts ← trigger (EDeref l);
  _ ← (if String.eqb (ts_Type ts) "http" then trigger (EUnregisterHTTP (ts_Subdomain ts))
       else if String.eqb (ts_Type ts) "tcp" then
         if tcpProxy then StopTCPTunnel (ts_Port ts) else trigger (EUnregisterTCP (ts_Port ts))
       else mret tt);
  decrementTunnels token.

(** [cleanupSession] *)
Definition cleanupSession (tcpProxy : bool) (y : session_id) (token : string) : P unit :=
  tunnels ← trigger (ESessionTunnels y);
  for_each (cleanup_one tcpProxy token) tunnels.

(** What follows [handleControlSession]'s select: the reservation on an idle
    timeout, then the deferred clean-up of [handleConnection]. *)
Definition end_session (tcpProxy : bool) (y : session_id) (token : string) (idle : bool) : P unit :=
  _ ← (if idle then reserve_session y else mret tt);
  cleanupSession tcpProxy y token.

(** ** A new connection *)

(** [handleRegister] *)
Definition handleRegister `{ClientJSON} (raw : list byte) : P unit :=
  let reply ok key subs msg :=
    _ ← send ToConn (OutRegisterResp
      {| rr_Success := ok; rr_Key := key; rr_Subdomains := subs; rr_Message := msg |});
    mret tt in
  cfg ← trigger EConfig;
  if match AllowRegistration cfg with Some false => true | _ => false end
  then reply false ""%string [] "registration is disabled"%string
  else
    match unmarshal_Register raw with
    | Err _ => reply false ""%string [] "invalid request"%string
    | Ok msg =>
        let subdomains := if String.eqb (rg_Subdomain msg) "" then [] else [rg_Subdomain msg] in
        r ← trigger (ECreateKey (rg_Name msg) subdomains 10);
        match r with
        | Err e => reply false ""%string [] (key_error_text e)
        | Ok key => reply true key subdomains ""%string
        end
    end.

Definition auth_reply (ok : bool) (msg : string) : P bool :=
  send ToConn (OutAuthResponse {| ar_Success := ok; ar_Message := msg |}).

(** The token that [handleConnection] gives an authentication message. *)
Definition authenticate (remoteIP : string) (authMsg : AuthMsg) : P (option string) :=
  if String.eqb (am_Token authMsg) "" then
    cfg ← trigger EConfig;
    if match AllowAnonymous cfg with Some b => b | None => false end
    then mret (Some ("anon:" +:+ remoteIP))
    else
      _ ← auth_reply false "anonymous connections are disabled — run 'htn-tunnel login' to register";
      mret None
  else
    valid ← (if IsAPIKey (am_Token authMsg) then trigger (EKeyValidate (am_Token authMsg))
             else trigger (ETokenValidate (am_Token authMsg)));
    if valid : bool then mret (Some (am_Token authMsg))
    else _ ← auth_reply false "invalid token"; mret None.

(** [handleConnection] up to the yamux session: the token of the session that
    opens, if one does.  A failing deadline or handshake of the transport is a
    failing read or write here. *)
Definition handleConnection `{ClientJSON} (remoteAddr : string) : P (option string) :=
  let remoteIP := extractIP remoteAddr in
  allowed ← trigger (EIPAllow remoteIP);
  if negb allowed then mret None
  else
    first ← trigger EReadFirst;
    match first with
    | Err _ => mret None
    | Ok (msgType, raw) =>
        if msgType =? MsgRegister then _ ← handleRegister raw; mret None
        else if negb (msgType =? MsgAuth) then mret None
        else
          match unmarshal_Auth raw with
          | Err _ => mret None
          | Ok authMsg =>
              token ← authenticate remoteIP authMsg;
              match token with
              | None => mret None
              | Some token =>
                  sent ← auth_reply true "authenticated";
                  mret (if sent : bool then Some token else None)
              end
          end
    end.

(** ** State and effects *)

Section Exec.
Context {L : Type} `{Limiter L} `{Bcrypt} `{!RangeOrder string, !RangeOrder Z}.

Record Server := {
  srv_cfg : ServerConfig;
  srv_tokenStore : TokenStore;
  srv_keyStore : KeyStore;
  srv_rateLimiter : RateLimiter L;
  srv_ipLimiter : ipRateLimiter L;
  srv_tunnelManager : TunnelManager;
  srv_sent : list (peer * outmsg);
  srv_closed : list effect;
}.

Definition with_tm (tm : TunnelManager) (s : Server) : Server :=
  {| srv_cfg := srv_cfg s; srv_tokenStore := srv_tokenStore s; srv_keyStore := srv_keyStore s;
     srv_rateLimiter := srv_rateLimiter s; srv_ipLimiter := srv_ipLimiter s;
     srv_tunnelManager := tm; srv_sent := srv_sent s; srv_closed := srv_closed s |}.
Definition with_keyStore (ks : KeyStore) (s : Server) : Server :=
  {| srv_cfg := srv_cfg s; srv_tokenStore := srv_tokenStore s; srv_keyStore := ks;
     srv_rateLimiter := srv_rateLimiter s; srv_ipLimiter := srv_ipLimiter s;
     srv_tunnelManager := srv_tunnelManager s; srv_sent := srv_sent s; srv_closed := srv_closed s |}.
Definition with_tokenStore (ts : TokenStore) (s : Server) : Server :=
  {| srv_cfg := srv_cfg s; srv_tokenStore := ts; srv_keyStore := srv_keyStore s;
     srv_rateLimiter := srv_rateLimiter s; srv_ipLimiter := srv_ipLimiter s;
     srv_tunnelManager := srv_tunnelManager s; srv_sent := srv_sent s; srv_closed := srv_closed s |}.
Definition with_rate (r : RateLimiter L) (s : Server) : Server :=
  {| srv_cfg := srv_cfg s; srv_tokenStore := srv_tokenStore s; srv_keyStore := srv_keyStore s;
     srv_rateLimiter := r; srv_ipLimiter := srv_ipLimiter s;
     srv_tunnelManager := srv_tunnelManager s; srv_sent := srv_sent s; srv_closed := srv_closed s |}.
Definition with_ip (r : ipRateLimiter L) (s : Server) : Server :=
  {| srv_cfg := srv_cfg s; srv_tokenStore := srv_tokenStore s; srv_keyStore := srv_keyStore s;
     srv_rateLimiter := srv_rateLimiter s; srv_ipLimiter := r;
     srv_tunnelManager := srv_tunnelManager s; srv_sent := srv_sent s; srv_closed := srv_closed s |}.
Definition add_sent (m : peer * outmsg) (s : Server) : Server :=
  {| srv_cfg := srv_cfg s; srv_tokenStore := srv_tokenStore s; srv_keyStore := srv_keyStore s;
     srv_rateLimiter := srv_rateLimiter s; srv_ipLimiter := srv_ipLimiter s;
     srv_tunnelManager := srv_tunnelManager s; srv_sent := srv_sent s ++ [m]; srv_closed := srv_closed s |}.
Definition add_effects (effs : list effect) (s : Server) : Server :=
  {| srv_cfg := srv_cfg s; srv_tokenStore := srv_tokenStore s; srv_keyStore := srv_keyStore s;
     srv_rateLimiter := srv_rateLimiter s; srv_ipLimiter := srv_ipLimiter s;
     srv_tunnelManager := srv_tunnelManager s; srv_sent := srv_sent s; srv_closed := srv_closed s ++ effs |}.

(** What the environment supplies to an operation: a clock reading, random
    bytes and draws, the outcomes of I/O, a fresh address. *)
Record supply := {
  c_now : Z;
  c_bytes : list byte;
  c_draws : list nat;
  c_draw : Z;
  c_listen : option listener_id;
  c_loc : loc;
  c_ok : bool;
  c_write : write_outcome;
  c_read : result decode_error (MsgType * list byte);
}.

(** [NewServer], without the goroutines it starts; [None] for a key file outside
    the model. *)
Definition NewServer (cfg : ServerConfig) (keyFile : disk_file) : option (result string Server) :=
  keyStore ← NewKeyStore (KeyStorePath cfg) keyFile;
  Some (
  ts ← wrap_error "init token store: " (NewTokenStore (Tokens cfg) (MaxTunnelsPerToken cfg));
  ks ← wrap_error "init key store: " keyStore;
  let '(lo, hi) := TCPPortRange cfg in
  Ok {| srv_cfg := cfg; srv_tokenStore := ts; srv_keyStore := ks;
        srv_rateLimiter := NewRateLimiter (RateLimit cfg) (GlobalRateLimit cfg);
        srv_ipLimiter := newIPRateLimiter 10;
        srv_tunnelManager := NewTunnelManager lo hi;
        srv_sent := []; srv_closed := [] |}).

(** The atomic effect of an operation. *)
Definition exec (R : Type) (e : srvE R) (c : supply) (s : Server) : option (Server * R) :=
  let tm := srv_tunnelManager s in
  match e in srvE R return option (Server * R) with
  | EIPAllow ip => let '(r, ok) := ipAllow (c_now c) ip (srv_ipLimiter s) in Some (with_ip r s, ok)
  | EReadFirst => Some (s, c_read c)
  | ESend to m => Some (if c_ok c then add_sent (to, m) s else s, c_ok c)
  | EConfig => Some (s, srv_cfg s)
  | ECreateKey name subs max =>
      if bool_decide (length (c_bytes c) = 16%nat /\
                      keys (srv_keyStore s) !! GenerateAPIKey (c_bytes c) = None)
      then let '(ks, r) := CreateKey (c_bytes c) (c_now c) (c_write c) name subs max (srv_keyStore s) in
           Some (with_keyStore ks s, r)
      else None
  | EKeyValidate key => Some (s, KeyStore_Validate key (srv_keyStore s))
  | ETokenValidate token => Some (s, TokenStore_Validate token (srv_tokenStore s))
  | EGetKey key => Some (s, GetKey key (srv_keyStore s))
  | EKeyIncrement key =>
      let '(ks, err) := KeyStore_IncrementTunnels key (srv_keyStore s) in Some (with_keyStore ks s, err)
  | EKeyDecrement key => Some (with_keyStore (KeyStore_DecrementTunnels key (srv_keyStore s)) s, tt)
  | ETokenIncrement token =>
      let '(ts, err) := TokenStore_IncrementTunnels token (srv_tokenStore s) in Some (with_tokenStore ts s, err)
  | ETokenDecrement token => Some (with_tokenStore (TokenStore_DecrementTunnels token (srv_tokenStore s)) s, tt)
  | ERateAllow token =>
      let '(r, ok) := rateAllow (c_now c) token (srv_rateLimiter s) in Some (with_rate r s, ok)
  | ERandomHex n => if bool_decide (length (c_bytes c) = n) then Some (s, randomHex (c_bytes c)) else None
  | ERandomSubdomain =>
      if bool_decide (random_draws (c_draws c)) then Some (s, RandomSubdomain (c_draws c)) else None
  | ENew ts =>
      match objects tm !! c_loc c with
      | None => Some (with_tm (alloc (c_loc c) ts tm) s, c_loc c)
      | Some _ => None
      end
  | EDeref l => Some (s, deref tm l)
  | ESetSubdomain l sub => Some (with_tm (update l (set_Subdomain sub) tm) s, tt)
  | ETunnelsForAnon token => Some (s, TunnelsForAnon token tm)
  | ERegisterHTTP sub l =>
      let '(tm, err) := RegisterHTTP (c_now c) sub l tm in Some (with_tm tm s, err)
  | EDrawPort =>
      let n := portMax tm - portMin tm + 1 in
      if n <=? 0 then Some (s, None)
      else if bool_decide (0 <= c_draw c < n) then Some (s, Some (portMin tm + c_draw c)) else None
  | EPortTaken port => Some (s, match LookupTCP port tm with Some _ => true | None => false end)
  | EListen port =>
      Some (match c_listen c with Some ln => add_effects [OpenListener ln] s | None => s end, c_listen c)
  | ESetTCP l port ln => Some (with_tm (update l (set_TCP port ln (c_now c)) tm) s, tt)
  | ECommitTCP port l => let '(tm, ok) := RegisterTCP_commit port l tm in Some (with_tm tm s, ok)
  | ECloseListener ln => Some (add_effects [CloseListener ln] s, tt)
  | EUnregisterHTTP sub => Some (with_tm (UnregisterHTTP sub tm) s, tt)
  | EUnregisterTCP port =>
      let '(tm, effs) := UnregisterTCP port tm in Some (add_effects effs (with_tm tm s), tt)
  | ESessionTunnels y => Some (s, SessionTunnels y tm)
  | EReserveHTTP sub ttl => Some (with_tm (ReserveHTTP (c_now c) ttl sub tm) s, tt)
  end.
End Exec.
Arguments Server L : clear implicits.
