(* ===== verification/Permits.v ===== *)
(** * What each goroutine may do: permits

    A small program logic for the server's goroutines.  A goroutine that works
    for a session holds a permit: nothing, a tunnel that has been counted but
    not created, an object it has created and not yet filed, or the objects of
    its closed session that it is cleaning up.  [safe] says that a program only
    performs operations its permit covers; this file proves that for every
    handler of Server.v.  Sessions.v shows what follows for the whole server. *)

From S2P Require Import Prelude Prog GoStrings Wire Subdomain TunnelManager Quota Auth KeyStore Config Server.
Local Open Scope Z_scope.

(** What a clean-up knows of an object whose fields it has read. *)
Definition same_tunnel (t t' : TunnelSession) : Prop :=
  ts_Token t' = ts_Token t /\ ts_Type t' = ts_Type t /\ ts_Session t' = ts_Session t /\
  ts_Subdomain t' = ts_Subdomain t /\ ts_Port t' = ts_Port t.

Inductive permit :=
  | Idle
  | Counted
  | Owns (l : loc) (type : string) (name : option string) (port : option Z)
  | Cleaning (ls : list loc)
  | Seen (l : loc) (ts : TunnelSession) (ls : list loc)
  | Unfiled (l : loc) (ls : list loc).

Section Safe.
(** The session and token the goroutine works for, and whether it is the
    session's main goroutine (which cleans up) or its control loop. *)
Variables (main : bool) (y : session_id) (token : string).

(** A decrement: it gives up a count, with the object that carried it. *)
Definition decrement_ok (g : permit) (K : permit -> Prop) : Prop :=
  match g with
  | Counted | Owns _ _ _ _ => main = false /\ K Idle
  | Unfiled _ ls => K (Cleaning ls)
  | _ => False
  end.

Definition unfile_ok (l : loc) (ls : list loc) (K : permit -> Prop) : Prop :=
  K (if is_anon token then Cleaning ls else Unfiled l ls).

(** The operations a permit covers, and the permit afterwards, for every
    result the operation can have. *)
Definition op_ok (R : Type) (e : srvE R) (g : permit) : (R -> permit -> Prop) -> Prop :=
  match e in srvE R return (R -> permit -> Prop) -> Prop with
  | EKeyIncrement t => fun K =>
      t = token /\ is_anon t = false /\ IsAPIKey t = true /\ main = false /\ g = Idle /\
      K None Counted /\ forall err, K (Some err) Idle
  | ETokenIncrement t => fun K =>
      t = token /\ is_anon t = false /\ IsAPIKey t = false /\ main = false /\ g = Idle /\
      K None Counted /\ forall err, K (Some err) Idle
  | EKeyDecrement t => fun K =>
      t = token /\ is_anon t = false /\ IsAPIKey t = true /\ decrement_ok g (K tt)
  | ETokenDecrement t => fun K =>
      t = token /\ is_anon t = false /\ IsAPIKey t = false /\ decrement_ok g (K tt)
  | ENew ts => fun K =>
      ts_Token ts = token /\ ts_Session ts = Some y /\ main = false /\
      g = (if is_anon token then Idle else Counted) /\
      forall l, K l (Owns l (ts_Type ts) None None)
  | ESetSubdomain l sub => fun K =>
      exists type name port, g = Owns l type name port /\ K tt (Owns l type (Some sub) port)
  | ESetTCP l p ln => fun K =>
      exists type name port, g = Owns l type name port /\ K tt (Owns l type name (Some p))
  | ERegisterHTTP sub l => fun K =>
      exists port, g = Owns l "http" (Some sub) port /\ K None Idle /\ forall err, K (Some err) g
  | ECommitTCP p l => fun K =>
      exists name, g = Owns l "tcp" name (Some p) /\ K true Idle /\ K false g
  | EUnregisterHTTP sub => fun K =>
      exists l ts ls, g = Seen l ts ls /\ ts_Type ts = "http"%string /\ ts_Subdomain ts = sub /\
        unfile_ok l ls (K tt)
  | EUnregisterTCP p => fun K =>
      exists l ts ls, g = Seen l ts ls /\ ts_Type ts = "tcp"%string /\ ts_Port ts = p /\
        unfile_ok l ls (K tt)
  | ESessionTunnels y' => fun K =>
      y' = y /\ main = true /\ (g = Idle \/ exists ls, g = Cleaning ls) /\ forall ls, K ls (Cleaning ls)
  | EDeref l => fun K =>
      (forall ts, K ts g) \/
      (exists ls, g = Cleaning (l :: ls) /\
        forall ts, ts_Type ts = "http"%string \/ ts_Type ts = "tcp"%string -> K ts (Seen l ts ls))
  | _ => fun K => forall r, K r g
  end.

Fixpoint safe {A} (Q : A -> permit -> Prop) (p : P A) (g : permit) : Prop :=
  match p with
  | Ret a => Q a g
  | Crash => True
  | Vis e k => op_ok _ e g (fun r g => safe Q (k r) g)
  end.

(** *** Structural rules *)

Lemma op_ok_mono R (e : srvE R) g (K K' : R -> permit -> Prop) :
  (forall r g, K r g -> K' r g) -> op_ok R e g K -> op_ok R e g K'.
Proof.
  intros HK. destruct e; simpl; try (intros H; intros; apply HK; by apply H);
    unfold decrement_ok, unfile_ok;
    try (destruct g; naive_solver); naive_solver.
Qed.

Lemma safe_mono {A} (Q Q' : A -> permit -> Prop) p g :
  (forall a g, Q a g -> Q' a g) -> safe Q p g -> safe Q' p g.
Proof.
  intros HQ. revert g. induction p as [a| |R e k IH]; intros g; simpl; [apply HQ | done |].
  apply op_ok_mono. auto.
Qed.

Lemma safe_bind {A B} (Q : B -> permit -> Prop) (f : A -> P B) p g :
  safe (fun a g => safe Q (f a) g) p g -> safe Q (p ≫= f) g.
Proof.
  revert g. induction p as [a| |R e k IH]; intros g; [done..|].
  apply op_ok_mono. intros r g'. apply IH.
Qed.

(** A handler leaves no permit behind, except that an object that nobody counts
    (an anonymous tunnel that could not be filed) is just garbage. *)
Definition settled (g : permit) : Prop :=
  match g with
  | Idle => True
  | Owns _ _ _ _ => is_anon token = true
  | _ => False
  end.

Definition ends {A} (_ : A) (g : permit) : Prop := settled g.
End Safe.

(** ** The control loop *)

Section Control.
Variables (y : session_id) (token : string).
Abbreviation csafe := (safe false y token).

Lemma safe_send {A} (Q : A -> permit -> Prop) to m (f : bool -> P A) g :
  (forall b, csafe Q (f b) g) -> csafe Q (send to m ≫= f) g.
Proof. intros Hf. apply safe_bind. simpl. exact Hf. Qed.

Lemma safe_tunnel_error msg g : settled token g -> csafe (ends token) (sendTunnelError y msg) g.
Proof. intros Hg. unfold sendTunnelError. apply safe_send. intros b. exact Hg. Qed.

(** Giving up on a created object. *)
Lemma safe_give_up l type name port msg :
  csafe (ends token) (_ ← decrementTunnels token; sendTunnelError y msg) (Owns l type name port).
Proof.
  apply safe_bind. unfold decrementTunnels.
  destruct (is_anon token) eqn:Ha; [by apply safe_tunnel_error|].
  destruct (IsAPIKey token) eqn:Hk; simpl; split_and!; try done.
Qed.

Lemma safe_registered subdomain g : settled token g -> csafe (ends token) (registered y subdomain) g.
Proof. intros Hg. simpl. intros cfg b. exact Hg. Qed.

Lemma safe_register_random n l name port :
  csafe (fun r g => match r with
                    | Some _ => g = Idle
                    | None => exists name, g = Owns l "http" name port
                    end) (register_random n l) (Owns l "http" name port).
Proof.
  revert name. induction n as [|n IH]; intros name; [simpl; eauto|].
  simpl. intros sub. exists "http"%string, name, port. split; [done|].
  exists port. split_and!; [done | done |]. intros err. apply IH.
Qed.

Lemma safe_registerHTTPTunnel l req name port :
  csafe (ends token) (registerHTTPTunnel l req y token) (Owns l "http" name port).
Proof.
  unfold registerHTTPTunnel. destruct (String.eqb (tq_Subdomain req) "").
  - apply safe_bind. eapply safe_mono; [|apply safe_register_random].
    intros [sub|] g; simpl; [intros ->; by apply safe_registered|].
    intros [name' ->]. apply safe_give_up.
  - simpl. exists "http"%string, name, port. split; [done|].
    exists port. split_and!; [done | by intros ?? |].
    intros err. apply safe_give_up.
Qed.

Lemma safe_RegisterTCP n l name port :
  csafe (fun r g => match r with
                    | Some _ => g = Idle
                    | None => exists port, g = Owns l "tcp" name port
                    end) (RegisterTCP_prog n l) (Owns l "tcp" name port).
Proof.
  revert port. induction n as [|n IH]; intros port; [simpl; eauto|].
  simpl. intros [p|]; [|done]. simpl. intros [|]; [apply IH|]. simpl. intros [ln|]; [|apply IH].
  simpl. exists "tcp"%string, name, port. split; [done|].
  exists name. split_and!; [done | done |]. simpl. intros _. apply IH.
Qed.

Lemma safe_registerTCPTunnel tcpProxy l name port :
  csafe (ends token) (registerTCPTunnel tcpProxy l y token) (Owns l "tcp" name port).
Proof.
  unfold registerTCPTunnel. destruct tcpProxy; simpl negb; cbv iota; [|apply safe_give_up].
  apply safe_bind. eapply safe_mono; [|apply safe_RegisterTCP].
  intros [p|] g; [intros ->; simpl; done|]. intros [port' ->]. apply safe_give_up.
Qed.

Lemma safe_create_tunnel tcpProxy req :
  csafe (ends token) (create_tunnel tcpProxy y token req) (if is_anon token then Idle else Counted).
Proof.
  unfold create_tunnel. simpl. intros id. split_and!; try done. intros l.
  destruct (String.eqb_spec (tq_Type req) TunnelHTTP) as [->|]; [apply safe_registerHTTPTunnel|].
  destruct (String.eqb_spec (tq_Type req) TunnelTCP) as [->|]; [apply safe_registerTCPTunnel|].
  apply safe_give_up.
Qed.

Lemma safe_admit_tunnel tcpProxy req : csafe (ends token) (admit_tunnel tcpProxy y token req) Idle.
Proof.
  unfold admit_tunnel. simpl. intros [|]; [|by apply safe_tunnel_error]. simpl.
  pose proof (safe_create_tunnel tcpProxy req) as Hc.
  destruct (is_anon token) eqn:Ha; [exact Hc|].
  destruct (IsAPIKey token) eqn:Hk; simpl; split_and!; try done; intros err; by apply safe_tunnel_error.
Qed.

Lemma safe_handleTunnelRequest tcpProxy req :
  csafe (ends token) (handleTunnelRequest tcpProxy y token req) Idle.
Proof.
  unfold handleTunnelRequest. destruct (_ || _); [by apply safe_tunnel_error|].
  destruct (is_anon token); [|apply safe_admit_tunnel].
  destruct (String.eqb _ _); [by apply safe_tunnel_error|].
  destruct (negb _); [by apply safe_tunnel_error|]. simpl. intros existing.
  destruct (length existing); [apply safe_admit_tunnel | by apply safe_tunnel_error].
Qed.

Lemma safe_handleAccountInfo : csafe (ends token) (handleAccountInfo y token) Idle.
Proof.
  unfold handleAccountInfo. destruct (is_anon token); [simpl; done|].
  destruct (IsAPIKey token); simpl; [|done]. by intros [k|]; simpl.
Qed.

(** The control goroutine takes no permit across two messages. *)
Lemma safe_dispatch `{ClientJSON} tcpProxy msgType raw :
  csafe (ends token) (dispatch tcpProxy y token msgType raw) Idle.
Proof.
  unfold dispatch. destruct (msgType =? MsgHeartbeat); [simpl; done|].
  destruct (msgType =? MsgAccountInfo).
  { apply safe_bind. eapply safe_mono; [|apply safe_handleAccountInfo]. done. }
  destruct (msgType =? MsgTunnelReq); [|done].
  destruct (unmarshal_TunnelRequest raw) as [req|]; [|done].
  apply safe_bind. eapply safe_mono; [|apply safe_handleTunnelRequest]. done.
Qed.
End Control.

(** ** The main goroutine *)

Section Main.
Variables (y : session_id) (token : string).
Abbreviation msafe := (safe true y token).

Lemma safe_reserve_session :
  msafe (fun _ g => exists ls, g = Cleaning ls) (reserve_session y) Idle.
Proof.
  unfold reserve_session. simpl. split_and!; [done | done | by left |].
  intros ls. assert (forall ls', msafe (fun _ g => exists ls, g = Cleaning ls)
    (for_each (fun l => ts ← trigger (EDeref l);
       if String.eqb (ts_Type ts) "http" then trigger (EReserveHTTP (ts_Subdomain ts) reservationTTL)
       else mret tt) ls') (Cleaning ls)) as Hloop; [|exact (Hloop ls)].
  intros ls'. induction ls' as [|l ls' IH]; simpl; [eauto|].
  left. intros ts. apply safe_bind. destruct (String.eqb (ts_Type ts) "http"); simpl; [intros _|]; exact IH.
Qed.

Lemma safe_cleanup_one tcpProxy l ls :
  msafe (fun _ g => g = Cleaning ls) (cleanup_one tcpProxy token l) (Cleaning (l :: ls)).
Proof.
  assert (msafe (fun _ g => g = Cleaning ls) (decrementTunnels token)
            (if is_anon token then Cleaning ls else Unfiled l ls)) as Hdec.
  { unfold decrementTunnels. destruct (is_anon token) eqn:Ha; [done|].
    destruct (IsAPIKey token) eqn:Hk; simpl; by split_and!. }
  unfold cleanup_one. simpl. right. exists ls. split; [done|]. intros ts Hty. apply safe_bind.
  destruct (String.eqb_spec (ts_Type ts) "http") as [Heq|Hne].
  - simpl. by exists l, ts, ls.
  - destruct Hty as [?|Hty]; [done|]. rewrite Hty.
    destruct tcpProxy; simpl; by exists l, ts, ls.
Qed.

Lemma safe_cleanup_all tcpProxy ls :
  msafe (fun _ g => g = Cleaning []) (for_each (cleanup_one tcpProxy token) ls) (Cleaning ls).
Proof.
  induction ls as [|l ls IH]; [done|].
  change (for_each (cleanup_one tcpProxy token) (l :: ls)) with
    (cleanup_one tcpProxy token l ≫= fun _ => for_each (cleanup_one tcpProxy token) ls).
  apply safe_bind. eapply safe_mono; [|apply safe_cleanup_one]. by intros _ g' ->.
Qed.

Lemma safe_end_session tcpProxy idle :
  msafe (fun _ g => g = Cleaning []) (end_session tcpProxy y token idle) Idle.
Proof.
  unfold end_session. apply safe_bind.
  assert (forall g0, g0 = Idle \/ (exists ls, g0 = Cleaning ls) ->
    msafe (fun _ g => g = Cleaning []) (cleanupSession tcpProxy y token) g0) as Hc.
  { intros g0 Hg0. unfold cleanupSession. apply safe_bind. simpl. split_and!; try done.
    apply safe_cleanup_all. }
  destruct idle; [|by apply Hc; left].
  eapply safe_mono; [|apply safe_reserve_session]. intros [] g1 Hg1. apply Hc. by right.
Qed.
End Main.

(** ** Connections that are not authenticated yet need no permit *)

Section Connection.
Context `{ClientJSON}.

Lemma safe_handleRegister main y token raw :
  safe main y token (fun _ g => g = Idle) (handleRegister raw) Idle.
Proof.
  unfold handleRegister. simpl. intros cfg.
  destruct (match AllowRegistration cfg with Some false => true | _ => false end); [simpl; done|].
  destruct (unmarshal_Register raw) as [msg|]; [|simpl; done]. simpl. by intros [key|e]; simpl.
Qed.

Lemma safe_authenticate main y token ip msg :
  safe main y token (fun _ g => g = Idle) (authenticate ip msg) Idle.
Proof.
  unfold authenticate. destruct (String.eqb (am_Token msg) "").
  - simpl. intros cfg. by destruct (match AllowAnonymous cfg with Some b => b | None => false end); simpl.
  - apply safe_bind. destruct (IsAPIKey (am_Token msg)); simpl; by intros [|]; simpl.
Qed.

Lemma safe_handleConnection main y token remoteAddr :
  safe main y token (fun _ g => g = Idle) (handleConnection remoteAddr) Idle.
Proof.
  unfold handleConnection. apply safe_bind. intros [|]; [|done].
  apply safe_bind. intros [[msgType raw]|e]; [|done]. change (safe main y token (fun _ g => g = Idle)
    (if msgType =? MsgRegister then _ ← handleRegister raw; mret None
     else if negb (msgType =? MsgAuth) then mret None
     else match unmarshal_Auth raw with
          | Err _ => mret None
          | Ok authMsg =>
              token ← authenticate (extractIP remoteAddr) authMsg;
              match token with
              | None => mret None
              | Some token => sent ← auth_reply true "authenticated"; mret (if sent : bool then Some token else None)
              end
          end) Idle).
  destruct (msgType =? MsgRegister).
  { apply safe_bind. eapply safe_mono; [|apply safe_handleRegister]. done. }
  destruct (negb (msgType =? MsgAuth)); [done|].
  destruct (unmarshal_Auth raw) as [authMsg|]; [|done]. apply safe_bind.
  eapply safe_mono; [|apply safe_authenticate]. intros [t|] g Hg; simpl; [|exact Hg]. by intros [|].
Qed.
End Connection.
