(* ===== verification/Sessions.v ===== *)
(** * All sessions at once

    The goroutines of every connection interleave, one atomic operation at a
    time, with each other, with the administrator and with the background
    goroutines.  This file defines the system and proves that the tunnel counts
    of Quota.v stay truthful in it: whatever the schedule, a token never has
    more tunnels registered than its count, nor its count above its limit. *)

From S2P Require Import Prelude Prog GoStrings Wire Subdomain TunnelManager Quota Auth KeyStore Config Server Permits.
Local Open Scope Z_scope.

(** ** Receipts

    Every unit of a count is accounted for by a receipt, held either by the
    goroutine that is creating the tunnel or by the tunnel's object. *)

Abbreviation holder := (loc + nat)%type.
Abbreviation receipts := (gmap holder string).

Definition issued (t : string) (rc : receipts) : nat := size (filter (fun p => p.2 = t) rc).

Lemma issued_insert (t : string) (x : holder) (t' : string) (rc : receipts) :
  rc !! x = None -> issued t (<[x := t']> rc) = (issued t rc + if decide (t' = t) then 1 else 0)%nat.
Proof.
  intros Hx. unfold issued. destruct (decide (t' = t)) as [->|Hne].
  - rewrite map_filter_insert_True by done. rewrite map_size_insert_None; [lia|].
    apply map_lookup_filter_None. by left.
  - rewrite map_filter_insert_False by done. rewrite delete_id by done. lia.
Qed.

Lemma issued_delete (t : string) (x : holder) (t' : string) (rc : receipts) :
  rc !! x = Some t' -> issued t rc = (issued t (delete x rc) + if decide (t' = t) then 1 else 0)%nat.
Proof.
  intros Hx. rewrite <- (issued_insert t x t' (delete x rc)) by apply lookup_delete_eq.
  by rewrite insert_delete_id.
Qed.

(** Handing a receipt over. *)
Lemma issued_move (t : string) (x x' : holder) (t' : string) (rc : receipts) :
  rc !! x = Some t' -> rc !! x' = None -> x <> x' ->
  issued t (<[x' := t']> (delete x rc)) = issued t rc.
Proof.
  intros Hx Hx' Hne. rewrite issued_insert by by rewrite lookup_delete_ne.
  by rewrite (issued_delete t x t' rc).
Qed.

Section Sessions.
Context {L : Type} `{Limiter L} `{Bcrypt} `{!RangeOrder string, !RangeOrder Z}.
Implicit Types (s : Server L) (rc : receipts) (g : permit).

(** ** The counts of both stores *)

Definition srv_quota (t : string) s : option (Z * Z) :=
  if IsAPIKey t then quota t (srv_keyStore s) else quota t (srv_tokenStore s).

Definition count (t : string) s : Z := match srv_quota t s with Some (c, _) => c | None => 0 end.

Definition obj s (l : loc) : option TunnelSession := objects (srv_tunnelManager s) !! l.

(** ** Invariants *)

Record world_ok s rc : Prop := {
  wo_count t : is_anon t = false -> count t s = Z.of_nat (issued t rc);
  wo_linked l : linked l (srv_tunnelManager s) -> exists ts, obj s l = Some ts /\ rc !! inl l = Some (ts_Token ts);
  wo_http sub l : httpTunnels (srv_tunnelManager s) !! sub = Some l ->
    exists ts, obj s l = Some ts /\ ts_Type ts = "http"%string /\ ts_Subdomain ts = sub;
  wo_tcp p l : tcpTunnels (srv_tunnelManager s) !! p = Some l ->
    exists ts, obj s l = Some ts /\ ts_Type ts = "tcp"%string /\ ts_Port ts = p;
  wo_objects l t : rc !! inl l = Some t -> exists ts, obj s l = Some ts /\ ts_Token ts = t;
  wo_bounds t c m : srv_quota t s = Some (c, m) -> 0 <= c <= Z.max 0 m;
}.

(** An object that the main goroutine of session [y] is to clean up. *)
Definition to_clean s rc (y : session_id) (token : string) (l : loc) : Prop :=
  exists ts, obj s l = Some ts /\ ts_Session ts = Some y /\ ts_Token ts = token /\
    (ts_Type ts = "http"%string \/ ts_Type ts = "tcp"%string) /\ rc !! inl l = Some token.

(** The objects a permit is about. *)
Definition locs g : list loc :=
  match g with
  | Idle | Counted => []
  | Owns l _ _ _ => [l]
  | Cleaning ls => ls
  | Seen l _ ls => l :: ls
  | Unfiled l ls => l :: ls
  end.

(** The one object whose state the holder of the permit may change. *)
Definition touched g : option loc :=
  match g with
  | Owns l _ _ _ | Seen l _ _ | Unfiled l _ => Some l
  | _ => None
  end.

Definition owned s rc (y : session_id) (token : string) (l : loc) (type : string)
    (name : option string) (port : option Z) : Prop :=
  exists ts, obj s l = Some ts /\ ts_Token ts = token /\ ts_Session ts = Some y /\ ts_Type ts = type /\
    (forall sub, name = Some sub -> ts_Subdomain ts = sub) /\ (forall p, port = Some p -> ts_Port ts = p) /\
    ~ linked l (srv_tunnelManager s) /\ rc !! inl l = None.

(** What a permit of goroutine [tid] means. *)
Definition permit_ok s rc (main : bool) (tid : nat) (y : session_id) (token : string) g : Prop :=
  NoDup (locs g) /\
  match g with
  | Idle => rc !! inr tid = None
  | Counted => main = false /\ rc !! inr tid = Some token
  | Owns l type name port => main = false /\ rc !! inr tid = Some token /\ owned s rc y token l type name port
  | Cleaning ls => main = true /\ rc !! inr tid = None /\ Forall (to_clean s rc y token) ls
  | Seen l ts ls => main = true /\ rc !! inr tid = None /\ Forall (to_clean s rc y token) (l :: ls) /\
      exists ts', obj s l = Some ts' /\ same_tunnel ts ts'
  | Unfiled l ls => main = true /\ rc !! inr tid = None /\ Forall (to_clean s rc y token) (l :: ls) /\
      ~ linked l (srv_tunnelManager s)
  end.

(** What a step that may change only the object [T] guarantees to the others. *)
Record stable (T : option loc) (tid : nat) s s' rc rc' : Prop := {
  st_obj l ts : obj s l = Some ts -> exists ts', obj s' l = Some ts' /\
    ts_Token ts' = ts_Token ts /\ ts_Session ts' = ts_Session ts /\ ts_Type ts' = ts_Type ts /\
    (Some l <> T -> same_tunnel ts ts');
  st_linked l : linked l (srv_tunnelManager s') -> linked l (srv_tunnelManager s) \/ Some l = T;
  st_rc x : x <> inr tid -> (forall l, x = inl l -> Some l <> T) -> rc' !! x = rc !! x;
}.

Lemma same_tunnel_refl ts : same_tunnel ts ts.
Proof. by repeat split. Qed.

Lemma same_tunnel_trans t1 t2 t3 : same_tunnel t1 t2 -> same_tunnel t2 t3 -> same_tunnel t1 t3.
Proof. unfold same_tunnel. naive_solver congruence. Qed.

Lemma to_clean_stable T tid s s' rc rc' y token l :
  stable T tid s s' rc rc' -> Some l <> T -> to_clean s rc y token l -> to_clean s' rc' y token l.
Proof.
  intros Hst HT (ts & Ho & Hy & Ht & Hty & Hrc). destruct (st_obj _ _ _ _ _ _ Hst l ts Ho) as (ts' & Ho' & E1 & E2 & E3 & _).
  exists ts'. rewrite E1, E2, E3. split_and!; try done.
  rewrite (st_rc _ _ _ _ _ _ Hst); [done | done |]. by intros l' [= <-].
Qed.

(** A permit on other objects survives. *)
Lemma permit_stable T tid s s' rc rc' main tid2 y token g :
  stable T tid s s' rc rc' -> tid2 <> tid -> (forall l, l ∈ locs g -> Some l <> T) ->
  permit_ok s rc main tid2 y token g -> permit_ok s' rc' main tid2 y token g.
Proof.
  intros Hst Hne HT [Hnd Hg]. split; [done|].
  assert (rc' !! inr tid2 = rc !! inr tid2) as Hrc.
  { apply (st_rc _ _ _ _ _ _ Hst); [congruence | done]. }
  assert (forall l, l ∈ locs g -> linked l (srv_tunnelManager s') -> linked l (srv_tunnelManager s)) as Hlk.
  { intros l Hl Hlk. destruct (st_linked _ _ _ _ _ _ Hst l Hlk); [done|]. by destruct (HT l Hl). }
  assert (forall ls, (forall l, l ∈ ls -> l ∈ locs g) -> Forall (to_clean s rc y token) ls ->
            Forall (to_clean s' rc' y token) ls) as Hcl.
  { intros ls Hls. rewrite !Forall_forall. intros Hc l Hl. eapply to_clean_stable; eauto. }
  destruct g as [| |l type name port|ls|l ts ls|l ls]; simpl in *; rewrite ?Hrc; try done.
  - destruct Hg as (? & ? & ts & Ho & E1 & E2 & E3 & Hn & Hp & Hu & Hr). split_and!; try done.
    assert (Some l <> T) as HlT by (apply HT; set_solver).
    destruct (st_obj _ _ _ _ _ _ Hst l ts Ho) as (ts' & Ho' & _ & _ & _ & Hs).
    destruct (Hs HlT) as (S1 & S2 & S3 & S4 & S5). exists ts'. rewrite S1, S2, S3, S4, S5.
    split_and!; try done; [intros Hl'; apply Hu, Hlk; set_solver|].
    rewrite (st_rc _ _ _ _ _ _ Hst); [done | done |]. by intros l' [= <-].
  - destruct Hg as (? & ? & Hf). split_and!; eauto.
  - destruct Hg as (? & ? & Hf & ts1 & Ho & Hs). split_and!; [done | done | |].
    + apply Hcl; [set_solver | done].
    + destruct (st_obj _ _ _ _ _ _ Hst l ts1 Ho) as (ts' & Ho' & _ & _ & _ & Hs').
      exists ts'. split; [done|]. eapply same_tunnel_trans; [done|]. apply Hs', HT. set_solver.
  - destruct Hg as (? & ? & Hf & Hu). split_and!; [done | done | |].
    + apply Hcl; [set_solver | done].
    + intros Hl'. apply Hu, Hlk; [set_solver | done].
Qed.
(** ** Counting *)

Lemma world_counts s s' rc rc' :
  world_ok s rc -> srv_tunnelManager s' = srv_tunnelManager s ->
  (forall t, is_anon t = false -> count t s' = Z.of_nat (issued t rc')) ->
  (forall t c m, srv_quota t s' = Some (c, m) -> 0 <= c <= Z.max 0 m) ->
  (forall l, rc' !! inl l = rc !! inl l \/ (~ linked l (srv_tunnelManager s) /\ rc' !! inl l = None)) ->
  world_ok s' rc'.
Proof.
  intros [Hc Hl Hh Ht Ho Hb] E Hc' Hb' Hrc.
  split; unfold obj in *; rewrite ?E; try done.
  - intros l Hlk. destruct (Hrc l) as [->|[Hn _]]; [by apply Hl | done].
  - intros l t Hr. apply Ho. destruct (Hrc l) as [Heq|[_ Hn]]; [by rewrite <- Heq | congruence].
Qed.

Lemma world_same s s' rc :
  world_ok s rc -> srv_tunnelManager s' = srv_tunnelManager s ->
  (forall t, srv_quota t s' = srv_quota t s) -> world_ok s' rc.
Proof.
  intros Hw E Hq. apply (world_counts s s' rc rc); [done | done | | | by left].
  - intros t Ha. unfold count. rewrite Hq. by apply (wo_count _ _ Hw).
  - intros t c m. rewrite Hq. apply (wo_bounds _ _ Hw).
Qed.

Lemma world_incr s s' rc x t c m :
  world_ok s rc -> srv_tunnelManager s' = srv_tunnelManager s ->
  srv_quota t s = Some (c, m) -> c < m -> srv_quota t s' = Some (c + 1, m) ->
  (forall t', t' <> t -> srv_quota t' s' = srv_quota t' s) ->
  rc !! inr x = None -> world_ok s' (<[inr x := t]> rc).
Proof.
  intros Hw E Hq Hlt Hq' Ho Hx.
  pose proof (wo_bounds _ _ Hw _ _ _ Hq).
  eapply (world_counts s _ rc); [done | done | | | by left; rewrite lookup_insert_ne].
  - intros t' Ha. rewrite issued_insert by done. pose proof (wo_count _ _ Hw t' Ha) as Hc. unfold count in *.
    destruct (decide (t = t')) as [<-|Hne].
    + rewrite Hq'. rewrite Hq in Hc. lia.
    + rewrite Ho by done. lia.
  - intros t' c' m'. destruct (decide (t' = t)) as [->|Hne].
    + rewrite Hq'. intros [= <- <-]. lia.
    + rewrite Ho by done. apply (wo_bounds _ _ Hw).
Qed.

Lemma world_decr s s' rc (x : holder) t :
  world_ok s rc -> srv_tunnelManager s' = srv_tunnelManager s -> is_anon t = false ->
  srv_quota t s' = decr_spec (srv_quota t s) ->
  (forall t', t' <> t -> srv_quota t' s' = srv_quota t' s) ->
  rc !! x = Some t -> (forall l, x = inl l -> ~ linked l (srv_tunnelManager s)) ->
  world_ok s' (delete x rc).
Proof.
  intros Hw E Ha Hq Ho Hx Hu.
  pose proof (wo_count _ _ Hw t Ha) as Hc. rewrite (issued_delete t x t rc Hx), decide_True in Hc by done.
  unfold count in Hc. destruct (srv_quota t s) as [[c m]|] eqn:Eq; [|lia]. simpl in Hq.
  pose proof (wo_bounds _ _ Hw _ _ _ Eq). rewrite bool_decide_true in Hq by lia.
  eapply (world_counts s _ rc); [done | done | | |].
  - intros t' Ha'. pose proof (wo_count _ _ Hw t' Ha') as Hc'. rewrite (issued_delete t' x t rc Hx) in Hc'.
    unfold count in *. destruct (decide (t = t')) as [<-|Hne]; [rewrite Hq; lia|].
    rewrite Ho by done. lia.
  - intros t' c' m'. destruct (decide (t' = t)) as [->|Hne].
    + rewrite Hq. intros [= <- <-]. lia.
    + rewrite Ho by done. apply (wo_bounds _ _ Hw).
  - intros l. destruct (decide (x = inl l)) as [->|Hne].
    + right. split; [by apply Hu | apply lookup_delete_eq].
    + left. by rewrite lookup_delete_ne.
Qed.

(** The two stores do the same through the server. *)
Lemma key_incr_quota key ks s :
  IsAPIKey key = true -> KeyStore_IncrementTunnels key (srv_keyStore s) = (ks, None) ->
  exists c m, srv_quota key s = Some (c, m) /\ c < m /\ srv_quota key (with_keyStore ks s) = Some (c + 1, m) /\
    forall t, t <> key -> srv_quota t (with_keyStore ks s) = srv_quota t s.
Proof.
  intros Hk Hi. destruct (incr_cases key (srv_keyStore s)) as [(e & He)|(s' & c & m & He & Hq & Hlt & Hq' & Ho)];
    cbn in He; rewrite Hi in He; simplify_eq.
  exists c, m. unfold srv_quota. rewrite Hk. split_and!; try done.
  intros t Hne. destruct (IsAPIKey t); [by apply Ho | done].
Qed.

Lemma key_incr_error key ks e s :
  KeyStore_IncrementTunnels key (srv_keyStore s) = (ks, Some e) -> ks = srv_keyStore s.
Proof.
  intros Hi. destruct (incr_cases key (srv_keyStore s)) as [(e' & He)|(s' & c & m & He & _)];
    cbn in He; rewrite Hi in He; by simplify_eq.
Qed.

Lemma token_incr_quota t ts s :
  IsAPIKey t = false -> TokenStore_IncrementTunnels t (srv_tokenStore s) = (ts, None) ->
  exists c m, srv_quota t s = Some (c, m) /\ c < m /\ srv_quota t (with_tokenStore ts s) = Some (c + 1, m) /\
    forall t', t' <> t -> srv_quota t' (with_tokenStore ts s) = srv_quota t' s.
Proof.
  intros Hk Hi. destruct (incr_cases t (srv_tokenStore s)) as [(e & He)|(s' & c & m & He & Hq & Hlt & Hq' & Ho)];
    cbn in He; rewrite Hi in He; simplify_eq.
  exists c, m. unfold srv_quota. rewrite Hk. split_and!; try done.
  intros t' Hne. destruct (IsAPIKey t'); [done | by apply Ho].
Qed.

Lemma token_incr_error t ts e s :
  TokenStore_IncrementTunnels t (srv_tokenStore s) = (ts, Some e) -> ts = srv_tokenStore s.
Proof.
  intros Hi. destruct (incr_cases t (srv_tokenStore s)) as [(e' & He)|(s' & c & m & He & _)];
    cbn in He; rewrite Hi in He; by simplify_eq.
Qed.

Lemma key_decr_quota key s :
  let s' := with_keyStore (KeyStore_DecrementTunnels key (srv_keyStore s)) s in
  IsAPIKey key = true -> srv_quota key s' = decr_spec (srv_quota key s) /\
    forall t, t <> key -> srv_quota t s' = srv_quota t s.
Proof.
  intros s' Hk. unfold srv_quota.
  change (srv_keyStore s') with (DecrementTunnels key (srv_keyStore s)).
  rewrite Hk. split; [apply decr_self|].
  intros t Hne. destruct (IsAPIKey t); [by apply decr_other | done].
Qed.

Lemma token_decr_quota t s :
  let s' := with_tokenStore (TokenStore_DecrementTunnels t (srv_tokenStore s)) s in
  IsAPIKey t = false -> srv_quota t s' = decr_spec (srv_quota t s) /\
    forall t', t' <> t -> srv_quota t' s' = srv_quota t' s.
Proof.
  intros s' Hk. unfold srv_quota.
  change (srv_tokenStore s') with (DecrementTunnels t (srv_tokenStore s)).
  rewrite Hk. split; [apply decr_self|].
  intros t' Hne. destruct (IsAPIKey t'); [done | by apply decr_other].
Qed.

(** A new key starts with no tunnel. *)
Lemma quota_CreateKey b now w name subs max ks t :
  keys ks !! GenerateAPIKey b = None ->
  quota t (CreateKey b now w name subs max ks).1 = quota t ks \/
  (quota t ks = None /\ exists m, quota t (CreateKey b now w name subs max ks).1 = Some (0, m)).
Proof.
  intros Hfresh. unfold CreateKey. destruct (String.eqb name ""); [by left|].
  destruct (check_subdomains subs ks); [by left|].
  set (k := {| Name := name; Subdomains := subs |}). set (ks1 := with_keys _ ks).
  pose proof (keys_saveLocked w ks1) as Hkeys. destruct (saveLocked w ks1) as [ks2 [e|]]; simpl in Hkeys.
  - left. cbn. unfold KeyStore_quota. cbn [keys with_keys]. rewrite Hkeys. subst ks1. cbn [keys with_keys].
    by rewrite delete_insert_id.
  - cbn. unfold KeyStore_quota. rewrite Hkeys. subst ks1. cbn [keys with_keys].
    destruct (decide (t = GenerateAPIKey b)) as [->|Hne].
    + right. rewrite lookup_insert_eq, Hfresh. split; [done | by eexists].
    + left. by rewrite lookup_insert_ne.
Qed.
(** ** The registry *)

(** A change that unfiles tunnels at most, and keeps what identifies them. *)
Record shrinks s s' : Prop := {
  sh_quota t : srv_quota t s' = srv_quota t s;
  sh_obj l ts : obj s l = Some ts -> exists ts', obj s' l = Some ts' /\ same_tunnel ts ts';
  sh_http sub l : httpTunnels (srv_tunnelManager s') !! sub = Some l ->
    httpTunnels (srv_tunnelManager s) !! sub = Some l;
  sh_tcp p l : tcpTunnels (srv_tunnelManager s') !! p = Some l ->
    tcpTunnels (srv_tunnelManager s) !! p = Some l;
  sh_back l ts' : obj s' l = Some ts' -> exists ts, obj s l = Some ts /\ same_tunnel ts ts';
}.

Lemma shrinks_linked s s' l :
  shrinks s s' -> linked l (srv_tunnelManager s') -> linked l (srv_tunnelManager s).
Proof. intros Hs [[k Hk]|[k Hk]]; [left | right]; exists k; by apply Hs. Qed.

Lemma shrinks_same s s' :
  srv_tunnelManager s' = srv_tunnelManager s -> (forall t, srv_quota t s' = srv_quota t s) -> shrinks s s'.
Proof.
  intros E Hq. split; unfold obj; rewrite ?E; try done;
    intros l ts Ho; exists ts; (split; [done|]; apply same_tunnel_refl).
Qed.

Lemma world_shrink s s' rc : world_ok s rc -> shrinks s s' -> world_ok s' rc.
Proof.
  intros Hw Hs. split.
  - intros t Ha. unfold count. rewrite (sh_quota _ _ Hs). by apply (wo_count _ _ Hw).
  - intros l Hl. destruct (wo_linked _ _ Hw l (shrinks_linked _ _ _ Hs Hl)) as (ts & Ho & Hr).
    destruct (sh_obj _ _ Hs l ts Ho) as (ts' & Ho' & E & _). exists ts'. by rewrite E.
  - intros sub l Hl. destruct (wo_http _ _ Hw sub l (sh_http _ _ Hs _ _ Hl)) as (ts & Ho & H1 & H2).
    destruct (sh_obj _ _ Hs l ts Ho) as (ts' & Ho' & _ & E1 & _ & E2 & _). exists ts'. by rewrite E1, E2.
  - intros p l Hl. destruct (wo_tcp _ _ Hw p l (sh_tcp _ _ Hs _ _ Hl)) as (ts & Ho & H1 & H2).
    destruct (sh_obj _ _ Hs l ts Ho) as (ts' & Ho' & _ & E1 & _ & _ & E2). exists ts'. by rewrite E1, E2.
  - intros l t Hr. destruct (wo_objects _ _ Hw l t Hr) as (ts & Ho & <-).
    destruct (sh_obj _ _ Hs l ts Ho) as (ts' & Ho' & E & _). by exists ts'.
  - intros t c m. rewrite (sh_quota _ _ Hs). apply (wo_bounds _ _ Hw).
Qed.

Lemma stable_shrink tid s s' rc rc' :
  shrinks s s' -> (forall x, x <> inr tid -> rc' !! x = rc !! x) -> stable None tid s s' rc rc'.
Proof.
  intros Hs Hrc. split; [| intros l Hl; left; by eapply shrinks_linked | by auto].
  intros l ts Ho. destruct (sh_obj _ _ Hs l ts Ho) as (ts' & Ho' & Hsame). exists ts'.
  destruct Hsame as (E1 & E2 & E3 & E4 & E5). by split_and!.
Qed.

(** Filing an owned object: its receipt moves from the goroutine to the object. *)
Lemma world_file s s' rc tid token y l type name port :
  world_ok s rc -> rc !! inr tid = Some token -> owned s rc y token l type name port ->
  (forall t, srv_quota t s' = srv_quota t s) ->
  (forall l' ts, obj s l' = Some ts -> exists ts', obj s' l' = Some ts' /\ same_tunnel ts ts') ->
  (forall sub l', httpTunnels (srv_tunnelManager s') !! sub = Some l' ->
     httpTunnels (srv_tunnelManager s) !! sub = Some l' \/ l' = l /\ type = "http"%string /\ name = Some sub) ->
  (forall p l', tcpTunnels (srv_tunnelManager s') !! p = Some l' ->
     tcpTunnels (srv_tunnelManager s) !! p = Some l' \/ l' = l /\ type = "tcp"%string /\ port = Some p) ->
  world_ok s' (<[inl l := token]> (delete (inr tid) rc)).
Proof.
  intros Hw Hr (ts & Ho & Et & Ey & Ety & En & Ep & Hu & Hnone) Hq Hobj Hh Ht.
  assert (exists ts', obj s' l = Some ts' /\ same_tunnel ts ts') as (tsl & Hl' & Hsame) by by apply Hobj.
  destruct Hsame as (E1 & E2 & _ & E4 & E5).
  assert (forall l', linked l' (srv_tunnelManager s') -> l' <> l -> linked l' (srv_tunnelManager s)) as Hlk.
  { intros l' [[k Hk]|[k Hk]] Hne; [destruct (Hh k l' Hk) as [?|[? _]] | destruct (Ht k l' Hk) as [?|[? _]]];
      try done; [left | right]; eauto. }
  split.
  - intros t Ha. unfold count. rewrite Hq, (issued_move t (inr tid) (inl l) token rc) by done.
    by apply (wo_count _ _ Hw).
  - intros l' Hl. destruct (decide (l' = l)) as [->|Hne].
    + exists tsl. rewrite lookup_insert_eq, E1, Et. done.
    + destruct (wo_linked _ _ Hw l' (Hlk l' Hl Hne)) as (ts' & Ho' & Hr').
      destruct (Hobj l' ts' Ho') as (ts2 & Ho2 & Es & _). exists ts2.
      rewrite lookup_insert_ne, lookup_delete_ne, Es by congruence. done.
  - intros sub l' Hk. destruct (Hh sub l' Hk) as [Hold|(-> & Ety' & En')].
    + destruct (wo_http _ _ Hw sub l' Hold) as (ts' & Ho' & F1 & F2).
      destruct (Hobj l' ts' Ho') as (ts2 & Ho2 & _ & G1 & _ & G2 & _). exists ts2. by rewrite G1, G2.
    + exists tsl. rewrite E2, E4, Ety, (En sub) by done. done.
  - intros p l' Hk. destruct (Ht p l' Hk) as [Hold|(-> & Ety' & Ep')].
    + destruct (wo_tcp _ _ Hw p l' Hold) as (ts' & Ho' & F1 & F2).
      destruct (Hobj l' ts' Ho') as (ts2 & Ho2 & _ & G1 & _ & _ & G2). exists ts2. by rewrite G1, G2.
    + exists tsl. rewrite E2, E5, Ety, (Ep p) by done. done.
  - intros l' t Hr'. apply lookup_insert_Some in Hr' as [[[= <-] <-]|[Hne Hr']]; [exists tsl; by rewrite E1|].
    apply lookup_delete_Some in Hr' as [_ Hr']. destruct (wo_objects _ _ Hw l' t Hr') as (ts' & Ho' & <-).
    destruct (Hobj l' ts' Ho') as (ts2 & Ho2 & Es & _). by exists ts2.
  - intros t c m. rewrite Hq. apply (wo_bounds _ _ Hw).
Qed.

Lemma stable_file s s' rc tid token l :
  (forall l' ts, obj s l' = Some ts -> exists ts', obj s' l' = Some ts' /\ same_tunnel ts ts') ->
  (forall l', linked l' (srv_tunnelManager s') -> linked l' (srv_tunnelManager s) \/ l' = l) ->
  stable (Some l) tid s s' rc (<[inl l := token]> (delete (inr tid) rc)).
Proof.
  intros Ho Hl. split.
  - intros l' ts Hl'. destruct (Ho l' ts Hl') as (ts' & Ho' & E1 & E2 & E3 & E4 & E5).
    exists ts'. by split_and!.
  - intros l' Hl'. destruct (Hl l' Hl') as [?| ->]; auto.
  - intros x Hx Hne. rewrite lookup_insert_ne by (intros <-; by eapply Hne).
    by rewrite lookup_delete_ne.
Qed.

(** An assignment to an object that is not filed. *)
Lemma world_update s s' rc l f :
  world_ok s rc -> srv_tunnelManager s' = update l f (srv_tunnelManager s) ->
  (forall t, srv_quota t s' = srv_quota t s) ->
  ~ linked l (srv_tunnelManager s) -> rc !! inl l = None -> world_ok s' rc.
Proof.
  intros Hw E Hq Hu Hr.
  assert (forall l', l' <> l -> obj s' l' = obj s l') as Ho.
  { intros l' Hne. unfold obj. rewrite E. simpl. by rewrite lookup_alter_ne. }
  split; try rewrite E.
  - intros t Ha. unfold count. rewrite Hq. by apply (wo_count _ _ Hw).
  - intros l' Hl. rewrite Ho; [by apply (wo_linked _ _ Hw) | by intros ->].
  - intros sub l' Hl. rewrite Ho; [by apply (wo_http _ _ Hw)|]. intros ->. apply Hu. left. by exists sub.
  - intros p l' Hl. rewrite Ho; [by apply (wo_tcp _ _ Hw)|]. intros ->. apply Hu. right. by exists p.
  - intros l' t Hr'. rewrite Ho by congruence. by apply (wo_objects _ _ Hw).
  - intros t c m. rewrite Hq. apply (wo_bounds _ _ Hw).
Qed.
(** ** One operation of a goroutine *)

(** Where the objects of the new permit come from. *)
Definition locs_from s (main : bool) (y : session_id) g g' : Prop :=
  forall l, l ∈ locs g' -> l ∈ locs g \/ obj s l = None \/
    (main = true /\ linked l (srv_tunnelManager s) /\ exists ts, obj s l = Some ts /\ ts_Session ts = Some y).

(** Every object was there before, or is a new one of this session. *)
Definition objects_from (main : bool) s s' (y : session_id) (token : string) : Prop :=
  forall l ts', obj s' l = Some ts' ->
    (exists ts, obj s l = Some ts /\ ts_Token ts' = ts_Token ts /\ ts_Session ts' = ts_Session ts) \/
    (main = false /\ ts_Token ts' = token /\ ts_Session ts' = Some y).

Definition outcome (main : bool) (tid : nat) (y : session_id) (token : string) s s' rc g (K : permit -> Prop) : Prop :=
  exists rc' g', K g' /\ world_ok s' rc' /\ permit_ok s' rc' main tid y token g' /\
    stable (touched g) tid s s' rc rc' /\ locs_from s main y g g' /\ objects_from main s s' y token.

Lemma stable_weaken T tid s s' rc rc' : stable None tid s s' rc rc' -> stable T tid s s' rc rc'.
Proof.
  intros [H1 H2 H3]. split.
  - intros l ts Ho. destruct (H1 l ts Ho) as (ts' & ? & ? & ? & ? & Hs). exists ts'. split_and!; try done.
    intros _. by apply Hs.
  - intros l Hl. left. by destruct (H2 l Hl).
  - intros x Hx _. by apply H3.
Qed.

Lemma locs_from_sub s main y g g' : (forall l, l ∈ locs g' -> l ∈ locs g) -> locs_from s main y g g'.
Proof. intros Hs l Hl. left. auto. Qed.

Lemma objects_from_shrink main s s' y token : shrinks s s' -> objects_from main s s' y token.
Proof.
  intros Hs l ts' Ho. left. destruct (sh_back _ _ Hs l ts' Ho) as (ts & Ho' & E1 & _ & E3 & _). by exists ts.
Qed.

Lemma permit_shrink s s' rc main tid y token g :
  shrinks s s' -> permit_ok s rc main tid y token g -> permit_ok s' rc main tid y token g.
Proof.
  intros Hs. apply (permit_stable None (S tid) s s' rc rc); [by apply stable_shrink | lia | done].
Qed.

(** An operation that changes nothing a permit is about. *)
Lemma outcome_shrink main tid y token s s' rc g (K : permit -> Prop) :
  world_ok s rc -> permit_ok s rc main tid y token g -> shrinks s s' -> K g ->
  outcome main tid y token s s' rc g K.
Proof.
  intros Hw Hp Hs HK. exists rc, g. split_and!; [done | by eapply world_shrink | by eapply permit_shrink | | |].
  - apply stable_weaken. by apply stable_shrink.
  - by apply locs_from_sub.
  - by apply objects_from_shrink.
Qed.

(** Counting a tunnel. *)
Lemma outcome_incr tid y t s s' rc (K : permit -> Prop) c m :
  world_ok s rc -> permit_ok s rc false tid y t Idle -> srv_tunnelManager s' = srv_tunnelManager s ->
  srv_quota t s = Some (c, m) -> c < m -> srv_quota t s' = Some (c + 1, m) ->
  (forall t', t' <> t -> srv_quota t' s' = srv_quota t' s) -> K Counted ->
  outcome false tid y t s s' rc Idle K.
Proof.
  intros Hw [_ Hr] E Hq Hlt Hq' Ho HK. simpl in Hr. exists (<[inr tid := t]> rc), Counted. split_and!.
  - done.
  - by eapply world_incr.
  - split; [constructor|]. split; [done | apply lookup_insert_eq].
  - split; unfold obj; rewrite ?E; [| by left | intros; by rewrite lookup_insert_ne].
    intros l ts Hl. exists ts. split_and!; done.
  - apply locs_from_sub. done.
  - intros l ts. unfold obj. rewrite E. intros Hl. left. by exists ts.
Qed.

(** Forgetting the receipt of an object that is not filed, or the goroutine's own. *)
Lemma stable_forget tid s s' rc T :
  srv_tunnelManager s' = srv_tunnelManager s -> (forall x, x <> inr tid -> (forall l, x = inl l -> Some l <> T) ->
    delete (match T with Some l => inl l | None => inr tid end) rc !! x = rc !! x) ->
  stable T tid s s' rc (delete (match T with Some l => inl l | None => inr tid end) rc).
Proof.
  intros E Hrc. split; unfold obj; rewrite ?E; [| by left | done].
  intros l ts Hl. exists ts. split_and!; done.
Qed.

Lemma to_clean_delete s s' rc y token l ls :
  (forall l', obj s' l' = obj s l') -> l ∉ ls ->
  Forall (to_clean s rc y token) ls -> Forall (to_clean s' (delete (inl l) rc) y token) ls.
Proof.
  intros E Hni. rewrite !Forall_forall. intros Hf l' Hin.
  destruct (Hf l' Hin) as (ts & Ho & ? & ? & ? & ?). exists ts. rewrite E. split_and!; try done.
  rewrite lookup_delete_ne; [done|]. intros [= <-]. done.
Qed.

Lemma outcome_decr main tid y t s s' rc g (K : permit -> Prop) :
  world_ok s rc -> permit_ok s rc main tid y t g -> srv_tunnelManager s' = srv_tunnelManager s ->
  is_anon t = false -> srv_quota t s' = decr_spec (srv_quota t s) ->
  (forall t', t' <> t -> srv_quota t' s' = srv_quota t' s) -> decrement_ok main g K ->
  outcome main tid y t s s' rc g K.
Proof.
  intros Hw [Hnd Hp] E Ha Hq Ho Hd.
  assert (objects_from main s s' y t) as Hof.
  { intros l ts. unfold obj. rewrite E. intros Hl. left. by exists ts. }
  assert (forall l, obj s' l = obj s l) as Eobj by (intros; unfold obj; by rewrite E).
  assert (forall T, (T = None \/ T = touched g) -> rc !! inr tid = Some t ->
            K Idle -> outcome main tid y t s s' rc g K) as Hown.
  { intros _ _ Hr HK. exists (delete (inr tid) rc), Idle. split_and!; [done | | | | | done].
    - eapply world_decr; try done.
    - split; [constructor | apply lookup_delete_eq].
    - apply stable_weaken. apply (stable_forget tid s s' rc None E).
      intros x Hx _. by rewrite lookup_delete_ne.
    - apply locs_from_sub. intros l Hl. by apply elem_of_nil in Hl. }
  destruct g as [| |l type name port|ls|l ts ls|l ls]; simpl in Hd; try done.
  - destruct Hd as [_ HK]. apply (Hown None); [by left | by apply Hp | done].
  - destruct Hd as [_ HK]. apply (Hown None); [by left | by apply Hp | done].
  - destruct Hp as (-> & Hr & Hf & Hu). pose proof Hf as Hf'. apply Forall_cons in Hf' as [Hl Hls].
    destruct Hl as (ts & Hobj & _ & _ & _ & Hrl). apply NoDup_cons in Hnd as [Hni Hnd].
    exists (delete (inl l) rc), (Cleaning ls). split_and!; [done | | | | | done].
    + eapply world_decr; try done. by intros l' [= <-].
    + split; [done|]. split_and!; [done | by rewrite lookup_delete_ne | by eapply to_clean_delete].
    + apply (stable_forget tid s s' rc (Some l) E). intros x Hx HT.
      rewrite lookup_delete_ne; [done|]. intros <-. by eapply HT.
    + apply locs_from_sub. simpl. set_solver.
Qed.
(** Creating an object. *)
Lemma outcome_new tid y token s rc (K : permit -> Prop) l ts :
  world_ok s rc ->
  permit_ok s rc false tid y token (if is_anon token then Idle else Counted) ->
  ts_Token ts = token -> ts_Session ts = Some y -> obj s l = None -> K (Owns l (ts_Type ts) None None) ->
  outcome false tid y token s (with_tm (alloc l ts (srv_tunnelManager s)) s) rc
    (if is_anon token then Idle else Counted) K.
Proof.
  intros Hw [_ Hp] Ht Hy Hl HK. set (s' := with_tm _ s).
  set (rc' := <[inr tid := token]> (delete (inr tid) rc)).
  assert (forall t, is_anon t = false -> issued t rc' = issued t rc) as Hiss.
  { intros t Ha. unfold rc'. rewrite issued_insert by apply lookup_delete_eq.
    destruct (is_anon token) eqn:Hat.
    - rewrite decide_False by congruence. by rewrite delete_id, Nat.add_0_r.
    - symmetry. apply issued_delete. by destruct Hp. }
  assert (forall l', l' <> l -> obj s' l' = obj s l') as Ho.
  { intros l' Hne. unfold obj, s'. simpl. by rewrite lookup_insert_ne. }
  assert (obj s' l = Some ts) as Hnew by apply lookup_insert_eq.
  assert (forall l' ts', obj s l' = Some ts' -> obj s' l' = Some ts') as Hkeep.
  { intros l' ts' Hl'. rewrite Ho; [done|]. intros ->. congruence. }
  assert (forall l', rc' !! inl l' = rc !! inl l') as Hinl.
  { intros l'. unfold rc'. by rewrite lookup_insert_ne, lookup_delete_ne. }
  assert (rc !! inl l = None) as Hrl.
  { apply eq_None_not_Some. intros [t Hr]. destruct (wo_objects _ _ Hw l t Hr) as (? & ? & _). congruence. }
  exists rc', (Owns l (ts_Type ts) None None). split_and!; [done | | | | |].
  - split; simpl.
    + intros t Ha. rewrite Hiss by done. by apply (wo_count _ _ Hw).
    + intros l' Hlk. rewrite Hinl. destruct (wo_linked _ _ Hw l' Hlk) as (ts' & ? & ?). eauto.
    + intros sub l' Hk. destruct (wo_http _ _ Hw sub l' Hk) as (ts' & ? & ?). eauto.
    + intros p l' Hk. destruct (wo_tcp _ _ Hw p l' Hk) as (ts' & ? & ?). eauto.
    + intros l' t. rewrite Hinl. intros Hr. destruct (wo_objects _ _ Hw l' t Hr) as (ts' & ? & ?). eauto.
    + apply (wo_bounds _ _ Hw).
  - split; [apply NoDup_singleton|]. split_and!; [done | apply lookup_insert_eq |].
    exists ts. split_and!; try done; [|by rewrite Hinl].
    intros Hlk. destruct (wo_linked _ _ Hw l Hlk) as (? & ? & _). congruence.
  - assert (touched (if is_anon token then Idle else Counted) = None) as -> by by destruct (is_anon token).
    split; [| by left |].
    + intros l' ts' Hl'. exists ts'. split_and!; try done. by apply Hkeep.
    + intros x Hx _. unfold rc'. by rewrite lookup_insert_ne, lookup_delete_ne.
  - intros l' Hin. simpl in Hin. apply list_elem_of_singleton in Hin as ->. right. by left.
  - intros l' ts' Hl'. destruct (decide (l' = l)) as [->|Hne].
    + right. rewrite Hnew in Hl'. by simplify_eq.
    + left. rewrite Ho in Hl' by done. by exists ts'.
Qed.

(** An assignment to the goroutine's own object. *)
Lemma outcome_set tid y token s rc (K : permit -> Prop) l f type name port name' port' :
  world_ok s rc -> permit_ok s rc false tid y token (Owns l type name port) ->
  (forall ts, ts_Token (f ts) = ts_Token ts /\ ts_Session (f ts) = ts_Session ts /\ ts_Type (f ts) = ts_Type ts) ->
  (forall ts, (forall sub, name = Some sub -> ts_Subdomain ts = sub) ->
              (forall p, port = Some p -> ts_Port ts = p) ->
              (forall sub, name' = Some sub -> ts_Subdomain (f ts) = sub) /\
              (forall p, port' = Some p -> ts_Port (f ts) = p)) ->
  K (Owns l type name' port') ->
  outcome false tid y token s (with_tm (update l f (srv_tunnelManager s)) s) rc (Owns l type name port) K.
Proof.
  intros Hw [_ (_ & Hr & ts & Ho & Et & Ey & Ety & En & Ep & Hu & Hnone)] Hf Hnp HK.
  set (s' := with_tm _ s).
  assert (obj s' l = Some (f ts)) as Hl.
  { unfold obj, s' in *. simpl. by rewrite lookup_alter_eq, Ho. }
  assert (forall l', l' <> l -> obj s' l' = obj s l') as Hne.
  { intros l' Hn. unfold obj, s'. simpl. by rewrite lookup_alter_ne. }
  destruct (Hf ts) as (F1 & F2 & F3). destruct (Hnp ts En Ep) as [G1 G2].
  exists rc, (Owns l type name' port'). split_and!; [done | | | | |].
  - by eapply world_update.
  - split; [apply NoDup_singleton|]. split_and!; [done | done |].
    exists (f ts). rewrite F1, F2, F3. by split_and!.
  - split; [| by left | done].
    intros l' ts' Hl'. destruct (decide (l' = l)) as [->|Hn].
    + rewrite Ho in Hl'. simplify_eq. exists (f ts'). by split_and!.
    + exists ts'. rewrite Hne by done. by split_and!.
  - by apply locs_from_sub.
  - intros l' ts' Hl'. left. destruct (decide (l' = l)) as [->|Hn].
    + rewrite Hl in Hl'. simplify_eq. by exists ts.
    + rewrite Hne in Hl' by done. by exists ts'.
Qed.

(** Filing the goroutine's own object, under its subdomain or its port. *)
Lemma outcome_file tid y token s s' rc (K : permit -> Prop) l type name port :
  world_ok s rc -> permit_ok s rc false tid y token (Owns l type name port) ->
  (forall t, srv_quota t s' = srv_quota t s) ->
  (forall l' ts, obj s l' = Some ts -> exists ts', obj s' l' = Some ts' /\ same_tunnel ts ts') ->
  (forall l' ts', obj s' l' = Some ts' -> exists ts, obj s l' = Some ts /\ same_tunnel ts ts') ->
  (forall sub l', httpTunnels (srv_tunnelManager s') !! sub = Some l' ->
     httpTunnels (srv_tunnelManager s) !! sub = Some l' \/ l' = l /\ type = "http"%string /\ name = Some sub) ->
  (forall p l', tcpTunnels (srv_tunnelManager s') !! p = Some l' ->
     tcpTunnels (srv_tunnelManager s) !! p = Some l' \/ l' = l /\ type = "tcp"%string /\ port = Some p) ->
  K Idle -> outcome false tid y token s s' rc (Owns l type name port) K.
Proof.
  intros Hw [_ (_ & Hr & Hown)] Hq Hobj Hback Hh Ht HK.
  exists (<[inl l := token]> (delete (inr tid) rc)), Idle. split_and!; [done | | | | |].
  - by eapply world_file.
  - split; [constructor|]. simpl. by rewrite lookup_insert_ne, lookup_delete_eq.
  - apply stable_file; [done|]. intros l' [[k Hk]|[k Hk]].
    + destruct (Hh k l' Hk) as [?|[? _]]; [left; left; eauto | by right].
    + destruct (Ht k l' Hk) as [?|[? _]]; [left; right; eauto | by right].
  - apply locs_from_sub. intros l' Hl. by apply elem_of_nil in Hl.
  - intros l' ts' Hl'. left. destruct (Hback l' ts' Hl') as (ts & ? & ? & _ & ? & _). by exists ts.
Qed.

(** Unfiling the object whose fields the goroutine has read. *)
Lemma outcome_unfile tid y token s s' rc (K : permit -> Prop) l ts ls :
  world_ok s rc -> permit_ok s rc true tid y token (Seen l ts ls) -> shrinks s s' ->
  (forall l', obj s' l' = obj s l') ->
  ~ linked l (srv_tunnelManager s') -> unfile_ok token l ls K ->
  outcome true tid y token s s' rc (Seen l ts ls) K.
Proof.
  intros Hw Hp Hs Eo Hu HK. pose proof (world_shrink _ _ _ Hw Hs) as Hw'.
  destruct (permit_shrink _ _ _ _ _ _ _ _ Hs Hp) as [Hnd (_ & Hr & Hf & _)].
  pose proof Hnd as Hnd'. apply NoDup_cons in Hnd' as [Hni Hnd'].
  pose proof Hf as Hf'. apply Forall_cons in Hf' as [(ts' & Ho & _ & _ & _ & Hrl) Hls].
  unfold unfile_ok in HK. destruct (is_anon token) eqn:Ha.
  - exists (delete (inl l) rc), (Cleaning ls). split_and!; [done | | | | |].
    + apply (world_counts s' _ rc); [done | done | | apply (wo_bounds _ _ Hw') |].
      * intros t Hat. rewrite (wo_count _ _ Hw' t Hat). rewrite (issued_delete t (inl l) token rc Hrl).
        rewrite decide_False by congruence. by rewrite Nat.add_0_r.
      * intros l'. destruct (decide (l' = l)) as [->|Hne]; [right; split; [done | apply lookup_delete_eq]|].
        left. by rewrite lookup_delete_ne by congruence.
    + split; [done|]. split_and!; [done | by rewrite lookup_delete_ne |].
      by apply (to_clean_delete s').
    + split.
      * intros l' ts1 Ho1. destruct (sh_obj _ _ Hs l' ts1 Ho1) as (ts2 & ? & Hsm). exists ts2.
        pose proof Hsm as (? & ? & ? & _). by split_and!.
      * intros l' Hl'. left. by eapply shrinks_linked.
      * intros x Hx HT. rewrite lookup_delete_ne; [done|]. intros <-. by eapply HT.
    + apply locs_from_sub. simpl. set_solver.
    + by apply objects_from_shrink.
  - exists rc, (Unfiled l ls). split_and!; [done | done | | | |].
    + split; [done|]. by split_and!.
    + apply stable_weaken. by apply stable_shrink.
    + by apply locs_from_sub.
    + by apply objects_from_shrink.
Qed.
(** *** [SessionTunnels] *)

Lemma elem_of_SessionTunnels y (tm : TunnelManager) l :
  l ∈ SessionTunnels y tm <-> linked l tm /\ ts_Session (deref tm l) = Some y.
Proof.
  unfold SessionTunnels, linked.
  rewrite elem_of_app, !list_elem_of_In, !filter_In, <- !list_elem_of_In, elem_of_http_list,
    elem_of_tcp_list, bool_decide_eq_true. tauto.
Qed.

Lemma NoDup_values {A B} (r : list (A * B)) :
  NoDup r -> (forall k1 k2 v, (k1, v) ∈ r -> (k2, v) ∈ r -> k1 = k2) -> NoDup r.*2.
Proof.
  intros Hnd Hinj. apply NoDup_fmap_2_strong; [|done].
  intros [k1 v1] [k2 v2] H1 H2 Heq. simpl in Heq. subst v2. by rewrite (Hinj k1 k2 v1 H1 H2).
Qed.

Lemma NoDup_http_list s rc : world_ok s rc -> NoDup (http_list (srv_tunnelManager s)).
Proof.
  intros Hw. apply NoDup_values; [apply NoDup_range|]. intros k1 k2 v H1%elem_of_range H2%elem_of_range.
  destruct (wo_http _ _ Hw k1 v H1) as (? & ? & _ & <-). destruct (wo_http _ _ Hw k2 v H2) as (? & ? & _ & <-).
  congruence.
Qed.

Lemma NoDup_tcp_list s rc : world_ok s rc -> NoDup (tcp_list (srv_tunnelManager s)).
Proof.
  intros Hw. apply NoDup_values; [apply NoDup_range|]. intros k1 k2 v H1%elem_of_range H2%elem_of_range.
  destruct (wo_tcp _ _ Hw k1 v H1) as (? & ? & _ & <-). destruct (wo_tcp _ _ Hw k2 v H2) as (? & ? & _ & <-).
  congruence.
Qed.

Lemma NoDup_SessionTunnels s rc y : world_ok s rc -> NoDup (SessionTunnels y (srv_tunnelManager s)).
Proof.
  intros Hw. unfold SessionTunnels. apply NoDup_app. split_and!.
  - apply NoDup_ListNoDup, List.NoDup_filter, NoDup_ListNoDup. by eapply NoDup_http_list.
  - intros l H1 H2. apply list_elem_of_In, filter_In in H1 as [H1 _]. apply list_elem_of_In, filter_In in H2 as [H2 _].
    apply list_elem_of_In, elem_of_http_list in H1 as [k1 H1]. apply list_elem_of_In, elem_of_tcp_list in H2 as [k2 H2].
    destruct (wo_http _ _ Hw _ _ H1) as (? & ? & ? & _). destruct (wo_tcp _ _ Hw _ _ H2) as (? & ? & ? & _).
    congruence.
  - apply NoDup_ListNoDup, List.NoDup_filter, NoDup_ListNoDup. by eapply NoDup_tcp_list.
Qed.

(** A session runs with one token. *)
Definition session_token s (y : session_id) (token : string) : Prop :=
  forall l ts, obj s l = Some ts -> ts_Session ts = Some y -> ts_Token ts = token.

Lemma to_clean_SessionTunnels s rc y token l :
  world_ok s rc -> session_token s y token -> l ∈ SessionTunnels y (srv_tunnelManager s) ->
  to_clean s rc y token l.
Proof.
  intros Hw Hst Hin. apply elem_of_SessionTunnels in Hin as [Hl Hy].
  destruct (wo_linked _ _ Hw l Hl) as (ts & Ho & Hr). rewrite (deref_lookup _ _ ts Ho) in Hy.
  pose proof (Hst l ts Ho Hy) as <-. exists ts. split_and!; try done.
  destruct Hl as [[k Hk]|[k Hk]].
  - destruct (wo_http _ _ Hw k l Hk) as (ts' & Ho' & ? & _). left. congruence.
  - destruct (wo_tcp _ _ Hw k l Hk) as (ts' & Ho' & ? & _). right. congruence.
Qed.

Lemma outcome_SessionTunnels tid y token s rc g (K : permit -> Prop) :
  world_ok s rc -> permit_ok s rc true tid y token g -> session_token s y token ->
  (g = Idle \/ exists ls, g = Cleaning ls) -> K (Cleaning (SessionTunnels y (srv_tunnelManager s))) ->
  outcome true tid y token s s rc g K.
Proof.
  intros Hw [Hnd Hp] Hst Hg HK. exists rc, (Cleaning (SessionTunnels y (srv_tunnelManager s))).
  assert (rc !! inr tid = None) as Hr by (destruct Hg as [-> |[ls ->]]; [done | by destruct Hp as (_ & ? & _)]).
  split_and!; [done | done | | | |].
  - split; [by eapply NoDup_SessionTunnels|]. split_and!; [done | done |].
    apply Forall_forall. intros l Hl. by apply to_clean_SessionTunnels.
  - apply stable_weaken, stable_shrink; [by apply shrinks_same | done].
  - intros l Hl. simpl in Hl. right. right. split; [done|].
    apply elem_of_SessionTunnels in Hl as [Hl Hy]. split; [done|].
    destruct (wo_linked _ _ Hw l Hl) as (ts & Ho & _). exists ts. split; [done|].
    by rewrite (deref_lookup _ _ ts Ho) in Hy.
  - apply objects_from_shrink. by apply shrinks_same.
Qed.

Lemma outcome_deref tid y token s rc main g l (K : TunnelSession -> permit -> Prop) :
  world_ok s rc -> permit_ok s rc main tid y token g ->
  op_ok main y token _ (EDeref l) g K ->
  outcome main tid y token s s rc g (K (deref (srv_tunnelManager s) l)).
Proof.
  intros Hw Hp [HK|(ls & -> & HK)].
  { apply outcome_shrink; [done | done | by apply shrinks_same | done]. }
  destruct Hp as [Hnd (-> & Hr & Hf)]. pose proof Hf as Hf'.
  apply Forall_cons in Hf' as [(ts & Ho & _ & _ & Hty & _) _].
  exists rc, (Seen l ts ls). rewrite (deref_lookup _ _ ts Ho). split_and!; [by apply HK | done | | | |].
  - split; [done|]. split_and!; try done. exists ts. split; [done|]. apply same_tunnel_refl.
  - apply stable_weaken, stable_shrink; [by apply shrinks_same | done].
  - by apply locs_from_sub.
  - apply objects_from_shrink. by apply shrinks_same.
Qed.

(** *** The operations that only unfile or reserve *)

Lemma shrinks_UnregisterHTTP sub s : shrinks s (with_tm (UnregisterHTTP sub (srv_tunnelManager s)) s).
Proof.
  split; try done.
  - intros l ts Ho. exists ts. split; [done | apply same_tunnel_refl].
  - simpl. intros k l Hk. by apply lookup_delete_inv in Hk as [].
  - intros l ts Ho. exists ts. split; [done | apply same_tunnel_refl].
Qed.

Lemma shrinks_UnregisterTCP p effs s :
  shrinks s (add_effects effs (with_tm (UnregisterTCP p (srv_tunnelManager s)).1 s)).
Proof.
  split; try done.
  - intros l ts Ho. exists ts. split; [done | apply same_tunnel_refl].
  - simpl. intros k l Hk. by apply lookup_delete_inv in Hk as [].
  - intros l ts Ho. exists ts. split; [done | apply same_tunnel_refl].
Qed.

(** An assignment that keeps what identifies a tunnel. *)
Lemma shrinks_update l f s :
  (forall ts, same_tunnel ts (f ts)) -> shrinks s (with_tm (update l f (srv_tunnelManager s)) s).
Proof.
  intros Hf. split; try done; unfold obj; simpl; intros l' ts Ho.
  - destruct (decide (l = l')) as [<-|Hne].
    + rewrite lookup_alter_eq, Ho. simpl. eauto.
    + rewrite lookup_alter_ne by done. exists ts. split; [done | apply same_tunnel_refl].
  - destruct (decide (l = l')) as [<-|Hne].
    + rewrite lookup_alter_eq in Ho. destruct (objects (srv_tunnelManager s) !! l) as [t|] eqn:E; [|done].
      simpl in Ho. simplify_eq. eauto.
    + rewrite lookup_alter_ne in Ho by done. exists ts. split; [done | apply same_tunnel_refl].
Qed.

Lemma shrinks_ReserveHTTP now ttl sub s : shrinks s (with_tm (ReserveHTTP now ttl sub (srv_tunnelManager s)) s).
Proof.
  unfold ReserveHTTP. destruct (httpTunnels (srv_tunnelManager s) !! sub) as [l|].
  - apply shrinks_update. intros ts. by repeat split.
  - by apply shrinks_same.
Qed.
Lemma unlinked_UnregisterHTTP s rc l ts ts' :
  world_ok s rc -> obj s l = Some ts' -> same_tunnel ts ts' -> ts_Type ts = "http"%string ->
  ~ linked l (UnregisterHTTP (ts_Subdomain ts) (srv_tunnelManager s)).
Proof.
  intros Hw Ho (_ & E1 & _ & E2 & _) Hty [[k Hk]|[k Hk]]; simpl in Hk.
  - apply lookup_delete_inv in Hk as [Hk Hne]. destruct (wo_http _ _ Hw k l Hk) as (t & Ht & _ & <-).
    rewrite Ho in Ht. by simplify_eq.
  - destruct (wo_tcp _ _ Hw k l Hk) as (t & Ht & Hty' & _). rewrite Ho in Ht. simplify_eq. congruence.
Qed.

Lemma unlinked_UnregisterTCP s rc l ts ts' :
  world_ok s rc -> obj s l = Some ts' -> same_tunnel ts ts' -> ts_Type ts = "tcp"%string ->
  ~ linked l (UnregisterTCP (ts_Port ts) (srv_tunnelManager s)).1.
Proof.
  intros Hw Ho (_ & E1 & _ & _ & E2) Hty [[k Hk]|[k Hk]]; simpl in Hk.
  - destruct (wo_http _ _ Hw k l Hk) as (t & Ht & Hty' & _). rewrite Ho in Ht. simplify_eq. congruence.
  - apply lookup_delete_inv in Hk as [Hk Hne]. destruct (wo_tcp _ _ Hw k l Hk) as (t & Ht & _ & <-).
    rewrite Ho in Ht. by simplify_eq.
Qed.

Lemma outcome_CreateKey main tid y token s rc g (K : result key_error string -> permit -> Prop) b now w name subs max :
  world_ok s rc -> permit_ok s rc main tid y token g ->
  keys (srv_keyStore s) !! GenerateAPIKey b = None -> (forall r, K r g) ->
  let '(ks, r) := CreateKey b now w name subs max (srv_keyStore s) in
  outcome main tid y token s (with_keyStore ks s) rc g (K r).
Proof.
  intros Hw Hp Hfresh HK.
  pose proof (fun t => quota_CreateKey b now w name subs max (srv_keyStore s) t Hfresh) as Hq.
  destruct (CreateKey b now w name subs max (srv_keyStore s)) as [ks r]. simpl in Hq.
  set (s' := with_keyStore ks s).
  assert (forall t, srv_quota t s' = srv_quota t s \/
            (srv_quota t s = None /\ exists m, srv_quota t s' = Some (0, m))) as Hq'.
  { intros t. unfold srv_quota, s'. simpl. destruct (IsAPIKey t); [apply Hq | by left]. }
  exists rc, g. split_and!; [apply HK | | | | |].
  - apply (world_counts s _ rc); [done | done | | | by left].
    + intros t Ha. rewrite <- (wo_count _ _ Hw t Ha). unfold count.
      destruct (Hq' t) as [->|[-> [m ->]]]; done.
    + intros t c m Hc. destruct (Hq' t) as [E|[_ [m' E]]]; rewrite E in Hc;
        [by apply (wo_bounds _ _ Hw t) | simplify_eq; lia].
  - apply (permit_stable None (S tid) s s' rc rc); [|lia|done|done].
    split; [|by left|done]. intros l ts Ho. exists ts. by split_and!.
  - apply stable_weaken. split; [|by left|done]. intros l ts Ho. exists ts. by split_and!.
  - by apply locs_from_sub.
  - intros l ts Ho. left. by exists ts.
Qed.

Ltac neutral Hop := eapply outcome_shrink; [done | done | by apply shrinks_same | apply Hop].

(** Executing [e] under a permit keeps the counts truthful. *)
Definition event_safe (main : bool) (tid : nat) (y : session_id) (token : string)
    {R : Type} (e : srvE R) : Prop :=
  forall c s s' r rc g K,
    world_ok s rc -> permit_ok s rc main tid y token g -> session_token s y token ->
    op_ok main y token R e g K -> exec R e c s = Some (s', r) ->
    outcome main tid y token s s' rc g (K r).

Lemma safe_KeyIncrement main tid y token t :
  event_safe main tid y token (EKeyIncrement t).
Proof.
  unfold event_safe. intros c s s' r rc g K Hw Hp Hst Hop Hex. cbn [exec] in Hex.
  destruct Hop as (-> & Ha & Hk & -> & -> & Hok & Herr).
  destruct (KeyStore_IncrementTunnels token (srv_keyStore s)) as [ks [e|]] eqn:Hi; simplify_eq.
  + apply key_incr_error in Hi as ->. neutral Herr.
  + apply key_incr_quota in Hi as (n & m & ? & ? & ? & ?); [|done]. by eapply outcome_incr.
Qed.

Lemma safe_TokenIncrement main tid y token t :
  event_safe main tid y token (ETokenIncrement t).
Proof.
  unfold event_safe. intros c s s' r rc g K Hw Hp Hst Hop Hex. cbn [exec] in Hex.
  destruct Hop as (-> & Ha & Hk & -> & -> & Hok & Herr).
  destruct (TokenStore_IncrementTunnels token (srv_tokenStore s)) as [ts [e|]] eqn:Hi; simplify_eq.
  + apply token_incr_error in Hi as ->. neutral Herr.
  + apply token_incr_quota in Hi as (n & m & ? & ? & ? & ?); [|done]. by eapply outcome_incr.
Qed.

Lemma safe_RegisterHTTP main tid y token sub l :
  event_safe main tid y token (ERegisterHTTP sub l).
Proof.
  unfold event_safe. intros c s s' r rc g K Hw Hp Hst Hop Hex. cbn [exec] in Hex.
  destruct Hop as (port & -> & HK & Herr). destruct Hp as [Hnd [-> Hp]].
  destruct (RegisterHTTP_cases (c_now c) sub l (srv_tunnelManager s)) as [(_ & _ & E)|(_ & err & E)];
    rewrite E in Hex; simplify_eq; [|eapply outcome_shrink; [done | by split | by apply shrinks_same | apply Herr]].
  pose proof (shrinks_update l (set_CreatedAt (c_now c)) s ltac:(by intros; repeat split)) as Hsh.
  eapply outcome_file; [done | by split | done | apply Hsh | apply (sh_back _ _ Hsh) | | by left | done].
  simpl. intros k l' Hk. apply lookup_insert_Some in Hk as [[<- <-]|[_ Hk]]; [by right | by left].
Qed.

Lemma safe_CommitTCP main tid y token port l :
  event_safe main tid y token (ECommitTCP port l).
Proof.
  unfold event_safe. intros c s s' r rc g K Hw Hp Hst Hop Hex. cbn [exec] in Hex.
  destruct Hop as (name & -> & HK & Hfalse). destruct Hp as [Hnd [-> Hp]].
  unfold RegisterTCP_commit in Hex. destruct (tcpTunnels (srv_tunnelManager s) !! port); simplify_eq.
  { eapply outcome_shrink; [done | by split | by apply shrinks_same | apply Hfalse]. }
  eapply outcome_file; [done | by split | done | | | by left | | done].
  + intros l' ts Ho. exists ts. split; [done | apply same_tunnel_refl].
  + intros l' ts Ho. exists ts. split; [done | apply same_tunnel_refl].
  + simpl. intros k l' Hk. apply lookup_insert_Some in Hk as [[<- <-]|[_ Hk]]; [by right | by left].
Qed.

Lemma safe_UnregisterTCP main tid y token port :
  event_safe main tid y token (EUnregisterTCP port).
Proof.
  unfold event_safe. intros c s s' r rc g K Hw Hp Hst Hop Hex. cbn [exec] in Hex.
  destruct Hop as (l & ts & ls & -> & Hty & <- & HK).
  destruct (UnregisterTCP (ts_Port ts) (srv_tunnelManager s)) as [tm effs] eqn:E. simplify_eq.
  pose proof Hp as [_ (-> & _ & _ & ts' & Ho & Hsame)].
  pose proof (shrinks_UnregisterTCP (ts_Port ts) effs s) as Hsh.
  pose proof (unlinked_UnregisterTCP s rc l ts ts' Hw Ho Hsame Hty) as Hu.
  assert (objects tm = objects (srv_tunnelManager s)) as Eo.
  { change tm with (tm, effs).1. by rewrite <- E. }
  rewrite E in Hsh, Hu. eapply outcome_unfile; [done | done | exact Hsh | | exact Hu | done].
  intros l'. unfold obj. simpl. by rewrite Eo.
Qed.

(** Every operation that a permit covers keeps the counts truthful. *)
Lemma exec_safe main tid y token R (e : srvE R) c s s' r rc g K :
  world_ok s rc -> permit_ok s rc main tid y token g -> session_token s y token ->
  op_ok main y token R e g K -> exec R e c s = Some (s', r) ->
  outcome main tid y token s s' rc g (K r).
Proof.
  intros Hw Hp Hst Hop Hex. destruct e; try (cbn [exec] in Hex; simplify_eq; neutral Hop);
    try (by eapply safe_KeyIncrement); try (by eapply safe_TokenIncrement);
    try (by eapply safe_RegisterHTTP); try (by eapply safe_CommitTCP);
    try (by eapply safe_UnregisterTCP); cbn [exec] in Hex.
  - destruct (ipAllow _ _ _) as [i ok]. simplify_eq. neutral Hop.
  - destruct (c_ok c); simplify_eq; neutral Hop.
  - case_bool_decide as Hb; [|done]. destruct Hb as [_ Hfresh].
    pose proof (outcome_CreateKey main tid y token s rc g K (c_bytes c) (c_now c) (c_write c)
      name subdomains maxTunnels Hw Hp Hfresh Hop) as Ho.
    destruct (CreateKey _ _ _ _ _ _ _). by simplify_eq.
  - destruct Hop as (-> & Ha & Hk & Hd). simplify_eq.
    destruct (key_decr_quota token s Hk) as [? ?]. by eapply outcome_decr.
  - destruct Hop as (-> & Ha & Hk & Hd). simplify_eq.
    destruct (token_decr_quota token s Hk) as [? ?]. by eapply outcome_decr.
  - destruct (rateAllow _ _ _) as [i ok]. simplify_eq. neutral Hop.
  - case_bool_decide; [|done]. simplify_eq. neutral Hop.
  - case_bool_decide; [|done]. simplify_eq. neutral Hop.
  - destruct Hop as (Ht & Hy & -> & -> & HK).
    destruct (objects (srv_tunnelManager s) !! c_loc c) eqn:Hl; [done|]. simplify_eq.
    by apply outcome_new.
  - simplify_eq. by apply outcome_deref.
  - destruct Hop as (type & name & port & -> & HK). simplify_eq.
    destruct Hp as [Hnd [-> Hp]]. eapply outcome_set; [done | by split | by intros | | exact HK].
    intros ts Hn Hpt. split; [by intros ? [= <-] | done].
  - destruct (_ <=? 0); [simplify_eq; neutral Hop|]. case_bool_decide; [|done]. simplify_eq. neutral Hop.
  - destruct (c_listen c); simplify_eq; neutral Hop.
  - destruct Hop as (type & name & port' & -> & HK). simplify_eq.
    destruct Hp as [Hnd [-> Hp]]. eapply outcome_set; [done | by split | by intros | | exact HK].
    intros ts Hn Hpt. split; [done | by intros ? [= <-]].
  - destruct Hop as (l & ts & ls & -> & Hty & <- & HK). simplify_eq.
    pose proof Hp as [_ (-> & _ & _ & ts' & Ho & Hsame)].
    eapply outcome_unfile; [done | done | apply shrinks_UnregisterHTTP | done | | done].
    by eapply unlinked_UnregisterHTTP.
  - destruct Hop as (-> & -> & Hg & HK). simplify_eq. by apply outcome_SessionTunnels.
  - simplify_eq. eapply outcome_shrink; [done | done | apply shrinks_ReserveHTTP | apply Hop].
Qed.
End Sessions.
