(* ===== verification/Relay.v ===== *)
(** * Moving the bytes (tcp_proxy.go, tunnel.go)

    [handleTCPConn] and [proxyBidirectional] of the server and [handleStream] of
    the client: two goroutines that each copy one direction between two
    connections, close what they have written to, and are waited for.  A
    connection is what the documentation of [net.Conn] promises and no more: what
    a [Read] or a [Write] returns is an input of the model.  That every operation
    on a connection closed on this side returns, and what the end of file of a
    stream means, are stated where a theorem needs them ([late_read],
    [eof_is_the_end]). *)

From S2P Require Import Prelude GoStrings.
Local Open Scope Z_scope.

(** ** One direction *)

(** The error of a [Read]: end of file or another. *)
Inductive rerr := EOF | ReadErr (e : string).

(** A goroutine between two operations: reading, about to write what it has
    read, with the result of [io.Copy], half way through the addition to the
    session's counter, about to close the side it wrote to, done. *)
Inductive phase :=
  | Reading
  | Writing (chunk : list byte) (er : option rerr)
  | Copied
  | Loaded (old : Z)
  | Closing
  | Finished.

Record copier := {
  cp_phase : phase;
  cp_written : Z;
  cp_err : option string;
  cp_got : list byte;
  cp_put : list byte;
}.

Definition new_copier : copier :=
  {| cp_phase := Reading; cp_written := 0; cp_err := None; cp_got := []; cp_put := [] |}.

Definition with_phase (ph : phase) (c : copier) : copier :=
  {| cp_phase := ph; cp_written := cp_written c; cp_err := cp_err c; cp_got := cp_got c; cp_put := cp_put c |}.
Definition with_err (e : option string) (c : copier) : copier :=
  {| cp_phase := cp_phase c; cp_written := cp_written c; cp_err := e; cp_got := cp_got c; cp_put := cp_put c |}.

(** What the environment answers to the operation of a goroutine. *)
Inductive copy_ev :=
  | EvRead (data : list byte) (er : option rerr)
  | EvWrite (nw : nat) (ew : option string)
  | EvLoad
  | EvStore
  | EvClose.

(** [io.Copy] after a read that has been written: go on, or return. *)
Definition after_chunk (er : option rerr) (c : copier) : copier :=
  match er with
  | None => with_phase Reading c
  | Some EOF => with_phase Copied c
  | Some (ReadErr e) => with_phase Copied (with_err (Some e) c)
  end.

Definition ErrShortWrite : string := "short write".

(** One operation of a copying goroutine; [counts]: it adds the bytes to a
    counter of the session, whose value is [n].  [None]: not an operation it can
    perform next, or an answer the documentation of [Write] excludes. *)
Definition copy_step (counts : bool) (ev : copy_ev) (c : copier) (n : Z) : option (copier * Z) :=
  match cp_phase c, ev with
  | Reading, EvRead data er =>
      let c := {| cp_phase := Writing data er; cp_written := cp_written c; cp_err := cp_err c;
                  cp_got := cp_got c ++ data; cp_put := cp_put c |} in
      Some (match data with [] => after_chunk er c | _ => c end, n)
  | Writing chunk er, EvWrite nw ew =>
      if decide (nw <= length chunk)%nat then
        let c := {| cp_phase := cp_phase c; cp_written := int64 (cp_written c + Z.of_nat nw); cp_err := cp_err c;
                    cp_got := cp_got c; cp_put := cp_put c ++ take nw chunk |} in
        Some (match ew with
              | Some e => with_phase Copied (with_err (Some e) c)
              | None => if decide (nw = length chunk) then after_chunk er c
                        else with_phase Copied (with_err (Some ErrShortWrite) c)
              end, n)
      else None
  | Copied, EvLoad => if counts then Some (with_phase (Loaded n) c, n) else None
  | Loaded old, EvStore => Some (with_phase Closing c, int64 (old + cp_written c))
  | Copied, EvClose => if counts then None else Some (with_phase Finished c, n)
  | Closing, EvClose => Some (with_phase Finished c, n)
  | _, _ => None
  end.

(** ** A relay of two directions *)

Inductive side := SideA | SideB.
Inductive dir := AtoB | BtoA.
#[export] Instance side_eq_dec : EqDecision side.
Proof. solve_decision. Defined.
#[export] Instance dir_eq_dec : EqDecision dir.
Proof. solve_decision. Defined.

Definition dst (d : dir) : side := match d with AtoB => SideB | BtoA => SideA end.
Definition src (d : dir) : side := match d with AtoB => SideA | BtoA => SideB end.

(** How a connection has been closed: not, for writing only, or altogether. *)
Inductive openness := Open | WriteClosed | Closed.
#[export] Instance openness_eq_dec : EqDecision openness.
Proof. solve_decision. Defined.

Record Relay := {
  rl_atob : copier;
  rl_btoa : copier;
  rl_a : openness;
  rl_b : openness;
  rl_returned : bool;
}.

(** The session's [BytesIn] and [BytesOut]; concurrent connections share them. *)
Record Counters := { BytesIn : Z; BytesOut : Z }.

(** What distinguishes the three functions: whether the bytes are counted, and
    how the goroutine that copies from A to B closes B. *)
Record kind := { k_counts : bool; k_close_b : openness }.

(** [handleTCPConn]: A is the visitor, B the stream. *)
Definition tcp_kind : kind := {| k_counts := true; k_close_b := Closed |}.
(** [proxyBidirectional(a, b)] *)
Definition pair_kind : kind := {| k_counts := false; k_close_b := Closed |}.
(** [handleStream]: A is the stream, B the local service; only the sending half
    of B is closed, where it can be. *)
Definition stream_kind (half_close : bool) : kind :=
  {| k_counts := false; k_close_b := if half_close then WriteClosed else Open |}.

Definition copier_of (d : dir) (r : Relay) : copier := match d with AtoB => rl_atob r | BtoA => rl_btoa r end.
Definition side_of (x : side) (r : Relay) : openness := match x with SideA => rl_a r | SideB => rl_b r end.

Definition set_copier (d : dir) (c : copier) (r : Relay) : Relay :=
  match d with
  | AtoB => {| rl_atob := c; rl_btoa := rl_btoa r; rl_a := rl_a r; rl_b := rl_b r; rl_returned := rl_returned r |}
  | BtoA => {| rl_atob := rl_atob r; rl_btoa := c; rl_a := rl_a r; rl_b := rl_b r; rl_returned := rl_returned r |}
  end.
Definition close_dst (k : kind) (d : dir) (r : Relay) : Relay :=
  match d with
  | AtoB => {| rl_atob := rl_atob r; rl_btoa := rl_btoa r; rl_a := rl_a r;
               rl_b := (match rl_b r, k_close_b k with Closed, _ => Closed | o, Open => o | _, o => o end);
               rl_returned := rl_returned r |}
  | BtoA => {| rl_atob := rl_atob r; rl_btoa := rl_btoa r; rl_a := Closed; rl_b := rl_b r; rl_returned := rl_returned r |}
  end.

Definition counter (d : dir) (n : Counters) : Z := match d with AtoB => BytesIn n | BtoA => BytesOut n end.
Definition set_counter (d : dir) (v : Z) (n : Counters) : Counters :=
  match d with
  | AtoB => {| BytesIn := v; BytesOut := BytesOut n |}
  | BtoA => {| BytesIn := BytesIn n; BytesOut := v |}
  end.

(** An event: an operation of one of the goroutines, or the return after
    [wg.Wait], which runs the deferred closes. *)
Inductive relay_ev := Op (d : dir) (ev : copy_ev) | Return.

Definition is_close (ev : copy_ev) : bool := match ev with EvClose => true | _ => false end.
Definition is_finished (c : copier) : bool := match cp_phase c with Finished => true | _ => false end.

Definition relay_step (k : kind) (ev : relay_ev) (r : Relay) (n : Counters) : option (Relay * Counters) :=
  match ev with
  | Op d ev =>
      '(c, v) ← copy_step (k_counts k) ev (copier_of d r) (counter d n);
      let r := set_copier d c r in
      Some (if is_close ev then close_dst k d r else r, set_counter d v n)
  | Return =>
      if is_finished (rl_atob r) && is_finished (rl_btoa r) && negb (rl_returned r) then
        Some ({| rl_atob := rl_atob r; rl_btoa := rl_btoa r; rl_a := Closed; rl_b := Closed; rl_returned := true |}, n)
      else None
  end.

Fixpoint relay_run (k : kind) (evs : list relay_ev) (r : Relay) (n : Counters) : option (Relay * Counters) :=
  match evs with
  | [] => Some (r, n)
  | ev :: evs => '(r, n) ← relay_step k ev r n; relay_run k evs r n
  end.

Definition new_relay : Relay :=
  {| rl_atob := new_copier; rl_btoa := new_copier; rl_a := Open; rl_b := Open; rl_returned := false |}.

(** Nothing was started: the other connection could not be opened. *)
Definition unopened : Relay :=
  {| rl_atob := with_phase Finished new_copier; rl_btoa := with_phase Finished new_copier;
     rl_a := Closed; rl_b := Closed; rl_returned := true |}.

(** The three functions, for a sequence of events of their goroutines.
    [handleTCPConn]: the visitor's connection, and the stream if it opens. *)
Definition handleTCPConn (opened : option string) (evs : list relay_ev) (n : Counters) : option (Relay * Counters) :=
  match opened with
  | Some _ => match evs with [] => Some (unopened, n) | _ => None end
  | None => relay_run tcp_kind evs new_relay n
  end.

(** [handleStream]: the stream, and the local service if it answers. *)
Definition handleStream (dialed : option string) (half_close : bool) (evs : list relay_ev) : option Relay :=
  let none := {| BytesIn := 0; BytesOut := 0 |} in
  match dialed with
  | Some _ => match evs with [] => Some unopened | _ => None end
  | None => fst <$> relay_run (stream_kind half_close) evs new_relay none
  end.

(** [proxyBidirectional]: the bytes copied to [a] and to [b], and the error of
    the copy to [a]. *)
Definition proxyBidirectional (evs : list relay_ev) : option (Z * Z * option string) :=
  '(r, _) ← relay_run pair_kind evs new_relay {| BytesIn := 0; BytesOut := 0 |};
  if rl_returned r then
    Some (cp_written (rl_btoa r), cp_written (rl_atob r), (fun e => "proxy: " +:+ e) <$> cp_err (rl_btoa r))
  else None.

(** [acceptLoop]: the connections it has started; it ends when the listener is
    closed. *)
Definition accept_loop_step (conns : list Relay) (err : option string) : list Relay * bool :=
  match err with
  | Some _ => (conns, true)
  | None => (conns ++ [new_relay], false)
  end.

(** The connections of one tunnel: an event of the [i]-th. *)
Definition conns_step (i : nat) (ev : relay_ev) (cs : list Relay * Counters) : option (list Relay * Counters) :=
  r ← cs.1 !! i;
  '(r, n) ← relay_step tcp_kind ev r cs.2;
  Some (<[i := r]> cs.1, n).

Fixpoint conns_run (evs : list (nat * relay_ev)) (cs : list Relay * Counters) : option (list Relay * Counters) :=
  match evs with
  | [] => Some cs
  | (i, ev) :: evs => cs ← conns_step i ev cs; conns_run evs cs
  end.

(** ** The whole path: visitor, server, stream, client, local service *)

(** The relays at the two ends of a stream and the bytes under way in it. *)
Record Path := { p_server : Relay; p_client : Relay; p_up : list byte; p_down : list byte }.

Inductive path_ev := AtServer (ev : relay_ev) | AtClient (ev : relay_ev).

(** The bytes an event takes from the connection it reads and those it hands to
    the connection it writes to. *)
Definition taken (d : dir) (ev : relay_ev) : list byte :=
  match ev with
  | Op d' (EvRead data _) => if decide (d' = d) then data else []
  | _ => []
  end.
Definition handed (d : dir) (ev : relay_ev) (r : Relay) : list byte :=
  match ev with
  | Op d' (EvWrite nw _) =>
      if decide (d' = d) then
        match cp_phase (copier_of d r) with Writing chunk _ => take nw chunk | _ => [] end
      else []
  | _ => []
  end.

(** What is read from the stream is what was written to it, in order. *)
Definition dequeue (data q : list byte) : option (list byte) :=
  if decide (take (length data) q = data) then Some (drop (length data) q) else None.

Definition path_step (half_close : bool) (ev : path_ev) (p : Path) (n : Counters) : option (Path * Counters) :=
  match ev with
  | AtServer ev =>
      down ← dequeue (taken BtoA ev) (p_down p);
      '(r, n) ← relay_step tcp_kind ev (p_server p) n;
      Some ({| p_server := r; p_client := p_client p;
               p_up := p_up p ++ handed AtoB ev (p_server p); p_down := down |}, n)
  | AtClient ev =>
      up ← dequeue (taken AtoB ev) (p_up p);
      '(r, _) ← relay_step (stream_kind half_close) ev (p_client p) n;
      Some ({| p_server := p_server p; p_client := r;
               p_up := up; p_down := p_down p ++ handed BtoA ev (p_client p) |}, n)
  end.

Fixpoint path_run (half_close : bool) (evs : list path_ev) (p : Path) (n : Counters) : option (Path * Counters) :=
  match evs with
  | [] => Some (p, n)
  | ev :: evs => '(p, n) ← path_step half_close ev p n; path_run half_close evs p n
  end.

Definition new_path : Path := {| p_server := new_relay; p_client := new_relay; p_up := []; p_down := [] |}.

(** ** One direction is faithful *)

Record copier_ok (c : copier) : Prop := {
  co_written : cp_written c = int64 (Z.of_nat (length (cp_put c)));
  co_phase : match cp_phase c with
             | Reading => cp_got c = cp_put c /\ cp_err c = None
             | Writing chunk _ => cp_got c = cp_put c ++ chunk /\ cp_err c = None
             | _ => cp_put c `prefix_of` cp_got c /\ (cp_err c = None -> cp_got c = cp_put c)
             end;
}.

Lemma copier_ok_new : copier_ok new_copier.
Proof. by split. Qed.

Lemma copier_ok_prefix c : copier_ok c -> cp_put c `prefix_of` cp_got c.
Proof.
  intros [_ Hp]. destruct (cp_phase c); try apply Hp; destruct Hp as [-> _]; [done | by apply prefix_app_r].
Qed.

Lemma after_chunk_ok er c :
  cp_written c = int64 (Z.of_nat (length (cp_put c))) -> cp_got c = cp_put c -> cp_err c = None ->
  copier_ok (after_chunk er c).
Proof. intros Hw Hg He. destruct er as [[|e]|]; split; simpl; try done; rewrite Hg; by split. Qed.

Lemma copy_step_ok counts ev c n c' n' :
  copier_ok c -> copy_step counts ev c n = Some (c', n') -> copier_ok c'.
Proof.
  intros [Hw Hp]. unfold copy_step. destruct (cp_phase c) as [|chunk er| |old| |] eqn:Hph, ev as [data er'|nw ew| | |]; try done;
    try (repeat case_match; intros [= <- <-]; (done || by split)).
  - intros [= <- <-]. destruct Hp as [Hg He]. destruct data as [|b data].
    + apply after_chunk_ok; [done | simpl; by rewrite app_nil_r | done].
    + split; [done|]. simpl. by rewrite Hg.
  - destruct (decide (nw <= length chunk)%nat) as [Hle|]; [|done]. intros [= <- <-]. destruct Hp as [Hg He].
    assert (int64 (cp_written c + Z.of_nat nw) = int64 (Z.of_nat (length (cp_put c ++ take nw chunk)))) as Hw'.
    { rewrite Hw, int64_add_l, length_app, length_take. f_equal. lia. }
    assert (cp_put c ++ take nw chunk `prefix_of` cp_got c) as Hpre.
    { rewrite Hg. apply prefix_app. by exists (drop nw chunk); rewrite take_drop. }
    destruct ew as [e|]; [by split|]. destruct (decide (nw = length chunk)) as [->|]; [|by split].
    apply after_chunk_ok; [done | by rewrite firstn_all | done].
Qed.

(** ** A relay *)

Definition done_with (c : copier) : Prop := cp_phase c = Finished.

(** How a finished goroutine leaves the connection it wrote to. *)
Definition closed_by (k : kind) (d : dir) (o : openness) : Prop :=
  match d with AtoB => o = Closed \/ o = k_close_b k | BtoA => o = Closed end.

(** A connection is not closed while a goroutine still writes to it; a finished
    goroutine has closed it; a relay that has returned has closed both. *)
Record relay_ok (k : kind) (r : Relay) : Prop := {
  ro_copiers d : copier_ok (copier_of d r);
  ro_open d : ~ done_with (copier_of d r) -> side_of (dst d) r = Open;
  ro_closed d : done_with (copier_of d r) -> closed_by k d (side_of (dst d) r);
  ro_returned : rl_returned r = true ->
    forall d, side_of (dst d) r = Closed /\ done_with (copier_of d r);
}.

Lemma relay_ok_new k : relay_ok k new_relay.
Proof. split; try done; intros []; try done; apply copier_ok_new. Qed.

Lemma is_finished_true c : is_finished c = true <-> done_with c.
Proof. unfold is_finished, done_with. by destruct (cp_phase c). Qed.

Lemma after_chunk_open er c : ~ done_with (after_chunk er c).
Proof. by destruct er as [[|e]|]. Qed.

(** Only the close ends a goroutine, and only an unfinished one operates. *)
Lemma copy_step_done counts ev c n c' n' :
  copy_step counts ev c n = Some (c', n') -> ~ done_with c /\ (done_with c' <-> is_close ev = true).
Proof.
  unfold copy_step, done_with. intros Hs.
  destruct (cp_phase c) eqn:Hph; destruct ev; try done; (split; [done|]);
    repeat case_match; simplify_eq; simpl; split; try done; intros Hd; by apply after_chunk_open in Hd.
Qed.

Lemma copier_of_set d d' c r : copier_of d (set_copier d' c r) = if decide (d = d') then c else copier_of d r.
Proof. by destruct d, d'. Qed.

Lemma set_copier_frame d c r x : side_of x (set_copier d c r) = side_of x r /\ rl_returned (set_copier d c r) = rl_returned r.
Proof. by destruct d, x. Qed.

Lemma close_dst_frame k d r d' :
  copier_of d' (close_dst k d r) = copier_of d' r /\ rl_returned (close_dst k d r) = rl_returned r /\
  (d' <> d -> side_of (dst d') (close_dst k d r) = side_of (dst d') r) /\
  (side_of (dst d) r = Open -> closed_by k d (side_of (dst d) (close_dst k d r))).
Proof.
  destruct r as [ca cb a b ret], d, d'; simpl; split_and!; try done; intros ->; destruct (k_close_b k); auto.
Qed.

Lemma relay_step_ok k ev r n r' n' :
  relay_ok k r -> relay_step k ev r n = Some (r', n') -> relay_ok k r'.
Proof.
  intros [Hc Ho Hcl Hr]. destruct ev as [d ev|]; cbn [relay_step].
  - destruct (copy_step (k_counts k) ev (copier_of d r) (counter d n)) as [[c v]|] eqn:Hs; [|done].
    intros [= <- <-]. apply copy_step_done in Hs as Hd. apply copy_step_ok in Hs as Hok; [|apply Hc].
    destruct Hd as [Hd Hd']. specialize (Ho d Hd) as Hod.
    assert (rl_returned r <> true) as Hret by (intros E; by destruct (Hr E d)).
    pose proof (fun d' => close_dst_frame k d (set_copier d c r) d') as Hf.
    destruct (set_copier_frame d c r (dst d)) as [Hsd Hrd].
    destruct (is_close ev); split; try (intros d'; destruct (Hf d') as (Hf1 & Hf2 & Hf3 & Hf4));
      rewrite ?Hf1, ?copier_of_set, ?(proj1 (set_copier_frame d c r (dst d'))).
    + destruct (decide _); [done | apply Hc].
    + destruct (decide _) as [->|Hne]; [tauto|]. intros Hnd. rewrite Hf3 by done.
      rewrite (proj1 (set_copier_frame d c r (dst d'))). by apply Ho.
    + destruct (decide _) as [->|Hne]; [intros _; apply Hf4; by rewrite Hsd|]. intros Hnd. rewrite Hf3 by done.
      rewrite (proj1 (set_copier_frame d c r (dst d'))). by apply Hcl.
    + destruct (Hf d) as (_ & -> & _). by rewrite Hrd.
    + destruct (decide _); [done | apply Hc].
    + destruct (decide _) as [->|Hne]; [done | apply Ho].
    + destruct (decide _) as [->|Hne]; [intros Hn; by apply Hd' in Hn | apply Hcl].
    + by rewrite Hrd.
  - destruct (is_finished (rl_atob r)) eqn:Ea; [|done]. destruct (is_finished (rl_btoa r)) eqn:Eb; [|done].
    apply is_finished_true in Ea, Eb. destruct (rl_returned r); [done|]. intros [= <- <-].
    split; intros; try destruct d; simpl in *; try done; try apply (Hc AtoB); try apply (Hc BtoA); auto.
Qed.

Lemma relay_run_ok k evs r n r' n' :
  relay_ok k r -> relay_run k evs r n = Some (r', n') -> relay_ok k r'.
Proof.
  revert r n. induction evs as [|ev evs IH]; intros r n Hok; simpl; [by intros [= <- <-]|].
  destruct (relay_step k ev r n) as [[r1 n1]|] eqn:Hs; [|done]. simpl. apply IH. by eapply relay_step_ok.
Qed.

(** C10: whatever the two connections do and however the goroutines interleave,
    in each direction the bytes written are, in order, a prefix of the bytes
    read, all of them if the copy ended without an error; a connection is open
    for as long as something is written to it; and when the relay returns both
    directions have ended and both connections are closed. *)
Theorem relay_faithful k evs r n n0 d :
  relay_run k evs new_relay n0 = Some (r, n) ->
  let c := copier_of d r in
  cp_put c `prefix_of` cp_got c /\
  (done_with c -> cp_err c = None -> cp_put c = cp_got c) /\
  (~ done_with c -> side_of (dst d) r = Open) /\
  (rl_returned r = true -> done_with c /\ side_of (dst d) r = Closed).
Proof.
  intros Hrun. apply relay_run_ok in Hrun as [Hc Ho Hcl Hr]; [|apply relay_ok_new].
  specialize (Hc d) as Hcd. cbv zeta. split_and!.
  - by apply copier_ok_prefix.
  - destruct Hcd as [_ Hp]. unfold done_with. intros Hd He. rewrite Hd in Hp. symmetry. by apply Hp.
  - apply Ho.
  - intros Hret. by destruct (Hr Hret d).
Qed.

Lemma relay_done k evs r n n0 :
  relay_run k evs new_relay n0 = Some (r, n) -> rl_returned r = true ->
  forall d, cp_put (copier_of d r) `prefix_of` cp_got (copier_of d r) /\
    cp_written (copier_of d r) = int64 (Z.of_nat (length (cp_put (copier_of d r)))) /\
    (cp_err (copier_of d r) = None -> cp_put (copier_of d r) = cp_got (copier_of d r)) /\
    side_of (dst d) r = Closed.
Proof.
  intros Hrun Hret d. apply relay_run_ok in Hrun as [Hc _ _ Hr]; [|apply relay_ok_new].
  destruct (Hr Hret d) as [Hcl Hd]. specialize (Hc d). split_and!; [by apply copier_ok_prefix | apply Hc | | done].
  destruct Hc as [_ Hp]. unfold done_with in Hd. rewrite Hd in Hp. intros He. symmetry. by apply Hp.
Qed.

(** [proxyBidirectional] reports what it has written in each direction, and an
    error exactly when the copy to [a] failed. *)
Theorem proxyBidirectional_spec evs inBytes outBytes err :
  proxyBidirectional evs = Some (inBytes, outBytes, err) ->
  exists r, rl_a r = Closed /\ rl_b r = Closed /\
    inBytes = int64 (Z.of_nat (length (cp_put (rl_btoa r)))) /\
    outBytes = int64 (Z.of_nat (length (cp_put (rl_atob r)))) /\
    (err = None -> cp_put (rl_btoa r) = cp_got (rl_btoa r)) /\
    cp_put (rl_atob r) `prefix_of` cp_got (rl_atob r).
Proof.
  unfold proxyBidirectional. destruct (relay_run _ _ _ _) as [[r n]|] eqn:Hrun; [|done]. cbn [mbind option_bind].
  destruct (rl_returned r) eqn:Hret; [|done]. intros [= <- <- <-]. exists r.
  pose proof (relay_done _ _ _ _ _ Hrun Hret) as Hd.
  destruct (Hd AtoB) as (Hp1 & Hw1 & Ha1 & Hc1), (Hd BtoA) as (Hp2 & Hw2 & Ha2 & Hc2). simpl in *.
  split_and!; try done. intros He. apply Ha2. by destruct (cp_err (rl_btoa r)).
Qed.

(** ** A relay ends: the close of one direction unblocks the other *)

Definition other (d : dir) : dir := match d with AtoB => BtoA | BtoA => AtoB end.

(** A read that waits for the peer to send: the connection it reads from has not
    been closed on this side. *)
Definition open_read (ev : relay_ev) (r : Relay) : bool :=
  match ev with
  | Op d (EvRead _ _) => bool_decide (side_of (src d) r <> Closed)
  | _ => false
  end.
(** A read without an error from a connection already closed on this side.  The
    documentation of [net.Conn.Close] excludes it; a stream may still deliver
    what it has buffered. *)
Definition late_read (ev : relay_ev) (r : Relay) : bool :=
  match ev with
  | Op d (EvRead _ None) => bool_decide (side_of (src d) r = Closed)
  | _ => false
  end.

(** How many events of a run are of such a sort. *)
Fixpoint count_evs (sort : relay_ev -> Relay -> bool) (k : kind) (evs : list relay_ev) (r : Relay) (n : Counters) : nat :=
  match evs with
  | [] => 0
  | ev :: evs =>
      Nat.b2n (sort ev r) + match relay_step k ev r n with Some (r, n) => count_evs sort k evs r n | None => 0 end
  end.

(** The goroutines that close altogether the connection the other one reads
    from: all but the one of [handleStream] that only half-closes the local
    service. *)
Definition ends_other (k : kind) (d : dir) : Prop :=
  match d with AtoB => k_close_b k = Closed | BtoA => True end.

(** Operations a goroutine performs before it ends, one more read included. *)
Definition pending (c : copier) : nat :=
  match cp_phase c with
  | Reading => 5 | Writing _ None => 6 | Writing _ (Some _) => 4 | Copied => 3 | Loaded _ => 2 | Closing => 1 | Finished => 0
  end.
Definition work (d : dir) (r : Relay) : nat := pending (copier_of d r) + (if rl_returned r then 0 else 1).

Lemma pending_after er c : (pending (after_chunk er c) <= 5 /\ (er <> None -> pending (after_chunk er c) <= 3))%nat.
Proof. unfold pending. destruct er as [[|e]|]; simpl; split; try done; lia. Qed.

Lemma copy_step_pending counts ev c n c' n' :
  copy_step counts ev c n = Some (c', n') ->
  (pending c' < pending c + (match ev with EvRead _ None => 2 | _ => 0 end))%nat.
Proof.
  unfold copy_step. destruct (cp_phase c) as [|chunk er| |old| |] eqn:Hph, ev as [data er'|nw ew| | |]; try done;
    unfold pending at 2; rewrite Hph.
  - intros [= <- <-]. destruct data as [|b data].
    + match goal with |- context [after_chunk ?e ?c] => pose proof (pending_after e c) as [? Hs] end.
      destruct er'; [specialize (Hs ltac:(done)); lia | lia].
    + destruct er'; unfold pending; simpl; lia.
  - destruct (decide _); [|done]. intros [= <- <-].
    destruct ew; [destruct er; unfold pending; simpl; lia|].
    destruct (decide _); [|destruct er; unfold pending; simpl; lia].
    match goal with |- context [after_chunk ?e ?c] => pose proof (pending_after e c) as [? Hs] end.
    destruct er; [specialize (Hs ltac:(done)); lia | lia].
  - destruct counts; [|done]. intros [= <- <-]. unfold pending; simpl; lia.
  - destruct counts; [done|]. intros [= <- <-]. unfold pending; simpl; lia.
  - intros [= <- <-]. unfold pending; simpl; lia.
  - intros [= <- <-]. unfold pending; simpl; lia.
Qed.

(** What a step does to the goroutine of one direction: nothing, or one of its
    operations. *)
Lemma relay_step_copier k ev r n r' n' d :
  relay_step k ev r n = Some (r', n') ->
  copier_of d r' = copier_of d r \/
  exists cev v v', ev = Op d cev /\ copy_step (k_counts k) cev (copier_of d r) v = Some (copier_of d r', v').
Proof.
  destruct ev as [d' ev|]; cbn [relay_step].
  - destruct (copy_step _ ev (copier_of d' r) (counter d' n)) as [[c v]|] eqn:Hs; [|done]. intros [= <- <-].
    assert (copier_of d (if is_close ev then close_dst k d' (set_copier d' c r) else set_copier d' c r)
            = if decide (d = d') then c else copier_of d r) as ->.
    { destruct (is_close ev); [rewrite (proj1 (close_dst_frame _ _ _ _))|]; apply copier_of_set. }
    destruct (decide (d = d')) as [->|]; [right; eauto | by left].
  - destruct (is_finished (rl_atob r) && is_finished (rl_btoa r) && negb (rl_returned r)); [|done].
    intros [= <- <-]. left. by destruct d.
Qed.

Lemma relay_step_done k ev r n r' n' d :
  relay_step k ev r n = Some (r', n') -> done_with (copier_of d r) -> copier_of d r' = copier_of d r.
Proof.
  intros Hs Hd. destruct (relay_step_copier _ _ _ _ _ _ d Hs) as [|(cev & v & v' & -> & Hc)]; [done|].
  by apply copy_step_done in Hc as [Hn _].
Qed.

Lemma done_closed k d r : relay_ok k r -> ends_other k d -> done_with (copier_of d r) -> side_of (dst d) r = Closed.
Proof.
  intros Hok He Hd. pose proof (ro_closed _ _ Hok d Hd) as Hc. destruct d; simpl in *; [|done].
  destruct Hc as [|Hc]; [done | by rewrite Hc].
Qed.

Lemma other_src d d' : d' <> d -> src d' = dst d /\ d' = other d.
Proof. by destruct d, d'. Qed.

(** With one direction done, a step of the rest of the run. *)
Lemma ending_step k d ev r n r' n' :
  relay_ok k r -> ends_other k d -> done_with (copier_of d r) -> relay_step k ev r n = Some (r', n') ->
  open_read ev r = false /\ (work (other d) r' < work (other d) r + 2 * Nat.b2n (late_read ev r))%nat.
Proof.
  intros Hok He Hd Hs. pose proof (done_closed _ _ _ Hok He Hd) as Hcl.
  destruct ev as [d' ev|].
  - destruct (decide (d' = d)) as [->|Hne].
    { cbn [relay_step] in Hs. destruct (copy_step _ ev _ _) as [[c v]|] eqn:Hc; [|done].
      by apply copy_step_done in Hc as [Hn _]. }
    destruct (other_src d d' Hne) as [Hsrc ->].
    split; [destruct ev; try done; simpl; rewrite Hsrc; by apply bool_decide_eq_false_2; intros []|].
    assert (late_read (Op (other d) ev) r = match ev with EvRead _ None => true | _ => false end) as ->.
    { destruct ev as [? []| | | |]; try done. simpl. rewrite Hsrc. by apply bool_decide_eq_true_2. }
    assert (rl_returned r' = rl_returned r) as Hret.
    { cbn [relay_step] in Hs. destruct (copy_step _ ev _ _) as [[c v]|]; [|done]. injection Hs as <- <-.
      destruct (is_close ev), d; done. }
    cbn [relay_step] in Hs. destruct (copy_step _ ev (copier_of (other d) r) _) as [[c v]|] eqn:Hc; [|done].
    injection Hs as <- <-. apply copy_step_pending in Hc. unfold work. rewrite Hret.
    assert (copier_of (other d) (if is_close ev then close_dst k (other d) (set_copier (other d) c r) else set_copier (other d) c r) = c) as ->.
    { destruct (is_close ev); [rewrite (proj1 (close_dst_frame _ _ _ _))|]; rewrite copier_of_set; by rewrite decide_True. }
    destruct ev as [? []| | | |]; simpl in *; lia.
  - split; [done|]. cbn [relay_step] in Hs.
    destruct (is_finished (rl_atob r) && is_finished (rl_btoa r)); [|done].
    destruct (rl_returned r) eqn:E; [done|]. injection Hs as <- <-. unfold work. rewrite E. destruct d; simpl; lia.
Qed.

Lemma ending_run k d evs r n r' n' :
  relay_ok k r -> ends_other k d -> done_with (copier_of d r) -> relay_run k evs r n = Some (r', n') ->
  count_evs open_read k evs r n = 0%nat /\
  (length evs + work (other d) r' <= work (other d) r + 2 * count_evs late_read k evs r n)%nat.
Proof.
  revert r n. induction evs as [|ev evs IH]; intros r n Hok He Hd; simpl; [intros [= <- <-]; lia|].
  destruct (relay_step k ev r n) as [[r1 n1]|] eqn:Hs; [|done]. cbn [mbind option_bind]. intros Hrun.
  destruct (ending_step _ _ _ _ _ _ _ Hok He Hd Hs) as [-> Hw].
  destruct (IH r1 n1) as [-> Hl]; [by eapply relay_step_ok | done | | done | split; [done | simpl in *; lia]].
  by rewrite (relay_step_done _ _ _ _ _ _ _ Hs Hd).
Qed.

Lemma unfinished_steps k d r n :
  ~ done_with (copier_of d r) -> exists ev, relay_step k (Op d ev) r n <> None.
Proof.
  intros Hd. assert (exists ev, copy_step (k_counts k) ev (copier_of d r) (counter d n) <> None) as [ev Hev].
  { unfold done_with in Hd. unfold copy_step. destruct (cp_phase (copier_of d r)) as [|chunk er| |old| |];
      [by exists (EvRead [] (Some EOF)) | by exists (EvWrite 0 (Some ErrShortWrite)); rewrite decide_True by lia |
       destruct (k_counts k); [by exists EvLoad | by exists EvClose] | by exists EvStore | by exists EvClose | done]. }
  exists ev. cbn [relay_step]. by destruct (copy_step _ _ _ _) as [[]|].
Qed.

(** C28: once one direction of a relay has ended (any of them, but the one of
    [handleStream] that only half-closes the local service), its close reaches
    the other one: no goroutine waits any more for a peer to send, because every
    further read is from a connection closed on this side; the relay returns
    within seven more operations, and two for every read that such a connection
    still answers without an error; and until it has returned it can go on. *)
Theorem relay_ends k evs1 evs2 r1 n1 r n n0 d :
  relay_run k evs1 new_relay n0 = Some (r1, n1) -> done_with (copier_of d r1) -> ends_other k d ->
  relay_run k evs2 r1 n1 = Some (r, n) ->
  count_evs open_read k evs2 r1 n1 = 0%nat /\
  (length evs2 <= 7 + 2 * count_evs late_read k evs2 r1 n1)%nat /\
  (rl_returned r = false ->
    (cp_phase (copier_of (other d) r) = Reading -> side_of (src (other d)) r = Closed) /\
    exists ev, relay_step k ev r n <> None).
Proof.
  intros Hrun1 Hd He Hrun2. apply relay_run_ok in Hrun1 as Hok1; [|apply relay_ok_new].
  destruct (ending_run _ _ _ _ _ _ _ Hok1 He Hd Hrun2) as [Ho Hl].
  assert (done_with (copier_of d r)) as Hd'.
  { clear Ho Hl Hrun1 Hok1. revert r1 n1 Hd Hrun2. induction evs2 as [|ev evs IH]; intros r1 n1 Hd; simpl; [by intros [= <- <-]|].
    destruct (relay_step k ev r1 n1) as [[r2 n2]|] eqn:Hs; [|done]. apply IH. by rewrite (relay_step_done _ _ _ _ _ _ _ Hs Hd). }
  apply relay_run_ok in Hrun2 as Hok; [|done]. split_and!; [done| |].
  - assert (pending (copier_of (other d) r1) <= 6)%nat by (unfold pending; repeat case_match; lia).
    unfold work in Hl. destruct (rl_returned r1), (rl_returned r); simpl in *; lia.
  - intros Hret. split.
    + intros _. replace (src (other d)) with (dst d) by by destruct d. by eapply done_closed.
    + destruct (decide (is_finished (copier_of (other d) r) = true)) as [Hf|Hf].
      * exists Return. simpl. apply is_finished_true in Hd'. rewrite Hret. by destruct d; simpl in *; rewrite Hf, Hd'.
      * rewrite is_finished_true in Hf. destruct (unfinished_steps k (other d) r n Hf) as [ev Hev]. by exists (Op (other d) ev).
Qed.

(** ** The counters of a session *)

(** What a goroutine has added to its counter, which was [v0]. *)
Definition counted (v0 : Z) (c : copier) (v : Z) : Prop :=
  match cp_phase c with
  | Loaded old => old = v0 /\ v = v0
  | Closing | Finished => v = int64 (v0 + cp_written c)
  | _ => v = v0
  end.

Lemma counted_after v0 er c v : counted v0 (after_chunk er c) v <-> v = v0.
Proof. by destruct er as [[|]|]. Qed.

Lemma copy_step_counted ev c v v0 c' v' :
  counted v0 c v -> copy_step true ev c v = Some (c', v') -> counted v0 c' v'.
Proof.
  unfold copy_step. destruct (cp_phase c) as [|chunk er| |old| |] eqn:Hph, ev as [data er'|nw ew| | |]; try done;
    unfold counted at 1; rewrite Hph; intros Hv.
  - intros [= <- <-]. destruct data; [by apply counted_after | done].
  - destruct (decide _); [|done]. intros [= <- <-]. destruct ew; [done|].
    destruct (decide _); [by apply counted_after | done].
  - by intros [= <- <-].
  - destruct Hv as [-> ->]. by intros [= <- <-].
  - by intros [= <- <-].
Qed.

Lemma counter_set d d' v n : counter d (set_counter d' v n) = if decide (d = d') then v else counter d n.
Proof. by destruct d, d'. Qed.

(** C29: a connection that has the counters of its tunnel to itself adds to them
    exactly what it has relayed: the bytes from the visitor to [BytesIn], those
    to the visitor to [BytesOut], modulo 2^64. *)
Theorem counters_exact evs r n n0 d :
  relay_run tcp_kind evs new_relay n0 = Some (r, n) -> rl_returned r = true ->
  counter d n = int64 (counter d n0 + Z.of_nat (length (cp_put (copier_of d r)))).
Proof.
  intros Hrun Hret. apply relay_run_ok in Hrun as Hok; [|apply relay_ok_new].
  assert (counted (counter d n0) (copier_of d r) (counter d n)) as Hc.
  { assert (counted (counter d n0) (copier_of d new_relay) (counter d n0)) as H0 by by destruct d.
    clear Hret Hok. revert H0 Hrun. generalize new_relay, n0 at 2 3 as n1. generalize (counter d n0) as v0. intros v0 r0 n1 H0.
    revert r0 n1 H0. induction evs as [|ev evs IH]; intros r0 n1 H0; simpl; [by intros [= <- <-]|].
    destruct (relay_step tcp_kind ev r0 n1) as [[r1 n2]|] eqn:Hs; [|done]. simpl. apply IH. clear IH.
    destruct ev as [d' ev|]; cbn [relay_step] in Hs.
    - destruct (copy_step _ ev (copier_of d' r0) (counter d' n1)) as [[c v]|] eqn:Hcs; [|done]. injection Hs as <- <-.
      rewrite counter_set.
      assert (copier_of d (if is_close ev then close_dst tcp_kind d' (set_copier d' c r0) else set_copier d' c r0)
              = if decide (d = d') then c else copier_of d r0) as ->.
      { destruct (is_close ev); [rewrite (proj1 (close_dst_frame _ _ _ _))|]; apply copier_of_set. }
      destruct (decide (d = d')) as [->|]; [by eapply copy_step_counted | done].
    - destruct (is_finished (rl_atob r0) && is_finished (rl_btoa r0) && negb (rl_returned r0)); [|done].
      injection Hs as <- <-. by destruct d. }
  destruct (ro_returned _ _ Hok Hret d) as [_ Hd]. unfold counted, done_with in *. rewrite Hd in Hc.
  destruct (ro_copiers _ _ Hok d) as [Hw _]. rewrite Hc, Hw.
  rewrite Z.add_comm, int64_add_l. f_equal. lia.
Qed.

(** ** The whole path *)

Record path_ok (half_close : bool) (p : Path) : Prop := {
  po_server : relay_ok tcp_kind (p_server p);
  po_client : relay_ok (stream_kind half_close) (p_client p);
  po_up : cp_put (rl_atob (p_server p)) = cp_got (rl_atob (p_client p)) ++ p_up p;
  po_down : cp_put (rl_btoa (p_client p)) = cp_got (rl_btoa (p_server p)) ++ p_down p;
}.

(** What an operation adds to what a goroutine has read and written. *)
Lemma after_chunk_bytes er c : cp_got (after_chunk er c) = cp_got c /\ cp_put (after_chunk er c) = cp_put c.
Proof. by destruct er as [[|]|]. Qed.

Lemma copy_step_flow counts ev c n c' n' :
  copy_step counts ev c n = Some (c', n') ->
  cp_got c' = cp_got c ++ (match ev with EvRead data _ => data | _ => [] end) /\
  cp_put c' = cp_put c ++ (match ev, cp_phase c with EvWrite nw _, Writing chunk _ => take nw chunk | _, _ => [] end).
Proof.
  unfold copy_step. destruct (cp_phase c) as [|chunk er| |old| |] eqn:Hph, ev as [data er'|nw ew| | |]; try done;
    rewrite ?app_nil_r.
  - intros [= <- <-]. destruct data; [|done]. by destruct (after_chunk_bytes er'
      {| cp_phase := Writing [] er'; cp_written := cp_written c; cp_err := cp_err c;
         cp_got := cp_got c ++ []; cp_put := cp_put c |}) as [-> ->].
  - destruct (decide _); [|done]. intros [= <- <-]. destruct ew; [done|]. destruct (decide _); [|done].
    by rewrite (proj1 (after_chunk_bytes _ _)), (proj2 (after_chunk_bytes _ _)).
  - destruct counts; [|done]. by intros [= <- <-].
  - destruct counts; [done|]. by intros [= <- <-].
  - by intros [= <- <-].
  - by intros [= <- <-].
Qed.

Lemma relay_step_flow k ev r n r' n' d :
  relay_step k ev r n = Some (r', n') ->
  cp_got (copier_of d r') = cp_got (copier_of d r) ++ taken d ev /\
  cp_put (copier_of d r') = cp_put (copier_of d r) ++ handed d ev r.
Proof.
  destruct ev as [d' ev|]; cbn [relay_step taken handed].
  - destruct (copy_step _ ev (copier_of d' r) (counter d' n)) as [[c v]|] eqn:Hs; [|done]. intros [= <- <-].
    apply copy_step_flow in Hs as [Hg Hp].
    assert (copier_of d (if is_close ev then close_dst k d' (set_copier d' c r) else set_copier d' c r)
            = if decide (d = d') then c else copier_of d r) as ->.
    { destruct (is_close ev); [rewrite (proj1 (close_dst_frame _ _ _ _))|]; apply copier_of_set. }
    destruct (decide (d = d')) as [->|Hne].
    + rewrite Hg, Hp. split; [by destruct ev; rewrite ?decide_True by done|].
      destruct ev; try done. by rewrite decide_True.
    + destruct ev; rewrite ?decide_False by congruence; by rewrite !app_nil_r.
  - destruct (is_finished (rl_atob r) && is_finished (rl_btoa r) && negb (rl_returned r)); [|done].
    intros [= <- <-]. by destruct d; rewrite !app_nil_r.
Qed.

Lemma dequeue_Some data q q' : dequeue data q = Some q' -> q = data ++ q'.
Proof.
  unfold dequeue. destruct (decide _) as [Ht|]; [|done]. intros [= <-].
  rewrite <- Ht at 1. by rewrite take_drop.
Qed.

Lemma path_step_ok hc ev p n p' n' :
  path_ok hc p -> path_step hc ev p n = Some (p', n') -> path_ok hc p'.
Proof.
  intros [Hs Hc Hu Hd]. destruct ev as [ev|ev]; cbn [path_step].
  - destruct (dequeue _ _) as [q|] eqn:Hq; [|done]. apply dequeue_Some in Hq. cbn [mbind option_bind].
    destruct (relay_step _ ev (p_server p) n) as [[r m]|] eqn:Hr; [|done]. intros [= <- <-].
    destruct (relay_step_flow _ _ _ _ _ _ AtoB Hr) as [_ Hp]. destruct (relay_step_flow _ _ _ _ _ _ BtoA Hr) as [Hg _].
    simpl in Hp, Hg. split; simpl; [by eapply relay_step_ok | done | by rewrite Hp, Hu, app_assoc |].
    by rewrite Hd, Hg, Hq, app_assoc.
  - destruct (dequeue _ _) as [q|] eqn:Hq; [|done]. apply dequeue_Some in Hq. cbn [mbind option_bind].
    destruct (relay_step _ ev (p_client p) n) as [[r m]|] eqn:Hr; [|done]. intros [= <- <-].
    destruct (relay_step_flow _ _ _ _ _ _ AtoB Hr) as [Hg _]. destruct (relay_step_flow _ _ _ _ _ _ BtoA Hr) as [_ Hp].
    simpl in Hp, Hg. split; simpl; [done | by eapply relay_step_ok | | by rewrite Hp, Hd, app_assoc].
    by rewrite Hu, Hg, Hq, app_assoc.
Qed.

Lemma path_run_ok hc evs p n p' n' :
  path_ok hc p -> path_run hc evs p n = Some (p', n') -> path_ok hc p'.
Proof.
  revert p n. induction evs as [|ev evs IH]; intros p n Hok; simpl; [by intros [= <- <-]|].
  destruct (path_step hc ev p n) as [[p1 n1]|] eqn:Hs; [|done]. simpl. apply IH. by eapply path_step_ok.
Qed.

(** What [d] carries from one end of the path to the other: the bytes read at
    the entry and those written at the exit. *)
Definition entered (d : dir) (p : Path) : list byte :=
  match d with AtoB => cp_got (rl_atob (p_server p)) | BtoA => cp_got (rl_btoa (p_client p)) end.
Definition left_path (d : dir) (p : Path) : list byte :=
  match d with AtoB => cp_put (rl_atob (p_client p)) | BtoA => cp_put (rl_btoa (p_server p)) end.
Definition under_way (d : dir) (p : Path) : list byte :=
  match d with AtoB => p_up p | BtoA => p_down p end.
Definition ended_well (c : copier) : Prop := done_with c /\ cp_err c = None.

(** The goroutines at the two ends of the stream: the one that writes [d] into
    it and the one that reads [d] from it. *)
Definition writer (d : dir) (p : Path) : copier :=
  match d with AtoB => rl_atob (p_server p) | BtoA => rl_btoa (p_client p) end.
Definition reader (d : dir) (p : Path) : copier :=
  match d with AtoB => rl_atob (p_client p) | BtoA => rl_btoa (p_server p) end.
(** The end of the stream that is written to. *)
Definition writer_end (d : dir) (p : Path) : openness :=
  match d with AtoB => rl_b (p_server p) | BtoA => rl_a (p_client p) end.
Definition reads_eof (d : dir) (ev : path_ev) : bool :=
  match d, ev with
  | AtoB, AtClient (Op AtoB (EvRead _ (Some EOF))) | BtoA, AtServer (Op BtoA (EvRead _ (Some EOF))) => true
  | _, _ => false
  end.

(** What a reliable stream promises of the end of file (the reverse of a close):
    it is read only once the other end has been closed and everything written to
    it has been read.  An end closed on the reader's own side may say so earlier
    ([half_close_differs]). *)
Fixpoint eof_is_the_end (half_close : bool) (d : dir) (evs : list path_ev) (p : Path) (n : Counters) : Prop :=
  match evs with
  | [] => True
  | ev :: evs =>
      match path_step half_close ev p n with
      | Some (p', n') =>
          (reads_eof d ev = true -> under_way d p' = [] /\ writer_end d p' = Closed) /\
          eof_is_the_end half_close d evs p' n'
      | None => True
      end
  end.

Definition saw_eof (c : copier) : Prop :=
  match cp_phase c with
  | Reading => False
  | Writing _ er => er = Some EOF
  | _ => cp_err c = None
  end.

Lemma saw_eof_after er c : saw_eof (after_chunk er c) -> er = Some EOF.
Proof. by destruct er as [[|e]|]. Qed.

Lemma copy_step_eof counts ev c n c' n' :
  copy_step counts ev c n = Some (c', n') -> saw_eof c' ->
  saw_eof c \/ exists data, ev = EvRead data (Some EOF).
Proof.
  unfold copy_step, saw_eof at 2. destruct (cp_phase c) as [|chunk er| |old| |] eqn:Hph, ev as [data er'|nw ew| | |]; try done.
  - intros [= <- <-] He. right. exists data. destruct data; [by apply saw_eof_after in He as -> | by simpl in He; rewrite He].
  - destruct (decide _); [|done]. intros [= <- <-] He. left. destruct ew; [done|].
    destruct (decide _); [by apply saw_eof_after in He | done].
  - destruct counts; [|done]. intros [= <- <-]. by left.
  - destruct counts; [done|]. intros [= <- <-]. by left.
  - intros [= <- <-]. by left.
  - intros [= <- <-]. by left.
Qed.

Lemma handed_done d ev r : done_with (copier_of d r) -> handed d ev r = [].
Proof.
  unfold done_with. intros Hd. destruct ev as [d' []|]; try done. simpl. destruct (decide (d' = d)) as [->|]; [|done]. by rewrite Hd.
Qed.

Lemma dequeue_nil data q : dequeue data [] = Some q -> q = [].
Proof. intros H%dequeue_Some. by destruct data, q. Qed.

(** One step of the path, seen from a direction. *)
Lemma path_step_eof hc d ev p n p' n' :
  path_step hc ev p n = Some (p', n') ->
  (saw_eof (reader d p') -> saw_eof (reader d p) \/ reads_eof d ev = true) /\
  (done_with (writer d p) -> done_with (writer d p') /\ (under_way d p = [] -> under_way d p' = [])).
Proof.
  destruct ev as [ev|ev]; cbn [path_step].
  - destruct (dequeue _ _) as [q|] eqn:Hq; [|done]. cbn [mbind option_bind].
    destruct (relay_step _ ev (p_server p) n) as [[r m]|] eqn:Hr; [|done]. intros [= <- <-].
    destruct d; simpl; split.
    + by left.
    + intros Hd. rewrite (relay_step_done _ _ _ _ _ _ AtoB Hr Hd : rl_atob r = _), handed_done, app_nil_r; done.
    + destruct (relay_step_copier _ _ _ _ _ _ BtoA Hr) as [E|(cev & v & v' & -> & Hc)]; simpl in *; [rewrite E; by left|].
      intros He. destruct (copy_step_eof _ _ _ _ _ _ Hc He) as [|[data ->]]; [by left | by right].
    + intros Hd. split; [done|]. intros E. rewrite E in Hq. by apply dequeue_nil in Hq.
  - destruct (dequeue _ _) as [q|] eqn:Hq; [|done]. cbn [mbind option_bind].
    destruct (relay_step _ ev (p_client p) n) as [[r m]|] eqn:Hr; [|done]. intros [= <- <-].
    destruct d; simpl; split.
    + destruct (relay_step_copier _ _ _ _ _ _ AtoB Hr) as [E|(cev & v & v' & -> & Hc)]; simpl in *; [rewrite E; by left|].
      intros He. destruct (copy_step_eof _ _ _ _ _ _ Hc He) as [|[data ->]]; [by left | by right].
    + intros Hd. split; [done|]. intros E. rewrite E in Hq. by apply dequeue_nil in Hq.
    + by left.
    + intros Hd. rewrite (relay_step_done _ _ _ _ _ _ BtoA Hr Hd : rl_btoa r = _), handed_done, app_nil_r; done.
Qed.

(** The end that is written to is open for as long as its writer is at work. *)
Lemma writer_end_closed hc d p : path_ok hc p -> writer_end d p = Closed -> done_with (writer d p).
Proof.
  intros [Hs Hc _ _] He. destruct d; simpl in *.
  - destruct (decide (is_finished (rl_atob (p_server p)) = true)) as [Hf|Hf]; rewrite is_finished_true in Hf; [done|].
    pose proof (ro_open _ _ Hs AtoB Hf) as Ho. simpl in Ho. congruence.
  - destruct (decide (is_finished (rl_btoa (p_client p)) = true)) as [Hf|Hf]; rewrite is_finished_true in Hf; [done|].
    pose proof (ro_open _ _ Hc BtoA Hf) as Ho. simpl in Ho. congruence.
Qed.

Lemma path_run_eof hc d evs p n p' n' :
  path_ok hc p -> (saw_eof (reader d p) -> done_with (writer d p) /\ under_way d p = []) ->
  path_run hc evs p n = Some (p', n') -> eof_is_the_end hc d evs p n ->
  saw_eof (reader d p') -> under_way d p' = [].
Proof.
  revert p n. induction evs as [|ev evs IH]; intros p n Hok Hinv; simpl; [intros [= <- <-] _ He; by apply Hinv|].
  destruct (path_step hc ev p n) as [[p1 n1]|] eqn:Hs; [|done]. simpl. intros Hrun [Hev Hrest].
  pose proof (path_step_ok _ _ _ _ _ _ Hok Hs) as Hok1. destruct (path_step_eof _ d _ _ _ _ _ Hs) as [Hsaw Hdone].
  apply (IH p1 n1); [done| |done..]. intros He. destruct (Hsaw He) as [H0|H0].
  - destruct (Hinv H0) as [Hd Hq]. destruct (Hdone Hd) as [Hd1 Hq1]. by split; [|apply Hq1].
  - destruct (Hev H0) as [Hq Hcl]. split; [by eapply writer_end_closed | done].
Qed.

Lemma ended_well_all k d r : relay_ok k r -> ended_well (copier_of d r) -> cp_got (copier_of d r) = cp_put (copier_of d r).
Proof.
  intros Hok [Hdone He]. destruct (ro_copiers _ _ Hok d) as [_ Hp]. unfold done_with in Hdone.
  rewrite Hdone in Hp. by apply Hp.
Qed.

Lemma path_bytes hc d p :
  path_ok hc p ->
  cp_put (writer d p) = cp_got (reader d p) ++ under_way d p /\
  left_path d p `prefix_of` cp_got (reader d p) /\ cp_put (writer d p) `prefix_of` entered d p /\
  (ended_well (writer d p) -> cp_put (writer d p) = entered d p) /\
  (ended_well (reader d p) -> cp_got (reader d p) = left_path d p).
Proof.
  intros [Hs Hc Hu Hd].
  pose proof (fun d => copier_ok_prefix _ (ro_copiers _ _ Hs d)) as Hps.
  pose proof (fun d => copier_ok_prefix _ (ro_copiers _ _ Hc d)) as Hpc.
  pose proof (fun d => ended_well_all _ d _ Hs) as Has. pose proof (fun d => ended_well_all _ d _ Hc) as Hac.
  destruct d; [specialize (Hps AtoB); specialize (Hpc AtoB); specialize (Has AtoB); specialize (Hac AtoB) |
               specialize (Hps BtoA); specialize (Hpc BtoA); specialize (Has BtoA); specialize (Hac BtoA)];
    simpl in *; split_and!; try done; intros H; first [by auto | symmetry; by auto].
Qed.

(** C4: end to end, what has come out at the far end of a direction is, in order
    and without additions, a prefix of what has gone in at its near end.  Once
    both relays have ended the direction without an error, nothing is missing but
    what the stream still holds; and nothing at all is missing when the end of
    file the far relay read from the stream was the end of the stream. *)
Theorem path_faithful hc evs p n n0 d :
  path_run hc evs new_path n0 = Some (p, n) ->
  left_path d p `prefix_of` entered d p /\
  (ended_well (copier_of d (p_server p)) -> ended_well (copier_of d (p_client p)) ->
   entered d p = left_path d p ++ under_way d p /\
   (eof_is_the_end hc d evs new_path n0 -> left_path d p = entered d p)).
Proof.
  intros Hrun. assert (path_ok hc new_path) as H0 by (split; try apply relay_ok_new; done).
  pose proof (path_run_ok _ _ _ _ _ _ H0 Hrun) as Hok. destruct (path_bytes _ d _ Hok) as (Hq & Hl & He & Hw & Hr).
  split; [etrans; [exact Hl|]; etrans; [|exact He]; rewrite Hq; by apply prefix_app_r|]. intros Hes Hec.
  assert (ended_well (writer d p) /\ ended_well (reader d p)) as [H1 H2] by by destruct d.
  assert (entered d p = left_path d p ++ under_way d p) as E by by rewrite <- (Hw H1), <- (Hr H2).
  split; [done|]. intros Heof.
  assert (under_way d p = []) as Hnil.
  { eapply (path_run_eof hc d evs new_path n0); [done | by destruct d | done | done |].
    destruct H2 as [Hd Hn]. unfold saw_eof, done_with in *. by rewrite Hd. }
  by rewrite E, Hnil, app_nil_r.
Qed.

(** ** Half-closed connections *)

Lemma stays_readable k evs r n r0 n0 :
  k_close_b k <> Closed -> rl_b r0 <> Closed -> relay_run k evs r0 n0 = Some (r, n) ->
  rl_returned r = false -> rl_b r <> Closed.
Proof.
  intros Hk. revert r0 n0. induction evs as [|ev evs IH]; intros r0 n0 H0; simpl; [by intros [= <- <-]|].
  destruct (relay_step k ev r0 n0) as [[r1 n1]|] eqn:Hs; [|done]. simpl. intros Hrun Hret.
  destruct (rl_returned r1) eqn:E1.
  - exfalso. assert (rl_returned r = true); [|congruence]. clear -E1 Hrun.
    revert r1 n1 E1 Hrun. induction evs as [|ev evs IH]; intros r1 n1 E1; simpl; [by intros [= <- <-]|].
    destruct (relay_step k ev r1 n1) as [[r2 n2]|] eqn:Hs; [|done]. simpl. apply IH.
    destruct ev as [d ev|]; cbn [relay_step] in Hs.
    + destruct (copy_step _ ev _ _) as [[c v]|]; [|done]. injection Hs as <- <-.
      destruct (is_close ev), d; exact E1.
    + rewrite E1, andb_false_r in Hs. done.
  - apply (IH r1 n1); [|done..]. destruct ev as [d ev|]; cbn [relay_step] in Hs.
    + destruct (copy_step _ ev _ _) as [[c v]|]; [|done]. injection Hs as <- <-.
      destruct (is_close ev), d; simpl; try done. destruct (rl_b r0), (k_close_b k); done.
    + destruct (is_finished (rl_atob r0) && is_finished (rl_btoa r0) && negb (rl_returned r0)); [|done].
      by injection Hs as <- <-.
Qed.

(** When the visitor has sent everything and closes its sending side, the
    server closes the whole stream, also while the answer is still being read
    from it; the client, at the other end, keeps the local connection readable
    until it has returned.  So the answer to a visitor that half-closes is cut
    wherever the closed stream stops delivering. *)
Theorem half_close_differs evs r n n0 :
  (relay_run tcp_kind evs new_relay n0 = Some (r, n) -> done_with (rl_atob r) -> rl_b r = Closed) /\
  (relay_run (stream_kind true) evs new_relay n0 = Some (r, n) -> rl_returned r = false -> rl_b r <> Closed).
Proof.
  split; intros Hrun Hd.
  - apply relay_run_ok in Hrun as Hok; [|apply relay_ok_new]. by destruct (ro_closed _ _ Hok AtoB Hd).
  - by apply (stays_readable (stream_kind true) evs r n new_relay n0).
Qed.

(** ** Examples *)

Module Examples.
Definition n0 : Counters := {| BytesIn := 0; BytesOut := 0 |}.

(** A request, its answer in two pieces, both ends. *)
Definition session : list relay_ev :=
  [Op AtoB (EvRead [x01; x02] None); Op AtoB (EvWrite 2 None); Op BtoA (EvRead [x03] None);
   Op AtoB (EvRead [] (Some EOF)); Op BtoA (EvWrite 1 None); Op AtoB EvLoad; Op AtoB EvStore; Op AtoB EvClose;
   Op BtoA (EvRead [x04] (Some EOF)); Op BtoA (EvWrite 1 None); Op BtoA EvLoad; Op BtoA EvStore; Op BtoA EvClose;
   Return].
Definition after (evs : list relay_ev) : Relay * Counters :=
  match relay_run tcp_kind evs new_relay n0 with Some x => x | None => (new_relay, n0) end.

Lemma run_session : relay_run tcp_kind session new_relay n0 = Some ((after session).1, (after session).2).
Proof. vm_compute. reflexivity. Qed.

Lemma relay_faithful_witness :
  let c := copier_of BtoA (after session).1 in
  cp_put c = [x03; x04] /\ cp_put c `prefix_of` cp_got c.
Proof.
  split; [vm_compute; reflexivity|].
  exact (proj1 (relay_faithful tcp_kind session _ _ n0 BtoA run_session)).
Defined.

(** The visitor's direction is done after eight events; the stream, closed, still
    delivers a byte. *)
Definition first_half : list relay_ev := take 8 session.
Definition second_half : list relay_ev :=
  Op BtoA (EvRead [x04] None) :: Op BtoA (EvWrite 1 None) :: drop 8 session.
Definition at_close : Relay * Counters := after first_half.
Definition at_end : Relay * Counters :=
  match relay_run tcp_kind second_half at_close.1 at_close.2 with
  | Some x => x | None => (new_relay, n0) end.

Lemma run_first : relay_run tcp_kind first_half new_relay n0 = Some (at_close.1, at_close.2).
Proof. vm_compute. reflexivity. Qed.
Lemma visitor_done : done_with (copier_of AtoB at_close.1).
Proof. vm_compute. reflexivity. Qed.
Lemma run_rest : relay_run tcp_kind second_half at_close.1 at_close.2 = Some (at_end.1, at_end.2).
Proof. vm_compute. reflexivity. Qed.

Lemma relay_ends_witness :
  (8 <= 7 + 2 * count_evs late_read tcp_kind second_half at_close.1 at_close.2)%nat.
Proof.
  exact (proj1 (proj2 (relay_ends tcp_kind first_half _ _ _ _ _ n0 AtoB run_first visitor_done eq_refl run_rest))).
Defined.

Lemma returned : rl_returned (after session).1 = true.
Proof. vm_compute. reflexivity. Qed.

Lemma counters_exact_witness :
  counter BtoA (after session).2 = int64 (0 + Z.of_nat (length (cp_put (copier_of BtoA (after session).1)))).
Proof. exact (counters_exact session _ _ n0 BtoA run_session returned). Defined.

(** Two visitors of one tunnel whose connections end together: one addition is
    lost. *)
Definition one_byte (i : nat) : list (nat * relay_ev) :=
  [(i, Op AtoB (EvRead [x01] (Some EOF))); (i, Op AtoB (EvWrite 1 None))].
Definition race : list (nat * relay_ev) :=
  one_byte 0 ++ one_byte 1 ++
  [(0%nat, Op AtoB EvLoad); (1%nat, Op AtoB EvLoad); (0%nat, Op AtoB EvStore); (1%nat, Op AtoB EvStore)].

Theorem lost_update :
  match conns_run race ([new_relay; new_relay], n0) with
  | Some (rs, n) => BytesIn n = 1 /\ map (fun r => cp_put (rl_atob r)) rs = [[x01]; [x01]]
  | None => False
  end.
Proof. vm_compute. done. Qed.

(** A byte from the visitor to the local service, and the end of the stream. *)
Definition hop : list path_ev :=
  [AtServer (Op AtoB (EvRead [x07] (Some EOF))); AtServer (Op AtoB (EvWrite 1 None));
   AtServer (Op AtoB EvLoad); AtServer (Op AtoB EvStore); AtServer (Op AtoB EvClose);
   AtClient (Op AtoB (EvRead [x07] None)); AtClient (Op AtoB (EvWrite 1 None));
   AtClient (Op AtoB (EvRead [] (Some EOF))); AtClient (Op AtoB EvClose)].
Definition there : Path * Counters :=
  match path_run true hop new_path n0 with Some x => x | None => (new_path, n0) end.

Lemma run_hop : path_run true hop new_path n0 = Some (there.1, there.2).
Proof. vm_compute. reflexivity. Qed.
Lemma hop_server : ended_well (copier_of AtoB (p_server there.1)).
Proof. by vm_compute. Qed.
Lemma hop_client : ended_well (copier_of AtoB (p_client there.1)).
Proof. by vm_compute. Qed.
Lemma hop_eof : eof_is_the_end true AtoB hop new_path n0.
Proof. vm_compute. by split_and!. Qed.

Lemma path_faithful_witness : left_path AtoB there.1 = [x07] /\ left_path AtoB there.1 = entered AtoB there.1.
Proof.
  split; [vm_compute; reflexivity |
          exact (proj2 (proj2 (path_faithful true hop _ _ n0 AtoB run_hop) hop_server hop_client) hop_eof)].
Defined.

(** The visitor half-closes before the answer. *)
Definition early : list relay_ev :=
  [Op AtoB (EvRead [x01] (Some EOF)); Op AtoB (EvWrite 1 None); Op AtoB EvLoad; Op AtoB EvStore; Op AtoB EvClose].

Lemma run_early : relay_run tcp_kind early new_relay n0 = Some ((after early).1, (after early).2).
Proof. vm_compute. reflexivity. Qed.
Lemma sent_all : done_with (rl_atob (after early).1).
Proof. vm_compute. reflexivity. Qed.

Lemma half_close_differs_witness :
  rl_b (after early).1 = Closed /\ cp_phase (rl_btoa (after early).1) = Reading.
Proof.
  split; [exact (proj1 (half_close_differs early _ _ n0) run_early sent_all) | vm_compute; reflexivity].
Defined.
End Examples.
