(* ===== verification/Handlers.v ===== *)
(** * What the handlers do

    Specifications of the programs of Server.v run from beginning to end: the
    answer a client gets and what it finds in the registry and in the counts.
    The state between two operations is the handler's own here; Sessions.v and
    System.v say what interleaving preserves. *)

From S2P Require Import Prelude Prog GoStrings Wire Subdomain TunnelManager Quota Auth KeyStore Config Server Permits Sessions.
Local Open Scope Z_scope.

Section Handlers.
Context {L : Type} `{Limiter L} `{Bcrypt} `{!RangeOrder string, !RangeOrder Z}.
Implicit Types (s : Server L).

Abbreviation hwp := (wp (exec (L := L))).
Abbreviation tm_of := srv_tunnelManager.

(** One operation: its cases are computed from [exec]. *)
Ltac step := apply wp_trigger; let c := fresh "c" in let He := fresh "He" in
  intros c ? ? He; cbn [exec] in He.

(** An operation with one outcome, or whose case is already chosen. *)
Ltac got He := injection He as <- <-.

(** ** Tunnel requests *)

(** The counts after one more tunnel of [token], anonymous ones apart. *)
Definition charged (token : string) s s' : Prop :=
  (forall t, t <> token \/ is_anon token = true -> srv_quota t s' = srv_quota t s) /\
  (is_anon token = false -> exists c m, srv_quota token s = Some (c, m) /\ c < m /\
     srv_quota token s' = Some (c + 1, m)).

(** The tunnel a request asks for. *)
Record requested (y : session_id) (token : string) (req : TunnelRequestMsg) (ts : TunnelSession) : Prop := {
  rq_token : ts_Token ts = token;
  rq_type : ts_Type ts = tq_Type req;
  rq_local : ts_LocalPort ts = tq_LocalPort req;
  rq_session : ts_Session ts = Some y;
  rq_active : ts_Reserved ts = false;
}.

(** What a request never touches: the configuration, the other tunnels. *)
Record kept s s' : Prop := {
  kp_cfg : srv_cfg s' = srv_cfg s;
  kp_min : portMin (tm_of s') = portMin (tm_of s);
  kp_max : portMax (tm_of s') = portMax (tm_of s);
  kp_old l ts : obj s l = Some ts -> obj s' l = Some ts;
}.

(** A request that has been charged and has created its object, not filed. *)
Record pending (y : session_id) (token : string) (req : TunnelRequestMsg) (l : loc) s s' : Prop := {
  pd_kept : kept s s';
  pd_http : httpTunnels (tm_of s') = httpTunnels (tm_of s);
  pd_tcp : tcpTunnels (tm_of s') = tcpTunnels (tm_of s);
  pd_sent : srv_sent s' = srv_sent s;
  pd_fresh : obj s l = None;
  pd_new : exists ts, obj s' l = Some ts /\ requested y token req ts;
  pd_charged : charged token s s';
}.

(** The request was refused: the client may have been told why, and nothing
    else has changed. *)
Definition refused (y : session_id) s s' : Prop :=
  kept s s' /\ httpTunnels (tm_of s') = httpTunnels (tm_of s) /\
  tcpTunnels (tm_of s') = tcpTunnels (tm_of s) /\ (forall t, srv_quota t s' = srv_quota t s) /\
  exists told, srv_sent s' = srv_sent s ++ told /\
    (told = [] \/ exists msg, told = [(ToSession y, OutTunnelResp
       {| tr_Success := false; tr_URL := ""; tr_RemotePort := 0; tr_Message := msg |})]).

(** Where the new tunnel [l] with the contents [ts] is filed, and the answer. *)
Inductive filed (token : string) (req : TunnelRequestMsg) (l : loc) (ts : TunnelSession) s s' : TunnelResponseMsg -> Prop :=
  | filed_http sub :
      tq_Type req = TunnelHTTP -> ts_Subdomain ts = sub -> ValidateSubdomain sub = None ->
      (tq_Subdomain req <> ""%string -> sub = tq_Subdomain req) ->
      (forall l0 ts0, httpTunnels (tm_of s) !! sub = Some l0 -> obj s l0 = Some ts0 ->
         ts_Reserved ts0 = true /\ ts_Token ts0 = token) ->
      httpTunnels (tm_of s') = <[sub := l]> (httpTunnels (tm_of s)) ->
      tcpTunnels (tm_of s') = tcpTunnels (tm_of s) ->
      filed token req l ts s s'
        {| tr_Success := true; tr_URL := "https://" +:+ sub +:+ "." +:+ Domain (srv_cfg s);
           tr_RemotePort := 0; tr_Message := "" |}
  | filed_tcp port :
      tq_Type req = TunnelTCP -> ts_Port ts = port ->
      portMin (tm_of s) <= port <= portMax (tm_of s) ->
      tcpTunnels (tm_of s) !! port = None ->
      httpTunnels (tm_of s') = httpTunnels (tm_of s) ->
      tcpTunnels (tm_of s') = <[port := l]> (tcpTunnels (tm_of s)) ->
      filed token req l ts s s'
        {| tr_Success := true; tr_URL := ""; tr_RemotePort := port; tr_Message := "" |}.

(** The request was granted: exactly one new tunnel, as asked for, one more on
    the count, below the limit, and the client may have been told its address. *)
Definition granted (y : session_id) (token : string) (req : TunnelRequestMsg) s s' : Prop :=
  kept s s' /\ charged token s s' /\
  exists l ts resp told, obj s l = None /\ obj s' l = Some ts /\ requested y token req ts /\
    filed token req l ts s s' resp /\
    srv_sent s' = srv_sent s ++ told /\ (told = [] \/ told = [(ToSession y, OutTunnelResp resp)]).

(** The counts are never negative. *)
Definition counts_ok s : Prop := forall t c m, srv_quota t s = Some (c, m) -> 0 <= c.

Lemma kept_refl s : kept s s.
Proof. done. Qed.

Lemma kept_same s s' : srv_cfg s' = srv_cfg s -> tm_of s' = tm_of s -> kept s s'.
Proof. intros Hc Ht. split; unfold obj; by rewrite ?Ht, ?Hc. Qed.

Lemma kept_trans s s1 s2 : kept s s1 -> kept s1 s2 -> kept s s2.
Proof. intros [] []. split; [congruence..|]. auto. Qed.

Lemma wp_error y msg s s0 :
  refused y s s0 -> srv_sent s0 = srv_sent s ->
  hwp (sendTunnelError y msg) (fun _ => refused y s) s0.
Proof.
  intros (Hk & Hh & Ht & Hq & told & Htold & _) Hsent. rewrite Hsent in Htold. step.
  destruct (c_ok c); simplify_eq; cbn.
  - split_and!; try done; [eapply kept_trans, kept_same; done|]. simpl. rewrite Hsent.
    eexists. split; [done|]. right. by eexists.
  - split_and!; try done. exists []. rewrite app_nil_r. auto.
Qed.

(** A refusal before anything has changed but the limiters. *)
Lemma wp_refuse_now y msg s s0 :
  tm_of s0 = tm_of s -> srv_cfg s0 = srv_cfg s -> srv_sent s0 = srv_sent s ->
  (forall t, srv_quota t s0 = srv_quota t s) ->
  hwp (sendTunnelError y msg) (fun _ => refused y s) s0.
Proof.
  intros Ht Hc Hs Hq. apply wp_error; [|done]. split_and!; [by apply kept_same | by rewrite Ht..| done |].
  exists []. rewrite app_nil_r. auto.
Qed.

(** Giving the charge back. *)
Lemma wp_decrement token s s0 :
  counts_ok s -> charged token s s0 ->
  hwp (decrementTunnels token) (fun _ s1 =>
    tm_of s1 = tm_of s0 /\ srv_cfg s1 = srv_cfg s0 /\ srv_sent s1 = srv_sent s0 /\
    forall t, srv_quota t s1 = srv_quota t s) s0.
Proof.
  intros Hok [Hother Hself]. unfold decrementTunnels. destruct (is_anon token) eqn:Ea.
  { cbn. split_and!; [done..|]. intros t. apply Hother. by right. }
  destruct Hself as (c0 & m & Hq & Hlt & Hq'); [done|].
  assert (forall s1, srv_quota token s1 = decr_spec (srv_quota token s0) ->
    (forall t, t <> token -> srv_quota t s1 = srv_quota t s0) ->
    forall t, srv_quota t s1 = srv_quota t s) as Hback.
  { intros s1 Hd Ho t. destruct (decide (t = token)) as [->|Hne]; [|rewrite Ho; auto].
    rewrite Hd, Hq', Hq. pose proof (Hok _ _ _ Hq). simpl. rewrite bool_decide_true by lia. do 2 f_equal. lia. }
  destruct (IsAPIKey token) eqn:Ek; intros c s1 r He; cbn [exec] in He; simplify_eq; cbn [wp];
    split_and!; try done; [apply Hback; by apply key_decr_quota | apply Hback; by apply token_decr_quota].
Qed.

Lemma wp_give_up y token req l msg s s0 :
  counts_ok s -> pending y token req l s s0 ->
  hwp (_ ← decrementTunnels token; sendTunnelError y msg) (fun _ => refused y s) s0.
Proof.
  intros Hok Hp. eapply wp_seq; [by eapply wp_decrement, Hp|].
  intros _ s1 (Ht & Hc & Hs & Hq). destruct Hp as [Hk Hh Htc Hse _ _ _].
  apply wp_error; [|congruence]. split_and!; try done; [|congruence|congruence|].
  - eapply kept_trans; [done | by apply kept_same].
  - exists []. rewrite app_nil_r. split; [congruence | auto].
Qed.

(** Assignments to the fields of the private object. *)
Lemma pending_update y token req l f s s0 :
  (forall ts, requested y token req ts -> requested y token req (f ts)) ->
  pending y token req l s s0 -> pending y token req l s (with_tm (update l f (tm_of s0)) s0).
Proof.
  intros Hf [[Hc Hmi Hma Hold] Hh Ht Hs Hfresh (ts & Hts & Hreq) Hch].
  assert (forall l0 ts0, obj s l0 = Some ts0 ->
    obj (with_tm (update l f (tm_of s0)) s0) l0 = Some ts0) as Hold'.
  { intros l0 ts0 Ho. unfold obj. simpl. rewrite lookup_alter_ne; [by apply Hold|]. intros ->. congruence. }
  split; try done. exists (f ts). split; [by apply lookup_update_eq | auto].
Qed.

(** The object is filed, the client not yet told. *)
Definition placed (y : session_id) (token : string) (req : TunnelRequestMsg) (l : loc) (resp : TunnelResponseMsg) s s' : Prop :=
  kept s s' /\ charged token s s' /\ obj s l = None /\ srv_sent s' = srv_sent s /\
  exists ts, obj s' l = Some ts /\ requested y token req ts /\ filed token req l ts s s' resp.

Lemma wp_answer y token req l resp s s0 :
  placed y token req l resp s s0 ->
  hwp (_ ← send (ToSession y) (OutTunnelResp resp); mret tt) (fun _ => granted y token req s) s0.
Proof.
  intros (Hk & Hc & Hf & Hs & ts & Ho & Hr & Hfi). step. destruct (c_ok c); simplify_eq; cbn.
  - split_and!; [destruct Hk; by split | exact Hc |]. exists l, ts, resp. eexists.
    split_and!; [done | done | done | by destruct Hfi; econstructor | by cbn; rewrite Hs | by right].
  - split_and!; [done | done |]. exists l, ts, resp, []. rewrite app_nil_r. split_and!; auto.
Qed.

Definition http_reply (sub : string) s : TunnelResponseMsg :=
  {| tr_Success := true; tr_URL := "https://" +:+ sub +:+ "." +:+ Domain (srv_cfg s);
     tr_RemotePort := 0; tr_Message := "" |}.

(** [ts.Subdomain = subdomain], then [RegisterHTTP]. *)
Lemma claim_cases y token req l sub s s0 now tm2 err :
  tq_Type req = TunnelHTTP -> (tq_Subdomain req <> ""%string -> sub = tq_Subdomain req) ->
  pending y token req l s s0 ->
  RegisterHTTP now sub l (update l (set_Subdomain sub) (tm_of s0)) = (tm2, err) ->
  match err with
  | Some _ => pending y token req l s (with_tm tm2 s0)
  | None => placed y token req l (http_reply sub s) s (with_tm tm2 s0)
  end.
Proof.
  intros Hty Hsub Hp Hr.
  pose proof (pending_update y token req l (set_Subdomain sub) s s0 ltac:(by intros ? []) Hp) as Hp1.
  pose proof Hp as [_ _ _ _ _ (ts & Hts & _) _].
  destruct (RegisterHTTP_cases now sub l (update l (set_Subdomain sub) (tm_of s0)))
    as [(Hv & Hcl & E)|(_ & e & E)]; rewrite E in Hr; simplify_eq; [|exact Hp1].
  pose proof (pending_update y token req l (set_CreatedAt now) s _ ltac:(by intros ? []) Hp1)
    as [[Hc Hmi Hma Hold] Hh Ht Hse Hfresh (ts' & Hts' & Hreq) Hch].
  split_and!; try done. exists ts'. split_and!; [exact Hts' | exact Hreq |].
  apply (filed_http _ _ _ _ _ _ sub); cbn; try done; [| |by rewrite <- Hh].
  - unfold obj in Hts, Hts'. cbn in Hts'. rewrite !lookup_alter_eq, Hts in Hts'. cbn in Hts'.
    injection Hts' as <-. done.
  - intros l0 ts0 Hl0 Ho0. unfold may_claim in Hcl. cbn in Hcl, Hh. rewrite Hh, Hl0 in Hcl.
    assert (l0 <> l) as Hne by congruence.
    rewrite !deref_update_ne in Hcl by done. destruct Hcl as (Hr1 & Htok & _).
    destruct Hp as [[_ _ _ Hold0] _ _ _ _ (ts1 & Hts1 & [Htok1 _ _ _ _]) _].
    rewrite (deref_lookup _ _ _ (Hold0 _ _ Ho0)) in Hr1, Htok.
    rewrite (deref_lookup _ _ _ (lookup_update_eq _ _ (set_Subdomain sub) _ Hts1)) in Htok.
    split; [done|]. rewrite Htok. exact Htok1.
Qed.

Lemma wp_register_random y token req l s n s0 :
  tq_Type req = TunnelHTTP -> tq_Subdomain req = ""%string -> pending y token req l s s0 ->
  hwp (register_random n l) (fun r s1 =>
    match r with
    | None => pending y token req l s s1
    | Some sub => placed y token req l (http_reply sub s) s s1
    end) s0.
Proof.
  intros Hty Hsub. revert s0. induction n as [|n IH]; intros s0 Hp; [done|]. cbn [register_random].
  step. case_bool_decide; [|done]. got He. step. got He. step.
  cbn [srv_tunnelManager with_tm] in He.
  destruct (RegisterHTTP _ _ _ _) as [tm2 err] eqn:E. got He.
  apply (claim_cases y token req l _ s s0) in E; [|done|done|done].
  destruct err; [by apply IH | exact E].
Qed.

Lemma wp_registered y token req l sub s s0 :
  placed y token req l (http_reply sub s) s s0 ->
  hwp (registered y sub) (fun _ => granted y token req s) s0.
Proof.
  intros Hp. unfold registered. step. got He.
  rewrite (kp_cfg _ _ (proj1 Hp)). by eapply wp_answer.
Qed.

Lemma wp_registerHTTPTunnel y token req l s s0 :
  counts_ok s -> tq_Type req = TunnelHTTP -> pending y token req l s s0 ->
  hwp (registerHTTPTunnel l req y token) (fun _ s1 => refused y s s1 \/ granted y token req s s1) s0.
Proof.
  intros Hok Hty Hp. unfold registerHTTPTunnel.
  destruct (String.eqb_spec (tq_Subdomain req) "") as [Hs|Hs].
  - eapply wp_seq; [by apply wp_register_random|]. intros [sub|] s1 H1.
    + eapply wp_mono; [|by eapply wp_registered]. auto.
    + eapply wp_mono; [|by eapply wp_give_up]. auto.
  - step. got He. step. cbn [srv_tunnelManager with_tm] in He.
    destruct (RegisterHTTP _ _ _ _) as [tm2 err] eqn:E. got He.
    apply (claim_cases y token req l _ s s0) in E; [|done|done|done]. destruct err as [e|].
    + eapply wp_mono; [|by eapply wp_give_up]. auto.
    + eapply wp_mono; [|by eapply wp_registered]. auto.
Qed.

(** The TCP attempts. *)
Lemma wp_RegisterTCP y token req l s n s0 :
  tq_Type req = TunnelTCP -> portMin (tm_of s) <= portMax (tm_of s) -> pending y token req l s s0 ->
  hwp (RegisterTCP_prog n l) (fun r s1 =>
    match r with
    | None => pending y token req l s s1
    | Some port => placed y token req l
        {| tr_Success := true; tr_URL := ""; tr_RemotePort := port; tr_Message := "" |} s s1
    end) s0.
Proof.
  intros Hty Hle. revert s0. induction n as [|n IH]; intros s0 Hp; [done|]. cbn [RegisterTCP_prog].
  step. pose proof Hp as [[Hc Hmi Hma Hold] Hh Ht Hse Hfresh (ts & Hts & Hreq) Hch].
  destruct (Z.leb_spec (portMax (tm_of s0) - portMin (tm_of s0) + 1) 0); [lia|].
  case_bool_decide as Hd; [|done]. got He. step. got He.
  destruct (LookupTCP _ _) eqn:El; [by apply IH|]. step. got He.
  destruct (c_listen c1) as [ln|]; [|by apply IH]. step. got He. step.
  set (port := portMin (tm_of s0) + c_draw c) in *.
  pose proof (pending_update y token req l (set_TCP port ln (c_now c2)) s s0 ltac:(by intros ? []) Hp) as Hp2.
  unfold RegisterTCP_commit in He. unfold LookupTCP in El. cbn in He. rewrite El in He. got He.
  destruct Hp2 as [[? ? ? ?] Hh2 Ht2 ? ? (ts2 & Hts2 & Hreq2) ?].
  split_and!; try done. exists ts2. split_and!; [exact Hts2 | exact Hreq2 |].
  apply filed_tcp; cbn; try done; [| lia | congruence | by rewrite <- Ht].
  unfold obj in Hts, Hts2. cbn in Hts2. rewrite lookup_alter_eq, Hts in Hts2. cbn in Hts2.
  injection Hts2 as <-. done.
Qed.

Abbreviation decided y token req s := (fun _ s1 => refused y s s1 \/ granted y token req s s1).

Lemma wp_registerTCPTunnel y token req l s s0 :
  counts_ok s -> tq_Type req = TunnelTCP -> portMin (tm_of s) <= portMax (tm_of s) ->
  pending y token req l s s0 ->
  hwp (registerTCPTunnel true l y token) (decided y token req s) s0.
Proof.
  intros Hok Hty Hle Hp. unfold registerTCPTunnel. cbn [negb].
  eapply wp_seq; [by apply wp_RegisterTCP|]. intros [port|] s1 H1.
  - eapply wp_mono; [|by eapply wp_answer]. auto.
  - eapply wp_mono; [|by eapply wp_give_up]. auto.
Qed.

Lemma wp_create_tunnel y token req s s0 :
  counts_ok s -> portMin (tm_of s) <= portMax (tm_of s) ->
  tm_of s0 = tm_of s -> srv_cfg s0 = srv_cfg s -> srv_sent s0 = srv_sent s -> charged token s s0 ->
  hwp (create_tunnel true y token req) (decided y token req s) s0.
Proof.
  intros Hok Hle Ht Hc Hs Hch. unfold create_tunnel. step.
  case_bool_decide; [|done]. got He. step.
  destruct (objects (tm_of s0) !! c_loc c0) eqn:Hl; [done|]. got He.
  assert (pending y token req (c_loc c0) s (with_tm (alloc (c_loc c0)
    (new_tunnel (randomHex (c_bytes c)) token req y) (tm_of s0)) s0)) as Hp.
  { rewrite Ht in *. split; [split | ..]; unfold obj; try done.
    - intros l ts Ho. simpl. rewrite lookup_insert_ne; [done|]. intros <-. congruence.
    - eexists. split; [by apply lookup_insert_eq | done]. }
  destruct (String.eqb_spec (tq_Type req) TunnelHTTP); [by apply wp_registerHTTPTunnel|].
  destruct (String.eqb_spec (tq_Type req) TunnelTCP); [by apply wp_registerTCPTunnel|].
  eapply wp_mono; [|by eapply wp_give_up]. auto.
Qed.

Lemma wp_refuse_early y token req msg s s0 :
  tm_of s0 = tm_of s -> srv_cfg s0 = srv_cfg s -> srv_sent s0 = srv_sent s ->
  (forall t, srv_quota t s0 = srv_quota t s) ->
  hwp (sendTunnelError y msg) (decided y token req s) s0.
Proof. intros. eapply wp_mono; [|by apply (wp_refuse_now y msg s)]. auto. Qed.

Lemma wp_admit_tunnel y token req s :
  counts_ok s -> portMin (tm_of s) <= portMax (tm_of s) ->
  hwp (admit_tunnel true y token req) (decided y token req s) s.
Proof.
  intros Hok Hle. unfold admit_tunnel. step. destruct (rateAllow _ _ _) as [rl ok]. got He.
  destruct ok; cbn [negb]; [|by apply wp_refuse_early].
  destruct (is_anon token) eqn:Ea.
  { apply wp_create_tunnel; try done. split; [done | congruence]. }
  destruct (IsAPIKey token) eqn:Ek; step.
  - destruct (KeyStore_IncrementTunnels _ _) as [ks [e|]] eqn:Hi; got He.
    + apply key_incr_error in Hi as ->. by apply wp_refuse_early.
    + apply (key_incr_quota token ks (with_rate rl s)) in Hi as (n & m & ? & ? & ? & Ho); [|done].
      apply wp_create_tunnel; try done. split; [|eauto 10]. intros t [Hne|]; [by apply Ho | congruence].
  - destruct (TokenStore_IncrementTunnels _ _) as [ts [e|]] eqn:Hi; got He.
    + apply token_incr_error in Hi as ->. by apply wp_refuse_early.
    + apply (token_incr_quota token ts (with_rate rl s)) in Hi as (n & m & ? & ? & ? & Ho); [|done].
      apply wp_create_tunnel; try done. split; [|eauto 10]. intros t [Hne|]; [by apply Ho | congruence].
Qed.

(** What an anonymous client may ask for. *)
Definition anon_may (token : string) (req : TunnelRequestMsg) s : Prop :=
  is_anon token = true ->
  tq_Type req <> TunnelTCP /\ tq_Subdomain req = ""%string /\ TunnelsForAnon token (tm_of s) = [].

(** C2: a tunnel request that runs undisturbed always comes to an answer. It is
    refused with nothing changed, or granted: then exactly one tunnel has been
    added, of the session and the token, of the type asked for, at a valid
    subdomain that was free or reserved by this token, or at a port of the
    configured range that was free; the token's count was below its limit and is
    one more; no other tunnel or count has changed.  Only a request with a port
    number, and from an anonymous client only the first one, for a random HTTP
    subdomain, is granted. *)
Theorem handleTunnelRequest_spec y token req cs s s' r rest :
  counts_ok s -> portMin (tm_of s) <= portMax (tm_of s) ->
  run exec (handleTunnelRequest true y token req) cs s = Some (s', r, rest) ->
  r = Some tt /\
  (refused y s s' \/
   granted y token req s s' /\ 1 <= tq_LocalPort req <= 65535 /\ anon_may token req s).
Proof.
  intros Hok Hle Hrun.
  enough (hwp (handleTunnelRequest true y token req) (fun _ s' => refused y s s' \/
    granted y token req s s' /\ 1 <= tq_LocalPort req <= 65535 /\ anon_may token req s) s) as Hw.
  { by destruct (wp_run _ _ _ _ _ _ _ _ Hw Hrun) as ([] & -> & ?). }
  assert (forall s0, s0 = s -> forall msg, hwp (sendTunnelError y msg) (fun _ s' => refused y s s' \/
    granted y token req s s' /\ 1 <= tq_LocalPort req <= 65535 /\ anon_may token req s) s0) as Hno.
  { intros s0 -> msg. eapply wp_mono; [|by apply wp_refuse_now]. auto. }
  unfold handleTunnelRequest. destruct (_ || _) eqn:Ep; [by apply Hno|].
  apply orb_false_iff in Ep as [?%Z.ltb_ge ?%Z.ltb_ge].
  assert (anon_may token req s -> hwp (admit_tunnel true y token req) (fun _ s' => refused y s s' \/
    granted y token req s s' /\ 1 <= tq_LocalPort req <= 65535 /\ anon_may token req s) s) as Hyes.
  { intros Ha. eapply wp_mono; [|by apply wp_admit_tunnel]. intros _ s1 [?|?]; [by left | by right]. }
  destruct (is_anon token) eqn:Ea; [|apply Hyes; unfold anon_may; congruence].
  destruct (String.eqb_spec (tq_Type req) TunnelTCP); [by apply Hno|].
  destruct (String.eqb_spec (tq_Subdomain req) ""); cbn [negb]; [|by apply Hno].
  step. got He. destruct (TunnelsForAnon token (tm_of s)) eqn:El; [by apply Hyes | by apply Hno].
Qed.

(** ** The end of a session *)

(** What a reservation leaves as it was. *)
Record reserved_only s s' : Prop := {
  ro_http : httpTunnels (tm_of s') = httpTunnels (tm_of s);
  ro_tcp : tcpTunnels (tm_of s') = tcpTunnels (tm_of s);
  ro_wf : wf (tm_of s) -> wf (tm_of s');
  ro_quota t : srv_quota t s' = srv_quota t s;
  ro_closed : srv_closed s' = srv_closed s;
  ro_object l : ts_Session (deref (tm_of s') l) = ts_Session (deref (tm_of s) l) /\
    ts_Listener (deref (tm_of s') l) = ts_Listener (deref (tm_of s) l);
}.

Lemma reserved_only_trans s s1 s2 : reserved_only s s1 -> reserved_only s1 s2 -> reserved_only s s2.
Proof.
  intros [? ? ? Hq1 ? Ho1] [? ? ? Hq2 ? Ho2]. split; try congruence; [auto|].
  intros l. destruct (Ho1 l), (Ho2 l). split; congruence.
Qed.

Lemma reserved_ReserveHTTP now ttl sub s :
  reserved_only s (with_tm (ReserveHTTP now ttl sub (tm_of s)) s).
Proof.
  pose proof (wf_ReserveHTTP now ttl sub (tm_of s)) as Hwf. revert Hwf.
  unfold ReserveHTTP. destruct (httpTunnels (tm_of s) !! sub) as [l0|]; intros Hwf; split; try done.
  intros l. destruct (decide (l0 = l)) as [->|Hne]; [|by cbn; rewrite deref_update_ne].
  unfold deref. cbn. rewrite lookup_alter_eq. by destruct (objects (tm_of s) !! l).
Qed.

Lemma wp_reserve_session y s : hwp (reserve_session y) (fun _ => reserved_only s) s.
Proof.
  unfold reserve_session. step. got He.
  apply (wp_for_each _ (fun _ => reserved_only s)); [|done].
  intros l _ s0 Hs0. step. got He. destruct (String.eqb _ "http"); [|exact Hs0].
  step. got He. cbn. eapply reserved_only_trans; [exact Hs0 | apply reserved_ReserveHTTP].
Qed.

(** How far the clean-up of session [y] has come: it has dealt with [gone]. *)
Record cleaned (token : string) (gone : list loc) s0 s : Prop := {
  cl_wf : wf (tm_of s);
  cl_objects : objects (tm_of s) = objects (tm_of s0);
  cl_http sub l : httpTunnels (tm_of s) !! sub = Some l <-> httpTunnels (tm_of s0) !! sub = Some l /\ l ∉ gone;
  cl_tcp p l : tcpTunnels (tm_of s) !! p = Some l <-> tcpTunnels (tm_of s0) !! p = Some l /\ l ∉ gone;
  cl_self : is_anon token = false ->
    srv_quota token s = Nat.iter (length gone) decr_spec (srv_quota token s0);
  cl_others t : t <> token \/ is_anon token = true -> srv_quota t s = srv_quota t s0;
  cl_listeners p l ln : tcpTunnels (tm_of s0) !! p = Some l -> l ∈ gone ->
    ts_Listener (deref (tm_of s0) l) = Some ln -> CloseListener ln ∈ srv_closed s;
}.

(** The same registry with one more tunnel unregistered, not yet discounted. *)
Definition unfiled (token : string) (gone : list loc) (l : loc) s0 s : Prop :=
  exists s1, cleaned token gone s0 s1 /\ (forall t, srv_quota t s = srv_quota t s1) /\
    wf (tm_of s) /\ objects (tm_of s) = objects (tm_of s0) /\
    (forall sub l', httpTunnels (tm_of s) !! sub = Some l' <-> httpTunnels (tm_of s1) !! sub = Some l' /\ l' <> l) /\
    (forall p l', tcpTunnels (tm_of s) !! p = Some l' <-> tcpTunnels (tm_of s1) !! p = Some l' /\ l' <> l) /\
    (exists effs, srv_closed s = srv_closed s1 ++ effs /\
       forall p ln, tcpTunnels (tm_of s1) !! p = Some l -> ts_Listener (deref (tm_of s0) l) = Some ln ->
         CloseListener ln ∈ effs).

Lemma cleaned_unfiled token gone l s0 s s' :
  unfiled token gone l s0 s -> l ∉ gone ->
  tm_of s' = tm_of s -> srv_closed s' = srv_closed s ->
  (is_anon token = false -> srv_quota token s' = decr_spec (srv_quota token s)) ->
  (forall t, t <> token \/ is_anon token = true -> srv_quota t s' = srv_quota t s) ->
  cleaned token (gone ++ [l]) s0 s'.
Proof.
  intros (s1 & Hc & Hq & Hwf & Ho & Hh & Ht & effs & Heffs & Hln) Hfresh Htm Hcl Hs Hoth.
  split; rewrite ?Htm; try done.
  - intros sub l'. rewrite Hh, (cl_http _ _ _ _ Hc), not_elem_of_app, list_elem_of_singleton. tauto.
  - intros p l'. rewrite Ht, (cl_tcp _ _ _ _ Hc), not_elem_of_app, list_elem_of_singleton. tauto.
  - intros Ha. rewrite Hs, Hq, (cl_self _ _ _ _ Hc), length_app, Nat.add_comm by done. done.
  - intros t Hne. rewrite Hoth, Hq by done. by apply (cl_others _ _ _ _ Hc).
  - intros p l' ln Hp Hin Hl. rewrite Hcl, Heffs. apply elem_of_app.
    apply elem_of_app in Hin as [Hin|Hin%list_elem_of_singleton]; [left; by eapply (cl_listeners _ _ _ _ Hc)|].
    subst l'. right. apply (Hln p); [|done]. by apply (cl_tcp _ _ _ _ Hc).
Qed.

Lemma unfiled_http token gone l sub s0 s :
  cleaned token gone s0 s -> httpTunnels (tm_of s) !! sub = Some l ->
  unfiled token gone l s0 (with_tm (UnregisterHTTP sub (tm_of s)) s).
Proof.
  intros Hc Hl. pose proof (cl_wf _ _ _ _ Hc) as Hwf. exists s. split_and!; try done.
  - by apply wf_UnregisterHTTP.
  - apply Hc.
  - intros sub' l'. cbn. split.
    + intros [Hl' Hne]%lookup_delete_inv. split; [done|]. intros ->. by eapply Hne, wf_http_inj.
    + intros [Hl' Hne]. rewrite lookup_delete_ne; [done|]. intros ->. congruence.
  - intros p l'. split; [|by intros []]. intros Hp. split; [done|]. intros ->. by eapply wf_disjoint.
  - exists []. rewrite app_nil_r. split; [done|]. intros p ln Hp _. exfalso. by eapply wf_disjoint.
Qed.

Lemma unfiled_tcp token gone l p s0 s :
  cleaned token gone s0 s -> tcpTunnels (tm_of s) !! p = Some l ->
  unfiled token gone l s0 (add_effects (UnregisterTCP p (tm_of s)).2
    (with_tm (UnregisterTCP p (tm_of s)).1 s)).
Proof.
  intros Hc Hl. pose proof (cl_wf _ _ _ _ Hc) as Hwf. exists s. split_and!; try done.
  - by apply wf_UnregisterTCP.
  - apply Hc.
  - intros sub l'. split; [|by intros []]. intros Hp. split; [done|]. intros ->. by eapply wf_disjoint.
  - intros p' l'. cbn. split.
    + intros [Hl' Hne]%lookup_delete_inv. split; [done|]. intros ->. by eapply Hne, wf_tcp_inj.
    + intros [Hl' Hne]. rewrite lookup_delete_ne; [done|]. intros ->. congruence.
  - eexists. split; [done|]. intros p' ln Hp Hln. cbn. rewrite Hl. unfold deref in *.
    rewrite (cl_objects _ _ _ _ Hc), Hln. by apply list_elem_of_singleton.
Qed.

Lemma wp_decrement_unfiled token gone l s0 s :
  unfiled token gone l s0 s -> l ∉ gone ->
  hwp (decrementTunnels token) (fun _ => cleaned token (gone ++ [l]) s0) s.
Proof.
  intros Hu Hl. unfold decrementTunnels. destruct (is_anon token) eqn:Ea.
  { cbn. eapply cleaned_unfiled; eauto. congruence. }
  destruct (IsAPIKey token) eqn:Ek; intros c s1 r He; cbn [exec] in He; got He; cbn [wp];
    (eapply cleaned_unfiled; [exact Hu | done | done | done | | ]).
  - intros _. by apply key_decr_quota.
  - intros t [Hne|?]; [by apply key_decr_quota | congruence].
  - intros _. by apply token_decr_quota.
  - intros t [Hne|?]; [by apply token_decr_quota | congruence].
Qed.

Lemma wp_cleanup_one token gone l s0 s :
  wf (tm_of s0) -> cleaned token gone s0 s -> linked l (tm_of s0) -> l ∉ gone ->
  hwp (cleanup_one true token l) (fun _ => cleaned token (gone ++ [l]) s0) s.
Proof.
  intros Hwf Hc Hl Hg. unfold cleanup_one. step. got He.
  assert (deref (tm_of s) l = deref (tm_of s0) l) as -> by (unfold deref; by rewrite (cl_objects _ _ _ _ Hc)).
  destruct Hl as [[sub Hl]|[p Hl]].
  - destruct (wf_http _ Hwf _ _ Hl) as (ts & Ho & [Hty Hsub _]). rewrite (deref_lookup _ _ _ Ho), Hty, Hsub.
    step. got He. eapply wp_decrement_unfiled; [|done]. apply unfiled_http; [done|]. by apply Hc.
  - destruct (wf_tcp _ Hwf _ _ Hl) as (ts & Ho & [Hty Hp _ _ _]). rewrite (deref_lookup _ _ _ Ho), Hty, Hp.
    step. destruct (UnregisterTCP p (tm_of s)) as [tm effs] eqn:E. got He.
    eapply wp_decrement_unfiled; [|done].
    pose proof (unfiled_tcp token gone l p s0 s Hc) as Hu. rewrite E in Hu. apply Hu. by apply Hc.
Qed.

Lemma NoDup_list_of_wf (tm : TunnelManager) y : wf tm -> NoDup (SessionTunnels y tm).
Proof.
  intros Hwf. unfold SessionTunnels. apply NoDup_app. split_and!.
  - apply NoDup_ListNoDup, List.NoDup_filter, NoDup_ListNoDup, NoDup_values; [apply NoDup_range|].
    intros k1 k2 v ?%elem_of_range ?%elem_of_range. by eapply wf_http_inj.
  - intros l H1 H2. apply list_elem_of_In, filter_In in H1 as [H1 _]. apply list_elem_of_In, filter_In in H2 as [H2 _].
    apply list_elem_of_In, elem_of_http_list in H1 as [k1 H1]. apply list_elem_of_In, elem_of_tcp_list in H2 as [k2 H2].
    by eapply wf_disjoint.
  - apply NoDup_ListNoDup, List.NoDup_filter, NoDup_ListNoDup, NoDup_values; [apply NoDup_range|].
    intros k1 k2 v ?%elem_of_range ?%elem_of_range. by eapply wf_tcp_inj.
Qed.

Lemma wp_cleanupSession y token s0 :
  wf (tm_of s0) ->
  hwp (cleanupSession true y token) (fun _ => cleaned token (SessionTunnels y (tm_of s0)) s0) s0.
Proof.
  intros Hwf. unfold cleanupSession. step. got He.
  set (all := SessionTunnels y (tm_of s0)).
  eapply wp_mono; [|apply (wp_for_each _ (fun ls s => exists gone, all = gone ++ ls /\ cleaned token gone s0 s))].
  - intros ? s (gone & E & Hc). rewrite app_nil_r in E. by subst gone.
  - intros l ls s (gone & E & Hc).
    pose proof (NoDup_list_of_wf (tm_of s0) y Hwf) as Hnd. fold all in Hnd. rewrite E in Hnd.
    apply NoDup_app in Hnd as (_ & Hd & _). eapply wp_mono; [|apply wp_cleanup_one; [done | exact Hc | |]].
    + intros ? s1 Hc1. exists (gone ++ [l]). by rewrite <- app_assoc.
    + apply (proj1 (elem_of_SessionTunnels y _ l)). fold all. rewrite E. apply elem_of_app. right. by left.
    + intros Hin. by apply (Hd l Hin); left.
  - exists []. split; [done|]. split; try done.
    + intros sub l. pose proof (not_elem_of_nil l). tauto.
    + intros p l. pose proof (not_elem_of_nil l). tauto.
    + intros p l ln _ Hin. by apply not_elem_of_nil in Hin.
Qed.

(** Everything of the session is gone, nothing else is. *)
Record session_gone (y : session_id) (token : string) s s' : Prop := {
  sg_http sub l : httpTunnels (tm_of s') !! sub = Some l <->
    httpTunnels (tm_of s) !! sub = Some l /\ ts_Session (deref (tm_of s) l) <> Some y;
  sg_tcp p l : tcpTunnels (tm_of s') !! p = Some l <->
    tcpTunnels (tm_of s) !! p = Some l /\ ts_Session (deref (tm_of s) l) <> Some y;
  sg_listeners p l ln : tcpTunnels (tm_of s) !! p = Some l -> ts_Session (deref (tm_of s) l) = Some y ->
    ts_Listener (deref (tm_of s) l) = Some ln -> CloseListener ln ∈ srv_closed s';
  sg_self : is_anon token = false -> srv_quota token s' =
    Nat.iter (length (SessionTunnels y (tm_of s))) decr_spec (srv_quota token s);
  sg_others t : t <> token \/ is_anon token = true -> srv_quota t s' = srv_quota t s;
}.

Lemma SessionTunnels_reserved y s s0 :
  reserved_only s s0 -> SessionTunnels y (tm_of s0) = SessionTunnels y (tm_of s).
Proof.
  intros [Eh Et _ _ _ Ho]. unfold SessionTunnels, http_list, tcp_list. rewrite Eh, Et.
  f_equal; apply filter_ext; intros l; by rewrite (proj1 (Ho l)).
Qed.

Lemma cleaned_session_gone y token s s0 s' :
  reserved_only s s0 -> cleaned token (SessionTunnels y (tm_of s0)) s0 s' -> session_gone y token s s'.
Proof.
  intros Hr Hc. rewrite (SessionTunnels_reserved y s s0) in Hc by done.
  destruct Hr as [Eh Et _ Hq _ Ho].
  split.
  - intros sub l. rewrite (cl_http _ _ _ _ Hc), elem_of_SessionTunnels, Eh. unfold linked. naive_solver.
  - intros p l. rewrite (cl_tcp _ _ _ _ Hc), elem_of_SessionTunnels, Et. unfold linked. naive_solver.
  - intros p l ln Hp Hy Hln. apply (cl_listeners _ _ _ _ Hc p l); [by rewrite Et | |by rewrite (proj2 (Ho l))].
    apply elem_of_SessionTunnels. split; [right; eauto | done].
  - intros Ha. rewrite (cl_self _ _ _ _ Hc), Hq by done. done.
  - intros t Hne. rewrite (cl_others _ _ _ _ Hc), Hq by done. done.
Qed.

Lemma wp_end_session y token idle s :
  wf (tm_of s) -> hwp (end_session true y token idle) (fun _ => session_gone y token s) s.
Proof.
  intros Hwf. unfold end_session. eapply (wp_seq _ _ (fun _ => reserved_only s)).
  - destruct idle; [apply wp_reserve_session | done].
  - intros ? s0 Hr. eapply wp_mono; [|by apply wp_cleanupSession, Hr].
    intros ? s'. by apply cleaned_session_gone.
Qed.

(** C3: when a session ends, by disconnection or by the idle timeout, the
    clean-up that runs undisturbed always completes: it unregisters every tunnel
    of the session and no other, closes the listeners of its TCP tunnels, and
    takes each tunnel off the token's count. *)
Theorem end_session_spec y token idle cs s s' r rest :
  wf (tm_of s) -> run exec (end_session true y token idle) cs s = Some (s', r, rest) ->
  r = Some tt /\ session_gone y token s s'.
Proof.
  intros Hwf Hrun.
  by destruct (wp_run _ _ _ _ _ _ _ _ (wp_end_session y token idle s Hwf) Hrun) as ([] & -> & ?).
Qed.

(** The reservation that the idle timeout makes for the reconnect window is
    void: the clean-up that follows it removes the entry, so the subdomain is
    free for every token at once. *)
Theorem idle_reservation_void y token cs s s' r rest sub l :
  wf (tm_of s) -> run exec (end_session true y token true) cs s = Some (s', r, rest) ->
  httpTunnels (tm_of s) !! sub = Some l -> ts_Session (deref (tm_of s) l) = Some y ->
  httpTunnels (tm_of s') !! sub = None /\ forall now l', may_claim now sub l' (tm_of s').
Proof.
  intros Hwf Hrun Hl Hy.
  destruct (wp_run _ _ _ _ _ _ _ _ (wp_end_session y token true s Hwf) Hrun) as (? & _ & Hg).
  assert (httpTunnels (tm_of s') !! sub = None) as E.
  { destruct (httpTunnels (tm_of s') !! sub) as [l'|] eqn:E; [|done]. apply (sg_http _ _ _ _ Hg) in E as [E Hne]. congruence. }
  split; [done|]. intros now l'. unfold may_claim. by rewrite E.
Qed.

(** ** New connections *)

(** A connection changes nothing but the rate limiter of its address, the keys,
    and what it has been sent. *)
Record quiet_conn s s' : Prop := {
  qc_cfg : srv_cfg s' = srv_cfg s;
  qc_tokens : srv_tokenStore s' = srv_tokenStore s;
  qc_tm : tm_of s' = tm_of s;
  qc_rate : srv_rateLimiter s' = srv_rateLimiter s;
  qc_closed : srv_closed s' = srv_closed s;
}.

(** Whom a token lets in. *)
Definition admitted (remoteIP token : string) s : Prop :=
  (token = "anon:" +:+ remoteIP /\ AllowAnonymous (srv_cfg s) = Some true) \/
  (token <> ""%string /\
   if IsAPIKey token then KeyStore_Validate token (srv_keyStore s) = true
   else TokenStore_Validate token (srv_tokenStore s) = true).

(** The ways a connection that opens no session ends. *)
Inductive turned_away `{ClientJSON} s s' (told : list (peer * outmsg)) : Prop :=
  | away_auth :
      srv_keyStore s' = srv_keyStore s ->
      told = [] \/ (exists msg, told = [(ToConn, OutAuthResponse {| ar_Success := false; ar_Message := msg |})]) ->
      turned_away s s' told
  | away_not_registered :
      keys (srv_keyStore s') = keys (srv_keyStore s) ->
      told = [] \/ (exists msg, told = [(ToConn, OutRegisterResp
        {| rr_Success := false; rr_Key := ""; rr_Subdomains := []; rr_Message := msg |})]) ->
      turned_away s s' told
  | away_registered key raw rg subs now :
      unmarshal_Register raw = Ok rg -> AllowRegistration (srv_cfg s) <> Some false ->
      subs = (if String.eqb (rg_Subdomain rg) "" then [] else [rg_Subdomain rg]) ->
      rg_Name rg <> ""%string -> keys (srv_keyStore s) !! key = None ->
      (forall sub, sub ∈ subs -> ValidateSubdomain sub = None /\ forall id, ~ key_owns (srv_keyStore s) id sub) ->
      keys (srv_keyStore s') = <[key := {| Name := rg_Name rg; Subdomains := subs; MaxTunnels := 10;
        CreatedAt := now; Active := true; key_tunnelCount := 0 |}]> (keys (srv_keyStore s)) ->
      told = [] \/ told = [(ToConn, OutRegisterResp {| rr_Success := true; rr_Key := key;
        rr_Subdomains := subs; rr_Message := "" |})] ->
      turned_away s s' told.

(** What a connection has been told, since [s]. *)
Definition conn_result `{ClientJSON} (remoteIP : string) s (opened : option string) s' : Prop :=
  quiet_conn s s' /\ exists told, srv_sent s' = srv_sent s ++ told /\
  match opened with
  | Some token => admitted remoteIP token s /\ srv_keyStore s' = srv_keyStore s /\
      told = [(ToConn, OutAuthResponse {| ar_Success := true; ar_Message := "authenticated" |})]
  | None => turned_away s s' told
  end.

Lemma wp_send_conn {A : Type} (Q : A -> Server L -> Prop) m (f : bool -> P A) s :
  (forall (ok : bool) told, told = (if ok then [(ToConn, m)] else []) ->
     hwp (f ok) Q (if ok then add_sent (ToConn, m) s else s)) ->
  hwp (send ToConn m ≫= f) Q s.
Proof. intros Hf. step. got He. by eapply Hf. Qed.

(** A connection that has changed the limiter of its address at most. *)
Definition untouched s s' : Prop :=
  quiet_conn s s' /\ srv_keyStore s' = srv_keyStore s /\ srv_sent s' = srv_sent s.

Lemma told_one `{ClientJSON} (ip : string) s s0 (m : outmsg) :
  quiet_conn s s0 -> srv_sent s0 = srv_sent s ->
  (forall told, told = [] \/ told = [(ToConn, m)] -> forall s', srv_keyStore s' = srv_keyStore s0 -> turned_away s s' told) ->
  hwp (_ ← send ToConn m; mret None) (fun (opened : option string) s' => opened = None /\ conn_result ip s None s') s0.
Proof.
  intros Hq Hs Ht. apply wp_send_conn. intros ok told Htold. cbn.
  assert (quiet_conn s (if ok then add_sent (ToConn, m) s0 else s0)) as Hq' by (destruct Hq, ok; by split).
  split; [done|]. split; [done|]. exists told. split.
  - rewrite <- Hs, Htold. destruct ok; [done | by rewrite app_nil_r].
  - apply Ht; [destruct ok; auto | by destruct ok].
Qed.

Lemma untouched_away `{ClientJSON} (ip : string) s s0 : untouched s s0 -> conn_result ip s None s0.
Proof.
  intros (Hq & Hk & Hs). split; [done|]. exists []. rewrite app_nil_r. split; [done|].
  apply away_auth; auto.
Qed.

Lemma wp_handleRegister `{ClientJSON} (ip : string) raw s s0 :
  key_wf (srv_keyStore s) -> untouched s s0 ->
  hwp (_ ← handleRegister raw; mret None) (fun (opened : option string) s' => opened = None /\ conn_result ip s None s') s0.
Proof.
  intros Hwf (Hq & Hk & Hs).
  assert (forall msg s1, untouched s s1 -> hwp (_ ← (_ ← send ToConn (OutRegisterResp
    {| rr_Success := false; rr_Key := ""; rr_Subdomains := []; rr_Message := msg |}); mret tt); mret None)
    (fun (opened : option string) s' => opened = None /\ conn_result ip s None s') s1) as Hno.
  { intros msg s1 (Hq1 & Hk1 & Hs1). apply (told_one ip s s1); [done | done |].
    intros told Ht s' Hk'. apply away_not_registered; [congruence | naive_solver]. }
  unfold handleRegister. step. got He.
  rewrite (qc_cfg _ _ Hq).
  destruct (match AllowRegistration (srv_cfg s) with Some false => true | _ => false end) eqn:Ea; [by apply Hno|].
  destruct (unmarshal_Register raw) as [rg|e] eqn:Eu; [|by apply Hno].
  step. case_bool_decide as Hb; [|done]. destruct Hb as [_ Hfresh].
  destruct (CreateKey _ _ _ _ _ _ _) as [ks res] eqn:Ec. got He.
  rewrite Hk in Hfresh, Ec. apply CreateKey_cases in Ec; [|done..].
  assert (forall k, quiet_conn s (with_keyStore k s0)) as Hq1 by (intros k; by destruct Hq).
  destruct res as [key|e].
  - destruct Ec as (-> & Hname & Hsub & Hkeys). apply (told_one ip s _); [done | done |].
    intros told Ht s' Hk'. eapply away_registered; [exact Eu | | reflexivity | | exact Hfresh | exact Hsub | | exact Ht].
    + by intros E; rewrite E in Ea.
    + exact Hname.
    + rewrite Hk'. exact Hkeys.
  - apply (told_one ip s _); [done | done |]. intros told Ht s' Hk'.
    apply away_not_registered; [by rewrite Hk' | naive_solver].
Qed.

Lemma wp_authenticate `{ClientJSON} (ip : string) msg s s0 (f : option string -> P (option string)) :
  untouched s s0 ->
  (forall s1, untouched s s1 \/ conn_result ip s None s1 -> hwp (f None) (conn_result ip s) s1) ->
  (forall token, admitted ip token s -> hwp (f (Some token)) (conn_result ip s) s0) ->
  hwp (authenticate ip msg ≫= f) (conn_result ip s) s0.
Proof.
  intros Hu Hnone Hsome. pose proof Hu as (Hq & Hk & Hs).
  assert (forall text, hwp ((_ ← auth_reply false text; mret None) ≫= f) (conn_result ip s) s0) as Hno.
  { intros text. apply wp_bind. eapply wp_mono; [|apply (told_one ip s s0 _ Hq Hs)].
    - intros ? s1 [-> Hr]. apply Hnone. by right.
    - intros told Ht s' Hk'. apply away_auth; [congruence | naive_solver]. }
  unfold authenticate. destruct (String.eqb_spec (am_Token msg) "") as [He|Hne].
  - step. got He0. rewrite (qc_cfg _ _ Hq).
    destruct (AllowAnonymous (srv_cfg s)) as [[]|] eqn:Ea; [|apply Hno..]. apply Hsome. by left.
  - assert (forall valid : bool, (valid = true -> admitted ip (am_Token msg) s) ->
      hwp ((if valid then mret (Some (am_Token msg)) else _ ← auth_reply false "invalid token"; mret None) ≫= f)
        (conn_result ip s) s0) as Hv.
    { intros [] Ha; [by apply Hsome, Ha | apply Hno]. }
    destruct (IsAPIKey (am_Token msg)) eqn:Ek; step; got He; apply Hv; intros Hval; right;
      (split; [done|]); rewrite Ek; [by rewrite <- Hk | by rewrite <- (qc_tokens _ _ Hq)].
Qed.

(** C5: a connection always comes to a decision.  It opens a session only for a
    token that the store of its kind accepts at that moment, or, where
    anonymous clients are allowed, for the token made of its own address; then
    it was told so and nothing else changed.  Otherwise it opens none: at most
    it was told why, or it registered, which creates one active key with the
    name and the free, valid subdomain of the message, unless registration is
    switched off.  No token, tunnel or count is touched in any case. *)
Theorem handleConnection_spec `{ClientJSON} addr cs s s' r rest :
  key_wf (srv_keyStore s) ->
  run exec (handleConnection addr) cs s = Some (s', r, rest) ->
  exists opened, r = Some opened /\ conn_result (extractIP addr) s opened s'.
Proof.
  intros Hwf Hrun. refine (wp_run _ _ _ _ _ _ _ _ _ Hrun). clear Hrun.
  unfold handleConnection. step. destruct (ipAllow _ _ _) as [i ok]. got He.
  assert (untouched s (with_ip i s)) as Hu by done.
  assert (hwp (mret None) (conn_result (extractIP addr) s) (with_ip i s)) as Hnone by by apply untouched_away.
  destruct ok; cbn [negb]; [|exact Hnone].
  step. got He. destruct (c_read c0) as [[msgType raw]|e]; [|exact Hnone].
  destruct (msgType =? MsgRegister).
  { eapply wp_mono; [|by apply wp_handleRegister]. by intros ? ? [-> ?]. }
  destruct (msgType =? MsgAuth); cbn [negb]; [|exact Hnone].
  destruct (unmarshal_Auth raw) as [msg|e]; [|exact Hnone].
  apply wp_authenticate; [done | by intros s1 [?|?]; [apply untouched_away|] |].
  intros token Ha. apply wp_send_conn. intros [] told Ht; cbn [mret prog_ret wp].
  - split; [done|]. by eexists.
  - by apply untouched_away.
Qed.

End Handlers.

(** ** A concrete server *)

Module Examples.
Import Auth.Bucket.
#[export] Instance order_string : RangeOrder string := canonical_order string.
#[export] Instance order_Z : RangeOrder Z := canonical_order Z.

Definition token : string := "legacy-token".

(** A client that knows the token and asks for the subdomain "myapp". *)
#[export] Instance client : ClientJSON := {|
  unmarshal_Auth _ := Ok {| am_Token := token |};
  unmarshal_Register _ := Err "unused"%string;
  unmarshal_TunnelRequest _ := Ok {| tq_Type := TunnelHTTP; tq_Subdomain := "myapp"; tq_LocalPort := 3000 |};
|}.

Definition quiet : supply := {|
  c_now := 0; c_bytes := repeat x00 8; c_draws := []; c_draw := 0; c_listen := None; c_loc := 0%nat;
  c_ok := true; c_write := WriteOk; c_read := Ok (MsgAuth, []);
|}.

Definition srv : Type := Server bucket.

(** A server with one legacy token that may have one tunnel. *)
Definition s0 : srv := {|
  srv_cfg := defaults zero_config;
  srv_tokenStore := {| tokens := {[ token := {| hash := token; tunnelCount := 0; maxTunnels := 1 |} ]} |};
  srv_keyStore := {| keys := ∅; filePath := ""; disk := NoFile |};
  srv_rateLimiter := NewRateLimiter 100 1000;
  srv_ipLimiter := newIPRateLimiter 10;
  srv_tunnelManager := NewTunnelManager 10000 65535;
  srv_sent := []; srv_closed := [] |}.

(** The state after a program that runs alone with [n] quiet supplies. *)
Definition after {A} (p : P A) (n : nat) (s : srv) : srv :=
  match run exec p (repeat quiet n) s with Some (s', _, _) => s' | None => s end.

Definition request : P bool := dispatch true 0%nat token MsgTunnelReq [].
Definition s1 : srv := after (handleConnection "1.2.3.4:5") 4 s0.
Definition s2 : srv := after request 8 s1.


Lemma quota_s0 t c m : srv_quota t s0 = Some (c, m) -> c = 0.
Proof.
  unfold srv_quota. destruct (IsAPIKey t); cbn.
  - unfold KeyStore_quota. simpl. by rewrite lookup_empty.
  - unfold TokenStore_quota. cbn [tokens s0 srv_tokenStore].
    destruct (decide (t = token)) as [->|Hne]; [by intros [= <- _]|].
    by rewrite lookup_insert_ne, lookup_empty by done.
Qed.

Lemma counts_s1 : counts_ok s1.
Proof.
  intros t c m Hq. assert (srv_quota t s1 = srv_quota t s0) as E by reflexivity.
  rewrite E in Hq. apply quota_s0 in Hq. lia.
Qed.

Definition tm2 : TunnelManager := srv_tunnelManager s2.

Lemma wf_tm2 : wf tm2.
Proof.
  assert (httpTunnels tm2 = {[ "myapp"%string := 0%nat ]}) as Eh by (vm_compute; reflexivity).
  assert (tcpTunnels tm2 = ∅) as Et by (vm_compute; reflexivity).
  split; rewrite ?Eh, ?Et; intros k l Hl; [|by rewrite lookup_empty in Hl].
  apply lookup_singleton_Some in Hl as [<- <-]. eexists.
  split; [vm_compute; reflexivity | by split].
Qed.

Definition req1 : TunnelRequestMsg :=
  {| tq_Type := TunnelHTTP; tq_Subdomain := "myapp"; tq_LocalPort := 3000 |}.
Definition request1 : P unit := handleTunnelRequest true 0%nat token req1.
Definition s1' : srv := after request1 8 s1.

Lemma run_request1 : run exec request1 (repeat quiet 8) s1 = Some (s1', Some tt, []).
Proof. vm_compute. reflexivity. Qed.

Lemma handleTunnelRequest_spec_witness :
  Some tt = Some tt /\
  (refused 0%nat s1 s1' \/
   granted 0%nat token req1 s1 s1' /\ 1 <= tq_LocalPort req1 <= 65535 /\ anon_may token req1 s1).
Proof.
  assert (portMin (srv_tunnelManager s1) <= portMax (srv_tunnelManager s1)) as Hle
    by (vm_compute; discriminate).
  exact (handleTunnelRequest_spec 0%nat token req1 (repeat quiet 8) s1 s1' (Some tt) [] counts_s1 Hle run_request1).
Defined.

Definition finish : P unit := end_session true 0%nat token true.
Definition s3 : srv := after finish 7 s2.

Lemma run_finish : run exec finish (repeat quiet 7) s2 = Some (s3, Some tt, []).
Proof. vm_compute. reflexivity. Qed.

Lemma end_session_spec_witness : Some tt = Some tt /\ session_gone 0%nat token s2 s3.
Proof. exact (end_session_spec 0%nat token true (repeat quiet 7) s2 s3 (Some tt) [] wf_tm2 run_finish). Defined.

Lemma myapp_s2 : httpTunnels (srv_tunnelManager s2) !! "myapp"%string = Some 0%nat.
Proof. vm_compute. reflexivity. Qed.

Lemma myapp_session : ts_Session (deref (srv_tunnelManager s2) 0%nat) = Some 0%nat.
Proof. vm_compute. reflexivity. Qed.

Lemma idle_reservation_void_witness :
  httpTunnels (srv_tunnelManager s3) !! "myapp"%string = None /\
  forall now l', may_claim now "myapp" l' (srv_tunnelManager s3).
Proof.
  exact (idle_reservation_void 0%nat token (repeat quiet 7) s2 s3 (Some tt) [] "myapp" 0%nat wf_tm2
    run_finish myapp_s2 myapp_session).
Defined.

Lemma run_connection :
  run exec (handleConnection "1.2.3.4:5") (repeat quiet 4) s0 = Some (s1, Some (Some token), []).
Proof. vm_compute. reflexivity. Qed.

Lemma handleConnection_spec_witness :
  exists opened, Some (Some token) = Some opened /\ conn_result (extractIP "1.2.3.4:5") s0 opened s1.
Proof.
  exact (handleConnection_spec "1.2.3.4:5" (repeat quiet 4) s0 s1 (Some (Some token)) []
    (key_wf_empty "" NoFile) run_connection).
Defined.

(** ** Subdomains that belong to somebody else, and keys that are revoked

    The key "htk_owner" owns the subdomain "myapp". *)
Definition owner_key (active : bool) : APIKey :=
  {| Name := "owner"; Subdomains := ["myapp"%string]; MaxTunnels := 1; CreatedAt := 0; Active := active; key_tunnelCount := 0 |}.
Definition with_owner (active : bool) (s : srv) : srv :=
  with_keyStore {| keys := {[ "htk_owner"%string := owner_key active ]}; filePath := ""; disk := NoFile |} s.

(** The token whose tunnel has a name. *)
Definition holder (sub : string) (s : srv) : option string :=
  (fun l => ts_Token (deref (srv_tunnelManager s) l)) <$> httpTunnels (srv_tunnelManager s) !! sub.

(** A tunnel request does not ask who owns the name: another token gets it. *)
Example owned_subdomain_taken :
  FindSubdomainOwner "myapp" (srv_keyStore (with_owner true s1)) = "htk_owner"%string /\
  holder "myapp" (after request1 8 (with_owner true s1)) = Some token.
Proof. split; vm_compute; reflexivity. Qed.

(** A session whose key has been revoked since goes on opening tunnels. *)
Example revoked_key_opens_tunnel :
  KeyStore_Validate "htk_owner" (srv_keyStore (with_owner false s1)) = false /\
  holder "myapp" (after (handleTunnelRequest true 0%nat "htk_owner" req1) 8 (with_owner false s1)) = Some "htk_owner"%string.
Proof. split; vm_compute; reflexivity. Qed.
End Examples.
