(* ===== verification/System.v ===== *)
(** * The server as a system of goroutines

    Every connection has a main goroutine (the handshake, then the wait for the
    session's end, then the clean-up) and a control loop.  A step of the system
    is one atomic operation of one goroutine, the arrival of a connection or a
    message, the end of a session, or an operation of the administrator or of a
    background goroutine. *)

From S2P Require Import Prelude Prog GoStrings Wire Subdomain TunnelManager Quota Auth KeyStore Config Server Permits Sessions Handlers.
Local Open Scope Z_scope.

Section System.
Context {L : Type} `{Limiter L} `{Bcrypt} `{!RangeOrder string, !RangeOrder Z} `{ClientJSON}.
Implicit Types (s : Server L) (rc : receipts) (g : permit).

(** ** Goroutines *)

(** [GConn]: [handleConnection] up to the session ([y] names the session it may
    open). [GWait]: [handleControlSession] in its select. [GMain]: what follows.
    [GControl]: the control loop, between two messages when its program has
    returned. *)
Inductive goroutine :=
  | GConn (y : session_id) (p : P (option string))
  | GWait (y : session_id) (token : string)
  | GMain (y : session_id) (token : string) (p : P unit)
  | GControl (y : session_id) (token : string) (p : P bool).

Inductive go_step s : goroutine -> Server L -> goroutine -> Prop :=
  | gs_conn y R (e : srvE R) k c s' r :
      exec R e c s = Some (s', r) -> go_step s (GConn y (Vis e k)) s' (GConn y (k r))
  | gs_main y token R (e : srvE R) k c s' r :
      exec R e c s = Some (s', r) -> go_step s (GMain y token (Vis e k)) s' (GMain y token (k r))
  | gs_control y token R (e : srvE R) k c s' r :
      exec R e c s = Some (s', r) -> go_step s (GControl y token (Vis e k)) s' (GControl y token (k r)).

(** The administrator and the background goroutines; an expiry tick kills
    tunnels one by one. *)
Inductive admin_step s : Server L -> Prop :=
  | as_kill id effs b tm :
      forall (Hkill : KillTunnelByID id (srv_tunnelManager s) = (tm, effs, b)),
      admin_step s (add_effects effs (with_tm tm s))
  | as_reaper now : admin_step s (with_tm (reaper_tick now (srv_tunnelManager s)) s)
  | as_revoke w id : admin_step s (with_keyStore (RevokeKey w id (srv_keyStore s)).1 s)
  | as_add_subdomain w id sub : admin_step s (with_keyStore (AddSubdomain w id sub (srv_keyStore s)).1 s)
  | as_remove_subdomain w id sub : admin_step s (with_keyStore (RemoveSubdomain w id sub (srv_keyStore s)).1 s)
  | as_ip_cleanup now : admin_step s (with_ip (cleanup_tick now (srv_ipLimiter s)) s)
  | as_traffic l f :
      forall (Hf : forall ts, same_tunnel ts (f ts)),
      admin_step s (with_tm (update l f (srv_tunnelManager s)) s).

Record System := {
  sy_srv : Server L;
  sy_next : session_id;
  sy_pool : gmap nat goroutine;
}.

Inductive sys_step (y : System) : System -> Prop :=
  | ss_accept tid addr :
      forall (Hth : sy_pool y !! tid = None),
      sys_step y {| sy_srv := sy_srv y; sy_next := S (sy_next y);
                    sy_pool := <[tid := GConn (sy_next y) (handleConnection addr)]> (sy_pool y) |}
  | ss_go tid th s' th' :
      forall (Hth : sy_pool y !! tid = Some th) (Hgo : go_step (sy_srv y) th s' th'),
      sys_step y {| sy_srv := s'; sy_next := sy_next y; sy_pool := <[tid := th']> (sy_pool y) |}
  | ss_session tid tid' sid token :
      forall (Hth : sy_pool y !! tid = Some (GConn sid (Ret (Some token)))) (Hfree : sy_pool y !! tid' = None),
      sys_step y {| sy_srv := sy_srv y; sy_next := sy_next y;
                    sy_pool := <[tid' := GControl sid token (Ret true)]> (<[tid := GWait sid token]> (sy_pool y)) |}
  | ss_refused tid sid r :
      forall (Hth : sy_pool y !! tid = Some (GConn sid (Ret r))),
      sys_step y {| sy_srv := sy_srv y; sy_next := sy_next y; sy_pool := delete tid (sy_pool y) |}
  | ss_message tid sid token msgType raw :
      forall (Hth : sy_pool y !! tid = Some (GControl sid token (Ret true))),
      sys_step y {| sy_srv := sy_srv y; sy_next := sy_next y;
                    sy_pool := <[tid := GControl sid token (dispatch true sid token msgType raw)]> (sy_pool y) |}
  | ss_control_end tid sid token b :
      forall (Hth : sy_pool y !! tid = Some (GControl sid token (Ret b))),
      sys_step y {| sy_srv := sy_srv y; sy_next := sy_next y; sy_pool := delete tid (sy_pool y) |}
  | ss_wake tid sid token idle :
      forall (Hth : sy_pool y !! tid = Some (GWait sid token)),
      sys_step y {| sy_srv := sy_srv y; sy_next := sy_next y;
                    sy_pool := <[tid := GMain sid token (end_session true sid token idle)]> (sy_pool y) |}
  | ss_main_end tid sid token :
      forall (Hth : sy_pool y !! tid = Some (GMain sid token (Ret tt))),
      sys_step y {| sy_srv := sy_srv y; sy_next := sy_next y; sy_pool := delete tid (sy_pool y) |}
  | ss_admin s' :
      forall (Hadmin : admin_step (sy_srv y) s'),
      sys_step y {| sy_srv := s'; sy_next := sy_next y; sy_pool := sy_pool y |}.

(** A server that has just been started. *)
Record fresh_server s : Prop := {
  fs_http : httpTunnels (srv_tunnelManager s) = ∅;
  fs_tcp : tcpTunnels (srv_tunnelManager s) = ∅;
  fs_objects : objects (srv_tunnelManager s) = ∅;
  fs_counts t c m : srv_quota t s = Some (c, m) -> c = 0;
}.

Definition sys_init (y : System) : Prop := fresh_server (sy_srv y) /\ sy_pool y = ∅.

(** ** The invariant *)

Definition th_main (th : goroutine) : bool := match th with GControl _ _ _ => false | _ => true end.
Definition th_session (th : goroutine) : session_id :=
  match th with GConn y _ | GWait y _ | GMain y _ _ | GControl y _ _ => y end.
Definition th_token (th : goroutine) : string :=
  match th with GConn _ _ => ""%string | GWait _ t | GMain _ t _ | GControl _ t _ => t end.

Definition th_safe (th : goroutine) g : Prop :=
  match th with
  | GConn y p => safe true y "" (fun _ g => g = Idle) p g
  | GWait _ _ => g = Idle
  | GMain y t p => safe true y t (fun _ g => g = Idle \/ g = Cleaning []) p g
  | GControl y t p => safe false y t (ends t) p g
  end.

(** [sess] records the token of every session that has been opened. *)
Definition th_known (sess : gmap session_id string) (th : goroutine) : Prop :=
  match th with
  | GConn y _ => sess !! y = None
  | _ => sess !! th_session th = Some (th_token th)
  end.

(** No session has two main goroutines. *)
Definition unique_mains (pool : gmap nat goroutine) : Prop :=
  forall tid tid' th th', pool !! tid = Some th -> pool !! tid' = Some th' ->
    th_main th = true -> th_main th' = true -> th_session th = th_session th' -> tid = tid'.

Lemma unique_mains_replace pool tid th th' :
  unique_mains pool -> pool !! tid = Some th -> th_main th' = th_main th -> th_session th' = th_session th ->
  unique_mains (<[tid := th']> pool).
Proof.
  intros Hu Hth Em Es.
  assert (forall t t2, <[tid := th']> pool !! t = Some t2 ->
    exists t3, pool !! t = Some t3 /\ th_main t3 = th_main t2 /\ th_session t3 = th_session t2) as Hback.
  { intros t t2 Ht. apply lookup_insert_Some in Ht as [[<- <-]|[Hne Ht]]; [by exists th | by exists t2]. }
  intros t t2 h h2 P1 P2 M1 M2 S12.
  destruct (Hback t h P1) as (h' & ? & F1 & E1). destruct (Hback t2 h2 P2) as (h2' & ? & F2 & E2).
  eapply (Hu t t2); [done | done | congruence..].
Qed.

Record sys_inv (y : System) (rc : receipts) (gh : nat -> permit) (sess : gmap session_id string) : Prop := {
  si_world : world_ok (sy_srv y) rc;
  si_permit tid th : sy_pool y !! tid = Some th ->
    permit_ok (sy_srv y) rc (th_main th) tid (th_session th) (th_token th) (gh tid) /\ th_safe th (gh tid);
  si_known tid th : sy_pool y !! tid = Some th -> th_known sess th /\ (th_session th < sy_next y)%nat;
  si_gone tid : sy_pool y !! tid = None -> gh tid = Idle /\ rc !! inr tid = None;
  si_disjoint tid tid' l : tid <> tid' -> l ∈ locs (gh tid) -> l ∉ locs (gh tid');
  si_mains : unique_mains (sy_pool y);
  si_sessions l ts sid : obj (sy_srv y) l = Some ts -> ts_Session ts = Some sid ->
    sess !! sid = Some (ts_Token ts);
  si_fresh sid : is_Some (sess !! sid) -> (sid < sy_next y)%nat;
}.
Lemma permit_locs s rc main tid y token g l :
  permit_ok s rc main tid y token g -> l ∈ locs g ->
  exists ts, obj s l = Some ts /\ ts_Session ts = Some y /\
    (main = false -> ~ linked l (srv_tunnelManager s)).
Proof.
  intros [_ Hp] Hl.
  assert (forall ls, Forall (to_clean s rc y token) ls -> l ∈ ls -> exists ts, obj s l = Some ts /\ ts_Session ts = Some y) as Hc.
  { intros ls Hf Hin. rewrite Forall_forall in Hf. destruct (Hf l Hin) as (ts & ? & ? & _). eauto. }
  destruct g as [| |l' type name port|ls|l' ts ls|l' ls]; simpl in Hl; [set_solver..| | | |].
  - apply list_elem_of_singleton in Hl as ->. destruct Hp as (_ & _ & ts & ? & ? & ? & ? & ? & ? & ? & ?). eauto.
  - destruct Hp as (-> & _ & Hf). destruct (Hc ls Hf Hl) as (ts & ? & ?). by exists ts.
  - destruct Hp as (-> & _ & Hf & _). destruct (Hc _ Hf Hl) as (t0 & ? & ?). by exists t0.
  - destruct Hp as (-> & _ & Hf & _). destruct (Hc _ Hf Hl) as (t0 & ? & ?). by exists t0.
Qed.

Lemma go_outcome s rc tid th s' th' g :
  world_ok s rc -> permit_ok s rc (th_main th) tid (th_session th) (th_token th) g ->
  session_token s (th_session th) (th_token th) -> th_safe th g -> go_step s th s' th' ->
  outcome (th_main th) tid (th_session th) (th_token th) s s' rc g (th_safe th') /\
  th_main th' = th_main th /\ th_session th' = th_session th /\ th_token th' = th_token th /\
  (forall sess, th_known sess th -> th_known sess th').
Proof.
  intros Hw Hp Hst Hsafe Hgo. destruct Hgo; simpl in *; split_and!; try done;
    by eapply (exec_safe _ _ _ _ _ _ _ _ _ _ _ _ (fun r g => safe _ _ _ _ (k r) g)).
Qed.

(** The permits after a step of goroutine [tid]. *)
Definition set_permit (tid : nat) g (gh : nat -> permit) : nat -> permit :=
  fun t => if decide (t = tid) then g else gh t.

Lemma set_permit_eq tid g gh : set_permit tid g gh tid = g.
Proof. unfold set_permit. by rewrite decide_True. Qed.
Lemma set_permit_ne tid g gh t : t <> tid -> set_permit tid g gh t = gh t.
Proof. intros. unfold set_permit. by rewrite decide_False. Qed.

Section Go.
Context (y : System) (rc rc' : receipts) (gh : nat -> permit) (sess : gmap session_id string).
Context (tid : nat) (th th' : goroutine) (s' : Server L) (g' : permit).
Context (Hinv : sys_inv y rc gh sess) (Hth : sy_pool y !! tid = Some th).

Lemma sess_token : session_token (sy_srv y) (th_session th) (th_token th).
Proof.
  intros l ts Ho Hy. pose proof (si_sessions _ _ _ _ Hinv l ts _ Ho Hy) as Hs.
  destruct (si_known _ _ _ _ Hinv tid th Hth) as [Hk _]. destruct th; simpl in *; congruence.
Qed.

Lemma new_locs_disjoint tid2 l :
  tid2 <> tid -> locs_from (sy_srv y) (th_main th) (th_session th) (gh tid) g' ->
  l ∈ locs g' -> l ∉ locs (gh tid2).
Proof.
  intros Hne Hfrom Hl Hl2. destruct (sy_pool y !! tid2) as [th2|] eqn:Hth2.
  2: { destruct (si_gone _ _ _ _ Hinv tid2 Hth2) as [Hg _]. rewrite Hg in Hl2. simpl in Hl2. set_solver. }
  destruct (si_permit _ _ _ _ Hinv tid2 th2 Hth2) as [Hp2 _].
  destruct (permit_locs _ _ _ _ _ _ _ _ Hp2 Hl2) as (ts & Ho & Hy & Hlk).
  destruct (Hfrom l Hl) as [Hold|[Hnew|(Hm & Hlinked & ts' & Ho' & Hy')]].
  - by apply (si_disjoint _ _ _ _ Hinv tid2 tid l Hne Hl2).
  - congruence.
  - destruct (th_main th2) eqn:Hm2; [|by apply Hlk].
    apply Hne. eapply (si_mains _ _ _ _ Hinv); try done. congruence.
Qed.

Lemma inv_go :
  world_ok s' rc' ->
  permit_ok s' rc' (th_main th) tid (th_session th) (th_token th) g' ->
  stable (touched (gh tid)) tid (sy_srv y) s' rc rc' ->
  locs_from (sy_srv y) (th_main th) (th_session th) (gh tid) g' ->
  objects_from (th_main th) (sy_srv y) s' (th_session th) (th_token th) ->
  th_safe th' g' -> th_main th' = th_main th -> th_session th' = th_session th -> th_token th' = th_token th ->
  (th_known sess th -> th_known sess th') ->
  sys_inv {| sy_srv := s'; sy_next := sy_next y; sy_pool := <[tid := th']> (sy_pool y) |}
    rc' (set_permit tid g' gh) sess.
Proof.
  intros Hw Hp Hst Hfrom Hobj Hsafe Em Es Et Hkn. destruct (si_known _ _ _ _ Hinv tid th Hth) as [Hk Hlt].
  split; simpl; [done|..].
  - intros t t2 Ht. apply lookup_insert_Some in Ht as [[<- <-]|[Hne Ht]].
    + rewrite set_permit_eq, Em, Es, Et. done.
    + rewrite set_permit_ne by done. destruct (si_permit _ _ _ _ Hinv t t2 Ht) as [Hp2 Hs2].
      split; [|done]. eapply permit_stable; [done | done | | done].
      intros l Hl Heq. apply (si_disjoint _ _ _ _ Hinv t tid l); [done | done |].
      destruct (gh tid); simpl in Heq; simplify_eq; simpl; set_solver.
  - intros t t2 Ht. apply lookup_insert_Some in Ht as [[<- <-]|[Hne Ht]]; [rewrite Es; auto|].
    by apply (si_known _ _ _ _ Hinv t).
  - intros t Ht. apply lookup_insert_None in Ht as [Ht Hne]. rewrite set_permit_ne by done.
    destruct (si_gone _ _ _ _ Hinv t Ht) as [? ?]. split; [done|].
    rewrite (st_rc _ _ _ _ _ _ Hst); [done | congruence | done].
  - intros t t2 l Hne. destruct (decide (t = tid)) as [->|Hne1]; [|destruct (decide (t2 = tid)) as [->|Hne2]].
    + rewrite set_permit_eq, set_permit_ne by done. apply new_locs_disjoint; done.
    + rewrite set_permit_eq, set_permit_ne by done. intros Hl Hl'.
      by eapply (new_locs_disjoint t l).
    + rewrite !set_permit_ne by done. by apply (si_disjoint _ _ _ _ Hinv).
  - eapply unique_mains_replace; [apply (si_mains _ _ _ _ Hinv) | done..].
  - intros l ts sid Ho Hy. destruct (Hobj l ts Ho) as [(ts0 & Ho0 & E1 & E2)|(Em' & E1 & E2)].
    + rewrite E1. eapply (si_sessions _ _ _ _ Hinv); [done|]. congruence.
    + rewrite E2 in Hy. simplify_eq. destruct th; try done. simpl in *. congruence.
  - apply (si_fresh _ _ _ _ Hinv).
Qed.
End Go.

Definition invariant (y : System) : Prop := exists rc gh sess, sys_inv y rc gh sess.

Lemma invariant_go y tid th s' th' :
  invariant y -> sy_pool y !! tid = Some th -> go_step (sy_srv y) th s' th' ->
  invariant {| sy_srv := s'; sy_next := sy_next y; sy_pool := <[tid := th']> (sy_pool y) |}.
Proof.
  intros (rc & gh & sess & Hinv) Hth Hgo.
  destruct (si_permit _ _ _ _ Hinv tid th Hth) as [Hp Hs].
  destruct (go_outcome _ rc tid _ _ _ (gh tid) (si_world _ _ _ _ Hinv) Hp
              (sess_token _ _ _ _ _ _ Hinv Hth) Hs Hgo) as (Ho & Em & Es & Et & Hk).
  destruct Ho as (rc' & g' & Hs' & Hw' & Hp' & Hst & Hfrom & Hobj).
  exists rc', (set_permit tid g' gh), sess. apply (inv_go y rc rc' gh sess tid th th' s' g'); auto.
Qed.

(** A goroutine that takes over from one that holds nothing; [th'] may be of a
    session that has just been opened. *)
Lemma inv_replace y rc gh sess tid th th' :
  sys_inv y rc gh sess -> sy_pool y !! tid = Some th -> gh tid = Idle ->
  th_main th' = th_main th -> th_session th' = th_session th -> th_known sess th' -> th_safe th' Idle ->
  sys_inv {| sy_srv := sy_srv y; sy_next := sy_next y; sy_pool := <[tid := th']> (sy_pool y) |} rc gh sess.
Proof.
  intros Hinv Hth Hg Em Es Hk Hsafe. split; simpl; try apply Hinv.
  - intros t t2 Ht. apply lookup_insert_Some in Ht as [[<- <-]|[Hne Ht]]; [|by apply (si_permit _ _ _ _ Hinv)].
    destruct (si_permit _ _ _ _ Hinv tid th Hth) as [[_ Hr] _]. rewrite Hg in Hr |- *.
    split; [|done]. split; [constructor | done].
  - intros t t2 Ht. apply lookup_insert_Some in Ht as [[<- <-]|[Hne Ht]]; [|by apply (si_known _ _ _ _ Hinv t)].
    split; [done|]. rewrite Es. by apply (si_known _ _ _ _ Hinv tid).
  - intros t Ht. apply lookup_insert_None in Ht as [Ht _]. by apply (si_gone _ _ _ _ Hinv).
  - eapply unique_mains_replace; [apply (si_mains _ _ _ _ Hinv) | done..].
Qed.

(** A goroutine that holds nothing ends. *)
Lemma inv_end y rc gh sess tid th :
  sys_inv y rc gh sess -> sy_pool y !! tid = Some th -> gh tid = Idle ->
  sys_inv {| sy_srv := sy_srv y; sy_next := sy_next y; sy_pool := delete tid (sy_pool y) |} rc gh sess.
Proof.
  intros Hinv Hth Hg.
  assert (forall t t2, delete tid (sy_pool y) !! t = Some t2 -> sy_pool y !! t = Some t2) as Hback.
  { intros t t2 Ht. by apply lookup_delete_Some in Ht as []. }
  split; simpl; try apply Hinv.
  - intros t t2 Ht. apply (si_permit _ _ _ _ Hinv), Hback, Ht.
  - intros t t2 Ht. apply (si_known _ _ _ _ Hinv t), Hback, Ht.
  - intros t Ht. apply lookup_delete_None in Ht as [<-|Ht]; [|by apply (si_gone _ _ _ _ Hinv)].
    split; [done|]. destruct (si_permit _ _ _ _ Hinv tid th Hth) as [[_ Hr] _]. by rewrite Hg in Hr.
  - intros t t2 h h2 P1 P2. by apply (si_mains _ _ _ _ Hinv t t2); apply Hback.
Qed.

(** A goroutine starts. *)
Lemma inv_start y rc gh sess tid th n :
  sys_inv y rc gh sess -> sy_pool y !! tid = None -> (sy_next y <= n)%nat ->
  th_known sess th -> (th_session th < n)%nat -> th_safe th Idle ->
  (th_main th = true -> th_session th = sy_next y) ->
  sys_inv {| sy_srv := sy_srv y; sy_next := n; sy_pool := <[tid := th]> (sy_pool y) |} rc gh sess.
Proof.
  intros Hinv Hnone Hn Hk Hlt Hsafe Hm. destruct (si_gone _ _ _ _ Hinv tid Hnone) as [Hg Hr].
  split; simpl; try apply Hinv.
  - intros t t2 Ht. apply lookup_insert_Some in Ht as [[<- <-]|[Hne Ht]]; [|by apply (si_permit _ _ _ _ Hinv)].
    rewrite Hg. split; [|done]. split; [constructor | done].
  - intros t t2 Ht. apply lookup_insert_Some in Ht as [[<- <-]|[Hne Ht]]; [done|].
    destruct (si_known _ _ _ _ Hinv t t2 Ht). split; [done | lia].
  - intros t Ht. apply lookup_insert_None in Ht as [Ht _]. by apply (si_gone _ _ _ _ Hinv).
  - assert (forall t h, sy_pool y !! t = Some h -> th_session h <> sy_next y) as Hold.
    { intros t h Ht. destruct (si_known _ _ _ _ Hinv t h Ht). lia. }
    intros t t2 h h2 P1 P2 M1 M2 S12.
    apply lookup_insert_Some in P1 as [[<- <-]|[Hne1 P1]]; apply lookup_insert_Some in P2 as [[<- <-]|[Hne2 P2]]; try done.
    + destruct (Hold t2 h2 P2). rewrite <- S12. by apply Hm.
    + destruct (Hold t h P1). rewrite S12. by apply Hm.
    + by eapply (si_mains _ _ _ _ Hinv).
  - intros sid Hs. pose proof (si_fresh _ _ _ _ Hinv sid Hs). lia.
Qed.

(** Opening a session records its token. *)
Lemma inv_known y rc gh sess tid sid p token :
  sys_inv y rc gh sess -> sy_pool y !! tid = Some (GConn sid p) -> gh tid = Idle ->
  sys_inv {| sy_srv := sy_srv y; sy_next := sy_next y; sy_pool := <[tid := GWait sid token]> (sy_pool y) |}
    rc gh (<[sid := token]> sess).
Proof.
  intros Hinv Hth Hg. destruct (si_known _ _ _ _ Hinv tid _ Hth) as [Hk Hlt]. simpl in Hk, Hlt.
  split; simpl; try apply Hinv.
  - intros t t2 Ht. apply lookup_insert_Some in Ht as [[<- <-]|[Hne Ht]]; [|by apply (si_permit _ _ _ _ Hinv)].
    destruct (si_permit _ _ _ _ Hinv tid _ Hth) as [[_ Hr] _]. rewrite Hg in Hr |- *.
    split; [|done]. split; [constructor | done].
  - intros t t2 Ht. apply lookup_insert_Some in Ht as [[<- <-]|[Hne Ht]].
    + split; [apply lookup_insert_eq | done].
    + destruct (si_known _ _ _ _ Hinv t t2 Ht) as [Hk2 Hlt2]. split; [|done].
      destruct t2; simpl in *; rewrite lookup_insert_ne; try done; try congruence.
      intros <-. apply Hne. by eapply (si_mains _ _ _ _ Hinv _ _ _ _ Hth Ht).
  - intros t Ht. apply lookup_insert_None in Ht as [Ht _]. by apply (si_gone _ _ _ _ Hinv).
  - by eapply unique_mains_replace; [apply (si_mains _ _ _ _ Hinv) | ..].
  - intros l ts sid' Ho Hy. pose proof (si_sessions _ _ _ _ Hinv l ts sid' Ho Hy) as Hs.
    rewrite lookup_insert_ne; [done | congruence].
  - intros sid' [t Hs]. apply lookup_insert_Some in Hs as [[<- _]|[_ Hs]]; [done|].
    apply (si_fresh _ _ _ _ Hinv). eauto.
Qed.

(** Dropping the receipt of an anonymous tunnel that could not be filed. *)
Lemma inv_settle y rc gh sess tid sid token b :
  sys_inv y rc gh sess -> sy_pool y !! tid = Some (GControl sid token (Ret b)) ->
  exists rc' gh', sys_inv y rc' gh' sess /\ gh' tid = Idle.
Proof.
  intros Hinv Hth. destruct (si_permit _ _ _ _ Hinv tid _ Hth) as [Hp Hs]. simpl in Hs, Hp.
  unfold ends, settled in Hs. destruct (gh tid) as [| |l type name port|ls|l ts ls|l ls] eqn:Hg; try done.
  { by exists rc, gh. }
  destruct Hp as [_ (_ & Hr & Hown)].
  exists (delete (inr tid) rc), (set_permit tid Idle gh). split; [|by rewrite set_permit_eq].
  assert (world_ok (sy_srv y) (delete (inr tid) rc)) as Hw.
  { apply (world_counts (sy_srv y) _ rc); [apply (si_world _ _ _ _ Hinv) | done | | |].
    - intros t Ha. rewrite (wo_count _ _ (si_world _ _ _ _ Hinv) t Ha).
      rewrite (issued_delete t (inr tid) token rc Hr), decide_False by congruence. by rewrite Nat.add_0_r.
    - apply (wo_bounds _ _ (si_world _ _ _ _ Hinv)).
    - intros l'. left. by rewrite lookup_delete_ne. }
  pose proof (inv_go y rc (delete (inr tid) rc) gh sess tid _ (GControl sid token (Ret b)) (sy_srv y) Idle
                Hinv Hth Hw) as Hgo.
  destruct y as [s n pool]. simpl in *.
  rewrite <- (insert_id pool tid (GControl sid token (Ret b)) Hth) at 1. apply Hgo; try done.
  - split; [constructor | apply lookup_delete_eq].
  - rewrite Hg. apply stable_weaken. split; [|by left|].
    + intros l' ts' Ho. exists ts'. by split_and!.
    + intros x Hx _. by rewrite lookup_delete_ne.
  - intros l' Hl'. simpl in Hl'. set_solver.
  - intros l' ts' Ho. left. by exists ts'.
Qed.

(** A clean-up that is done. *)
Lemma inv_finished y rc gh sess tid sid token :
  sys_inv y rc gh sess -> sy_pool y !! tid = Some (GMain sid token (Ret tt)) ->
  exists gh', sys_inv y rc gh' sess /\ gh' tid = Idle.
Proof.
  intros Hinv Hth. destruct (si_permit _ _ _ _ Hinv tid _ Hth) as [Hp [Hg|Hg]]; simpl in Hg; [by exists gh|].
  exists (set_permit tid Idle gh). split; [|by rewrite set_permit_eq].
  pose proof (inv_go y rc rc gh sess tid _ (GMain sid token (Ret tt)) (sy_srv y) Idle Hinv Hth) as Hgo.
  rewrite Hg in Hp. destruct Hp as [_ (_ & Hr & _)].
  destruct y as [s n pool]. simpl in *.
  rewrite <- (insert_id pool tid (GMain sid token (Ret tt)) Hth) at 1. apply Hgo; try done.
  - apply Hinv.
  - split; [constructor | done].
  - apply stable_weaken, stable_shrink; [by apply shrinks_same | done].
  - intros l Hl. simpl in Hl. set_solver.
  - intros l ts Ho. left. by exists ts.
  - by left.
Qed.

Lemma invariant_shrink y s' :
  invariant y -> shrinks (sy_srv y) s' ->
  invariant {| sy_srv := s'; sy_next := sy_next y; sy_pool := sy_pool y |}.
Proof.
  intros (rc & gh & sess & Hinv) Hs. exists rc, gh, sess. split; simpl; try apply Hinv.
  - eapply world_shrink; [apply Hinv | done].
  - intros tid th Hth. destruct (si_permit _ _ _ _ Hinv tid th Hth) as [Hp ?].
    split; [by eapply permit_shrink | done].
  - intros l ts sid Ho Hy. destruct (sh_back _ _ Hs l ts Ho) as (ts0 & Ho0 & E1 & _ & E3 & _).
    rewrite E1. eapply (si_sessions _ _ _ _ Hinv); [done|]. congruence.
Qed.

(** *** The administrator *)

Lemma quota_keys ks ks' :
  (forall id, option_map (fun k => (key_tunnelCount k, MaxTunnels k)) (keys ks' !! id) =
              option_map (fun k => (key_tunnelCount k, MaxTunnels k)) (keys ks !! id)) ->
  forall s, ks = srv_keyStore s -> shrinks s (with_keyStore ks' s).
Proof.
  intros Hk s ->. apply shrinks_same; [done|]. intros t. unfold srv_quota. simpl.
  destruct (IsAPIKey t); [|done]. apply (Hk t).
Qed.

Lemma shrinks_RevokeKey w id s : shrinks s (with_keyStore (RevokeKey w id (srv_keyStore s)).1 s).
Proof.
  apply (quota_keys (srv_keyStore s)); [|done]. intros k. unfold RevokeKey.
  destruct (findKeyByIDOrPreview id (srv_keyStore s)) as [id'|]; [|done].
  pose proof (keys_saveLocked w (with_keys (alter (set_Active false) id' (keys (srv_keyStore s))) (srv_keyStore s))) as E.
  destruct (saveLocked _ _) as [ks e]. simpl in *. rewrite E.
  destruct (decide (id' = k)) as [<-|Hne].
  - rewrite lookup_alter_eq. by destruct (keys (srv_keyStore s) !! id').
  - by rewrite lookup_alter_ne.
Qed.

Lemma shrinks_insert_key w id k k' s :
  keys (srv_keyStore s) !! id = Some k -> key_tunnelCount k' = key_tunnelCount k -> MaxTunnels k' = MaxTunnels k ->
  shrinks s (with_keyStore (saveLocked w (with_keys (<[id := k']> (keys (srv_keyStore s))) (srv_keyStore s))).1 s).
Proof.
  intros Hk E1 E2. apply (quota_keys (srv_keyStore s)); [|done]. intros id'.
  rewrite keys_saveLocked. cbn [keys with_keys]. destruct (decide (id = id')) as [<-|Hne].
  - rewrite lookup_insert_eq, Hk. simpl. by rewrite E1, E2.
  - by rewrite lookup_insert_ne.
Qed.

Lemma with_keyStore_id s : with_keyStore (srv_keyStore s) s = s.
Proof. by destruct s. Qed.

Lemma shrinks_AddSubdomain w id sub s : shrinks s (with_keyStore (AddSubdomain w id sub (srv_keyStore s)).1 s).
Proof.
  assert (shrinks s (with_keyStore (srv_keyStore s) s)) as Hid by by apply shrinks_same.
  unfold AddSubdomain. destruct (ValidateSubdomain sub); [done|].
  destruct (keys (srv_keyStore s) !! id) as [k|] eqn:Hk; [|done].
  destruct (negb (Active k)); [done|]. destruct (negb _); [by destruct (String.eqb _ _)|].
  pose proof (shrinks_insert_key w id k (set_Subdomains (Subdomains k ++ [sub]) k) s Hk eq_refl eq_refl) as Hs.
  destruct (saveLocked _ _) as [ks e]. exact Hs.
Qed.

Lemma shrinks_RemoveSubdomain w id sub s :
  shrinks s (with_keyStore (RemoveSubdomain w id sub (srv_keyStore s)).1 s).
Proof.
  assert (shrinks s (with_keyStore (srv_keyStore s) s)) as Hid by by apply shrinks_same.
  unfold RemoveSubdomain. destruct (keys (srv_keyStore s) !! id) as [k|] eqn:Hk; [|done].
  set (l := List.filter _ _).
  pose proof (shrinks_insert_key w id k (set_Subdomains l k) s Hk eq_refl eq_refl) as Hs.
  destruct (saveLocked _ _) as [ks e]. exact Hs.
Qed.

Lemma shrinks_unfile tm s s' :
  srv_tunnelManager s' = tm -> (forall t, srv_quota t s' = srv_quota t s) ->
  objects tm = objects (srv_tunnelManager s) ->
  (forall sub l, httpTunnels tm !! sub = Some l -> httpTunnels (srv_tunnelManager s) !! sub = Some l) ->
  (forall p l, tcpTunnels tm !! p = Some l -> tcpTunnels (srv_tunnelManager s) !! p = Some l) ->
  shrinks s s'.
Proof.
  intros E Hq Eo Hh Ht. split; unfold obj; rewrite ?E, ?Eo; try done;
    intros l ts Ho; exists ts; (split; [done | apply same_tunnel_refl]).
Qed.

Lemma shrinks_admin s s' : admin_step s s' -> shrinks s s'.
Proof.
  intros Hs. destruct Hs.
  - pose proof (objects_Kill id (srv_tunnelManager s)) as Eo. rewrite Hkill in Eo. simpl in Eo.
    unfold KillTunnelByID in Hkill. apply (shrinks_unfile tm); [done | done | done | |]; intros k l Hk;
      destruct (first_such _ (range (httpTunnels _))) as [[]|];
      [|destruct (first_such _ (range (tcpTunnels _))) as [[]|]| |destruct (first_such _ (range (tcpTunnels _))) as [[]|]];
      simplify_eq; try done; simpl in Hk; by apply lookup_delete_inv in Hk as [].
  - apply (shrinks_unfile (reaper_tick now (srv_tunnelManager s))); try done.
    intros sub l Hk. rewrite lookup_reaper_tick in Hk. destruct (httpTunnels _ !! sub); [|done].
    by destruct (_ && _).
  - apply shrinks_RevokeKey.
  - apply shrinks_AddSubdomain.
  - apply shrinks_RemoveSubdomain.
  - by apply shrinks_same.
  - by apply shrinks_update.
Qed.

Lemma invariant_step y y' : invariant y -> sys_step y y' -> invariant y'.
Proof.
  intros Hinv Hstep. destruct Hstep.
  - destruct Hinv as (rc & gh & sess & Hinv). exists rc, gh, sess. apply inv_start; try done; simpl; [lia | | lia |].
    + apply eq_None_not_Some. intros Hs. pose proof (si_fresh _ _ _ _ Hinv _ Hs). lia.
    + apply safe_handleConnection.
  - by eapply invariant_go.
  - destruct Hinv as (rc & gh & sess & Hinv).
    destruct (si_permit _ _ _ _ Hinv tid _ Hth) as [_ Hg]. simpl in Hg.
    pose proof (si_known _ _ _ _ Hinv tid _ Hth) as [_ Hlt]. simpl in Hlt.
    exists rc, gh, (<[sid := token]> sess).
    apply (inv_start _ rc gh _ tid' _ (sy_next y) (inv_known y rc gh sess tid sid _ token Hinv Hth Hg)); simpl; try done.
    + rewrite lookup_insert_ne; [done|]. intros ->. congruence.
    + by rewrite lookup_insert_eq.
  - destruct Hinv as (rc & gh & sess & Hinv). exists rc, gh, sess.
    destruct (si_permit _ _ _ _ Hinv tid _ Hth) as [_ Hg]. by eapply inv_end.
  - destruct Hinv as (rc & gh & sess & Hinv).
    destruct (inv_settle _ _ _ _ _ _ _ _ Hinv Hth) as (rc' & gh' & Hinv' & Hg). exists rc', gh', sess.
    eapply inv_replace; try done; [by apply (si_known _ _ _ _ Hinv tid _ Hth) | apply safe_dispatch].
  - destruct Hinv as (rc & gh & sess & Hinv).
    destruct (inv_settle _ _ _ _ _ _ _ _ Hinv Hth) as (rc' & gh' & Hinv' & Hg). exists rc', gh', sess.
    by eapply inv_end.
  - destruct Hinv as (rc & gh & sess & Hinv). exists rc, gh, sess.
    destruct (si_permit _ _ _ _ Hinv tid _ Hth) as [_ Hg].
    eapply inv_replace; try done; [by apply (si_known _ _ _ _ Hinv tid _ Hth)|].
    eapply safe_mono; [|apply safe_end_session]. by right.
  - destruct Hinv as (rc & gh & sess & Hinv).
    destruct (inv_finished _ _ _ _ _ _ _ Hinv Hth) as (gh' & Hinv' & Hg). exists rc, gh', sess.
    by eapply inv_end.
  - apply invariant_shrink; [done | by apply shrinks_admin].
Qed.

Lemma invariant_init y : sys_init y -> invariant y.
Proof.
  intros [[Eh Et Eo Hc] Hp]. exists ∅, (fun _ => Idle), ∅.
  assert (forall l, obj (sy_srv y) l = None) as Hobj by (intros l; unfold obj; by rewrite Eo).
  assert (forall l, ~ linked l (srv_tunnelManager (sy_srv y))) as Hl.
  { intros l [[k Hk]|[k Hk]]; [by rewrite Eh in Hk | by rewrite Et in Hk]. }
  split; simpl; try (intros *; rewrite Hp; done).
  - split.
    + intros t _. unfold count, issued. rewrite map_filter_empty, map_size_empty.
      destruct (srv_quota t (sy_srv y)) as [[c m]|] eqn:Hq; [by rewrite (Hc t c m)|done].
    + intros l Hlk. by apply Hl in Hlk.
    + intros sub l Hk. destruct (Hl l). left. eauto.
    + intros p l Hk. destruct (Hl l). right. eauto.
    + intros l t Hr. by rewrite lookup_empty in Hr.
    + intros t c m Hq. rewrite (Hc t c m Hq). lia.
  - intros tid tid' l _ Hin. by apply elem_of_nil in Hin.
  - intros l ts sid Ho. by rewrite Hobj in Ho.
  - intros sid [? Hs]. by rewrite lookup_empty in Hs.
Qed.

Lemma invariant_reachable y : reachable sys_init sys_step y -> invariant y.
Proof. apply reachable_invariant; [apply invariant_init | apply invariant_step]. Qed.

(** ** Safety of the limits *)

(** The tunnels of a token that the registry holds. *)
Definition tunnels_of (token : string) s : list loc :=
  let tm := srv_tunnelManager s in
  List.filter (fun l => String.eqb (ts_Token (deref tm l)) token) (http_list tm ++ tcp_list tm).

Lemma NoDup_tunnels s rc token : world_ok s rc -> NoDup (tunnels_of token s).
Proof.
  intros Hw. apply NoDup_ListNoDup, List.NoDup_filter, NoDup_ListNoDup, NoDup_app.
  split_and!; [by eapply NoDup_http_list | | by eapply NoDup_tcp_list].
  intros l [k1 K1]%elem_of_http_list [k2 K2]%elem_of_tcp_list.
  destruct (wo_http _ _ Hw _ _ K1) as (? & ? & ? & _). destruct (wo_tcp _ _ Hw _ _ K2) as (? & ? & ? & _). congruence.
Qed.

Lemma tunnels_have_receipts s rc token :
  world_ok s rc -> (length (tunnels_of token s) <= issued token rc)%nat.
Proof.
  intros Hw. unfold issued. rewrite <- length_map_to_list.
  rewrite <- (length_fmap (fun l => (inl l, token) : holder * string)).
  apply submseteq_length, NoDup_submseteq.
  - apply NoDup_fmap_2; [intros l1 l2 Heq; by injection Heq | by eapply NoDup_tunnels].
  - intros [x t] Hin. apply list_elem_of_fmap in Hin as (l & [= -> ->] & Hin).
    apply list_elem_of_In, filter_In in Hin as [Hin Ht]. apply String.eqb_eq in Ht.
    apply list_elem_of_In in Hin. apply elem_of_map_to_list, map_lookup_filter_Some. split; [|done].
    assert (linked l (srv_tunnelManager s)) as Hl.
    { apply elem_of_app in Hin as [Hin|Hin]; [left; by apply elem_of_http_list | right; by apply elem_of_tcp_list]. }
    destruct (wo_linked _ _ Hw l Hl) as (ts & Ho & Hr). rewrite (deref_lookup _ _ ts Ho) in Ht. congruence.
Qed.

(** C1: under every interleaving of the goroutines of all connections, of
    kills, expiries, reservations and key changes, a token that is not anonymous
    never has more tunnels registered than its count says, and the count never
    exceeds the token's limit. *)
Theorem tunnel_limit_safe y token :
  reachable sys_init sys_step y -> is_anon token = false ->
  Z.of_nat (length (tunnels_of token (sy_srv y))) <= count token (sy_srv y) /\
  forall c m, srv_quota token (sy_srv y) = Some (c, m) -> count token (sy_srv y) <= Z.max 0 m.
Proof.
  intros Hr Ha. apply invariant_reachable in Hr as (rc & gh & sess & Hinv).
  pose proof (si_world _ _ _ _ Hinv) as Hw. split.
  - rewrite (wo_count _ _ Hw token Ha). pose proof (tunnels_have_receipts _ _ token Hw). lia.
  - intros c m Hq. unfold count. rewrite Hq. by apply (wo_bounds _ _ Hw token).
Qed.

(** ** Runs of whole programs *)

(** A goroutine that runs its program without interruption. *)
Lemma reach_run {A} (C : P A -> goroutine) (p : P A) cs y s' a tid :
  (forall R (e : srvE R) k c s1 s2 r, exec R e c s1 = Some (s2, r) -> go_step s1 (C (Vis e k)) s2 (C (k r))) ->
  reachable sys_init sys_step y -> sy_pool y !! tid = Some (C p) ->
  run exec p cs (sy_srv y) = Some (s', Some a, []) ->
  reachable sys_init sys_step
    {| sy_srv := s'; sy_next := sy_next y; sy_pool := <[tid := C (Ret a)]> (sy_pool y) |}.
Proof.
  intros HC. revert cs y. induction p as [b| |R e k IH]; intros cs y Hr Hp Hrun; simpl in Hrun; [| done |].
  - simplify_eq. rewrite insert_id by done. by destruct y.
  - destruct cs as [|c cs]; [done|]. destruct (exec R e c (sy_srv y)) as [[s1 r]|] eqn:He; [|done].
    pose proof (reach_step _ _ _ _ Hr (ss_go y tid _ s1 (C (k r)) Hp (HC _ _ _ _ _ _ _ He))) as Hr1.
    specialize (IH r cs _ Hr1). simpl in IH. rewrite lookup_insert_eq in IH. specialize (IH eq_refl Hrun).
    by rewrite insert_insert_eq in IH.
Qed.
End System.

(** ** Runs of a concrete server *)

Module Examples.
Import Auth.Bucket Handlers.Examples.

Lemma s0_fresh : fresh_server s0.
Proof.
  split; [done..|]. intros t c m. unfold srv_quota. destruct (IsAPIKey t); cbn.
  - unfold KeyStore_quota. simpl. by rewrite lookup_empty.
  - unfold TokenStore_quota. cbn [tokens s0 srv_tokenStore].
    destruct (decide (t = token)) as [->|Hne]; [by intros [= <- _]|].
    by rewrite lookup_insert_ne, lookup_empty by done.
Qed.

(** The client has connected: its control loop is goroutine 1. *)
Definition pool1 : gmap nat goroutine :=
  <[1%nat := GControl 0%nat token (Ret true)]> (<[0%nat := GWait 0%nat token]>
    (<[0%nat := GConn 0%nat (Ret (Some token))]> (<[0%nat := GConn 0%nat (handleConnection "1.2.3.4:5")]> ∅))).

Lemma y1_reachable :
  reachable sys_init sys_step {| sy_srv := s1; sy_next := 1%nat; sy_pool := pool1 |}.
Proof.
  assert (reachable sys_init sys_step {| sy_srv := s0; sy_next := 0%nat; sy_pool := ∅ |}) as Hr.
  { apply reach_init. split; [apply s0_fresh | done]. }
  unshelve epose proof (reach_step _ _ _ _ Hr (ss_accept _ 0%nat "1.2.3.4:5" _)) as Hr1; [reflexivity|];
    clear Hr; rename Hr1 into Hr.
  apply (reach_run (fun p => GConn 0%nat p) (handleConnection "1.2.3.4:5") (repeat quiet 4) _ s1 (Some token) 0%nat) in Hr;
    [|by intros; econstructor | apply lookup_insert_eq | vm_compute; reflexivity].
  refine (reach_step _ _ _ _ Hr (ss_session _ 0%nat 1%nat 0%nat token _ _)); [apply lookup_insert_eq | done].
Qed.

(** It asks for a tunnel and gets it. *)
Lemma y2_reachable :
  reachable sys_init sys_step {| sy_srv := s2; sy_next := 1%nat;
    sy_pool := <[1%nat := GControl 0%nat token (Ret true)]> (<[1%nat := GControl 0%nat token request]> pool1) |}.
Proof.
  pose proof y1_reachable as Hr.
  unshelve epose proof (reach_step _ _ _ _ Hr (ss_message _ 1%nat 0%nat token MsgTunnelReq [] _)) as Hr1; [reflexivity|];
    clear Hr; rename Hr1 into Hr.
  refine (reach_run (fun p => GControl 0%nat token p) request (repeat quiet 8) _ s2 true 1%nat _ Hr _ _);
    [by intros; econstructor | apply lookup_insert_eq | vm_compute; reflexivity].
Qed.

Lemma tunnel_limit_safe_witness :
  length (tunnels_of token s2) = 1%nat /\ count token s2 = 1 /\
  Z.of_nat (length (tunnels_of token s2)) <= count token s2.
Proof.
  split; [vm_compute; reflexivity|]. split; [vm_compute; reflexivity|].
  exact (proj1 (tunnel_limit_safe _ token y2_reachable eq_refl)).
Defined.

Lemma kill_step id (s : srv) :
  let k := KillTunnelByID id (srv_tunnelManager s) in
  admin_step s (add_effects k.1.2 (with_tm k.1.1 s)).
Proof.
  intros k. apply (as_kill s id _ k.2). subst k.
  by destruct (KillTunnelByID id (srv_tunnelManager s)) as [[? ?] ?].
Qed.

(** The session ends. *)
Definition cleanup : P unit := end_session true 0%nat token false.

(** A tunnel that an administrator (or the anonymous expiry's
    [KillTunnelByID]) kills is never taken off its token's count: with the
    connection gone, no tunnel registered and no goroutine left, a token with a
    limit of one tunnel is still at its limit, and stays locked out until the
    server restarts. *)
Theorem kill_leaks_count :
  exists y : System (L := bucket), reachable sys_init sys_step y /\
    sy_pool y = ∅ /\ tunnels_of token (sy_srv y) = [] /\ srv_quota token (sy_srv y) = Some (1, 1) /\
    IncrementTunnels token (srv_tokenStore (sy_srv y)) = (srv_tokenStore (sy_srv y), Some (ErrLimitReached 1 1)).
Proof.
  pose proof y2_reachable as Hr.
  pose proof (kill_step "0000000000000000" s2) as Hk.
  pose proof (reach_step _ _ _ _ Hr (ss_admin {| sy_srv := s2; sy_next := 1%nat; sy_pool := _ |} _ Hk)) as Hr1; clear Hr; rename Hr1 into Hr.
  unshelve epose proof (reach_step _ _ _ _ Hr (ss_control_end _ 1%nat 0%nat token true _)) as Hr1; [reflexivity|];
    clear Hr; rename Hr1 into Hr.
  unshelve epose proof (reach_step _ _ _ _ Hr (ss_wake _ 0%nat 0%nat token false _)) as Hr1; [reflexivity|];
    clear Hr; rename Hr1 into Hr.
  simpl in Hr.
  match type of Hr with reachable _ _ {| sy_srv := ?s |} => set (s4 := s) in Hr end.
  apply (reach_run (fun p => GMain 0%nat token p) cleanup (repeat quiet 1) _ s4 tt 0%nat) in Hr;
    [|by intros; econstructor | apply lookup_insert_eq | vm_compute; reflexivity].
  unshelve epose proof (reach_step _ _ _ _ Hr (ss_main_end _ 0%nat 0%nat token _)) as Hr1; [reflexivity|];
    clear Hr; rename Hr1 into Hr.
  eexists. split; [exact Hr|]. split; [vm_compute; reflexivity|].
  split; [vm_compute; reflexivity|]. split; vm_compute; reflexivity.
Qed.

(** The control loop is not stopped before the clean-up: a request that is
    being handled when the session times out registers its tunnel after the
    clean-up has looked, and the subdomain stays taken by a dead session that
    nothing will ever clean up (it is not a reservation, so the reaper skips it). *)
Theorem late_request_leaves_tunnel :
  exists y : System (L := bucket), reachable sys_init sys_step y /\ sy_pool y = ∅ /\
    exists l, LookupHTTP "myapp" (srv_tunnelManager (sy_srv y)) = Some l /\
      forall now, httpTunnels (reaper_tick now (srv_tunnelManager (sy_srv y))) !! "myapp"%string = Some l.
Proof.
  pose proof y1_reachable as Hr.
  unshelve epose proof (reach_step _ _ _ _ Hr (ss_message _ 1%nat 0%nat token MsgTunnelReq [] _)) as Hr1; [reflexivity|];
    clear Hr; rename Hr1 into Hr.
  unshelve epose proof (reach_step _ _ _ _ Hr (ss_wake _ 0%nat 0%nat token true _)) as Hr1; [reflexivity|];
    clear Hr; rename Hr1 into Hr.
  apply (reach_run (fun p => GMain 0%nat token p) (end_session true 0%nat token true) (repeat quiet 2) _ s1 tt 0%nat) in Hr;
    [|by intros; econstructor | apply lookup_insert_eq | vm_compute; reflexivity].
  apply (reach_run (fun p => GControl 0%nat token p) request (repeat quiet 8) _ s2 true 1%nat) in Hr;
    [|by intros; econstructor | reflexivity | vm_compute; reflexivity].
  unshelve epose proof (reach_step _ _ _ _ Hr (ss_control_end _ 1%nat 0%nat token true _)) as Hr1; [reflexivity|];
    clear Hr; rename Hr1 into Hr.
  unshelve epose proof (reach_step _ _ _ _ Hr (ss_main_end _ 0%nat 0%nat token _)) as Hr1; [reflexivity|];
    clear Hr; rename Hr1 into Hr.
  eexists. split; [exact Hr|]. split; [vm_compute; reflexivity|].
  exists 0%nat. split; [vm_compute; reflexivity|]. intros now. rewrite lookup_reaper_tick. reflexivity.
Qed.
End Examples.
