(* ===== verification/HttpProxy.v ===== *)
(** * The HTTP proxy (internal/server/http_proxy.go)

    From the name a visitor asks for to the tunnel that serves it: the
    subdomain of a host, the routing of a request, the headers that the reverse
    proxy sends on, the log of a request; then the I/O of one request as
    programs over streams: the round trip through a tunnel and the relay of a
    WebSocket.  Bodies of requests and responses are bytes here; their HTTP
    syntax is [net/http]'s. *)

From S2P Require Import Prelude Prog GoStrings Wire Subdomain TunnelManager RequestLog Config Server.
Local Open Scope Z_scope.

(** ** Headers: [net/http.Header]

    A map from canonical keys to lists of values. *)

Definition token_byte (c : ascii) : bool :=
  in_range "a" "z" c || in_range "A" "Z" c || in_range "0" "9" c
  || match IndexByte "!#$%&'*+-.^_`|~" c with Some _ => true | None => false end.

Definition upper_ascii (c : ascii) : ascii :=
  if in_range "a" "z" c then ascii_of_N (N_of_ascii c - 32) else c.

(** Upper case at the start and after a hyphen, lower case elsewhere. *)
Fixpoint canonical_chars (upper : bool) (s : string) : string :=
  match s with
  | EmptyString => EmptyString
  | String c s => String (if upper then upper_ascii c else lower_ascii c)
                    (canonical_chars (Ascii.eqb c "-") s)
  end.

(** [textproto.CanonicalMIMEHeaderKey] *)
Definition CanonicalMIMEHeaderKey (s : string) : string :=
  if all_chars token_byte s then canonical_chars true s else s.

Abbreviation Header := (gmap string (list string)).

Definition Get (h : Header) (k : string) : string :=
  match h !! CanonicalMIMEHeaderKey k with Some (v :: _) => v | _ => "" end.
Definition HSet (k v : string) (h : Header) : Header := <[CanonicalMIMEHeaderKey k := [v]]> h.
Definition HDel (k : string) (h : Header) : Header := delete (CanonicalMIMEHeaderKey k) h.

(** The fields of [http.Request] that the proxy reads or sets. *)
Record Request := {
  rq_Method : string;
  rq_URLScheme : string;
  rq_URLHost : string;
  rq_Path : string;
  rq_RequestURI : string;
  rq_Host : string;
  rq_RemoteAddr : string;
  rq_Header : Header;
}.

Definition with_url (scheme host : string) (r : Request) : Request := {|
  rq_Method := rq_Method r; rq_URLScheme := scheme; rq_URLHost := host; rq_Path := rq_Path r;
  rq_RequestURI := rq_RequestURI r; rq_Host := rq_Host r; rq_RemoteAddr := rq_RemoteAddr r;
  rq_Header := rq_Header r |}.
Definition with_header (f : Header -> Header) (r : Request) : Request := {|
  rq_Method := rq_Method r; rq_URLScheme := rq_URLScheme r; rq_URLHost := rq_URLHost r;
  rq_Path := rq_Path r; rq_RequestURI := rq_RequestURI r; rq_Host := rq_Host r;
  rq_RemoteAddr := rq_RemoteAddr r; rq_Header := f (rq_Header r) |}.

(** ** Small functions *)

Definition hopByHopHeaders : list string :=
  ["Connection"; "Keep-Alive"; "Proxy-Authenticate"; "Proxy-Authorization"; "TE"; "Trailers";
   "Transfer-Encoding"; "Upgrade"]%string.

(** [addForwardingHeaders] *)
Definition addForwardingHeaders (orig : Request) (out : Request) : Request :=
  let clientIP := extractIP (rq_RemoteAddr orig) in
  let prior := Get (rq_Header orig) "X-Forwarded-For" in
  let xff := if String.eqb prior "" then clientIP else prior +:+ ", " +:+ clientIP in
  let out := with_header (HSet "X-Forwarded-For" xff) out in
  let out := with_header (HSet "X-Forwarded-Proto" "https") out in
  let out := with_header (HSet "X-Forwarded-Host" (rq_Host orig)) out in
  foldl (fun out h => with_header (HDel h) out) out hopByHopHeaders.

(** [isWebSocketUpgrade] *)
Definition isWebSocketUpgrade (r : Request) : bool :=
  EqualFold (Get (rq_Header r) "Upgrade") "websocket"
  && Contains (ToLower (Get (rq_Header r) "Connection")) "upgrade".

(** [h[:strings.LastIndex(h, ":")]] *)
Definition strip_port (host : string) : string :=
  match LastIndexByte host ":" with Some idx => slice_to host idx | None => host end.

(** [extractSubdomain] *)
Definition extractSubdomain (cfg : ServerConfig) (host : string) : string :=
  let h := strip_port host in
  if String.eqb (ToLower h) (ToLower (Domain cfg)) then ""%string
  else
    let suffix := "." +:+ Domain cfg in
    if negb (HasSuffix h suffix) then
      match SplitN2 h "." with
      | part :: _ => ToLower part
      | [] => ""%string
      end
    else ToLower (TrimSuffix h suffix).

(** The target of [serveHTTPRedirect]. *)
Definition redirect_target (r : Request) : string := "https://" +:+ rq_Host r +:+ rq_RequestURI r.

(** ** Routing *)

Definition isSpecial (subdomain : string) : bool :=
  String.eqb subdomain "dashboard" || String.eqb subdomain "admin"
  || String.eqb subdomain "www" || String.eqb subdomain "".

(** The address [serveRequest] reaches the dashboard at. *)
Definition dashboard_host (addr : string) : string :=
  if HasPrefix addr ":" then "127.0.0.1" +:+ addr
  else if HasPrefix addr "0.0.0.0:" then "127.0.0.1" +:+ TrimPrefix addr "0.0.0.0"
  else addr.

(** The director of both reverse proxies. *)
Definition director (orig : Request) (host : string) (out : Request) : Request :=
  addForwardingHeaders orig (with_url "http" host out).

Inductive served :=
  | SDashboard (out : Request)
  | SError (status : Z) (body : string)
  | SWebSocket (l : loc)
  | SProxy (l : loc) (out : Request).

(** [serveRequest] up to the proxying; [out] is the clone of the request that
    the reverse proxy gives its director. *)
Definition serveRequest (cfg : ServerConfig) (tm : TunnelManager) (r : Request) (subdomain : string) : served :=
  if isSpecial subdomain && DashboardEnabled cfg then
    SDashboard (director r (dashboard_host (DashboardAddr cfg)) r)
  else
    match LookupHTTP subdomain tm with
    | None => SError 502 ("tunnel not found for subdomain: " +:+ subdomain)
    | Some l =>
        if isWebSocketUpgrade r then SWebSocket l
        else SProxy l (director r ("localhost:" +:+ Itoa (ts_LocalPort (deref tm l))) r)
    end.

(** The handler of [handleTLSConn]: the SNI name first, then the Host header. *)
Definition handleTLSConn (cfg : ServerConfig) (tm : TunnelManager) (serverName : string) (r : Request) : served :=
  let subdomain := extractSubdomain cfg serverName in
  let sub := if String.eqb subdomain "" then extractSubdomain cfg (rq_Host r) else subdomain in
  serveRequest cfg tm r sub.

(** [handleTLSConn] from the accepted connection on: whether it is one of TLS,
    the outcomes of setting the deadline and of the handshake, then every
    request with the registry as it is when the request comes. *)
Definition handleTLSConn_requests (cfg : ServerConfig) (is_tls : bool) (deadline handshake : option string)
    (serverName : string) (rs : list (TunnelManager * Request)) : list served :=
  match is_tls, deadline, handshake with
  | true, None, None => map (fun '(tm, r) => handleTLSConn cfg tm serverName r) rs
  | _, _, _ => []
  end.

(** ** The log of a request *)

(** [loggingResponseWriter]: a call of the handler, with the number of bytes
    that the connection took. *)
Inductive rw_call := WriteHeader (code : Z) | Write (n : Z).

Record loggingResponseWriter := { rw_status : Z; rw_size : Z }.

Definition rw_step (w : loggingResponseWriter) (c : rw_call) : loggingResponseWriter :=
  match c with
  | WriteHeader code => {| rw_status := code; rw_size := rw_size w |}
  | Write n => {| rw_status := if rw_status w =? 0 then 200 else rw_status w;
                  rw_size := int64 (rw_size w + n) |}
  end.

Definition Milliseconds (d : Z) : Z := Z.quot d Millisecond.

(** [sendRequestLog]: the message for the client's control stream. *)
Definition sendRequestLog (method path : string) (status dur size : Z) : RequestLogMsg :=
  {| rl_Method := method;
     rl_Path := if (100 <? len path) then slice_to path 97 +:+ "..." else path;
     rl_Status := if status =? 0 then 502 else status;
     rl_Duration := Milliseconds dur; rl_Size := size |}.

(** What [serveRequest] records when the reverse proxy has returned. *)
Definition log_request (tm : TunnelManager) (l : loc) (r : Request) (start dur : Z) (calls : list rw_call)
    : RequestLogMsg * LogEntry :=
  let rw := foldl rw_step {| rw_status := 0; rw_size := 0 |} calls in
  let ts := deref tm l in
  (sendRequestLog (rq_Method r) (rq_Path r) (rw_status rw) dur (rw_size rw),
   {| le_Timestamp := start; le_TunnelID := ts_ID ts; le_Subdomain := ts_Subdomain ts;
      le_Token := maskToken (ts_Token ts); le_Method := rq_Method r; le_Path := rq_Path r;
      le_Status := rw_status rw; le_DurationMs := Milliseconds dur; le_Size := rw_size rw |}).

(** ** Streams: the I/O of one request

    Two programs over what a tunnel's session and the visitor's connection
    offer: the round trip of a request and the relay of a WebSocket.  [Net] is
    what has become of them: the streams open, whether the visitor's connection
    is, and the bytes each side has sent and received after the upgrade. *)

Record Response := { resp_Status : Z; resp_Body : list byte }.

(** [w.(http.Hijacker)] and [Hijack]: not that sort of writer, an error, or the
    bytes that were already buffered. *)
Inductive hijacked := NoHijacker | HijackErr | Hijacked (buffered : list byte).

Inductive netE : Type -> Type :=
  | NHijack : netE hijacked
  | NReply (status : Z) (text : string) : netE unit
  | NOpen (l : loc) : netE (option nat)
  | NWriteRequest (stream : nat) (r : Request) : netE (option string)
  | NReadResponse (stream : nat) : netE (result string (Response * list byte))
  | NToStream (stream : nat) (b : list byte) : netE bool
  | NToVisitor (b : list byte) : netE bool
  | NWriteResponse (resp : Response) : netE bool
  | NRelay (stream : nat) : netE unit
  | NCloseStream (stream : nat) : netE unit
  | NCloseVisitor : netE unit.

(** [yamuxTransport.RoundTrip]: the response and the stream its body closes. *)
Definition RoundTrip (l : loc) (req : Request) : prog netE (result string (Response * nat)) :=
  o ← trigger (NOpen l);
  match o with
  | None => mret (Err "open yamux stream"%string)
  | Some stream =>
      w ← trigger (NWriteRequest stream req);
      match w with
      | Some err => _ ← trigger (NCloseStream stream); mret (Err ("write request: " +:+ err))
      | None =>
          r ← trigger (NReadResponse stream);
          match r with
          | Err err => _ ← trigger (NCloseStream stream); mret (Err ("read response: " +:+ err))
          | Ok (resp, _) => mret (Ok (resp, stream))
          end
      end
  end.

(** [streamCloser]: a body that counts what is read of it. *)
Record streamCloser := { sc_stream : nat; sc_session : loc; sc_read : Z }.

Definition sc_Read (n : Z) (sc : streamCloser) : streamCloser :=
  {| sc_stream := sc_stream sc; sc_session := sc_session sc; sc_read := int64 (sc_read sc + n) |}.

Definition add_BytesOut (n : Z) (s : TunnelSession) : TunnelSession := {|
  ts_ID := ts_ID s; ts_Token := ts_Token s; ts_Type := ts_Type s;
  ts_Subdomain := ts_Subdomain s; ts_Port := ts_Port s; ts_LocalPort := ts_LocalPort s;
  ts_Session := ts_Session s; ts_Listener := ts_Listener s; ts_CreatedAt := ts_CreatedAt s;
  ts_BytesIn := ts_BytesIn s; ts_BytesOut := int64 (ts_BytesOut s + n);
  ts_Reserved := ts_Reserved s; ts_ReservedUntil := ts_ReservedUntil s |}.

(** [streamCloser.Close]: it closes the stream and counts the bytes. *)
Definition sc_Close (sc : streamCloser) (tm : TunnelManager) : prog netE unit * TunnelManager :=
  (trigger (NCloseStream (sc_stream sc)), update (sc_session sc) (add_BytesOut (sc_read sc)) tm).

(** The Origin that a development server accepts. *)
Definition rewrite_origin (tm : TunnelManager) (l : loc) (r : Request) : Request :=
  if String.eqb (Get (rq_Header r) "Origin") "" then r
  else with_header (HSet "Origin" ("http://localhost:" +:+ Itoa (ts_LocalPort (deref tm l)))) r.

Definition flush {A} (write : list byte -> prog netE A) (b : list byte) (k : option A -> prog netE unit) : prog netE unit :=
  match b with [] => k None | _ => r ← write b; k (Some r) end.

(** [proxyWebSocket]; the result of writing the buffered bytes to the stream is
    not looked at. *)
Definition proxyWebSocket (tm : TunnelManager) (r : Request) (l : loc) : prog netE unit :=
  h ← trigger NHijack;
  match h with
  | NoHijacker => trigger (NReply 500 "WebSocket proxy not supported")
  | HijackErr => mret tt
  | Hijacked buffered =>
      o ← trigger (NOpen l);
      match o with
      | None => trigger NCloseVisitor
      | Some stream =>
          let close := _ ← trigger (NCloseStream stream); trigger NCloseVisitor in
          w ← trigger (NWriteRequest stream (rewrite_origin tm l r));
          match w with
          | Some _ => close
          | None =>
              flush (fun b => trigger (NToStream stream b)) buffered (fun _ =>
                rr ← trigger (NReadResponse stream);
                match rr with
                | Err _ => close
                | Ok (resp, ahead) =>
                    ok ← trigger (NWriteResponse resp);
                    if negb ok then close
                    else flush (fun b => trigger (NToVisitor b)) ahead (fun ok =>
                      match ok with
                      | Some false => close
                      | _ => _ ← trigger (NRelay stream); close
                      end)
                end)
          end
      end
  end.

(** What has become of the streams and of the visitor's connection; the bytes
    each side has produced after its part of the handshake, the first of which,
    [net_early], the visitor had sent before the hijack, and those that have
    reached the other side. *)
Record Net := {
  net_streams : gset nat;
  net_visitor : bool;
  net_replies : list (Z * string);
  net_early : list byte;
  net_lost : bool;           (* a write to the stream has failed *)
  from_visitor : list byte;
  to_backend : list byte;
  from_backend : list byte;
  to_visitor : list byte;
  net_complete : bool;       (* a relay has copied all of both directions *)
}.

Definition with_streams (f : gset nat -> gset nat) (n : Net) : Net :=
  {| net_streams := f (net_streams n); net_visitor := net_visitor n; net_replies := net_replies n;
     net_early := net_early n; net_lost := net_lost n;
     from_visitor := from_visitor n; to_backend := to_backend n; from_backend := from_backend n;
     to_visitor := to_visitor n; net_complete := net_complete n |}.
Definition with_visitor (v : bool) (n : Net) : Net :=
  {| net_streams := net_streams n; net_visitor := v; net_replies := net_replies n;
     net_early := net_early n; net_lost := net_lost n;
     from_visitor := from_visitor n; to_backend := to_backend n; from_backend := from_backend n;
     to_visitor := to_visitor n; net_complete := net_complete n |}.
Definition with_reply (r : Z * string) (n : Net) : Net :=
  {| net_streams := net_streams n; net_visitor := net_visitor n; net_replies := net_replies n ++ [r];
     net_early := net_early n; net_lost := net_lost n;
     from_visitor := from_visitor n; to_backend := to_backend n; from_backend := from_backend n;
     to_visitor := to_visitor n; net_complete := net_complete n |}.
(** The hijack: the visitor's connection is the handler's, with what is buffered. *)
Definition hijack (early : list byte) (n : Net) : Net :=
  {| net_streams := net_streams n; net_visitor := true; net_replies := net_replies n;
     net_early := net_early n ++ early; net_lost := net_lost n;
     from_visitor := from_visitor n ++ early; to_backend := to_backend n; from_backend := from_backend n;
     to_visitor := to_visitor n; net_complete := net_complete n |}.
(** A write: [io.Writer] takes all of the bytes, or it fails and may have taken
    the first [took] of them; a later write may succeed again. *)
Definition accepted (ok : bool) (took : nat) (b : list byte) : list byte := if ok then b else take took b.
Definition put_stream (ok : bool) (took : nat) (b : list byte) (n : Net) : Net :=
  {| net_streams := net_streams n; net_visitor := net_visitor n; net_replies := net_replies n;
     net_early := net_early n; net_lost := net_lost n || negb ok;
     from_visitor := from_visitor n; to_backend := to_backend n ++ accepted ok took b;
     from_backend := from_backend n; to_visitor := to_visitor n; net_complete := net_complete n |}.
Definition put_visitor (ok : bool) (took : nat) (b : list byte) (n : Net) : Net :=
  {| net_streams := net_streams n; net_visitor := net_visitor n; net_replies := net_replies n;
     net_early := net_early n; net_lost := net_lost n;
     from_visitor := from_visitor n; to_backend := to_backend n; from_backend := from_backend n;
     to_visitor := to_visitor n ++ accepted ok took b; net_complete := net_complete n |}.
Definition produce (visitor backend : list byte) (n : Net) : Net :=
  {| net_streams := net_streams n; net_visitor := net_visitor n; net_replies := net_replies n;
     net_early := net_early n; net_lost := net_lost n;
     from_visitor := from_visitor n ++ visitor; to_backend := to_backend n;
     from_backend := from_backend n ++ backend; to_visitor := to_visitor n; net_complete := net_complete n |}.
Definition complete (b : bool) (n : Net) : Net :=
  {| net_streams := net_streams n; net_visitor := net_visitor n; net_replies := net_replies n;
     net_early := net_early n; net_lost := net_lost n;
     from_visitor := from_visitor n; to_backend := to_backend n; from_backend := from_backend n;
     to_visitor := to_visitor n; net_complete := b |}.

(** What the environment supplies: a fresh stream, errors, whether the writer
    can be hijacked, how much a write that fails has taken, and the bytes of both
    sides, of which a relay copies the first [n_copied] (Relay.v proves of
    [proxyBidirectional] that each direction delivers a prefix). *)
Record net_supply := {
  n_stream : option nat;
  n_err : option string;
  n_ok : bool;
  n_hijacker : bool;
  n_took : nat;
  n_resp : Response;
  n_visitor_bytes : list byte;
  n_backend_bytes : list byte;
  n_copied : nat * nat;
}.

Definition net_exec (R : Type) (e : netE R) (c : net_supply) (n : Net) : option (Net * R) :=
  match e in netE R return option (Net * R) with
  | NHijack =>
      if negb (n_hijacker c) then Some (n, NoHijacker)
      else if n_ok c then Some (hijack (n_visitor_bytes c) n, Hijacked (n_visitor_bytes c))
      else Some (n, HijackErr)
  | NReply status text => Some (with_reply (status, text) n, tt)
  | NOpen _ =>
      match n_stream c with
      | Some s => if bool_decide (s ∈ net_streams n) then None
                  else Some (with_streams (union {[ s ]}) n, Some s)
      | None => Some (n, None)
      end
  | NWriteRequest _ _ => Some (n, n_err c)
  | NReadResponse _ =>
      match n_err c with
      | Some err => Some (n, Err err)
      | None => Some (produce [] (n_backend_bytes c) n, Ok (n_resp c, n_backend_bytes c))
      end
  | NToStream _ b => Some (put_stream (n_ok c) (n_took c) b n, n_ok c)
  | NToVisitor b => Some (put_visitor (n_ok c) (n_took c) b n, n_ok c)
  | NWriteResponse _ => Some (n, n_ok c)
  | NRelay _ =>
      let vs := n_visitor_bytes c in let bs := n_backend_bytes c in
      let all := (length vs <=? (n_copied c).1)%nat && (length bs <=? (n_copied c).2)%nat in
      Some (complete all (put_visitor true 0 (take (n_copied c).2 bs)
              (put_stream true 0 (take (n_copied c).1 vs) (produce vs bs n))), tt)
  | NCloseStream s => Some (with_streams (fun ss => ss ∖ {[ s ]}) n, tt)
  | NCloseVisitor => Some (with_visitor false n, tt)
  end.

(** [singleConnListener]: the channel of capacity one. *)
Record singleConnListener := { scl_buf : option nat; scl_closed : bool }.

Definition newSingleConnListener (conn : nat) : singleConnListener :=
  {| scl_buf := Some conn; scl_closed := false |}.

(** The outcome of [Accept]: [None] when the caller blocks. *)
Definition scl_Accept (ln : singleConnListener) : option (singleConnListener * result string nat) :=
  match scl_buf ln with
  | Some c => Some ({| scl_buf := None; scl_closed := scl_closed ln |}, Ok c)
  | None => if scl_closed ln then Some (ln, Err "listener closed"%string) else None
  end.

(** [Close]: [None] when closing a closed channel panics. *)
Definition scl_Close (ln : singleConnListener) : option singleConnListener :=
  if scl_closed ln then None else Some {| scl_buf := None; scl_closed := true |}.

(** [http.Server.Serve] accepts until [Accept] fails: the connections it serves
    and whether it returns, as far as [n] calls of [Accept]. *)
Fixpoint Serve (n : nat) (ln : singleConnListener) : list nat * bool :=
  match n with
  | O => ([], false)
  | S n =>
      match scl_Accept ln with
      | None => ([], false)
      | Some (_, Err _) => ([], true)
      | Some (ln, Ok c) => let '(cs, returned) := Serve n ln in (c :: cs, returned)
      end
  end.

(** ** Names lead to their tunnels *)

Lemma IndexByte_None s c : IndexByte s c = None <-> LastIndexByte s c = None.
Proof.
  induction s as [|a s IH]; simpl; [done|]. destruct (Ascii.eqb a c).
  - split; [done|]. by destruct (LastIndexByte s c).
  - destruct (IndexByte s c), (LastIndexByte s c); naive_solver.
Qed.

Lemma LastIndexByte_app_None s t c :
  LastIndexByte s c = None -> LastIndexByte t c = None -> LastIndexByte (s +:+ t) c = None.
Proof. intros Hs Ht. by rewrite LastIndexByte_None_app. Qed.

Lemma length_ToLower s : String.length (ToLower s) = String.length s.
Proof. unfold ToLower. induction s; simpl; [done | by f_equal]. Qed.

(** A host name with or without a port. *)
Definition with_port (port : option string) (h : string) : string :=
  match port with None => h | Some p => h +:+ String ":" p end.

Lemma strip_with_port port h :
  LastIndexByte h ":" = None -> (forall p, port = Some p -> LastIndexByte p ":" = None) ->
  strip_port (with_port port h) = h.
Proof.
  intros Hh Hp. unfold strip_port, with_port. destruct port as [p|]; [|by rewrite Hh].
  rewrite LastIndexByte_sep by by apply Hp. apply slice_to_app.
Qed.

(** The host of a subdomain, in any letter case. *)
Record host_of (cfg : ServerConfig) (label dom : string) (port : option string) : Prop := {
  ho_nocolon : LastIndexByte label ":" = None /\ LastIndexByte dom ":" = None;
  ho_port p : port = Some p -> LastIndexByte p ":" = None;
  ho_nodot : IndexByte label "." = None;
  ho_domain : ToLower dom = ToLower (Domain cfg);
}.

Lemma extractSubdomain_host cfg label dom port :
  host_of cfg label dom port ->
  extractSubdomain cfg (with_port port (label +:+ "." +:+ dom)) = ToLower label.
Proof.
  intros [[Hl Hd] Hp Hdot Hdom]. unfold extractSubdomain.
  change (label +:+ "." +:+ dom) with (label +:+ String "." dom).
  rewrite strip_with_port; [|by apply LastIndexByte_app_None; simpl; rewrite ?Hd|done].
  assert (String.length dom = String.length (Domain cfg)) as Hlen
    by by rewrite <- (length_ToLower dom), Hdom, length_ToLower.
  destruct (String.eqb_spec (ToLower (label +:+ String "." dom)) (ToLower (Domain cfg))) as [He|_].
  { apply (f_equal String.length) in He. rewrite !length_ToLower, length_string_app in He. simpl in He. lia. }
  destruct (HasSuffix _ _) eqn:Hs; cbn [negb].
  - unfold TrimSuffix. rewrite Hs. f_equal. rewrite length_string_app. simpl. rewrite Hlen.
    replace (_ + _ - _)%nat with (String.length label) by lia. apply slice_to_app.
  - by rewrite SplitN2_sep.
Qed.

(** The base domain itself names no tunnel. *)
Lemma extractSubdomain_base cfg dom port :
  LastIndexByte dom ":" = None -> (forall p, port = Some p -> LastIndexByte p ":" = None) ->
  ToLower dom = ToLower (Domain cfg) ->
  extractSubdomain cfg (with_port port dom) = ""%string.
Proof.
  intros Hd Hp Hdom. unfold extractSubdomain. rewrite strip_with_port by done.
  by rewrite Hdom, String.eqb_refl.
Qed.

(** A label that can be registered is never one of the proxy's own names. *)
Lemma valid_not_special sub : ValidateSubdomain sub = None -> isSpecial sub = false.
Proof.
  intros [Hlen _ _ _ Hres]%ValidateSubdomain_None. unfold isSpecial.
  rewrite !orb_false_iff, !String.eqb_neq. split_and!; intros ->;
    [apply Hres; vm_compute; repeat constructor .. | simpl in Hlen; lia].
Qed.

Lemma lower_ascii_sep a :
  Ascii.eqb (lower_ascii a) ":" = Ascii.eqb a ":" /\ Ascii.eqb (lower_ascii a) "." = Ascii.eqb a ".".
Proof. destruct a as [[] [] [] [] [] [] [] []]; vm_compute; by split. Qed.

Lemma ToLower_separators s :
  LastIndexByte (ToLower s) ":" = LastIndexByte s ":" /\ IndexByte (ToLower s) "." = IndexByte s ".".
Proof.
  unfold ToLower. induction s as [|a s [I1 I2]]; simpl; [done|].
  destruct (lower_ascii_sep a) as [E1 E2]. by rewrite I1, I2, E1, E2.
Qed.

(** Every spelling of a valid name's host gives the name back. *)
Lemma extractSubdomain_name cfg sub label dom port :
  ValidateSubdomain sub = None -> ToLower label = sub -> ToLower dom = ToLower (Domain cfg) ->
  LastIndexByte dom ":" = None -> (forall p, port = Some p -> LastIndexByte p ":" = None) ->
  extractSubdomain cfg (with_port port (label +:+ "." +:+ dom)) = sub.
Proof.
  intros Hv Hl Hdom Hd Hp. rewrite <- Hl. apply extractSubdomain_host.
  apply ValidateSubdomain_None, lr_chars, label_chars in Hv as (_ & H1 & H2).
  destruct (ToLower_separators label) as [E1 E2]. rewrite Hl, H1 in E1. rewrite Hl, H2 in E2.
  by split.
Qed.

Definition reaches (d : served) (l : loc) : Prop :=
  match d with SWebSocket l' | SProxy l' _ => l' = l | _ => False end.

Lemma serveRequest_live cfg tm r sub l :
  wf tm -> LookupHTTP sub tm = Some l -> reaches (serveRequest cfg tm r sub) l.
Proof.
  intros Hwf Hl. unfold serveRequest. rewrite Hl.
  assert (isSpecial sub = false) as ->.
  { unfold LookupHTTP in Hl. destruct (httpTunnels tm !! sub) as [l'|] eqn:E; [|done].
    apply (wf_http _ Hwf) in E as (ts & _ & Hts). apply valid_not_special, Hts. }
  simpl. by destruct (isWebSocketUpgrade r).
Qed.

(** C8: every visitor of a tunnel's public name reaches the tunnel: whether the
    name comes from the TLS handshake or, for the base domain or no name there,
    from the Host header, in any letter case and with any port, and whether or
    not the dashboard, which has names of its own, is enabled. *)
Theorem visitor_reaches_tunnel cfg tm r sub l label dom port serverName :
  wf tm -> LookupHTTP sub tm = Some l ->
  ToLower label = sub -> ToLower dom = ToLower (Domain cfg) ->
  LastIndexByte dom ":" = None -> (forall p, port = Some p -> LastIndexByte p ":" = None) ->
  (serverName = with_port port (label +:+ "." +:+ dom) \/
   extractSubdomain cfg serverName = ""%string /\ rq_Host r = with_port port (label +:+ "." +:+ dom)) ->
  reaches (handleTLSConn cfg tm serverName r) l.
Proof.
  intros Hwf Hl Hlab Hdom Hd Hp Hname.
  assert (ValidateSubdomain sub = None) as Hv.
  { unfold LookupHTTP in Hl. destruct (httpTunnels tm !! sub) as [l'|] eqn:E; [|done].
    by apply (wf_http _ Hwf) in E as (ts & _ & []). }
  pose proof (extractSubdomain_name cfg sub label dom port Hv Hlab Hdom Hd Hp) as Hx.
  unfold handleTLSConn. destruct Hname as [->|[-> ->]]; rewrite Hx; [|by apply serveRequest_live].
  destruct (String.eqb_spec sub "") as [->|_]; [done | by apply serveRequest_live].
Qed.

(** C11: a request is routed by its name alone: to the dashboard, if that is
    enabled, for the four special names; to a tunnel only if the tunnel is
    registered under exactly that name, is an HTTP tunnel and is not a
    reservation; and to nobody, with status 502, exactly when there is none. *)
Theorem serveRequest_spec cfg tm r sub :
  wf tm ->
  match serveRequest cfg tm r sub with
  | SDashboard out => DashboardEnabled cfg = true /\ sub ∈ ["dashboard"; "admin"; "www"; ""]%string /\
      rq_URLHost out = dashboard_host (DashboardAddr cfg) /\ rq_URLScheme out = "http"%string
  | SError status _ => status = 502 /\ LookupHTTP sub tm = None
  | SWebSocket l => isWebSocketUpgrade r = true /\ exists ts, objects tm !! l = Some ts /\
      httpTunnels tm !! sub = Some l /\ http_entry sub ts /\ ts_Reserved ts = false
  | SProxy l out => isWebSocketUpgrade r = false /\ exists ts, objects tm !! l = Some ts /\
      httpTunnels tm !! sub = Some l /\ http_entry sub ts /\ ts_Reserved ts = false /\
      rq_URLHost out = "localhost:" +:+ Itoa (ts_LocalPort ts) /\ rq_URLScheme out = "http"%string
  end.
Proof.
  intros Hwf. unfold serveRequest. destruct (isSpecial sub && DashboardEnabled cfg) eqn:Ed.
  { apply andb_true_iff in Ed as [Hs Hd]. split_and!; try done.
    unfold isSpecial in Hs. rewrite !orb_true_iff, !String.eqb_eq in Hs. set_solver. }
  destruct (LookupHTTP sub tm) as [l|] eqn:El; [|done].
  unfold LookupHTTP in El. destruct (httpTunnels tm !! sub) as [l'|] eqn:E; [|done].
  destruct (wf_http _ Hwf _ _ E) as (ts & Ho & He). rewrite (deref_lookup _ _ _ Ho) in El.
  destruct (ts_Reserved ts) eqn:Er; [done|]. simplify_eq.
  destruct (isWebSocketUpgrade r); (split; [done|]); exists ts; [done|].
  rewrite (deref_lookup _ _ _ Ho). by split_and!.
Qed.

(** ** What the backend sees

    [httputil.ReverseProxy] calls the director on a clone of the request and
    then, as its documentation says, removes the hop-by-hop headers, those that
    [Connection] lists included, and appends the client's address to
    [X-Forwarded-For]. *)

Definition stdlib_hop_headers : list string :=
  ["Connection"; "Proxy-Connection"; "Keep-Alive"; "Proxy-Authenticate"; "Proxy-Authorization";
   "Te"; "Trailer"; "Transfer-Encoding"; "Upgrade"]%string.

(** The tokens of a comma-separated header. *)
Definition header_tokens (h : Header) (k : string) : list string :=
  List.filter (fun t => negb (String.eqb t "")) (TrimSpace <$> (default [] (h !! k) ≫= fun v => Split v ",")).

Definition has_token (h : Header) (k t : string) : bool := existsb (fun x => EqualFold x t) (header_tokens h k).

Definition ReverseProxy_header (director : Request -> Request) (req : Request) : Header :=
  let out := rq_Header (director req) in
  let upType := if has_token out "Connection" "Upgrade" then Get out "Upgrade" else ""%string in
  let out := foldr HDel out (header_tokens out "Connection") in
  let out := foldr delete out stdlib_hop_headers in
  let out := if has_token (rq_Header req) "Te" "trailers" then HSet "Te" "trailers" out else out in
  let out := if String.eqb upType "" then out else HSet "Upgrade" upType (HSet "Connection" "Upgrade" out) in
  match SplitHostPort (rq_RemoteAddr req) with
  | None => out
  | Some (clientIP, _) =>
      match out !! "X-Forwarded-For"%string with
      | Some (v :: prior) => HSet "X-Forwarded-For" (Join (v :: prior) ", " +:+ ", " +:+ clientIP) out
      | Some [] => HSet "X-Forwarded-For" clientIP out
      | None => HSet "X-Forwarded-For" clientIP out
      end
  end.

Lemma lookup_foldr_delete (ks : list string) (h : Header) k :
  foldr delete h ks !! k = if bool_decide (k ∈ ks) then None else h !! k.
Proof.
  induction ks as [|k' ks IH]; simpl; [done|].
  destruct (decide (k' = k)) as [->|Hne].
  - rewrite lookup_delete_eq, bool_decide_true; [done | by left].
  - rewrite lookup_delete_ne, IH by done.
    by rewrite (bool_decide_ext (k ∈ k' :: ks) (k ∈ ks)) by (rewrite elem_of_cons; naive_solver).
Qed.

Lemma header_without_hops hs out k :
  rq_Header (foldl (fun out h => with_header (HDel h) out) out hs) !! k =
    if bool_decide (k ∈ CanonicalMIMEHeaderKey <$> hs) then None else rq_Header out !! k.
Proof.
  revert out. induction hs as [|h hs IH]; intros out; [done|]. cbn [foldl]. rewrite IH.
  unfold with_header, HDel. cbn [rq_Header fmap list_fmap].
  destruct (decide (CanonicalMIMEHeaderKey h = k)) as [->|Hne].
  - rewrite lookup_delete_eq, (bool_decide_true (k ∈ k :: _)) by by left. by destruct (bool_decide _).
  - rewrite lookup_delete_ne by done. set (ks := CanonicalMIMEHeaderKey <$> hs).
    by rewrite (bool_decide_ext (k ∈ _ :: ks) (k ∈ ks)) by (rewrite elem_of_cons; naive_solver).
Qed.

Definition set_by_proxy : list string :=
  ["X-Forwarded-For"; "X-Forwarded-Proto"; "X-Forwarded-Host"]%string.
Definition dropped : list string := (CanonicalMIMEHeaderKey <$> hopByHopHeaders) ++ stdlib_hop_headers.

Definition forwarded_for (r : Request) : string :=
  let prior := Get (rq_Header r) "X-Forwarded-For" in
  let clientIP := extractIP (rq_RemoteAddr r) in
  if String.eqb prior "" then clientIP else prior +:+ ", " +:+ clientIP.

(** The header after the director. *)
Lemma director_lookup r host k :
  rq_Header (director r host r) !! k =
    if bool_decide (k ∈ CanonicalMIMEHeaderKey <$> hopByHopHeaders) then None
    else if String.eqb k "X-Forwarded-Host" then Some [rq_Host r]
    else if String.eqb k "X-Forwarded-Proto" then Some ["https"%string]
    else if String.eqb k "X-Forwarded-For" then Some [forwarded_for r]
    else rq_Header r !! k.
Proof.
  unfold director, addForwardingHeaders. rewrite header_without_hops.
  destruct (bool_decide _); [done|]. cbn [rq_Header with_header with_url].
  assert (forall s v (h : Header), HSet s v h !! k =
    if String.eqb k (CanonicalMIMEHeaderKey s) then Some [v] else h !! k) as Hset.
  { intros s v h. unfold HSet. destruct (String.eqb_spec k (CanonicalMIMEHeaderKey s)) as [->|Hne].
    - by rewrite lookup_insert_eq.
    - by rewrite lookup_insert_ne. }
  by rewrite !Hset.
Qed.

Lemma header_tokens_absent (h : Header) k : h !! k = None -> header_tokens h k = [].
Proof. intros Hh. unfold header_tokens. by rewrite Hh. Qed.

(** The whole outgoing header. *)
Lemma ReverseProxy_lookup r host ip port k :
  SplitHostPort (rq_RemoteAddr r) = Some (ip, port) ->
  ReverseProxy_header (director r host) r !! k =
    if String.eqb k "X-Forwarded-For" then Some [forwarded_for r +:+ ", " +:+ ip]
    else if String.eqb k "Te" then
      (if has_token (rq_Header r) "Te" "trailers" then Some ["trailers"%string] else None)
    else if bool_decide (k ∈ stdlib_hop_headers) then None
    else rq_Header (director r host r) !! k.
Proof.
  intros Hs. unfold ReverseProxy_header.
  assert (rq_Header (director r host r) !! "Connection"%string = None) as Hc by by rewrite director_lookup.
  assert (has_token (rq_Header (director r host r)) "Connection" "Upgrade" = false) as ->
    by (unfold has_token; by rewrite (header_tokens_absent _ _ Hc)).
  rewrite (header_tokens_absent _ _ Hc). cbn [foldr].
  set (h1 := foldr delete _ _). set (h2 := if has_token _ _ _ then _ else h1).
  assert (forall k, h2 !! k = if String.eqb k "Te" then
    (if has_token (rq_Header r) "Te" "trailers" then Some ["trailers"%string] else None)
    else h1 !! k) as H2.
  { intros k'. unfold h2. destruct (String.eqb_spec k' "Te") as [->|Hne].
    - destruct (has_token _ _ _); [by apply lookup_insert_eq|]. unfold h1. by rewrite lookup_foldr_delete.
    - destruct (has_token _ _ _); [|done]. by apply lookup_insert_ne. }
  change (String.eqb "" "") with true. cbv iota. rewrite Hs.
  assert (h2 !! "X-Forwarded-For"%string = Some [forwarded_for r]) as Hx.
  { rewrite H2. cbn [String.eqb]. unfold h1. rewrite lookup_foldr_delete, director_lookup. done. }
  rewrite Hx. unfold HSet. change (CanonicalMIMEHeaderKey "X-Forwarded-For") with "X-Forwarded-For"%string.
  destruct (String.eqb_spec k "X-Forwarded-For") as [->|Hne]; [by rewrite lookup_insert_eq|].
  rewrite lookup_insert_ne, H2 by done. destruct (String.eqb k "Te"); [done|].
  unfold h1. by rewrite lookup_foldr_delete.
Qed.

(** What the backend is told of a request.  The host the visitor asked for
    and the https scheme are forwarded; no hop-by-hop header is (but the "TE:
    trailers" that the library puts back); every other header arrives
    unchanged.  The visitor's address, however, is listed twice in
    X-Forwarded-For: the director appends it, and so does the reverse proxy. *)
Theorem forwarded_headers r host ip port :
  SplitHostPort (rq_RemoteAddr r) = Some (ip, port) ->
  let h := ReverseProxy_header (director r host) r in
  let prior := Get (rq_Header r) "X-Forwarded-For" in
  Get h "X-Forwarded-For" = (if String.eqb prior "" then ip else prior +:+ ", " +:+ ip) +:+ ", " +:+ ip /\
  Get h "X-Forwarded-Proto" = "https"%string /\ Get h "X-Forwarded-Host" = rq_Host r /\
  (forall k, k ∈ dropped -> k <> "Te"%string -> h !! k = None) /\
  (forall k, k ∉ dropped -> k ∉ set_by_proxy -> h !! k = rq_Header r !! k).
Proof.
  intros Hs h prior. pose proof (fun k => ReverseProxy_lookup r host ip port k Hs) as Hh. fold h in Hh.
  assert (extractIP (rq_RemoteAddr r) = ip) as Hip by (unfold extractIP; by rewrite Hs).
  split_and!.
  - unfold Get at 1. change (CanonicalMIMEHeaderKey "X-Forwarded-For") with "X-Forwarded-For"%string.
    rewrite Hh. cbn [String.eqb]. unfold forwarded_for. rewrite Hip. done.
  - unfold Get. change (CanonicalMIMEHeaderKey "X-Forwarded-Proto") with "X-Forwarded-Proto"%string.
    by rewrite Hh, director_lookup.
  - unfold Get. change (CanonicalMIMEHeaderKey "X-Forwarded-Host") with "X-Forwarded-Host"%string.
    by rewrite Hh, director_lookup.
  - intros k Hk Hte. rewrite Hh, director_lookup. apply elem_of_app in Hk.
    destruct (String.eqb_spec k "X-Forwarded-For") as [->|_].
    { apply elem_of_app in Hk. by assert ("X-Forwarded-For"%string ∉ dropped)
        by (refine (proj1 (bool_decide_eq_false _) _); vm_compute; reflexivity). }
    destruct (String.eqb_spec k "Te"); [done|].
    destruct (bool_decide (k ∈ stdlib_hop_headers)) eqn:E; [done|].
    apply bool_decide_eq_false in E. by rewrite bool_decide_true by tauto.
  - intros k Hk Hset. rewrite Hh, director_lookup. unfold dropped in Hk. rewrite not_elem_of_app in Hk.
    unfold set_by_proxy in Hset. rewrite !not_elem_of_cons in Hset.
    rewrite !bool_decide_false by tauto. rewrite !(proj2 (String.eqb_neq _ _)); try tauto.
    intros ->. apply (proj2 Hk). refine (proj1 (bool_decide_eq_true _) _). vm_compute. reflexivity.
Qed.

(** ** Streams *)

Abbreviation nwp := (wp net_exec).

Ltac nstep := apply wp_trigger; let c := fresh "c" in let He := fresh "He" in
  intros c ? ? He; cbn [net_exec] in He.
Ltac ngot He := injection He as <- <-.

Lemma close_opened (ss : gset nat) st : st ∉ ss -> ({[ st ]} ∪ ss) ∖ {[ st ]} = ss.
Proof. set_solver. Qed.

(** A response body that has been read in pieces and is then closed. *)
Definition read_body (l : loc) (st : nat) (reads : list Z) : streamCloser :=
  foldl (fun sc k => sc_Read k sc) {| sc_stream := st; sc_session := l; sc_read := 0 |} reads.

Lemma read_body_spec l st reads :
  sc_stream (read_body l st reads) = st /\ sc_session (read_body l st reads) = l /\
  sc_read (read_body l st reads) = int64 (foldr Z.add 0 reads).
Proof.
  unfold read_body. assert (forall z, let sc := foldl (fun sc k => sc_Read k sc)
    {| sc_stream := st; sc_session := l; sc_read := int64 z |} reads in
    sc_stream sc = st /\ sc_session sc = l /\ sc_read sc = int64 (z + foldr Z.add 0 reads)) as Hz.
  { induction reads as [|k reads IH]; intros z; cbn [foldl foldr];
      [by rewrite Z.add_0_r|].
    change (sc_Read k _) with {| sc_stream := st; sc_session := l; sc_read := int64 (int64 z + k) |}.
    rewrite Z.add_assoc, int64_add_l. apply (IH (z + k)). }
  exact (Hz 0).
Qed.

(** Closing it gives the stream back and counts what was read, once. *)
Definition body_settles (tm : TunnelManager) (l : loc) (st : nat) (n n' : Net) : Prop :=
  forall reads, let sc := read_body l st reads in
    (forall c, exists n2, run net_exec (sc_Close sc tm).1 [c] n' = Some (n2, Some tt, []) /\
       net_streams n2 = net_streams n) /\
    (forall ts, objects tm !! l = Some ts ->
       ts_BytesOut (deref (sc_Close sc tm).2 l) = int64 (ts_BytesOut ts + foldr Z.add 0 reads)) /\
    (forall l', l' <> l -> deref (sc_Close sc tm).2 l' = deref tm l').

Lemma body_settles_opened tm l st n n' :
  st ∉ net_streams n -> net_streams n' = {[ st ]} ∪ net_streams n -> body_settles tm l st n n'.
Proof.
  intros Hst Hn reads sc. destruct (read_body_spec l st reads) as (E1 & E2 & E3). fold sc in E1, E2, E3.
  split_and!.
  - intros c. eexists. split; [reflexivity|]. cbn. rewrite E1, Hn. by apply close_opened.
  - intros ts Hts. cbn. rewrite E2. rewrite (deref_lookup _ _ _ (lookup_update_eq _ _ _ _ Hts)). cbn.
    rewrite E3, !(Z.add_comm (ts_BytesOut ts)). apply int64_add_l.
  - intros l' Hne. cbn. rewrite E2. by apply deref_update_ne.
Qed.

Definition round_trip_post (tm : TunnelManager) (l : loc) (n : Net) (res : result string (Response * nat)) (n' : Net) : Prop :=
  match res with
  | Err _ => net_streams n' = net_streams n
  | Ok (_, st) => ~ (st ∈ net_streams n) /\ net_streams n' = {[ st ]} ∪ net_streams n /\ body_settles tm l st n n'
  end.

(** C22: a round trip never leaks a stream: when it fails, the streams are those
    from before; when it succeeds, exactly one new stream is open, and reading
    the body and closing it closes the stream and adds the bytes read to the
    tunnel's counter, in 64-bit arithmetic, and to no other tunnel's. *)
Theorem RoundTrip_spec l req tm cs n n' r rest :
  run net_exec (RoundTrip l req) cs n = Some (n', r, rest) ->
  exists res, r = Some res /\ round_trip_post tm l n res n'.
Proof.
  intros Hrun. refine (wp_run _ (round_trip_post tm l n) _ _ _ _ _ _ _ Hrun). clear Hrun.
  unfold RoundTrip. nstep. destruct (n_stream c) as [st|]; [|by ngot He].
  case_bool_decide as Hst; [done|]. ngot He.
  nstep. ngot He. destruct (n_err c0) as [err|].
  { nstep. ngot He. cbn. by apply close_opened. }
  nstep. destruct (n_err c1) as [err|]; ngot He.
  { nstep. ngot He. cbn. by apply close_opened. }
  cbn [wp mret prog_ret]. split_and!; [done | done |]. by apply body_settles_opened.
Qed.













(** ** The log of a request, the goroutine of a connection *)

Lemma rw_interim codes w :
  rw_size (foldl rw_step w (WriteHeader <$> codes)) = rw_size w.
Proof. revert w. induction codes as [|c codes IH]; intros w; [done|]. cbn [fmap list_fmap foldl]. by rewrite IH. Qed.

Lemma rw_body ns code z :
  code <> 0 ->
  foldl rw_step {| rw_status := code; rw_size := int64 z |} (Write <$> ns) =
    {| rw_status := code; rw_size := int64 (z + foldr Z.add 0 ns) |}.
Proof.
  intros Hc. revert z. induction ns as [|n ns IH]; intros z; cbn [fmap list_fmap foldl foldr].
  { by rewrite Z.add_0_r. }
  unfold rw_step at 2. cbn [rw_status rw_size]. rewrite (proj2 (Z.eqb_neq _ _) Hc), int64_add_l, IH.
  f_equal. f_equal. lia.
Qed.

(** The message to the client and the dashboard's entry of a response that was
    written as [net/http] writes one: interim headers, one header, the body. *)
Lemma log_request_spec tm l r start dur interim code ns :
  code <> 0 ->
  let '(msg, e) := log_request tm l r start dur
    ((WriteHeader <$> interim) ++ WriteHeader code :: (Write <$> ns)) in
  rl_Status msg = code /\ le_Status e = code /\
  rl_Size msg = int64 (foldr Z.add 0 ns) /\ le_Size e = rl_Size msg /\ rl_Duration msg = le_DurationMs e /\
  rl_Method msg = rq_Method r /\ le_Path e = rq_Path r /\ le_Subdomain e = ts_Subdomain (deref tm l) /\
  rl_Path msg = (if 100 <? len (rq_Path r) then slice_to (rq_Path r) 97 +:+ "..." else rq_Path r).
Proof.
  intros Hc. unfold log_request.
  assert (foldl rw_step {| rw_status := 0; rw_size := 0 |}
      ((WriteHeader <$> interim) ++ WriteHeader code :: (Write <$> ns)) =
    {| rw_status := code; rw_size := int64 (foldr Z.add 0 ns) |}) as ->.
  { rewrite foldl_app. cbn [foldl]. unfold rw_step at 2. rewrite rw_interim. cbn [rw_size].
    exact (rw_body ns code 0 Hc). }
  unfold sendRequestLog. cbn [rw_status rw_size]. rewrite (proj2 (Z.eqb_neq _ _) Hc). by split_and!.
Qed.

(** The goroutine of an HTTPS connection never ends: after the one
    connection it was made for, [Serve] waits in [Accept] for a second one that
    never comes, and nothing closes the listener. *)
Theorem Serve_never_returns n conn :
  Serve (S n) (newSingleConnListener conn) = ([conn], false).
Proof. by destruct n. Qed.

(** ** A concrete proxy *)

Module Examples.
Definition cfg : ServerConfig := defaults (applyEnv (fun k => if String.eqb k "HTN_DOMAIN" then "tunnel.example.com" else "")%string zero_config).

Definition web : TunnelSession := {|
  ts_ID := "id"; ts_Token := "htk_0123456789"; ts_Type := "http"; ts_Subdomain := "myapp"; ts_Port := 0;
  ts_LocalPort := 3000; ts_Session := Some 0%nat; ts_Listener := None; ts_CreatedAt := 0; ts_BytesIn := 0;
  ts_BytesOut := 0; ts_Reserved := false; ts_ReservedUntil := 0 |}.
Definition tm : TunnelManager := mkTM {[ "myapp"%string := 0%nat ]} ∅ 10000 10001 {[ 0%nat := web ]}.

Definition req : Request := {|
  rq_Method := "GET"; rq_URLScheme := ""; rq_URLHost := ""; rq_Path := "/"; rq_RequestURI := "/";
  rq_Host := "tunnel.example.com"; rq_RemoteAddr := "9.8.7.6:1234";
  rq_Header := {[ "X-Forwarded-For"%string := ["1.1.1.1"%string]; "Connection"%string := ["keep-alive"%string] ]} |}.

Lemma wf_tm : wf tm.
Proof.
  split; cbn [tm httpTunnels tcpTunnels objects]; intros k l Hl; [|by rewrite lookup_empty in Hl].
  apply lookup_singleton_Some in Hl as [<- <-]. exists web. split; [done | by split].
Qed.

Lemma visitor_reaches_tunnel_witness :
  reaches (handleTLSConn cfg tm "MyApp.Tunnel.Example.com:443" req) 0%nat.
Proof.
  apply (visitor_reaches_tunnel cfg tm req "myapp" 0%nat "MyApp" "Tunnel.Example.com" (Some "443"%string)
    "MyApp.Tunnel.Example.com:443" wf_tm).
  - vm_compute. reflexivity.
  - vm_compute. reflexivity.
  - vm_compute. reflexivity.
  - vm_compute. reflexivity.
  - intros p [= <-]. vm_compute. reflexivity.
  - left. vm_compute. reflexivity.
Defined.

Lemma serveRequest_spec_witness :
  match serveRequest cfg tm req "other" with
  | SError status _ => status = 502 /\ LookupHTTP "other" tm = None
  | _ => False
  end.
Proof. exact (serveRequest_spec cfg tm req "other" wf_tm). Defined.

Lemma forwarded_headers_witness :
  Get (ReverseProxy_header (director req "localhost:3000") req) "X-Forwarded-For" = "1.1.1.1, 9.8.7.6, 9.8.7.6"%string.
Proof. exact (proj1 (forwarded_headers req "localhost:3000" "9.8.7.6" "1234" ltac:(vm_compute; reflexivity))). Defined.

Definition idle : Net := {|
  net_streams := ∅; net_visitor := false; net_replies := []; net_early := []; net_lost := false; from_visitor := []; to_backend := [];
  from_backend := []; to_visitor := []; net_complete := false |}.
Definition give : net_supply := {|
  n_stream := Some 4%nat; n_err := None; n_ok := true; n_hijacker := true; n_took := 0; n_resp := {| resp_Status := 101; resp_Body := [] |};
  n_visitor_bytes := [x01; x02]; n_backend_bytes := [x03]; n_copied := (2%nat, 1%nat) |}.
Definition after {A} (p : prog netE A) (k : nat) : Net :=
  match run net_exec p (repeat give k) idle with Some (n, _, _) => n | None => idle end.


Lemma run_RoundTrip :
  run net_exec (RoundTrip 0%nat req) (repeat give 3) idle =
    Some (after (RoundTrip 0%nat req) 3, Some (Ok (n_resp give, 4%nat)), []).
Proof. vm_compute. reflexivity. Qed.

Lemma RoundTrip_spec_witness :
  exists res, Some (Ok (n_resp give, 4%nat)) = Some res /\
    round_trip_post tm 0%nat idle res (after (RoundTrip 0%nat req) 3).
Proof. exact (RoundTrip_spec 0%nat req tm (repeat give 3) idle _ _ [] run_RoundTrip). Defined.



(** The write of the buffered bytes times out after the first of two; the relay
    goes on, and the backend reads a frame with a hole in it. *)
Definition timeout : net_supply := {|
  n_stream := None; n_err := None; n_ok := false; n_hijacker := true; n_took := 1; n_resp := n_resp give;
  n_visitor_bytes := []; n_backend_bytes := []; n_copied := (0%nat, 0%nat) |}.

Theorem early_bytes_lost :
  match run net_exec (proxyWebSocket tm req 0%nat) (repeat give 3 ++ [timeout] ++ repeat give 6) idle with
  | Some (n, _, _) => net_complete n = true /\ from_visitor n = [x01; x02; x01; x02] /\ to_backend n = [x01; x01; x02]
  | None => False
  end.
Proof. vm_compute. done. Qed.
End Examples.
