(* ===== verification/Dashboard.v ===== *)
(** * The dashboards (internal/dashboard/handler.go, request_log_adapter.go)

    The JSON API of the user and admin dashboards: routes, the two
    authorization middlewares, every handler as a function of the request and
    of what the server keeps (tunnels, keys, configuration, request log), the
    response as [http.ResponseWriter] sends it, and the filter of the event
    stream.  JSON decoding of request bodies is a parameter; response bodies
    are the values that are encoded. *)

From S2P Require Import Prelude GoStrings Subdomain TunnelManager Quota KeyStore RequestLog LogFeed Config Server HttpProxy.
Local Open Scope Z_scope.

(** ** Request log adapter *)

Record RequestLogBucket := {
  rb_Timestamp : Z; rb_Requests : Z; rb_BytesIn : Z; rb_BytesOut : Z;
  rb_Status2xx : Z; rb_Status3xx : Z; rb_Status4xx : Z; rb_Status5xx : Z; rb_AvgLatency : Z;
}.
Record RequestLogPathCount := { rp_Path : string; rp_Count : Z }.

(** [RequestLogAdapter.TrafficStats] *)
Definition Adapter_TrafficStats (now minutes : Z) (token : string) (rl : RequestLog) : list RequestLogBucket :=
  map (fun b => {| rb_Timestamp := tb_Timestamp b; rb_Requests := tb_Requests b;
    rb_BytesIn := tb_BytesIn b; rb_BytesOut := tb_BytesOut b;
    rb_Status2xx := tb_Status2xx b; rb_Status3xx := tb_Status3xx b;
    rb_Status4xx := tb_Status4xx b; rb_Status5xx := tb_Status5xx b;
    rb_AvgLatency := tb_AvgLatency b |}) (RequestLog_TrafficStats now minutes token rl).

(** [RequestLogAdapter.TopPaths] *)
Definition Adapter_TopPaths `{!RangeOrder string} (n : Z) (token : string) (rl : RequestLog) : list RequestLogPathCount :=
  map (fun p => {| rp_Path := pc_Path p; rp_Count := pc_Count p |}) (RequestLog_TopPaths n token rl).

(** ** Responses *)

(** The values the handlers encode. *)
Inductive json :=
  | JInfo (domain : string)
  | JCreatedKey (key name : string) (subdomains : list string) (domain : string)
  | JKey (info : option APIKeyInfo)
  | JMe (name : string) (subdomains : list string) (max_tunnels created_at : Z) (domain : string)
  | JSubdomains (l : list string)
  | JTunnels (l : list TunnelStats)
  | JHealth (version : string) (tunnels users bytes_in bytes_out : Z)
  | JStats (active_http active_tcp total_tunnels total_keys bytes_in bytes_out : Z)
  | JKeys (l : list (string * APIKeyInfo))
  | JConfig (m : gmap string any)
  | JStatus (s : string)
  | JLogs (l : list RequestLogEntry)
  | JTraffic (l : list RequestLogBucket)
  | JPaths (l : list RequestLogPathCount)
  | JError (msg : string)
  | JText (s : string)
  | JStream (filterToken : string).    (* the body is the stream of [serveSSE] *)

(** [http.ResponseWriter]: whether it is an [http.Flusher] too, the header map
    that may still change, and the status and header that have been sent, once
    they have. *)
Record ResponseWriter := {
  w_flusher : bool;
  w_header : Header;
  w_sent : option (Z * Header);
  w_body : list json;
}.

Definition SetHeader (k v : string) (w : ResponseWriter) : ResponseWriter :=
  {| w_flusher := w_flusher w; w_header := HSet k v (w_header w); w_sent := w_sent w; w_body := w_body w |}.
(** [w.WriteHeader]: the first call sends the header as it is then. *)
Definition W_WriteHeader (code : Z) (w : ResponseWriter) : ResponseWriter :=
  {| w_flusher := w_flusher w; w_header := w_header w;
     w_sent := match w_sent w with Some x => Some x | None => Some (code, w_header w) end;
     w_body := w_body w |}.
(** [w.Write]: status 200 if none has been sent. *)
Definition W_Write (v : json) (w : ResponseWriter) : ResponseWriter :=
  let w := W_WriteHeader 200 w in
  {| w_flusher := w_flusher w; w_header := w_header w; w_sent := w_sent w; w_body := w_body w ++ [v] |}.

(** [writeJSON] *)
Definition writeJSON (v : json) (w : ResponseWriter) : ResponseWriter :=
  W_Write v (SetHeader "Content-Type" "application/json" w).

(** [writeError] *)
Definition writeError (msg : string) (code : Z) (w : ResponseWriter) : ResponseWriter :=
  W_Write (JError msg) (W_WriteHeader code (SetHeader "Content-Type" "application/json" w)).

(** [http.Error] *)
Definition http_Error (msg : string) (code : Z) (w : ResponseWriter) : ResponseWriter :=
  let w := SetHeader "Content-Type" "text/plain; charset=utf-8" w in
  let w := SetHeader "X-Content-Type-Options" "nosniff" w in
  W_Write (JText (msg +:+ String "010" "")) (W_WriteHeader code w).

(** ** State and requests *)

Record Handler := {
  h_adminToken : string;
  h_domain : string;
  h_version : string;
}.

(** What the providers of a [Handler] share with the rest of the server;
    [requestLog] may be nil. *)
Record Dash := {
  d_tunnels : TunnelManager;
  d_keys : KeyStore;
  d_config : ConfigProvider;
  d_requestLog : option RequestLog;
}.

Definition with_dkeys (ks : KeyStore) (d : Dash) : Dash :=
  {| d_tunnels := d_tunnels d; d_keys := ks; d_config := d_config d; d_requestLog := d_requestLog d |}.
Definition with_dtunnels (tm : TunnelManager) (d : Dash) : Dash :=
  {| d_tunnels := tm; d_keys := d_keys d; d_config := d_config d; d_requestLog := d_requestLog d |}.
Definition with_dconfig (c : ConfigProvider) (d : Dash) : Dash :=
  {| d_tunnels := d_tunnels d; d_keys := d_keys d; d_config := c; d_requestLog := d_requestLog d |}.

(** A request: the path in segments, its wildcards, the Authorization header,
    the query and the body. *)
Record DRequest := {
  q_Method : string;
  q_Path : list string;
  q_Authorization : string;
  q_Query : string -> string;
  q_Body : list byte;
}.

(** The clock, random bytes and file outcomes of one request. *)
Record DEnv := {
  v_now : Z;
  v_bytes : list byte;
  v_write : write_outcome;
  v_config_write : option (read_outcome * string);
}.

(** [json.NewDecoder(r.Body).Decode] into the handlers' request types. *)
Class DashJSON := {
  decode_register : list byte -> result string (string * string);
  decode_login : list byte -> result string string;
  decode_subdomain : list byte -> result string string;
  decode_updates : list byte -> result string (gmap string any);
}.

Section Handlers.
Context `{!RangeOrder string, !RangeOrder Z, DashJSON, FloatOverflow, Yaml ServerConfig}.
Variable h : Handler.

(** A handler: the new state, the response and what it closes; [None] if it
    panics. *)
Definition HandlerFunc : Type :=
  DEnv -> DRequest -> Dash -> ResponseWriter -> option (Dash * ResponseWriter * list effect).

Definition reply (d : Dash) (w : ResponseWriter) : option (Dash * ResponseWriter * list effect) :=
  Some (d, w, []).

(** ** User API *)

(** [handlePublicInfo] *)
Definition handlePublicInfo : HandlerFunc := fun v q d w => reply d (writeJSON (JInfo (h_domain h)) w).

(** [handleRegister] *)
Definition Dashboard_handleRegister : HandlerFunc := fun v q d w =>
  match decode_register (q_Body q) with
  | Err _ => reply d (writeError "invalid request body" 400 w)
  | Ok (name, subdomain) =>
      if String.eqb name "" then reply d (writeError "name is required" 400 w)
      else
        let subs := if String.eqb subdomain "" then [] else [subdomain] in
        match CreateKey (v_bytes v) (v_now v) (v_write v) name subs 10 (d_keys d) with
        | (ks, Err e) => reply (with_dkeys ks d) (writeError (key_error_text e) 400 w)
        | (ks, Ok key) =>
            reply (with_dkeys ks d) (writeJSON (JCreatedKey key name subs (h_domain h)) (W_WriteHeader 201 w))
        end
  end.

(** [handleLogin] *)
Definition handleLogin : HandlerFunc := fun v q d w =>
  match decode_login (q_Body q) with
  | Err _ => reply d (writeError "invalid request" 400 w)
  | Ok key =>
      if negb (KeyStore_Validate key (d_keys d)) then reply d (writeError "invalid or revoked key" 401 w)
      else reply d (writeJSON (JKey (Adapter_GetKey key (d_keys d))) w)
  end.

(** [handleMe]; [keyID] is the context value that [userAuth] has set. *)
Definition handleMe (keyID : string) : HandlerFunc := fun v q d w =>
  match Adapter_GetKey keyID (d_keys d) with
  | None => reply d (writeError "key not found" 404 w)
  | Some info => reply d (writeJSON (JMe (info_Name info) (info_Subdomains info) (info_MaxTunnels info)
                            (info_CreatedAt info) (h_domain h)) w)
  end.

(** [handleAddSubdomain] *)
Definition handleAddSubdomain (keyID : string) : HandlerFunc := fun v q d w =>
  match decode_subdomain (q_Body q) with
  | Err _ => reply d (writeError "subdomain is required" 400 w)
  | Ok sub =>
      if String.eqb sub "" then reply d (writeError "subdomain is required" 400 w)
      else
        match AddSubdomain (v_write v) keyID sub (d_keys d) with
        | (ks, Some e) => reply (with_dkeys ks d) (writeError (key_error_text e) 400 w)
        | (ks, None) => reply (with_dkeys ks d)
            (writeJSON (JSubdomains (OwnedSubdomains keyID ks)) (W_WriteHeader 201 w))
        end
  end.

(** [handleRemoveSubdomain] *)
Definition handleRemoveSubdomain (name keyID : string) : HandlerFunc := fun v q d w =>
  match RemoveSubdomain (v_write v) keyID name (d_keys d) with
  | (ks, Some e) => reply (with_dkeys ks d) (writeError (key_error_text e) 400 w)
  | (ks, None) => reply (with_dkeys ks d) (writeJSON (JSubdomains (OwnedSubdomains keyID ks)) w)
  end.

(** [handleUserTunnels] *)
Definition handleUserTunnels (keyID : string) : HandlerFunc := fun v q d w =>
  reply d (writeJSON (JTunnels (TunnelsForToken (v_now v) keyID (d_tunnels d))) w).

(** [limit] of the log handlers *)
Definition query_limit (dflt max : Z) (l : string) : Z :=
  if String.eqb l "" then dflt
  else match Atoi l with Some n => if (0 <? n) && (n <=? max) then n else dflt | None => dflt end.

(** [handleUserLogs] *)
Definition handleUserLogs (keyID : string) : HandlerFunc := fun v q d w =>
  rl ← d_requestLog d;
  reply d (writeJSON (JLogs (Adapter_Recent (query_limit 100 500 (q_Query q "limit"%string)) (maskKey keyID) rl)) w).

(** [handleUserTraffic] *)
Definition handleUserTraffic (keyID : string) : HandlerFunc := fun v q d w =>
  rl ← d_requestLog d;
  reply d (writeJSON (JTraffic (Adapter_TrafficStats (v_now v) 30 (maskKey keyID) rl)) w).

(** [handleUserTopPaths] *)
Definition handleUserTopPaths (keyID : string) : HandlerFunc := fun v q d w =>
  rl ← d_requestLog d;
  reply d (writeJSON (JPaths (Adapter_TopPaths 10 (maskKey keyID) rl)) w).

(** [serveSSE] up to the stream itself, the body [JStream]: the loop is
    [serveSSE_stream] below, its subscription to the request log, gone when it
    returns, is a subscriber of LogFeed.v. *)
Definition serveSSE (filterToken : string) : HandlerFunc := fun v q d w =>
  if negb (w_flusher w) then reply d (http_Error "SSE not supported" 500 w) else
  let w := SetHeader "Content-Type" "text/event-stream" w in
  let w := SetHeader "Cache-Control" "no-cache" w in
  let w := SetHeader "Connection" "keep-alive" w in
  let w := SetHeader "X-Accel-Buffering" "no" w in
  _ ← d_requestLog d;
  reply d (W_Write (JStream filterToken) w).

(** [handleUserLogStream] *)
Definition handleUserLogStream : HandlerFunc := fun v q d w =>
  let key := q_Query q "key"%string in
  if String.eqb key "" || negb (KeyStore_Validate key (d_keys d)) then reply d (writeError "unauthorized" 401 w)
  else serveSSE (maskKey key) v q d w.

(** ** Health and admin API *)

(** [handleHealthz] *)
Definition handleHealthz : HandlerFunc := fun v q d w =>
  let stats := Stats (d_tunnels d) in
  reply d (writeJSON (JHealth (h_version h) (TotalTunnels stats)
    (Z.of_nat (size (Adapter_ListKeys (d_keys d)))) (StatsBytesIn stats) (StatsBytesOut stats)) w).

(** [handleAdminStats] *)
Definition handleAdminStats : HandlerFunc := fun v q d w =>
  let stats := Stats (d_tunnels d) in
  reply d (writeJSON (JStats (ActiveHTTP stats) (ActiveTCP stats) (TotalTunnels stats)
    (Z.of_nat (size (Adapter_ListKeys (d_keys d)))) (StatsBytesIn stats) (StatsBytesOut stats)) w).

(** [handleAdminListKeys] *)
Definition handleAdminListKeys : HandlerFunc := fun v q d w =>
  reply d (writeJSON (JKeys ((fun e => (maskKey e.1, e.2)) <$> range (Adapter_ListKeys (d_keys d)))) w).

(** [handleAdminRevokeKey] *)
Definition handleAdminRevokeKey (id : string) : HandlerFunc := fun v q d w =>
  match RevokeKey (v_write v) id (d_keys d) with
  | (ks, Some e) => reply (with_dkeys ks d) (writeError (key_error_text e) 404 w)
  | (ks, None) => reply (with_dkeys ks d) (writeJSON (JStatus "revoked") w)
  end.

(** [handleAdminTunnels] *)
Definition handleAdminTunnels : HandlerFunc := fun v q d w =>
  reply d (writeJSON (JTunnels (ListTunnelsForDashboard (v_now v) (d_tunnels d))) w).

(** [handleGetConfig] *)
Definition handleGetConfig : HandlerFunc := fun v q d w =>
  reply d (writeJSON (JConfig (GetEditableConfig (d_config d))) w).

(** The two errors of [save]; the loaders' errors do not reach this handler. *)
Definition config_error_text (e : config_error) : string :=
  match e with
  | ErrMarshalConfig e => "marshal config: " +:+ e
  | ErrWriteConfig e => "write config: " +:+ e
  | ErrReadConfig e | ErrParseConfig e | ErrConfigDir e => e
  end.

(** [handleUpdateConfig] *)
Definition handleUpdateConfig : HandlerFunc := fun v q d w =>
  match decode_updates (q_Body q) with
  | Err _ => reply d (writeError "invalid request body" 400 w)
  | Ok updates =>
      match UpdateConfig (v_config_write v) updates (d_config d) with
      | (c, Some e) => reply (with_dconfig c d) (writeError (config_error_text e) 400 w)
      | (c, None) => reply (with_dconfig c d) (writeJSON (JStatus "updated") w)
      end
  end.

(** [handleKill] *)
Definition handleKill (id : string) : HandlerFunc := fun v q d w =>
  match KillTunnelByID id (d_tunnels d) with
  | (tm, effs, false) => Some (with_dtunnels tm d, writeError "tunnel not found" 404 w, effs)
  | (tm, effs, true) => Some (with_dtunnels tm d, writeJSON (JStatus "killed") w, effs)
  end.

(** [handleAdminLogs] *)
Definition handleAdminLogs : HandlerFunc := fun v q d w =>
  rl ← d_requestLog d;
  reply d (writeJSON (JLogs (Adapter_Recent (query_limit 200 1000 (q_Query q "limit"%string)) "" rl)) w).

(** [handleAdminTraffic] *)
Definition handleAdminTraffic : HandlerFunc := fun v q d w =>
  rl ← d_requestLog d; reply d (writeJSON (JTraffic (Adapter_TrafficStats (v_now v) 60 "" rl)) w).

(** [handleAdminTopPaths] *)
Definition handleAdminTopPaths : HandlerFunc := fun v q d w =>
  rl ← d_requestLog d; reply d (writeJSON (JPaths (Adapter_TopPaths 20 "" rl)) w).

(** [handleAdminLogStream] *)
Definition handleAdminLogStream : HandlerFunc := fun v q d w =>
  if negb (String.eqb (q_Query q "key"%string) (h_adminToken h)) then reply d (writeError "unauthorized" 401 w)
  else serveSSE "" v q d w.

(** ** Middleware *)

Definition bearer (q : DRequest) : string := TrimPrefix (q_Authorization q) "Bearer ".

(** [userAuth] *)
Definition userAuth (next : string -> HandlerFunc) : HandlerFunc := fun v q d w =>
  let key := bearer q in
  if String.eqb key "" then reply d (writeError "missing API key" 401 w)
  else if negb (KeyStore_Validate key (d_keys d)) then reply d (writeError "invalid or revoked key" 401 w)
  else next key v q d w.

(** [adminOnly] *)
Definition adminOnly (next : HandlerFunc) : HandlerFunc := fun v q d w =>
  if String.eqb (h_adminToken h) "" then reply d (writeError "admin token not configured" 403 w)
  else if negb (String.eqb (bearer q) (h_adminToken h)) then reply d (writeError "unauthorized" 401 w)
  else next v q d w.
(** ** Routes *)

Inductive seg := Lit (s : string) | Wild.

(** The segments of a path against a pattern: the values of its wildcards. *)
Fixpoint match_path (pat : list seg) (path : list string) : option (list string) :=
  match pat, path with
  | [], [] => Some []
  | Lit s :: pat, x :: path => if String.eqb s x then match_path pat path else None
  | Wild :: pat, x :: path => cons x <$> match_path pat path
  | _, _ => None
  end.

Record Route := { rt_Method : string; rt_Pattern : list seg; rt_Handler : list string -> HandlerFunc }.

Definition route (m : string) (pat : list seg) (f : list string -> HandlerFunc) : Route :=
  {| rt_Method := m; rt_Pattern := pat; rt_Handler := f |}.

(** [PathValue] of the one wildcard of a pattern *)
Definition wild (values : list string) : string := hd ""%string values.

(** [registerRoutes], without the static files *)
Definition user_routes : list Route :=
  let api l := Lit "_dashboard" :: Lit "api" :: l in
  [ route "GET" (api [Lit "info"]) (fun _ => handlePublicInfo);
    route "POST" (api [Lit "register"]) (fun _ => Dashboard_handleRegister);
    route "POST" (api [Lit "login"]) (fun _ => handleLogin);
    route "GET" (api [Lit "me"]) (fun _ => userAuth handleMe);
    route "POST" (api [Lit "subdomains"]) (fun _ => userAuth handleAddSubdomain);
    route "DELETE" (api [Lit "subdomains"; Wild]) (fun vs => userAuth (handleRemoveSubdomain (wild vs)));
    route "GET" (api [Lit "tunnels"]) (fun _ => userAuth handleUserTunnels);
    route "GET" (api [Lit "logs"]) (fun _ => userAuth handleUserLogs);
    route "GET" (api [Lit "stats"; Lit "traffic"]) (fun _ => userAuth handleUserTraffic);
    route "GET" (api [Lit "stats"; Lit "top-paths"]) (fun _ => userAuth handleUserTopPaths);
    route "GET" (api [Lit "logs"; Lit "stream"]) (fun _ => handleUserLogStream) ]%string.

Definition admin_routes : list Route :=
  let api l := Lit "_admin" :: Lit "api" :: l in
  [ route "GET" (api [Lit "stats"]) (fun _ => adminOnly handleAdminStats);
    route "GET" (api [Lit "keys"]) (fun _ => adminOnly handleAdminListKeys);
    route "DELETE" (api [Lit "keys"; Wild]) (fun vs => adminOnly (handleAdminRevokeKey (wild vs)));
    route "GET" (api [Lit "tunnels"]) (fun _ => adminOnly handleAdminTunnels);
    route "POST" (api [Lit "tunnels"; Wild; Lit "kill"]) (fun vs => adminOnly (handleKill (wild vs)));
    route "GET" (api [Lit "config"]) (fun _ => adminOnly handleGetConfig);
    route "PUT" (api [Lit "config"]) (fun _ => adminOnly handleUpdateConfig);
    route "GET" (api [Lit "logs"]) (fun _ => adminOnly handleAdminLogs);
    route "GET" (api [Lit "stats"; Lit "traffic"]) (fun _ => adminOnly handleAdminTraffic);
    route "GET" (api [Lit "stats"; Lit "top-paths"]) (fun _ => adminOnly handleAdminTopPaths);
    route "GET" (api [Lit "logs"; Lit "stream"]) (fun _ => handleAdminLogStream) ]%string.

Definition health_routes : list Route := [ route "GET" [Lit "_healthz"] (fun _ => handleHealthz) ]%string.

Definition routes : list Route := user_routes ++ admin_routes ++ health_routes.

(** A pattern for GET also matches HEAD. *)
Definition method_matches (pattern method : string) : bool :=
  String.eqb pattern method || (String.eqb pattern "GET" && String.eqb method "HEAD").

(** The patterns overlap nowhere, so the first match is [ServeMux]'s choice. *)
Fixpoint find_route (rs : list Route) (q : DRequest) : option (list string * Route) :=
  match rs with
  | [] => None
  | r :: rs =>
      match match_path (rt_Pattern r) (q_Path q) with
      | Some vs => if method_matches (rt_Method r) (q_Method q) then Some (vs, r) else find_route rs q
      | None => find_route rs q
      end
  end.

(** [ServeHTTP]: the API, and elsewhere the static files or the mux's own
    errors, which touch nothing. *)
Definition ServeHTTP : HandlerFunc := fun v q d w =>
  let w := SetHeader "X-Content-Type-Options" "nosniff" w in
  let w := SetHeader "X-Frame-Options" "DENY" w in
  let w := SetHeader "Content-Security-Policy"
    "default-src 'self'; script-src 'self' 'unsafe-inline'; style-src 'self' 'unsafe-inline'; connect-src 'self'" w in
  match find_route routes q with
  | Some (vs, r) => rt_Handler r vs v q d w
  | None => reply d (W_Write (JText "static file or mux error") w)
  end.
End Handlers.

(** ** The event stream *)

Inductive sse_event :=
  | SEntry (e : RequestLogEntry)     (* received from the subscription *)
  | SKeepalive
  | SClosed                          (* the channel is closed *)
  | SDone.                           (* the client has gone *)

Inductive sse_chunk := CConnected | CData (e : RequestLogEntry) | CPing.

(** The loop of [serveSSE] over what its [select] receives: what it writes and
    whether it has returned. *)
Fixpoint sse_loop (filterToken : string) (evs : list sse_event) : list sse_chunk * bool :=
  match evs with
  | [] => ([], false)
  | SEntry entry :: evs =>
      if negb (String.eqb filterToken "") && negb (String.eqb (dbe_Token entry) filterToken)
      then sse_loop filterToken evs
      else let '(out, r) := sse_loop filterToken evs in (CData entry :: out, r)
  | SKeepalive :: evs => let '(out, r) := sse_loop filterToken evs in (CPing :: out, r)
  | SClosed :: _ | SDone :: _ => ([], true)
  end.

Definition serveSSE_stream (filterToken : string) (evs : list sse_event) : list sse_chunk * bool :=
  let '(out, r) := sse_loop filterToken evs in (CConnected :: out, r).

(** ** Who may change what *)

Section Properties.
Context `{!RangeOrder string, !RangeOrder Z, DashJSON, FloatOverflow, Yaml ServerConfig}.
Variable h : Handler.

Definition unchanged (d d' : Dash) (effs : list effect) : Prop := d' = d /\ effs = [].

(** The only key entry that may have changed is [key]'s. *)
Definition own_key_only (key : string) (d d' : Dash) (effs : list effect) : Prop :=
  effs = [] /\ d' = with_dkeys (d_keys d') d /\
  forall k, k <> key -> keys (d_keys d') !! k = keys (d_keys d) !! k.

Definition is_admin (q : DRequest) : Prop := h_adminToken h <> ""%string /\ bearer q = h_adminToken h.
Definition is_user (q : DRequest) (d : Dash) : Prop :=
  bearer q <> ""%string /\ KeyStore_Validate (bearer q) (d_keys d) = true.

(** What a request may do to the server. *)
Inductive permitted (v : DEnv) (q : DRequest) (d d' : Dash) (effs : list effect) : Prop :=
  | may_nothing : unchanged d d' effs -> permitted v q d d' effs
  | may_register name subs :
      effs = [] ->
      d' = with_dkeys (CreateKey (v_bytes v) (v_now v) (v_write v) name subs 10 (d_keys d)).1 d ->
      permitted v q d d' effs
  | may_own : is_user q d -> own_key_only (bearer q) d d' effs -> permitted v q d d' effs
  | may_admin : is_admin q -> hd_error (q_Path q) = Some "_admin"%string -> permitted v q d d' effs.

Definition reads_only (f : HandlerFunc) : Prop :=
  forall v q d w d' w' effs, f v q d w = Some (d', w', effs) -> unchanged d d' effs.

Definition owner_only (key : string) (f : HandlerFunc) : Prop :=
  forall v q d w d' w' effs, f v q d w = Some (d', w', effs) -> own_key_only key d d' effs.

Lemma own_key_refl key d : own_key_only key d d [].
Proof. split_and!; [done | by destruct d | done]. Qed.

Lemma owner_only_reads key f : reads_only f -> owner_only key f.
Proof. intros Hf v q d w d' w' effs [-> ->]%Hf. apply own_key_refl. Qed.

Lemma keys_update_other ks w id k' key ks' e k :
  saveLocked w (with_keys (<[id := k']> (keys ks)) ks) = (ks', e) -> id = key -> k <> key ->
  keys ks' !! k = keys ks !! k.
Proof.
  intros E -> Hne. pose proof (keys_saveLocked w (with_keys (<[key := k']> (keys ks)) ks)) as Hk.
  rewrite E in Hk. cbn [fst keys with_keys] in Hk. by rewrite Hk, lookup_insert_ne.
Qed.

Lemma owner_AddSubdomain key : owner_only key (handleAddSubdomain key).
Proof.
  intros v q d w d' w' effs. unfold handleAddSubdomain.
  destruct (decode_subdomain _) as [sub|]; [|by intros [= <- _ <-]; apply own_key_refl].
  destruct (String.eqb sub ""); [by intros [= <- _ <-]; apply own_key_refl|].
  assert (forall k, k <> key -> keys (AddSubdomain (v_write v) key sub (d_keys d)).1 !! k = keys (d_keys d) !! k) as Hk.
  { intros k Hne. unfold AddSubdomain. destruct (ValidateSubdomain sub); [done|].
    destruct (keys (d_keys d) !! key) as [k1|]; [|done]. destruct (negb (Active k1)); [done|].
    destruct (negb _); [by destruct (String.eqb _ key)|].
    match goal with |- context [saveLocked ?w ?x] => destruct (saveLocked w x) as [ks2 e] eqn:E end.
    by eapply keys_update_other. }
  destruct (AddSubdomain _ _ _ _) as [ks [e|]]; intros [= <- _ <-]; (split_and!; [done | done | exact Hk]).
Qed.

Lemma owner_RemoveSubdomain name key : owner_only key (handleRemoveSubdomain name key).
Proof.
  intros v q d w d' w' effs. unfold handleRemoveSubdomain.
  assert (forall k, k <> key -> keys (RemoveSubdomain (v_write v) key name (d_keys d)).1 !! k = keys (d_keys d) !! k) as Hk.
  { intros k Hne. unfold RemoveSubdomain. destruct (keys (d_keys d) !! key) as [k1|]; [|done].
    match goal with |- context [saveLocked ?w ?x] => destruct (saveLocked w x) as [ks2 e] eqn:E end.
    by eapply keys_update_other. }
  destruct (RemoveSubdomain _ _ _ _) as [ks [e|]]; intros [= <- _ <-]; (split_and!; [done | done | exact Hk]).
Qed.

(** A handler on a route below [top] does only what its caller may. *)
Definition well_guarded (top : string) (f : HandlerFunc) : Prop :=
  forall v q d w d' w' effs, hd_error (q_Path q) = Some top ->
    f v q d w = Some (d', w', effs) -> permitted v q d d' effs.

Lemma guarded_reads top f : reads_only f -> well_guarded top f.
Proof. intros Hf v q d w d' w' effs _ Hr. by apply may_nothing, (Hf v q d w d' w'). Qed.

Lemma guarded_admin f : well_guarded "_admin" (adminOnly h f).
Proof.
  intros v q d w d' w' effs Htop. unfold adminOnly.
  destruct (String.eqb_spec (h_adminToken h) ""); [by intros [= <- _ <-]; apply may_nothing|].
  destruct (String.eqb_spec (bearer q) (h_adminToken h)); [|by intros [= <- _ <-]; apply may_nothing].
  intros _. by apply may_admin.
Qed.

Lemma guarded_user top f : (forall key, owner_only key (f key)) -> well_guarded top (userAuth f).
Proof.
  intros Hf v q d w d' w' effs _. unfold userAuth.
  destruct (String.eqb_spec (bearer q) ""); [by intros [= <- _ <-]; apply may_nothing|].
  destruct (KeyStore_Validate _ _) eqn:Hv; [|by intros [= <- _ <-]; apply may_nothing].
  intros Hr. apply may_own; [done | exact (Hf _ _ _ _ _ _ _ _ Hr)].
Qed.

Lemma guarded_register top : well_guarded top (Dashboard_handleRegister h).
Proof.
  intros v q d w d' w' effs _. unfold Dashboard_handleRegister.
  destruct (decode_register _) as [[name subdomain]|]; [|by intros [= <- _ <-]; apply may_nothing].
  destruct (String.eqb name ""); [by intros [= <- _ <-]; apply may_nothing|].
  set (subs := if String.eqb subdomain "" then [] else [subdomain]).
  intros Hr. apply (may_register _ _ _ _ _ name subs);
    destruct (CreateKey _ _ _ _ _ _ _) as [ks []]; by injection Hr as <- _ <-.
Qed.

Ltac reads := intros v q d w d' w' effs; cbv beta delta [reply];
  repeat (case_match; try done); intros; simplify_eq; done.

Lemma reads_serveSSE t : reads_only (serveSSE t).
Proof.
  intros v q d w d' w' effs. unfold serveSSE. destruct (negb _); [by intros [= <- _ <-]|].
  destruct (d_requestLog d); [by intros [= <- _ <-]|done].
Qed.

Lemma reads_login : reads_only handleLogin.
Proof. unfold handleLogin. reads. Qed.
Lemma reads_me key : reads_only (handleMe h key).
Proof. unfold handleMe. reads. Qed.
Lemma reads_logs key : reads_only (handleUserLogs key).
Proof. intros v q d w d' w' effs. unfold handleUserLogs. destruct (d_requestLog d); [by intros [= <- _ <-]|done]. Qed.
Lemma reads_traffic key : reads_only (handleUserTraffic key).
Proof. intros v q d w d' w' effs. unfold handleUserTraffic. destruct (d_requestLog d); [by intros [= <- _ <-]|done]. Qed.
Lemma reads_paths key : reads_only (handleUserTopPaths key).
Proof. intros v q d w d' w' effs. unfold handleUserTopPaths. destruct (d_requestLog d); [by intros [= <- _ <-]|done]. Qed.
Lemma reads_stream : reads_only handleUserLogStream.
Proof.
  intros v q d w d' w' effs. unfold handleUserLogStream. destruct (_ || _); [by intros [= <- _ <-]|]. apply reads_serveSSE.
Qed.
Lemma reads_admin_stream : reads_only (handleAdminLogStream h).
Proof.
  intros v q d w d' w' effs. unfold handleAdminLogStream. destruct (negb _); [by intros [= <- _ <-]|]. apply reads_serveSSE.
Qed.

Lemma find_route_In rs q vs r :
  find_route rs q = Some (vs, r) -> r ∈ rs /\ match_path (rt_Pattern r) (q_Path q) = Some vs.
Proof.
  induction rs as [|r' rs IH]; simpl; [done|].
  assert (find_route rs q = Some (vs, r) ->
    r ∈ r' :: rs /\ match_path (rt_Pattern r) (q_Path q) = Some vs) as Hlater.
  { intros [??]%IH. split; [by right | done]. }
  destruct (match_path (rt_Pattern r') (q_Path q)) eqn:E; [|exact Hlater].
  destruct (method_matches _ _); [|exact Hlater]. intros [= <- <-]. split; [by left | done].
Qed.

Lemma match_top s pat path vs : match_path (Lit s :: pat) path = Some vs -> hd_error path = Some s.
Proof. destruct path as [|x path]; simpl; [done|]. by destruct (String.eqb_spec s x) as [->|]. Qed.

Lemma match_lits ss path vs : match_path (Lit <$> ss) path = Some vs -> path = ss.
Proof.
  revert path. induction ss as [|s ss IH]; intros [|x path]; simpl; try done.
  destruct (String.eqb_spec s x) as [->|]; [|done]. intros Hm. f_equal. by apply IH.
Qed.

(** Every route is guarded as its part of the path demands. *)
Definition route_guarded (r : Route) : Prop :=
  exists s pat, rt_Pattern r = Lit s :: pat /\ forall vs, well_guarded s (rt_Handler r vs).

Lemma guarded_route s m pat f :
  (forall vs, well_guarded s (f vs)) -> route_guarded (route m (Lit s :: pat) f).
Proof. intros Hf. exists s, pat. by split. Qed.

Lemma routes_guarded : Forall route_guarded (routes h).
Proof.
  assert (forall f, (forall v q d w, exists w', f v q d w = Some (d, w', [])) -> reads_only f) as Hsimple.
  { intros f Hf v q d w d' w' effs. destruct (Hf v q d w) as [w2 ->]. by intros [= <- _ <-]. }
  repeat (apply Forall_cons; split; [apply guarded_route; intros vs|]); try apply Forall_nil; try done;
    first [apply guarded_admin | apply guarded_register
          | apply guarded_user; intros key;
            first [apply owner_AddSubdomain | apply owner_RemoveSubdomain | apply owner_only_reads]
          | apply guarded_reads];
    first [apply reads_login | apply reads_me | apply reads_logs | apply reads_traffic | apply reads_paths
          | apply reads_stream | apply reads_admin_stream | apply Hsimple; intros; by eexists].
Qed.

Lemma ServeHTTP_route v q d w d' w' effs :
  ServeHTTP h v q d w = Some (d', w', effs) ->
  unchanged d d' effs \/
  exists vs r w1, find_route (routes h) q = Some (vs, r) /\ rt_Handler r vs v q d w1 = Some (d', w', effs).
Proof.
  unfold ServeHTTP. destruct (find_route (routes h) q) as [[vs r]|] eqn:E; [|by intros [= <- _ <-]; left].
  intros Hr. right. by eauto 10.
Qed.

(** C12: no request can do more than its sender may.  Whatever the method, the
    path, the headers and the body, a request leaves the tunnels, the keys, the
    configuration and the log as they are, unless it registers a new key, or
    carries a valid key and changes at most that key's own entry, or carries the
    configured, non-empty admin token and goes to the admin API. *)
Theorem dashboard_permissions v q d w d' w' effs :
  ServeHTTP h v q d w = Some (d', w', effs) -> permitted v q d d' effs.
Proof.
  intros [?|(vs & r & w1 & Hf & Hr)]%ServeHTTP_route; [by apply may_nothing|].
  apply find_route_In in Hf as [Hin Hm].
  pose proof routes_guarded as Hall. rewrite Forall_forall in Hall.
  destruct (Hall r Hin) as (s & pat & Hp & Hg). rewrite Hp in Hm.
  exact (Hg vs v q d w1 d' w' effs (match_top _ _ _ _ Hm) Hr).
Qed.

(** The request of a route, with whatever else it carries. *)
Definition requests (method : string) (path : list string) (q : DRequest) : Prop :=
  q_Method q = method /\ q_Path q = path.

(** C26: the admin API is closed to everyone else: a request to any of its
    routes but the event stream is answered by an error, with status 401, or
    403 when no admin token is configured, and by nothing more. *)
Theorem admin_api_closed v q d w d' w' effs vs r :
  find_route (admin_routes h) q = Some (vs, r) ->
  q_Path q <> ["_admin"; "api"; "logs"; "stream"]%string -> ~ is_admin q ->
  rt_Handler r vs v q d w = Some (d', w', effs) ->
  unchanged d d' effs /\
  exists msg, w' = writeError msg (if String.eqb (h_adminToken h) "" then 403 else 401) w.
Proof.
  intros Hf Hstream Hno Hr. apply find_route_In in Hf as [Hin Hm].
  assert (exists f, rt_Handler r vs = adminOnly h f) as [f Ef].
  { unfold admin_routes in Hin. repeat (apply elem_of_cons in Hin as [->|Hin]; [by eexists|]).
    apply elem_of_cons in Hin as [->|Hin]; [|by apply not_elem_of_nil in Hin].
    exfalso. apply Hstream. by apply (match_lits ["_admin"; "api"; "logs"; "stream"]%string _ vs). }
  rewrite Ef in Hr. unfold adminOnly in Hr. unfold is_admin in Hno.
  destruct (String.eqb_spec (h_adminToken h) "") as [E|E].
  { injection Hr as <- <- <-. split; [done | by eexists]. }
  destruct (String.eqb_spec (bearer q) (h_adminToken h)) as [Eb|Eb]; [tauto|].
  injection Hr as <- <- <-. split; [done | by eexists].
Qed.

(** The event stream of the admin dashboard is not closed when no admin
    token is configured: without a key, anyone gets the stream of everybody's
    requests, where every other admin route answers 403. *)
Theorem admin_stream_open v q d w rl :
  h_adminToken h = ""%string -> requests "GET" ["_admin"; "api"; "logs"; "stream"]%string q ->
  q_Query q "key"%string = ""%string -> d_requestLog d = Some rl -> w_sent w = None -> w_flusher w = true ->
  exists w', ServeHTTP h v q d w = Some (d, w', []) /\
    (exists hdr, w_sent w' = Some (200, hdr)) /\ w_body w' = w_body w ++ [JStream ""].
Proof.
  intros Ht [Hm Hp] Hk Hl Hw Hfl. unfold ServeHTTP.
  assert (find_route (routes h) q = Some ([], route "GET"
    [Lit "_admin"; Lit "api"; Lit "logs"; Lit "stream"]%string (fun _ => handleAdminLogStream h))) as ->
    by (destruct q; cbn in Hm, Hp; subst; reflexivity).
  cbn [rt_Handler route].
  unfold handleAdminLogStream. rewrite Hk, Ht. cbn [String.eqb negb]. unfold serveSSE. cbn [w_flusher SetHeader]. rewrite Hfl, Hl.
  eexists. split; [reflexivity|]. cbn. rewrite Hw. split; [by eexists | done].
Qed.

(** C30: a user sees exactly the own tunnels: the answer to the tunnel list has
    an entry for every active tunnel registered with the caller's key, and for
    no other. *)
Theorem user_tunnels_own v q d w :
  is_user q d -> requests "GET" ["_dashboard"; "api"; "tunnels"]%string q ->
  exists w' l, ServeHTTP h v q d w = Some (d, w', []) /\ w_body w' = w_body w ++ [JTunnels l] /\
  forall st, st ∈ l <-> exists x, st = tunnel_stats (v_now v) (deref (d_tunnels d) x) /\
    ts_Token (deref (d_tunnels d) x) = bearer q /\
    ((exists sub, httpTunnels (d_tunnels d) !! sub = Some x) /\ ts_Reserved (deref (d_tunnels d) x) = false \/
     exists p, tcpTunnels (d_tunnels d) !! p = Some x).
Proof.
  intros [Hne Hv] [Hm Hp]. unfold ServeHTTP.
  assert (find_route (routes h) q = Some ([], route "GET"
    [Lit "_dashboard"; Lit "api"; Lit "tunnels"]%string (fun _ => userAuth handleUserTunnels))) as ->
    by (destruct q; cbn in Hm, Hp; subst; reflexivity).
  cbn [rt_Handler route].
  unfold userAuth. rewrite (proj2 (String.eqb_neq _ _) Hne), Hv. cbn [negb].
  eexists _, _. split; [reflexivity|]. split; [reflexivity|].
  intros st. unfold TunnelsForToken, ListTunnels. rewrite list_elem_of_fmap.
  setoid_rewrite list_elem_of_In at 1. setoid_rewrite filter_In. setoid_rewrite String.eqb_eq.
  setoid_rewrite in_app_iff. setoid_rewrite filter_In. setoid_rewrite <- list_elem_of_In.
  setoid_rewrite elem_of_http_list. setoid_rewrite elem_of_tcp_list. setoid_rewrite negb_true_iff.
  naive_solver.
Qed.

(** Log entries are matched to users by the masked key alone: two API keys
    with the same last four characters see each other's requests. *)
Theorem user_logs_shared m1 m2 last :
  1 <= len m1 -> 1 <= len m2 -> String.length last = 4%nat ->
  let k1 := "htk_" +:+ m1 +:+ last in let k2 := "htk_" +:+ m2 +:+ last in
  forall v q d w, handleUserLogs k1 v q d w = handleUserLogs k2 v q d w.
Proof.
  intros Hm1 Hm2 Hl k1 k2 v q d w.
  assert (forall m, 1 <= len m -> maskKey ("htk_" +:+ m +:+ last) = "htk_..." +:+ last) as Hmask.
  { intros m Hm. unfold maskKey, len in *. rewrite !length_string_app. cbn [String.length].
    rewrite (proj2 (Z.leb_gt _ _)) by lia.
    replace (4 + (String.length m + String.length last) - 4)%nat
      with (String.length ("htk_" +:+ m)) by (rewrite length_string_app; simpl; lia).
    rewrite (string_app_assoc "htk_" m last), slice_from_app, <- string_app_assoc.
    change 4%nat with (String.length "htk_"). by rewrite slice_to_app. }
  unfold handleUserLogs, k1, k2. by rewrite !Hmask by done.
Qed.

(** A response with status 201 is sent without its content type:
    [WriteHeader] runs before [writeJSON] sets the header. *)
Theorem created_without_type v q d w d' w' effs :
  Dashboard_handleRegister h v q d w = Some (d', w', effs) -> w_sent w = None ->
  w_header w !! "Content-Type"%string = None ->
  (exists hdr, w_sent w' = Some (201, hdr) /\ hdr !! "Content-Type"%string = None) \/
  (exists hdr, w_sent w' = Some (400, hdr) /\ hdr !! "Content-Type"%string = Some ["application/json"%string]).
Proof.
  intros Hr Hs Hc. unfold Dashboard_handleRegister in Hr.
  assert (forall msg, exists hdr, w_sent (writeError msg 400 w) = Some (400, hdr) /\
    hdr !! "Content-Type"%string = Some ["application/json"%string]) as Herr.
  { intros msg. cbn. rewrite Hs. eexists. split; [done|]. by apply lookup_insert_eq. }
  destruct (decode_register _) as [[name subdomain]|]; [|injection Hr as <- <- <-; by right].
  destruct (String.eqb name ""); [injection Hr as <- <- <-; by right|].
  destruct (CreateKey _ _ _ _ _ _ _) as [ks [key|e]]; injection Hr as <- <- <-; [|by right].
  left. cbn. rewrite Hs. eexists. by split.
Qed.

(** The dashboard registers users whatever the configuration says: the
    answer does not depend on it, so [allow_registration: false], which the
    control plane obeys, does not keep anybody out. *)
Theorem registration_switch_ignored v q d w c :
  Dashboard_handleRegister h v q (with_dconfig c d) w =
    (fun '(d', w', effs) => (with_dconfig c d', w', effs)) <$> Dashboard_handleRegister h v q d w.
Proof.
  unfold Dashboard_handleRegister. destruct (decode_register _) as [[name subdomain]|]; [|done].
  destruct (String.eqb name ""); [done|].
  change (d_keys (with_dconfig c d)) with (d_keys d). by destruct (CreateKey _ _ _ _ _ _ _) as [ks [key|e]].
Qed.
End Properties.

(** ** The stream shows what it should *)

Definition sse_entries (evs : list sse_event) : list RequestLogEntry :=
  omap (fun ev => match ev with SEntry e => Some e | _ => None end) evs.
Definition sse_data (out : list sse_chunk) : list RequestLogEntry :=
  omap (fun c => match c with CData e => Some e | _ => None end) out.
Definition running (evs : list sse_event) : Prop :=
  Forall (fun ev => match ev with SClosed | SDone => False | _ => True end) evs.

(** C35: an event stream shows its reader exactly the entries that match the
    filter, all of them and in order, until the subscription is closed or the
    client has gone, and then it ends. *)
Theorem serveSSE_filters t evs stop rest :
  running evs -> stop = SClosed \/ stop = SDone ->
  let '(out, returned) := serveSSE_stream t (evs ++ stop :: rest) in
  returned = true /\
  sse_data out = filter (fun e => t = ""%string \/ dbe_Token e = t) (sse_entries evs).
Proof.
  intros Hr Hstop. unfold serveSSE_stream.
  assert (let '(out, r) := sse_loop t (evs ++ stop :: rest) in r = true /\
    sse_data out = filter (fun e => t = ""%string \/ dbe_Token e = t) (sse_entries evs)) as H.
  { induction Hr as [|ev evs Hev Hr IH]; [by destruct Hstop as [-> | ->]|].
    destruct ev as [e| | |]; try done; cbn [app sse_loop sse_entries omap list_omap];
      fold (sse_entries evs).
    - rewrite filter_cons. destruct (String.eqb_spec t "") as [->|Ht]; cbn [negb andb].
      + destruct (sse_loop _ _) as [out r]. destruct IH as [-> IH]. split; [done|].
        rewrite decide_True by by left. cbn. f_equal. exact IH.
      + destruct (String.eqb_spec (dbe_Token e) t) as [He|He]; cbn [negb].
        * destruct (sse_loop _ _) as [out r]. destruct IH as [-> IH]. split; [done|].
          rewrite decide_True by by right. cbn. f_equal. exact IH.
        * rewrite decide_False by tauto. exact IH.
    - destruct (sse_loop _ _) as [out r]. exact IH. }
  destruct (sse_loop t _) as [out r]. exact H.
Qed.

(** ** A concrete dashboard *)

Module Examples.
#[local] Instance order_string : RangeOrder string := canonical_order string.
#[local] Instance order_Z : RangeOrder Z := canonical_order Z.
#[local] Instance dash_json : DashJSON := {|
  decode_register _ := Ok ("An", "")%string; decode_login _ := Err "unused"%string;
  decode_subdomain _ := Ok "other"%string; decode_updates _ := Err "unused"%string |}.
#[local] Instance overflow : FloatOverflow := fun _ => 0.
#[local] Instance yaml : Yaml ServerConfig := {|
  yaml_Marshal _ := Err "unused"%string; yaml_Unmarshal _ _ := Err "unused"%string |}.

Definition h : Handler := {| h_adminToken := "secret"; h_domain := "tunnel.example.com"; h_version := "1" |}.
Definition key : string := "htk_0123456789".
Definition d : Dash := {|
  d_tunnels := HttpProxy.Examples.tm;
  d_keys := {| keys := {[ key := {| Name := "An"; Subdomains := []; MaxTunnels := 10; CreatedAt := 0;
                                    Active := true; key_tunnelCount := 0 |} ]};
               filePath := ""; disk := NoFile |};
  d_config := {| cp_cfg := zero_config; cp_filePath := ""; cp_file := FileMissing |};
  d_requestLog := None |}.
Definition v : DEnv := {| v_now := 0; v_bytes := repeat x00 16; v_write := WriteOk; v_config_write := None |}.
Definition fresh : ResponseWriter := {| w_flusher := true; w_header := ∅; w_sent := None; w_body := [] |}.
Definition get (auth : string) (path : list string) : DRequest := {|
  q_Method := "GET"; q_Path := path; q_Authorization := auth; q_Query := fun _ => ""%string; q_Body := [] |}.
Definition list_own : DRequest := get ("Bearer " +:+ key) ["_dashboard"; "api"; "tunnels"]%string.
Definition admin_keys : DRequest := get "Bearer guess" ["_admin"; "api"; "keys"]%string.

Lemma user_ok : is_user list_own d.
Proof. split; [discriminate | vm_compute; reflexivity]. Qed.

Lemma user_tunnels_own_witness :
  exists w' l, ServeHTTP h v list_own d fresh = Some (d, w', []) /\ w_body w' = [JTunnels l] /\
  forall st, st ∈ l <-> exists x, st = tunnel_stats (v_now v) (deref (d_tunnels d) x) /\
    ts_Token (deref (d_tunnels d) x) = bearer list_own /\
    ((exists sub, httpTunnels (d_tunnels d) !! sub = Some x) /\ ts_Reserved (deref (d_tunnels d) x) = false \/
     exists p, tcpTunnels (d_tunnels d) !! p = Some x).
Proof. exact (user_tunnels_own h v list_own d fresh user_ok (conj eq_refl eq_refl)). Defined.

Definition refused_response : ResponseWriter :=
  match ServeHTTP h v admin_keys d fresh with Some (_, w, _) => w | None => fresh end.

Lemma served_keys : ServeHTTP h v admin_keys d fresh = Some (d, refused_response, []).
Proof. vm_compute. reflexivity. Qed.

Lemma dashboard_permissions_witness : permitted h v admin_keys d d [].
Proof. exact (dashboard_permissions h v admin_keys d fresh d refused_response [] served_keys). Defined.

Definition keys_route : Route :=
  route "GET" [Lit "_admin"; Lit "api"; Lit "keys"]%string (fun _ => adminOnly h handleAdminListKeys).

Lemma admin_api_closed_witness :
  unchanged d d [] /\ exists msg, writeError "unauthorized" 401 fresh =
    writeError msg (if String.eqb (h_adminToken h) "" then 403 else 401) fresh.
Proof.
  apply (admin_api_closed h v admin_keys d fresh d (writeError "unauthorized" 401 fresh) [] [] keys_route).
  - reflexivity.
  - discriminate.
  - intros [_ E]. vm_compute in E. discriminate.
  - reflexivity.
Defined.

Definition e1 : RequestLogEntry := toDBEntry {|
  le_Timestamp := 0; le_TunnelID := "id"; le_Subdomain := "myapp"; le_Token := "htk_...6789"; le_Method := "GET";
  le_Path := "/"; le_Status := 200; le_DurationMs := 3; le_Size := 7 |}.

Lemma serveSSE_filters_witness :
  let '(out, returned) := serveSSE_stream "htk_...6789" ([SEntry e1; SKeepalive] ++ SDone :: []) in
  returned = true /\ sse_data out =
    filter (fun e => "htk_...6789"%string = ""%string \/ dbe_Token e = "htk_...6789"%string)
      (sse_entries [SEntry e1; SKeepalive]).
Proof.
  exact (serveSSE_filters "htk_...6789" [SEntry e1; SKeepalive] SDone []
    ltac:(repeat constructor) (or_intror eq_refl)).
Defined.
End Examples.
