(* ===== verification/Display.v ===== *)
(** * What the client prints (internal/client/display.go)

    The status box and the request log line, on UTF-8 bytes: Go's [range] over
    a string decodes runes ([rune_len] of GoStrings.v), and the box is aligned by counting them.  The clock
    of the log line is an argument. *)

From S2P Require Import Prelude GoStrings.
Local Open Scope Z_scope.

(** ** Columns *)

Definition ESC : ascii := "027".

(** [visibleLen]: [skip] bytes of the rune being read are left. *)
Fixpoint visible_from (skip : nat) (inEsc : bool) (s : string) : Z :=
  match s with
  | EmptyString => 0
  | String c s =>
      match skip with
      | S skip => visible_from skip inEsc s
      | O =>
          let skip := pred (rune_len c s) in
          if Ascii.eqb c ESC then visible_from skip true s
          else if inEsc then visible_from skip (negb (Ascii.eqb c "m")) s
          else 1 + visible_from skip false s
      end
  end.
Definition visibleLen (s : string) : Z := visible_from 0 false s.

(** [strings.Repeat]: a negative count panics. *)
Fixpoint repeat_string (s : string) (n : nat) : string :=
  match n with O => EmptyString | S n => s +:+ repeat_string s n end.
Definition Repeat (s : string) (n : Z) : option string :=
  if n <? 0 then None else Some (repeat_string s (Z.to_nat n)).

(** ** The status box *)

Definition colour (code : string) : string := String ESC ("[" +:+ code +:+ "m").
Definition reset : string := colour "0".
Definition bold : string := colour "1".
Definition green : string := colour "32".
Definition yellow : string := colour "33".
Definition red : string := colour "31".
Definition cyan : string := colour "36".
Definition gray : string := colour "90".

Definition status_style (status : string) : string * string :=
  if String.eqb status "connecting" then (yellow, "◌")
  else if String.eqb status "disconnected" then (red, "○")
  else (green, "●").

Definition box_lines (version tunnel forward server status : string) : list string :=
  let '(statusColor, statusDot) := status_style status in
  [ "  " +:+ bold +:+ "htn-tunnel" +:+ reset +:+ " v" +:+ version;
    "";
    "  Tunnel:   " +:+ cyan +:+ tunnel +:+ reset;
    "  Forward:  → " +:+ forward;
    "  Server:   " +:+ server;
    "  Status:   " +:+ statusColor +:+ statusDot +:+ " " +:+ status +:+ reset ].

Definition max_visible (lines : list string) : Z :=
  fold_left (fun maxLen l => if maxLen <? visibleLen l then visibleLen l else maxLen) lines 0.

(** The rows of [PrintBox], top to bottom; [None] where it would panic. *)
Definition PrintBox (version tunnel forward server status : string) : option (list string) :=
  let lines := box_lines version tunnel forward server status in
  let width := max_visible lines + 4 in
  top ← Repeat "─" width;
  rows ← mapM (fun l => spaces ← Repeat " " (width - visibleLen l);
                        Some ("  │" +:+ l +:+ spaces +:+ "│")) lines;
  bottom ← Repeat "─" width;
  Some (("  ╭" +:+ top +:+ "╮") :: rows ++ ["  ╰" +:+ bottom +:+ "╯"]).

(** ** The request log line *)

(** [padRight], [padLeft] count bytes. *)
Definition padRight (s : string) (n : Z) : string :=
  if n <=? len s then s else s +:+ repeat_string " " (Z.to_nat (n - len s)).
Definition padLeft (s : string) (n : Z) : string :=
  if n <=? len s then s else repeat_string " " (Z.to_nat (n - len s)) +:+ s.

(** [n / d] to the nearest integer, a tie to the even one. *)
Definition round_half_even (n d : Z) : Z :=
  let q := n / d in
  let r := 2 * (n mod d) in
  if (r <? d) || ((r =? d) && Z.even q) then q else q + 1.

(** [float64(b)]: 53 significant bits. *)
Definition float64_of (b : Z) : Z :=
  let e := Z.log2 b - 52 in
  if e <=? 0 then b else round_half_even b (2 ^ e) * 2 ^ e.

(** [%.1f] of [n / d] *)
Definition fixed1 (n d : Z) : string :=
  let t := round_half_even (10 * n) d in
  Itoa (t / 10) +:+ "." +:+ Itoa (t mod 10).

Definition fmtBytes (b : Z) : string :=
  if b <? 1024 then Itoa b +:+ "B"
  else if b <? 1048576 then fixed1 (float64_of b) 1024 +:+ "KB"
  else fixed1 (float64_of b) 1048576 +:+ "MB".

Definition status_colour (status : Z) : string :=
  if 500 <=? status then red
  else if 400 <=? status then yellow
  else if 300 <=? status then cyan
  else if 200 <=? status then green
  else gray.

(** The path column. *)
Definition path_column (path : string) : string :=
  padRight (if 40 <? len path then slice_to path 37 +:+ "..." else path) 40.

(** [PrintRequestLog]; [now] is the local time as [15:04:05]. *)
Definition PrintRequestLog (now method path : string) (status size duration : Z) : string :=
  "  " +:+ gray +:+ now +:+ reset +:+ "  " +:+ padRight method 6 +:+ "  " +:+ path_column path +:+ "  "
  +:+ status_colour status +:+ Itoa status +:+ reset +:+ "  "
  +:+ gray +:+ padLeft (Itoa duration +:+ "ms") 6 +:+ reset +:+ "  " +:+ padLeft (fmtBytes size) 8.

(** ** Lemmas *)

(** Whether a string ends inside an escape sequence. *)
Fixpoint esc_after (inEsc : bool) (s : string) : bool :=
  match s with
  | EmptyString => inEsc
  | String c s => esc_after (if Ascii.eqb c ESC then true
                             else inEsc && negb (Ascii.eqb c "m")) s
  end.

Lemma esc_after_app e s t : esc_after e (s +:+ t) = esc_after (esc_after e s) t.
Proof. revert e. induction s as [|c s IH]; intros e; simpl; [done | apply IH]. Qed.

(** A string starts no continuation. *)
Definition fresh_rune (s : string) : Prop :=
  match s with EmptyString => True | String c _ => is_cont c = false end.

Lemma cont_plain c : is_cont c = true -> Ascii.eqb c ESC = false /\ Ascii.eqb c "m" = false.
Proof. destruct c as [[] [] [] [] [] [] [] []]; vm_compute; intros; (done || by split). Qed.

Lemma all_cont_app n s t :
  fresh_rune t -> all_cont n (s +:+ t) = all_cont n s.
Proof.
  intros Ht. revert s. induction n as [|n IH]; intros s; [done|].
  destruct s as [|c s]; simpl; [|by rewrite IH]. by destruct t as [|c t]; [|simpl in *; rewrite Ht].
Qed.

Lemma byte_in_cont lo hi c :
  is_cont c = false -> (128 <=? lo)%N && (hi <=? 191)%N = true -> byte_in lo hi c = false.
Proof.
  unfold is_cont, byte_in. rewrite !andb_false_iff, !andb_true_iff, !N.leb_gt, !N.leb_le. lia.
Qed.

Lemma rune_len_app c s t : fresh_rune t -> rune_len c (s +:+ t) = rune_len c s.
Proof.
  intros Ht. unfold rune_len. rewrite !(all_cont_app _ s t Ht).
  destruct s as [|d s]; [|done]. destruct t as [|d t]; [done|]. cbn [append fresh_rune] in *.
  rewrite !(fun lo hi => byte_in_cont lo hi d Ht) by reflexivity. done.
Qed.

Lemma tail_cont (b : bool) n s :
  all_cont (pred (if b && all_cont n s then S n else 1%nat)) s = true.
Proof. destruct b, (all_cont n s) eqn:E; simpl; done. Qed.

(** What a rune takes after its first byte are continuation bytes. *)
Lemma rune_len_bytes c s : all_cont (pred (rune_len c s)) s = true.
Proof. unfold rune_len. repeat (case_match; [apply tail_cont|]). done. Qed.

(** Counting a string and then what follows it. *)
Lemma visible_from_app skip e s t :
  fresh_rune t -> all_cont skip s = true ->
  visible_from skip e (s +:+ t) = visible_from skip e s + visible_from 0 (esc_after e s) t.
Proof.
  intros Ht. revert skip e. induction s as [|c s IH]; intros skip e Hs; [by destruct skip|].
  cbn [append visible_from esc_after]. destruct skip as [|skip].
  - rewrite rune_len_app by done. pose proof (rune_len_bytes c s) as Hb.
    destruct (Ascii.eqb c ESC); [by rewrite IH|].
    destruct e; simpl; [by rewrite IH|]. rewrite IH by done. lia.
  - apply andb_true_iff in Hs as [Hc Hs]. destruct (cont_plain c Hc) as [-> ->].
    rewrite IH by done. by rewrite andb_true_r.
Qed.

Lemma visibleLen_app s t :
  fresh_rune t -> esc_after false s = false -> visibleLen (s +:+ t) = visibleLen s + visibleLen t.
Proof. intros Ht Hs. unfold visibleLen. rewrite visible_from_app by done. by rewrite Hs. Qed.

Lemma visible_from_nonneg skip e s : 0 <= visible_from skip e s.
Proof.
  revert skip e. induction s as [|c s IH]; intros skip e; [done|]. cbn [visible_from].
  destruct skip as [|skip]; [|apply IH]. destruct (Ascii.eqb c ESC), e; try apply IH.
  specialize (IH (pred (rune_len c s)) false). lia.
Qed.

Lemma repeat_plain u n e :
  esc_after false u = false -> e = false -> esc_after e (repeat_string u n) = false.
Proof. intros Hu ->. induction n as [|n IH]; [done|]. simpl. by rewrite esc_after_app, Hu. Qed.

Lemma fresh_repeat u n : fresh_rune u -> fresh_rune (repeat_string u n).
Proof. intros Hu. induction n as [|n IH]; [done|]. by destruct u. Qed.

Lemma visible_repeat u n :
  fresh_rune u -> esc_after false u = false ->
  visibleLen (repeat_string u n) = Z.of_nat n * visibleLen u.
Proof.
  intros Hu He. induction n as [|n IH]; [done|]. cbn [repeat_string].
  rewrite visibleLen_app, IH; [lia | by apply fresh_repeat | done].
Qed.

Lemma max_visible_ge lines l m :
  l ∈ lines -> visibleLen l <= fold_left (fun maxLen l => if maxLen <? visibleLen l then visibleLen l else maxLen) lines m.
Proof.
  assert (forall lines m, m <= fold_left (fun maxLen l => if maxLen <? visibleLen l then visibleLen l else maxLen) lines m) as Hm.
  { clear. induction lines as [|l lines IH]; intros m; simpl; [lia|].
    etrans; [|apply IH]. destruct (Z.ltb_spec m (visibleLen l)); lia. }
  revert m. induction lines as [|l0 lines IH]; intros m; [by intros ?%elem_of_nil|].
  intros [->|Hl]%elem_of_cons; simpl; [|by apply IH].
  etrans; [|apply Hm]. destruct (Z.ltb_spec m (visibleLen l0)); lia.
Qed.

(** ** The box is a box *)

(** The texts the box is made of carry no escape sequence of their own. *)
Definition plain (s : string) : Prop := esc_after false s = false.

Lemma box_lines_plain version tunnel forward server status l :
  plain version -> plain forward -> plain server ->
  l ∈ box_lines version tunnel forward server status -> plain l.
Proof.
  unfold plain, box_lines, status_style. intros Hv Hf Hs Hl.
  assert (forall e s, esc_after e (s +:+ reset) = false) as Hreset
    by (intros e s; rewrite esc_after_app; by destruct (esc_after e s)).
  repeat case_match;
    repeat (apply elem_of_cons in Hl as [->|Hl];
      [rewrite ?string_app_assoc, ?Hreset; rewrite ?esc_after_app; simpl; congruence|]);
    by apply elem_of_nil in Hl.
Qed.

Lemma visible_repeat1 u n r :
  visibleLen u = 1 -> fresh_rune u -> plain u -> Repeat u n = Some r ->
  visibleLen r = n /\ plain r /\ fresh_rune r.
Proof.
  unfold Repeat. intros Hu Hf Hp. destruct (Z.ltb_spec n 0); [done|]. intros [= <-].
  rewrite visible_repeat, Hu by done. split_and!; [lia | by apply repeat_plain | by apply fresh_repeat].
Qed.

Lemma Repeat_some u n : 0 <= n -> exists r, Repeat u n = Some r.
Proof. intros Hn. unfold Repeat. destruct (Z.ltb_spec n 0); [lia|eauto]. Qed.

(** One row: border, line, padding, border. *)
Lemma row_width w l sp :
  plain l -> Repeat " " (w - visibleLen l) = Some sp ->
  visibleLen ("  │" +:+ l +:+ sp +:+ "│") = w + 4.
Proof.
  intros Hl Hsp. destruct (visible_repeat1 " " (w - visibleLen l) sp) as (Hv & Hp & Hf); [done..|].
  rewrite (string_app_assoc "  │" l (sp +:+ "│")).
  rewrite (visibleLen_app ("  │" +:+ l)), (visibleLen_app sp), Hv; [| done | exact Hp | by destruct sp | exact Hl].
  change (visibleLen ("  │" +:+ l)) with (1 + (1 + (1 + visibleLen l))).
  change (visibleLen "│") with 1. lia.
Qed.

Lemma border_width w bar l r :
  Repeat "─" w = Some bar ->
  (l = "  ╭" /\ r = "╮" \/ l = "  ╰" /\ r = "╯")%string ->
  visibleLen (l +:+ bar +:+ r) = w + 4.
Proof.
  intros Hbar Hlr. destruct (visible_repeat1 "─" w bar) as (Hv & Hp & Hf); [done..|].
  assert (visibleLen (bar +:+ r) = w + 1) as Hb.
  { rewrite visibleLen_app; [|by destruct Hlr as [[_ ->]|[_ ->]]|exact Hp].
    rewrite Hv. by destruct Hlr as [[_ ->]|[_ ->]]. }
  rewrite visibleLen_app, Hb; [| by destruct bar, Hlr as [[_ ->]|[_ ->]] | by destruct Hlr as [[-> _]|[-> _]]].
  destruct Hlr as [[-> _]|[-> _]]; [change (visibleLen "  ╭") with 3 | change (visibleLen "  ╰") with 3]; lia.
Qed.

Lemma padded_rows w lines :
  (forall l, l ∈ lines -> visibleLen l <= w) ->
  exists rows,
    mapM (fun l => spaces ← Repeat " " (w - visibleLen l); Some ("  │" +:+ l +:+ spaces +:+ "│")) lines = Some rows /\
    length rows = length lines /\
    (Forall plain lines -> Forall (fun row => visibleLen row = w + 4) rows).
Proof.
  induction lines as [|l lines IH]; intros Hw; [by exists []|].
  destruct (Repeat_some " " (w - visibleLen l)) as [sp Hsp]; [specialize (Hw l ltac:(set_solver)); lia|].
  destruct IH as (rows & Hm & Hlen & Hrows); [set_solver|].
  exists (("  │" +:+ l +:+ sp +:+ "│") :: rows). cbn [mapM]. rewrite Hsp. cbn [mbind option_bind].
  rewrite Hm. split_and!; [done | simpl; lia |].
  intros [Hl Hls]%Forall_cons. constructor; [by apply row_width | auto].
Qed.

(** The box is always printed: no padding is ever negative; and when version,
    server address and forwarding target end outside an escape sequence (the
    tunnel and the status are followed by a reset), all its rows are as wide as
    the longest line plus eight columns, so that the right border is straight. *)
Theorem PrintBox_aligned version tunnel forward server status :
  exists rows, PrintBox version tunnel forward server status = Some rows /\ length rows = 8%nat /\
  (plain version -> plain forward -> plain server ->
   Forall (fun row => visibleLen row = max_visible (box_lines version tunnel forward server status) + 8) rows).
Proof.
  unfold PrintBox. pose proof (box_lines_plain version tunnel forward server status) as Hplain.
  assert (length (box_lines version tunnel forward server status) = 6%nat) as Hlines
    by (unfold box_lines; by destruct (status_style status)).
  assert (visibleLen "" <= max_visible (box_lines version tunnel forward server status)) as Hpos.
  { apply max_visible_ge. unfold box_lines. destruct (status_style status). set_solver. }
  revert Hplain Hlines Hpos. generalize (box_lines version tunnel forward server status). intros lines Hplain Hlines Hpos.
  destruct (Repeat_some "─" (max_visible lines + 4)) as [bar Hbar]; [cbn in Hpos; lia|].
  destruct (padded_rows (max_visible lines + 4) lines) as (rows & Hrows & Hlen & Hw).
  { intros l Hl. pose proof (max_visible_ge lines l 0 Hl). unfold max_visible. lia. }
  rewrite Hbar. cbn [mbind option_bind]. rewrite Hrows.
  eexists. split; [reflexivity|]. split; [simpl; rewrite length_app; simpl; lia|].
  intros Hv Hf Hs. replace (max_visible lines + 8) with (max_visible lines + 4 + 4) by lia.
  apply Forall_cons. split; [by eapply border_width; eauto|]. apply Forall_app. split.
  - apply Hw, Forall_forall. intros l Hl. by apply Hplain.
  - apply Forall_singleton. by eapply border_width; eauto.
Qed.

(** ** Examples *)

Module Examples.
Example visible_escapes : visibleLen (green +:+ "● ok" +:+ reset) = 4.
Proof. reflexivity. Qed.

Example connected_box :
  match PrintBox "1.2" "https://abc.example.com" "localhost:3000" "example.com:4443" "connected" with
  | Some rows => forallb (fun row => visibleLen row =? 43) rows && (length rows =? 8)%nat
  | None => false
  end = true.
Proof. vm_compute. reflexivity. Qed.

Example sizes :
  map fmtBytes [0; 1023; 1024; 1280; 1536000; 1048575; 2 ^ 53 + 1]
  = ["0B"; "1023B"; "1.0KB"; "1.2KB"; "1.5MB"; "1024.0KB"; "8589934592.0MB"]%string.
Proof. vm_compute. reflexivity. Qed.

(** The path column truncates bytes: a path of 41 bytes whose 37th byte is the
    first half of a two-byte rune is cut inside the rune. *)
Example path_cut :
  let path := (repeat_string "a" 36 +:+ "é" +:+ "abc")%string in
  len path = 41 /\ path_column path = (repeat_string "a" 36 +:+ slice_to "é" 1 +:+ "...")%string.
Proof. vm_compute. done. Qed.
End Examples.
