(* ===== verification/Client.v ===== *)
(** * The client (internal/client)

    The handshake and the requests of [client.go] and [tunnel.go] and the
    reconnect loop of [reconnect.go] as programs over the connection; the two
    loops that run while a tunnel is served (heartbeats, accepting streams) as
    state machines over the events they receive.  What one accepted stream does
    is the relay of Relay.v. *)

From S2P Require Import Prelude Prog GoStrings Wire Subdomain TunnelManager Quota Auth KeyStore Config Server Permits Sessions Handlers Display.
Local Open Scope Z_scope.

(** ** Programs over a connection *)

Inductive cmsg :=
  | CAuth (m : AuthMsg)
  | CTunnelReq (m : TunnelRequestMsg)
  | CAccountInfo.

Inductive cliE : Type -> Type :=
  | CDial (addr : string) : cliE (option string)
  | CSend (m : cmsg) : cliE (option string)
  | CRecv : cliE (result string (MsgType * list byte))
  | CYamux : cliE (option string)
  | COpenControl : cliE (option string)
  | CCloseConn : cliE unit
  | CCloseSession : cliE unit
  | CNewClient : cliE unit
  | CClose : cliE unit
  | CCtxErr : cliE bool
  | CAfter (d : Z) : cliE bool
  | CPrint (rows : list string) : cliE unit
  | CServe (localPort : Z) : cliE (option string).


(** [json.Unmarshal] into the client's message types. *)
Class ServerJSON := {
  unmarshal_AuthResponse : list byte -> result string AuthResponseMsg;
  unmarshal_TunnelResponse : list byte -> result string TunnelResponseMsg;
  unmarshal_AccountInfo : list byte -> result string AccountInfoRespMsg;
  unmarshal_RequestLog : list byte -> result string RequestLogMsg;
}.

Section Programs.
Context `{ServerJSON}.

(** [if err != nil { conn.Close(); return ... }] *)
Definition fail_conn (msg : string) : prog cliE (option string) :=
  _ ← trigger CCloseConn; mret (Some msg).

(** [Client.Connect]: [None] for success. *)
Definition Connect (cfg : ClientConfig) : prog cliE (option string) :=
  dialed ← trigger (CDial (ServerAddr cfg));
  match dialed with
  | Some e => mret (Some ("dial " +:+ ServerAddr cfg +:+ ": " +:+ e))
  | None =>
    sent ← trigger (CSend (CAuth {| am_Token := Token cfg |}));
    match sent with
    | Some e => fail_conn ("send auth: " +:+ e)
    | None =>
      r ← trigger CRecv;
      match r with
      | Err e => fail_conn ("read auth response: " +:+ e)
      | Ok (msgType, raw) =>
        if negb (msgType =? MsgAuthResponse) then
          fail_conn ("unexpected message type " +:+ Itoa msgType +:+ " (want AuthResponse)")
        else match unmarshal_AuthResponse raw with
        | Err e => fail_conn ("decode auth response: " +:+ e)
        | Ok resp =>
          if negb (ar_Success resp) then fail_conn ("authentication failed: " +:+ ar_Message resp)
          else
            y ← trigger CYamux;
            match y with
            | Some e => fail_conn ("yamux client: " +:+ e)
            | None =>
              o ← trigger COpenControl;
              match o with
              | Some e => _ ← trigger CCloseSession; mret (Some ("open control stream: " +:+ e))
              | None => mret None
              end
            end
        end
      end
    end
  end.

Record TunnelInfo := { ti_URL : string; ti_RemotePort : Z; ti_LocalPort : Z }.

(** The request and the response that both tunnel requests consist of. *)
Definition request_tunnel (what : string) (req : TunnelRequestMsg)
    (k : TunnelResponseMsg -> TunnelInfo) : prog cliE (result string TunnelInfo) :=
  sent ← trigger (CSend (CTunnelReq req));
  match sent with
  | Some e => mret (Err ("send " +:+ what +:+ "tunnel request: " +:+ e))
  | None =>
    r ← trigger CRecv;
    match r with
    | Err e => mret (Err ("read " +:+ what +:+ "tunnel response: " +:+ e))
    | Ok (msgType, raw) =>
      if negb (msgType =? MsgTunnelResp) then mret (Err ("unexpected message type " +:+ Itoa msgType))
      else match unmarshal_TunnelResponse raw with
      | Err e => mret (Err ("decode " +:+ what +:+ "tunnel response: " +:+ e))
      | Ok resp =>
        if negb (tr_Success resp) then mret (Err (what +:+ "tunnel request failed: " +:+ tr_Message resp))
        else mret (Ok (k resp))
      end
    end
  end.

(** [RequestHTTPTunnel] *)
Definition RequestHTTPTunnel (localPort : Z) (subdomain : string) : prog cliE (result string TunnelInfo) :=
  request_tunnel "" {| tq_Type := TunnelHTTP; tq_Subdomain := subdomain; tq_LocalPort := localPort |}
    (fun resp => {| ti_URL := tr_URL resp; ti_RemotePort := 0; ti_LocalPort := localPort |}).

(** [RequestTCPTunnel] *)
Definition RequestTCPTunnel (localPort : Z) : prog cliE (result string TunnelInfo) :=
  request_tunnel "TCP " {| tq_Type := TunnelTCP; tq_Subdomain := ""; tq_LocalPort := localPort |}
    (fun resp => {| ti_URL := ""; ti_RemotePort := tr_RemotePort resp; ti_LocalPort := localPort |}).

(** [GetAccountInfo]; [AccountInfo] has the fields of the message. *)
Definition GetAccountInfo : prog cliE (result string AccountInfoRespMsg) :=
  sent ← trigger (CSend CAccountInfo);
  match sent with
  | Some e => mret (Err ("send account info request: " +:+ e))
  | None =>
    r ← trigger CRecv;
    match r with
    | Err e => mret (Err ("read account info response: " +:+ e))
    | Ok (msgType, raw) =>
      if negb (msgType =? MsgAccountInfoResp) then mret (Err ("unexpected message type " +:+ Itoa msgType))
      else match unmarshal_AccountInfo raw with
      | Err e => mret (Err ("decode account info: " +:+ e))
      | Ok info => mret (Ok info)
      end
    end
  end.

(** ** Reconnecting *)

Definition baseBackoff : Z := 1 * Second.
Definition maxBackoff : Z := 60 * Second.

(** [minDuration] *)
Definition minDuration (a b : Z) : Z := if a <? b then a else b.

(** [extractSubdomainFromURL] *)
Definition extractSubdomainFromURL (rawURL : string) : string :=
  let idx := String.length "https://" in
  let s := if (idx <? String.length rawURL)%nat then slice_from rawURL idx else rawURL in
  match IndexByte s "." with Some i => slice_to s i | None => s end.

(** [Reconnector]: what does not change, and the variables of [Run]. *)
Record Reconnector := { rc_cfg : ClientConfig; rc_tunnelType : string; rc_localPort : Z; rc_version : string }.
Record RunState := { rs_backoff : Z; rs_attempt : Z; rs_subdomain : string }.

(** [requestTunnel] *)
Definition requestTunnel (r : Reconnector) (subdomain : string) : prog cliE (result string TunnelInfo) :=
  if String.eqb (rc_tunnelType r) "http" then RequestHTTPTunnel (rc_localPort r) subdomain
  else if String.eqb (rc_tunnelType r) "tcp" then RequestTCPTunnel (rc_localPort r)
  else mret (Err ("unknown tunnel type " +:+ Quote (rc_tunnelType r))).

(** The variables after a failed round: the delay doubles. *)
Definition failed (st : RunState) : RunState :=
  {| rs_backoff := minDuration (rs_backoff st * 2) maxBackoff;
     rs_attempt := rs_attempt st + 1; rs_subdomain := rs_subdomain st |}.

(** The variables after a granted request. *)
Definition granted_info (r : Reconnector) (st : RunState) (info : TunnelInfo) : RunState :=
  {| rs_backoff := baseBackoff; rs_attempt := 0;
     rs_subdomain := if String.eqb (rc_tunnelType r) "http" && negb (String.eqb (ti_URL info) "")
                     then extractSubdomainFromURL (ti_URL info) else rs_subdomain st |}.

(** The address the status box shows. *)
Definition shown_tunnel (r : Reconnector) (info : TunnelInfo) : string :=
  if String.eqb (rc_tunnelType r) "http" && negb (String.eqb (ti_URL info) "") then ti_URL info
  else if String.eqb (rc_tunnelType r) "tcp" && (0 <? ti_RemotePort info) then
    "tcp://remote:" +:+ Itoa (ti_RemotePort info)
  else "".

(** [select { case <-ctx.Done(): return nil; case <-time.After(backoff): }]
    and the next round. *)
Definition wait_backoff (st : RunState) (again : RunState -> prog cliE (option (option string))) :
    prog cliE (option (option string)) :=
  cancelled ← trigger (CAfter (rs_backoff st));
  if cancelled : bool then mret (Some None) else again (failed st).

(** [Run]: the error it returns, or [None] while it still runs after [rounds]
    rounds. *)
Fixpoint Run (rounds : nat) (r : Reconnector) (st : RunState) : prog cliE (option (option string)) :=
  match rounds with
  | O => mret None
  | S rounds =>
      cancelled ← trigger CCtxErr;
      if cancelled : bool then mret (Some None) else
      _ ← trigger CNewClient;
      err ← Connect (rc_cfg r);
      match err with
      | Some _ => wait_backoff st (Run rounds r)
      | None =>
          res ← requestTunnel r (rs_subdomain st);
          match res with
          | Err _ => _ ← trigger CClose; wait_backoff st (Run rounds r)
          | Ok info =>
              match PrintBox (rc_version r) (shown_tunnel r info) ("localhost:" +:+ Itoa (rc_localPort r))
                      (ServerAddr (rc_cfg r)) "connected" with
              | None => Crash
              | Some rows =>
                  _ ← trigger (CPrint rows);
                  _ ← trigger (CServe (rc_localPort r));
                  _ ← trigger CClose;
                  cancelled ← trigger CCtxErr;
                  if cancelled : bool then mret (Some None) else Run rounds r (granted_info r st info)
              end
          end
      end
  end.

Definition start (subdomain : string) : RunState :=
  {| rs_backoff := baseBackoff; rs_attempt := 0; rs_subdomain := subdomain |}.

(** ** Serving: heartbeats and streams *)

Definition heartbeatInterval : Z := 30 * Second.
Definition maxHeartbeatMisses : Z := 3.

(** What the select of [runHeartbeat] receives. *)
Inductive hb_event :=
  | HMsg (m : result string (MsgType * list byte))
  | HTick (sent : option string)
  | HDone.

(** What a message makes [runHeartbeat] print, at the time [now]. *)
Definition hb_output (now : string) (ev : hb_event) : list string :=
  match ev with
  | HMsg (Ok (msgType, raw)) =>
      if msgType =? MsgHeartbeatAck then []
      else if msgType =? MsgRequestLog then
        match unmarshal_RequestLog raw with
        | Ok log => [PrintRequestLog now (rl_Method log) (rl_Path log) (rl_Status log) (rl_Size log) (rl_Duration log)]
        | Err _ => []
        end
      else []
  | _ => []
  end.

(** [runHeartbeat]: the misses so far while it runs, or its result. *)
Definition hb_step (misses : Z) (ev : hb_event) : Z + option string :=
  match ev with
  | HDone => inr None
  | HMsg (Err e) => inr (Some e)
  | HMsg (Ok (msgType, _)) => inl (if msgType =? MsgHeartbeatAck then 0 else misses)
  | HTick (Some e) => inr (Some ("send heartbeat: " +:+ e))
  | HTick None =>
      let misses := misses + 1 in
      if maxHeartbeatMisses <=? misses
      then inr (Some ("connection dead: " +:+ Itoa misses +:+ " consecutive missed heartbeats"))
      else inl misses
  end.

Fixpoint runHeartbeat (misses : Z) (evs : list hb_event) : Z + option string :=
  match evs with
  | [] => inl misses
  | ev :: evs => match hb_step misses ev with inl m => runHeartbeat m evs | inr r => inr r end
  end.

(** [ServeTunnel]: the streams handed to [handleStream] while it runs, or its
    result; an [AcceptStream] error ends it, as [nil] if the context is done. *)
Definition accept_step (streams : nat) (err : option string) (ctx_done : bool) : nat + option string :=
  match err with
  | None => inl (S streams)
  | Some e => inr (if ctx_done then None else Some ("accept stream: " +:+ e))
  end.

(** What happens while [runWithHeartbeat] waits: an event of either goroutine,
    or the context ends. *)
Inductive serve_event :=
  | SHeart (ev : hb_event)
  | SAccept (err : option string) (ctx_done : bool)
  | SDone.

(** [runWithHeartbeat]: the first result of either goroutine. *)
Fixpoint runWithHeartbeat (misses : Z) (streams : nat) (evs : list serve_event) : (Z * nat) + option string :=
  match evs with
  | [] => inl (misses, streams)
  | SDone :: _ => inr None
  | SHeart ev :: evs =>
      match hb_step misses ev with inl m => runWithHeartbeat m streams evs | inr r => inr r end
  | SAccept err ctx_done :: evs =>
      match accept_step streams err ctx_done with inl n => runWithHeartbeat misses n evs | inr r => inr r end
  end.
End Programs.

(** ** The connection *)

Record Conn := {
  cn_open : bool;
  cn_session : bool;
  cn_control : bool;
  cn_sent : list cmsg;
  cn_received : list (MsgType * list byte);
}.

Definition no_conn : Conn :=
  {| cn_open := false; cn_session := false; cn_control := false; cn_sent := []; cn_received := [] |}.

(** What the reconnector does, in order: a new client (was the connection of
    the one before still open?), a delay, a served tunnel; and what it printed. *)
Inductive run_ev := RNewClient (leaked : bool) | RWait (d : Z) | RServed | RCancelled.

#[export] Instance TunnelRequestMsg_eq_dec : EqDecision TunnelRequestMsg.
Proof. solve_decision. Defined.

(** The messages of a run in order, over all its connections: sent by [CSend],
    received by [CRecv]. *)
Inductive wire_ev := Sent (m : cmsg) | Got (m : MsgType * list byte).

Record World := { w_conn : Conn; w_trace : list run_ev; w_out : list string; w_wire : list wire_ev }.

(** The outcomes of I/O. *)
Record cli_supply := {
  k_err : option string;
  k_recv : result string (MsgType * list byte);
  k_cancelled : bool;
  k_events : list serve_event;
}.

(** Operations of the connection; closing the session closes the connection
    underneath. *)
Definition set_conn (w : World) (n : Conn) : World :=
  {| w_conn := n; w_trace := w_trace w; w_out := w_out w; w_wire := w_wire w |}.
Definition log_wire (w : World) (evs : list wire_ev) : World :=
  {| w_conn := w_conn w; w_trace := w_trace w; w_out := w_out w; w_wire := w_wire w ++ evs |}.
Definition log_ev (w : World) (ev : run_ev) : World :=
  {| w_conn := w_conn w; w_trace := w_trace w ++ [ev]; w_out := w_out w; w_wire := w_wire w |}.
Definition log_cancel (w : World) (c : bool) : World := if c then log_ev w RCancelled else w.
Definition closed (n : Conn) : Conn :=
  {| cn_open := false; cn_session := false; cn_control := cn_control n; cn_sent := cn_sent n; cn_received := cn_received n |}.

Definition cli_exec (R : Type) (e : cliE R) (c : cli_supply) (w : World) : option (World * R) :=
  let n := w_conn w in
  let set o y k sent recv :=
    set_conn w {| cn_open := o; cn_session := y; cn_control := k; cn_sent := sent; cn_received := recv |} in
  let ok := match k_err c with None => true | Some _ => false end in
  match e in cliE R return option (World * R) with
  | CDial _ => Some (set (cn_open n || ok) (cn_session n) (cn_control n) (cn_sent n) (cn_received n), k_err c)
  | CSend m => Some (log_wire (set (cn_open n) (cn_session n) (cn_control n)
                                 (if ok then cn_sent n ++ [m] else cn_sent n) (cn_received n))
                       (if ok then [Sent m] else []), k_err c)
  | CRecv => Some (log_wire (set (cn_open n) (cn_session n) (cn_control n) (cn_sent n)
                               (match k_recv c with Ok m => cn_received n ++ [m] | Err _ => cn_received n end))
                     (match k_recv c with Ok m => [Got m] | Err _ => [] end), k_recv c)
  | CYamux => Some (set (cn_open n) (cn_session n || ok) (cn_control n) (cn_sent n) (cn_received n), k_err c)
  | COpenControl => Some (set (cn_open n) (cn_session n) (cn_control n || ok) (cn_sent n) (cn_received n), k_err c)
  | CCloseConn => Some (set false (cn_session n) (cn_control n) (cn_sent n) (cn_received n), tt)
  | CCloseSession => Some (set false false (cn_control n) (cn_sent n) (cn_received n), tt)
  | CNewClient => Some (log_ev (set_conn w no_conn) (RNewClient (cn_open n || cn_session n)), tt)
  | CClose => Some (set_conn w (closed n), tt)
  | CCtxErr => Some (log_cancel w (k_cancelled c), k_cancelled c)
  | CAfter d => Some (if k_cancelled c then log_ev w RCancelled else log_ev w (RWait d), k_cancelled c)
  | CPrint rows => Some ({| w_conn := n; w_trace := w_trace w; w_out := w_out w ++ rows; w_wire := w_wire w |}, tt)
  | CServe _ =>
      match runWithHeartbeat 0 0 (k_events c) with
      | inr err => Some (log_ev w RServed, err)
      | inl _ => None
      end
  end.

Section Properties.
Context `{ServerJSON}.

Abbreviation cwp := (wp cli_exec).

Ltac cstep := apply wp_trigger; let c := fresh "c" in let He := fresh "He" in
  intros c ? ? He; cbn [cli_exec] in He; injection He as <- <-.

(** What [Connect] leaves behind. *)
Definition connected (cfg : ClientConfig) (w : World) (err : option string) (w' : World) : Prop :=
  let n := w_conn w' in w_trace w' = w_trace w /\ w_out w' = w_out w /\
  match err with
  | None => cn_open n = true /\ cn_session n = true /\ cn_control n = true /\
      cn_sent n = [CAuth {| am_Token := Token cfg |}] /\
      exists raw resp, cn_received n = [(MsgAuthResponse, raw)] /\
        unmarshal_AuthResponse raw = Ok resp /\ ar_Success resp = true /\
        w_wire w' = w_wire w ++ [Sent (CAuth {| am_Token := Token cfg |}); Got (MsgAuthResponse, raw)]
  | Some _ => cn_open n = false /\ cn_session n = false /\ w_wire w `prefix_of` w_wire w'
  end.

Ltac heard := cbn [w_wire log_wire set_conn]; rewrite ?app_nil_r; first [reflexivity | by rewrite <- app_assoc | by apply prefix_app_r | by do 2 apply prefix_app_r].

Lemma wp_Connect cfg w : w_conn w = no_conn -> cwp (Connect cfg) (connected cfg w) w.
Proof.
  destruct w as [n tr out wi]. cbn [w_conn]. intros ->.
  unfold Connect, fail_conn. cstep. destruct (k_err c) eqn:E0; [by split_and!; try heard|].
  cstep. destruct (k_err c0) eqn:E1; [cstep; by split_and!; try heard|].
  cstep. destruct (k_recv c1) as [[msgType raw]|e] eqn:E2; [|cstep; by split_and!; try heard].
  destruct (msgType =? MsgAuthResponse) eqn:Et; cbn [negb]; [|cstep; by split_and!; try heard].
  apply Z.eqb_eq in Et as ->.
  destruct (unmarshal_AuthResponse raw) as [resp|e] eqn:Eu; [|cstep; by split_and!; try heard].
  destruct (ar_Success resp) eqn:Es; cbn [negb]; [|cstep; by split_and!; try heard].
  cstep. destruct (k_err c2) eqn:E3; [cstep; by split_and!; try heard|].
  cstep. destruct (k_err c3) eqn:E4; [cstep; by split_and!; try heard|].
  split_and!; try done. exists raw, resp. by split_and!; try heard.
Qed.

(** C21: [Connect] reports success only when the server has answered the token
    with a successful AuthResponse and the session and its control stream are
    open; on every error, wherever it occurs, neither the connection nor the
    session stays open. *)
Theorem Connect_spec cfg cs w w' r rest :
  w_conn w = no_conn -> run cli_exec (Connect cfg) cs w = Some (w', r, rest) ->
  exists err, r = Some err /\ connected cfg w err w'.
Proof. intros Hw. by apply wp_run, wp_Connect. Qed.

(** What a tunnel request leaves behind. *)
Definition requested_of (req : TunnelRequestMsg) (k : TunnelResponseMsg -> TunnelInfo) (w : World)
    (res : result string TunnelInfo) (w' : World) : Prop :=
  let n := w_conn w in let n' := w_conn w' in
  w_trace w' = w_trace w /\ w_out w' = w_out w /\ cn_open n' = cn_open n /\ cn_session n' = cn_session n /\
  match res with
  | Ok info => cn_sent n' = cn_sent n ++ [CTunnelReq req] /\
      exists raw resp, cn_received n' = cn_received n ++ [(MsgTunnelResp, raw)] /\
        unmarshal_TunnelResponse raw = Ok resp /\ tr_Success resp = true /\ info = k resp
  | Err _ => cn_sent n' = cn_sent n \/ cn_sent n' = cn_sent n ++ [CTunnelReq req]
  end.

Lemma wp_request_tunnel what req k w :
  cwp (request_tunnel what req k) (requested_of req k w) w.
Proof.
  unfold request_tunnel. cstep. destruct (k_err c) eqn:E0; [by split_and!; try left|].
  cstep. destruct (k_recv c0) as [[msgType raw]|e] eqn:E1; [|by split_and!; try right].
  destruct (msgType =? MsgTunnelResp) eqn:Et; cbn [negb]; [|by split_and!; try right].
  apply Z.eqb_eq in Et as ->.
  destruct (unmarshal_TunnelResponse raw) as [resp|e] eqn:Eu; [|by split_and!; try right].
  destruct (tr_Success resp) eqn:Es; cbn [negb]; [|by split_and!; try right].
  split_and!; try done. cbn. eauto 10.
Qed.

(** The request that [requestTunnel] makes, by the kind of tunnel. *)
Definition tunnel_result (rc : Reconnector) (sub : string) (w : World)
    (res : result string TunnelInfo) (w' : World) : Prop :=
  if String.eqb (rc_tunnelType rc) "http" then
    requested_of {| tq_Type := TunnelHTTP; tq_Subdomain := sub; tq_LocalPort := rc_localPort rc |}
      (fun resp => {| ti_URL := tr_URL resp; ti_RemotePort := 0; ti_LocalPort := rc_localPort rc |}) w res w'
  else if String.eqb (rc_tunnelType rc) "tcp" then
    requested_of {| tq_Type := TunnelTCP; tq_Subdomain := ""; tq_LocalPort := rc_localPort rc |}
      (fun resp => {| ti_URL := ""; ti_RemotePort := tr_RemotePort resp; ti_LocalPort := rc_localPort rc |}) w res w'
  else w' = w /\ exists e, res = Err e.

Lemma wp_requestTunnel rc sub w : cwp (requestTunnel rc sub) (tunnel_result rc sub w) w.
Proof.
  unfold requestTunnel, tunnel_result.
  destruct (String.eqb (rc_tunnelType rc) "http"); [apply wp_request_tunnel|].
  destruct (String.eqb (rc_tunnelType rc) "tcp"); [apply wp_request_tunnel|].
  cbn. eauto.
Qed.

(** A tunnel request of the reconnector sends exactly one request, for its
    type, port and (over HTTP) the subdomain it last had, and reports a tunnel
    only from a successful response that answers it. *)
Theorem requestTunnel_spec rc sub cs w w' r rest :
  run cli_exec (requestTunnel rc sub) cs w = Some (w', r, rest) ->
  exists res, r = Some res /\ tunnel_result rc sub w res w'.
Proof. apply wp_run, wp_requestTunnel. Qed.

Lemma tunnel_result_trace rc sub w res w' : tunnel_result rc sub w res w' -> w_trace w' = w_trace w.
Proof. unfold tunnel_result, requested_of. repeat case_match; naive_solver. Qed.

(** ** The reconnect loop *)

(** The documented delay before the [k]-th consecutive retry. *)
Definition delay (k : nat) : Z := Z.min (2 ^ Z.of_nat k * baseBackoff) maxBackoff.

Lemma delay_step k : minDuration (delay k * 2) maxBackoff = delay (S k).
Proof.
  unfold minDuration, delay, baseBackoff, maxBackoff. rewrite Nat2Z.inj_succ, Z.pow_succ_r by lia.
  assert (Second = 1000000000) as -> by reflexivity.
  assert (0 < 2 ^ Z.of_nat k) by (apply Z.pow_pos_nonneg; lia).
  match goal with |- (if ?a <? ?b then _ else _) = _ => destruct (Z.ltb_spec a b) end; lia.
Qed.

Lemma delay_0 : baseBackoff = delay 0.
Proof. reflexivity. Qed.

(** The rounds of a reconnector whose last [k] rounds have failed: no client is
    made while the connection of the one before is open; a failed round waits,
    as scheduled; a served round starts the schedule again. *)
Fixpoint well_run (k : nat) (tr : list run_ev) : Prop :=
  match tr with
  | [] => True
  | RCancelled :: tr => tr = []
  | RNewClient leaked :: RWait d :: tr => leaked = false /\ d = delay k /\ well_run (S k) tr
  | RNewClient leaked :: RServed :: tr => leaked = false /\ well_run 0 tr
  | RNewClient leaked :: RCancelled :: tr => leaked = false /\ tr = []
  | _ => False
  end.

Definition is_new (ev : run_ev) : bool := match ev with RNewClient _ => true | _ => false end.

(** What [n] rounds of [Run] do after [k] failed ones. *)
Definition ran (k n : nat) (w : World) (res : option (option string)) (w' : World) : Prop :=
  cn_open (w_conn w') = false /\ cn_session (w_conn w') = false /\
  exists tr, w_trace w' = w_trace w ++ tr /\ well_run k tr /\
    match res with
    | None => ~ (RCancelled ∈ tr) /\ length (filter is_new tr) = n
    | Some err => err = None /\ exists tr0, tr = tr0 ++ [RCancelled]
    end.

Lemma ran_stop k n w w' tr :
  cn_open (w_conn w') = false -> cn_session (w_conn w') = false ->
  w_trace w' = w_trace w ++ tr -> well_run k (tr ++ [RCancelled]) ->
  ran k n w (Some None) (log_ev w' RCancelled).
Proof.
  intros Ho Hs Ht Hw. split_and!; [done..|]. exists (tr ++ [RCancelled]).
  split_and!; [by rewrite app_assoc, <- Ht | done | done | by exists tr].
Qed.

(** One more round before [n] rounds that run. *)
Lemma ran_round k k' n w w1 w2 res (round : list run_ev) :
  w_trace w1 = w_trace w ++ round -> RCancelled ∉ round -> length (filter is_new round) = 1%nat ->
  (forall tr, well_run k' tr -> well_run k (round ++ tr)) ->
  ran k' n w1 res w2 -> ran k (S n) w res w2.
Proof.
  intros Ht Hc Hn Hw (Ho & Hs & tr & Ht2 & Hw2 & Hres). split_and!; [done..|].
  exists (round ++ tr). split_and!; [by rewrite Ht2, Ht, app_assoc | by apply Hw|].
  destruct res as [err|].
  - destruct Hres as [-> [tr0 ->]]. split; [done|]. exists (round ++ tr0). by rewrite app_assoc.
  - destruct Hres as [Hc2 Hn2]. rewrite filter_app, length_app, Hn. set_solver.
Qed.

Definition idle_world (w : World) : Prop := cn_open (w_conn w) = false /\ cn_session (w_conn w) = false.

(** A failed round. *)
Lemma wp_wait_backoff k n st w w1 again :
  rs_backoff st = delay k -> idle_world w1 -> w_trace w1 = w_trace w ++ [RNewClient false] ->
  (forall w2, idle_world w2 -> rs_backoff (failed st) = delay (S k) ->
     cwp (again (failed st)) (ran (S k) n w2) w2) ->
  cwp (wait_backoff st again) (ran k (S n) w) w1.
Proof.
  intros Hst [Ho Hs] Ht Hagain. unfold wait_backoff. cstep. destruct (k_cancelled c) eqn:Ec.
  - by eapply ran_stop.
  - eapply wp_mono; [|apply Hagain; [by split | cbn [failed rs_backoff]; rewrite Hst; apply delay_step]].
    intros res w3. eapply (ran_round k (S k) n w _ w3 res [RNewClient false; RWait (rs_backoff st)]);
      [cbn; by rewrite Ht, <- app_assoc | set_solver | done |].
    intros tr Htr. by rewrite Hst.
Qed.

Lemma wp_Run n r st k w :
  rs_backoff st = delay k -> idle_world w -> cwp (Run n r st) (ran k n w) w.
Proof.
  revert st k w. induction n as [|n IH]; intros st k w Hst [Ho Hs].
  { split_and!; [done..|]. exists []. rewrite app_nil_r. split_and!; [done | done | set_solver | done]. }
  cbn [Run]. cstep. destruct (k_cancelled c) eqn:Ec.
  { cbn [log_cancel]. by eapply (ran_stop k (S n) w w []); rewrite ?app_nil_r. }
  cstep. cbn [log_cancel]. rewrite Ho, Hs. cbn [orb].
  eapply wp_seq; [by apply wp_Connect|]. intros err w1 (Ht1 & _ & Hconn).
  cbn in Ht1. destruct err as [e|]; [destruct Hconn as (? & ? & _); apply (wp_wait_backoff k n st w w1); auto; by split|].
  destruct Hconn as (Ho1 & Hs1 & _).
  eapply wp_seq; [apply wp_requestTunnel|]. intros res w2 Hres. apply tunnel_result_trace in Hres as Ht2.
  rewrite Ht1 in Ht2. destruct res as [info|e].
  - destruct (PrintBox_aligned (rc_version r) (shown_tunnel r info) ("localhost:" +:+ Itoa (rc_localPort r))
                (ServerAddr (rc_cfg r)) "connected") as (rows & -> & _).
    cstep. apply wp_trigger. intros c2 w3 err Hserve. cbn [cli_exec] in Hserve.
    destruct (runWithHeartbeat 0 0 (k_events c2)); [done|]. injection Hserve as <- <-.
    cstep. cstep.
    assert (forall tr, well_run 0 tr -> well_run k ([RNewClient false; RServed] ++ tr)) as Hwr by done.
    destruct (k_cancelled c4) eqn:Ec4; cbn [log_cancel].
    + eapply (ran_stop k (S n) w _ [RNewClient false; RServed]); [done..| |by apply Hwr].
      cbn. by rewrite Ht2, <- app_assoc.
    + eapply wp_mono; [|apply (IH _ 0%nat); [apply delay_0 | by split]].
      intros res w5. eapply ran_round; [cbn; by rewrite Ht2, <- app_assoc | set_solver | done | done].
  - cstep. apply (wp_wait_backoff k n st w _); [done | by split | cbn; by rewrite Ht2 | auto].
Qed.

(** C9: the reconnector never gives up and never errs: whatever the network
    does, [Run] does not panic, it still runs after any number of rounds or has
    seen its context cancelled, it returns only [nil], it never opens a
    connection before the one before is closed, and the delay before the
    [k]-th consecutive retry is [min(2^k s, 60 s)], counted from the last
    served round. *)
Theorem Run_spec n r subdomain cs w w' res rest :
  idle_world w -> run cli_exec (Run n r (start subdomain)) cs w = Some (w', res, rest) ->
  exists out, res = Some out /\ ran 0 n w out w'.
Proof. intros Hw. by apply wp_run, wp_Run. Qed.
(** ** The subdomain survives a reconnection *)

Lemma extractSubdomainFromURL_public sub dom :
  IndexByte sub "." = None -> extractSubdomainFromURL ("https://" +:+ sub +:+ "." +:+ dom) = sub.
Proof.
  intros Hs. unfold extractSubdomainFromURL.
  assert ((String.length "https://" <? String.length ("https://" +:+ sub +:+ "." +:+ dom))%nat = true) as ->.
  { apply Nat.ltb_lt. rewrite !length_string_app. simpl. lia. }
  rewrite slice_from_app. change (sub +:+ "." +:+ dom) with (sub +:+ String "." dom).
  rewrite IndexByte_sep by done. apply slice_to_app.
Qed.

(** The request [Run] makes for an HTTP tunnel, and the subdomain it goes on
    with after a response: the one of the address it was granted. *)
Definition http_request (rc : Reconnector) (sub : string) : TunnelRequestMsg :=
  {| tq_Type := TunnelHTTP; tq_Subdomain := sub; tq_LocalPort := rc_localPort rc |}.
Definition granted_by (raw : list byte) (sub : string) : string :=
  match unmarshal_TunnelResponse raw with
  | Ok resp => if tr_Success resp && negb (String.eqb (tr_URL resp) "") then extractSubdomainFromURL (tr_URL resp) else sub
  | Err _ => sub
  end.

(** A history of messages read by the rule: every tunnel request asks for the
    subdomain of the last grant, [st.1]; [st.2]: a request waits for its answer.
    [None]: a request asked for something else. *)
Definition wire_step (rc : Reconnector) (st : string * bool) (ev : wire_ev) : option (string * bool) :=
  match ev with
  | Sent (CTunnelReq m) => if decide (m = http_request rc st.1) then Some (st.1, true) else None
  | Sent _ => Some (st.1, false)
  | Got (t, raw) => Some (if st.2 && (t =? MsgTunnelResp) then granted_by raw st.1 else st.1, false)
  end.
Fixpoint wire_run (rc : Reconnector) (st : string * bool) (h : list wire_ev) : option (string * bool) :=
  match h with [] => Some st | ev :: h => st ← wire_step rc st ev; wire_run rc st h end.

Lemma wire_run_app rc st h1 h2 :
  wire_run rc st (h1 ++ h2) = (st ← wire_run rc st h1; wire_run rc st h2).
Proof. revert st. induction h1 as [|ev h1 IH]; intros st; simpl; [done|]. destruct (wire_step rc st ev); [apply IH | done]. Qed.

(** What a part of [Run] adds to the history keeps to the rule and ends with the
    subdomain [sub']. *)
Definition follows (rc : Reconnector) (sub sub' : string) (w w' : World) : Prop :=
  exists h, w_wire w' = w_wire w ++ h /\ forall b, exists b', wire_run rc (sub, b) h = Some (sub', b').

Lemma follows_refl rc sub w : follows rc sub sub w w.
Proof. exists []. split; [by rewrite app_nil_r | intros b; by exists b]. Qed.

Lemma follows_trans rc sub1 sub2 sub3 w1 w2 w3 :
  follows rc sub1 sub2 w1 w2 -> follows rc sub2 sub3 w2 w3 -> follows rc sub1 sub3 w1 w3.
Proof.
  intros (h1 & E1 & H1) (h2 & E2 & H2). exists (h1 ++ h2). split; [by rewrite E2, E1, app_assoc|].
  intros b. destruct (H1 b) as [b1 Hb1]. rewrite wire_run_app, Hb1. apply H2.
Qed.

(** The same history. *)
Lemma follows_silent rc sub w1 w2 w3 sub' :
  w_wire w2 = w_wire w1 -> follows rc sub sub' w2 w3 -> follows rc sub sub' w1 w3.
Proof. intros E (h & Eh & Hh). exists h. by rewrite <- E. Qed.

Ltac wire := eexists; split;
  [cbn; first [exact (eq_sym (app_nil_r _)) | rewrite <- ?app_assoc; reflexivity] | intros b; cbn; by eexists].

Lemma wp_Connect_wire rc cfg sub w : cwp (Connect cfg) (fun _ w' => follows rc sub sub w w') w.
Proof.
  unfold Connect, fail_conn. cstep. destruct (k_err c) eqn:E0; [wire|].
  cstep. destruct (k_err c0) eqn:E1; [cstep; wire|].
  cstep. destruct (k_recv c1) as [[msgType raw]|e] eqn:E2; [|cstep; wire].
  destruct (negb (msgType =? MsgAuthResponse)); [cstep; wire|].
  destruct (unmarshal_AuthResponse raw) as [resp|e]; [|cstep; wire].
  destruct (negb (ar_Success resp)); [cstep; wire|].
  cstep. destruct (k_err c2) eqn:E3; [cstep; wire|].
  cstep. destruct (k_err c3) eqn:E4; [cstep; wire|]. wire.
Qed.

(** The subdomain after the answer to a request. *)
Definition next_sub (rc : Reconnector) (sub : string) (res : result string TunnelInfo) : string :=
  match res with Ok info => rs_subdomain (granted_info rc (start sub) info) | Err _ => sub end.

Lemma wp_requestTunnel_wire rc sub w :
  rc_tunnelType rc = "http"%string ->
  cwp (requestTunnel rc sub) (fun res w' => follows rc sub (next_sub rc sub res) w w') w.
Proof.
  intros Hty. unfold requestTunnel, next_sub, granted_info. rewrite Hty. cbn [String.eqb Ascii.eqb Bool.eqb andb].
  unfold RequestHTTPTunnel, request_tunnel. cstep. destruct (k_err c) eqn:E0; [wire|].
  assert (forall b raw, wire_run rc (sub, b) [Sent (CTunnelReq (http_request rc sub)); Got (MsgTunnelResp, raw)]
            = Some (granted_by raw sub, false)) as Hrun.
  { intros b raw. cbn [wire_run wire_step fst snd]. by rewrite decide_True. }
  assert (forall b t raw, t <> MsgTunnelResp ->
            wire_run rc (sub, b) [Sent (CTunnelReq (http_request rc sub)); Got (t, raw)] = Some (sub, false)) as Hother.
  { intros b t raw Ht. cbn [wire_run wire_step fst snd]. rewrite decide_True by done. cbn.
    by apply Z.eqb_neq in Ht as ->. }
  cstep. destruct (k_recv c0) as [[msgType raw]|e] eqn:E1.
  2: { eexists. split; [cbn; by rewrite app_nil_r|]. intros b. cbn. rewrite decide_True by done. by eauto. }
  assert (forall sub' b, wire_run rc (sub, b) [Sent (CTunnelReq (http_request rc sub)); Got (msgType, raw)] = Some (sub', false) ->
            exists b', wire_run rc (sub, b) [Sent (CTunnelReq (http_request rc sub)); Got (msgType, raw)] = Some (sub', b')) as Hex by eauto.
  destruct (Z.eqb_spec msgType MsgTunnelResp) as [->|Ht]; cbn [negb].
  2: { eexists. split; [cbn; by rewrite <- app_assoc|]. intros b. by apply Hex, Hother. }
  unfold granted_by in Hrun.
  destruct (unmarshal_TunnelResponse raw) as [resp|e] eqn:Eu;
    [destruct (tr_Success resp) eqn:Es; cbn [negb]|];
    (eexists; split; [cbn; by rewrite <- app_assoc|]; intros b; apply Hex; by rewrite Hrun, Eu, ?Es).
Qed.

Lemma wp_wait_wire rc st w again :
  (forall w2, cwp (again (failed st)) (fun _ w' => exists sub', follows rc (rs_subdomain st) sub' w2 w') w2) ->
  cwp (wait_backoff st again) (fun _ w' => exists sub', follows rc (rs_subdomain st) sub' w w') w.
Proof.
  intros Hagain. unfold wait_backoff. cstep. destruct (k_cancelled c).
  - exists (rs_subdomain st). wire.
  - eapply wp_mono; [|apply Hagain]. intros res w3 [sub' Hw]. exists sub'. by eapply follows_silent, Hw.
Qed.

(** [Run] keeps to the rule. *)
Lemma wp_Run_wire n rc st w :
  rc_tunnelType rc = "http"%string ->
  cwp (Run n rc st) (fun _ w' => exists sub', follows rc (rs_subdomain st) sub' w w') w.
Proof.
  intros Hty. revert st w. induction n as [|n IH]; intros st w; [eexists; apply follows_refl|].
  cbn [Run]. cstep. destruct (k_cancelled c); [exists (rs_subdomain st); wire|]. cbn [log_cancel]. cstep.
  eapply wp_seq; [apply (wp_Connect_wire rc)|]. intros err w1 Hc.
  assert (forall w1 w2, follows rc (rs_subdomain st) (rs_subdomain st) w w1 ->
            w_wire w2 = w_wire w1 -> cwp (wait_backoff st (Run n rc)) (fun _ w' => exists sub', follows rc (rs_subdomain st) sub' w w') w2) as Hwait.
  { intros w3 w4 H1 E. eapply wp_mono; [|apply (wp_wait_wire rc st w4); intros w5; apply (IH (failed st))].
    intros res w6 [sub' Hw]. exists sub'. eapply follows_trans; [exact H1|]. by eapply follows_silent. }
  eapply (follows_silent rc _ w) in Hc; [|done].
  destruct err as [e|]; [by apply (Hwait w1)|].
  eapply wp_seq; [by apply wp_requestTunnel_wire|]. intros res w2 Hr.
  pose proof (follows_trans _ _ _ _ _ _ _ Hc Hr) as Hw. destruct res as [info|e]; cbn [next_sub] in Hw.
  2: { cstep. by apply (Hwait w2). }
  destruct (PrintBox _ _ _ _ _) as [rows|] eqn:Ep.
  2: { by destruct (PrintBox_aligned (rc_version rc) (shown_tunnel rc info) ("localhost:" +:+ Itoa (rc_localPort rc))
                   (ServerAddr (rc_cfg rc)) "connected") as (? & Ep' & _); rewrite Ep' in Ep. }
  cstep. apply wp_trigger. intros c2 w3 err Hserve. cbn [cli_exec] in Hserve.
  destruct (runWithHeartbeat 0 0 (k_events c2)); [done|]. injection Hserve as <- <-. cstep. cstep.
  destruct (k_cancelled c4); cbn [log_cancel].
  - eexists. eapply follows_trans; [exact Hw|]. wire.
  - eapply wp_mono; [|apply IH]. intros res w5 [sub' Hf]. exists sub'. eapply follows_trans; [exact Hw|].
    by eapply follows_silent.
Qed.

Definition is_request (ev : wire_ev) : bool := match ev with Sent (CTunnelReq _) => true | _ => false end.

Lemma wire_run_quiet rc st h :
  Forall (fun ev => is_request ev = false) h -> st.2 = false -> wire_run rc st h = Some (st.1, false).
Proof.
  intros Hh. revert st. induction Hh as [|ev h Hev Hh IH]; intros [sub b] Hb; simpl in *; [by subst|].
  destruct ev as [[| |]|[t raw]]; try done; simpl; [by rewrite IH..|]. rewrite Hb. by rewrite IH.
Qed.

(** C15: what the server grants is what [Run] asks for again.  Take the messages
    of a run of the reconnector of an HTTP tunnel, in which a request is answered
    by the response with which the server has filed an HTTP tunnel: the next
    request of the run, however many reconnections later, asks for the very
    subdomain it is filed under, whether the client had chosen it or the server
    had drawn it. *)
Theorem reconnect_asks_same {L : Type} n rc sub cs w w' res rest pre m0 raw mid m post
    token req l ts (s s' : Server L) resp :
  rc_tunnelType rc = "http"%string -> w_wire w = [] ->
  run cli_exec (Run n rc (start sub)) cs w = Some (w', res, rest) ->
  w_wire w' = pre ++ Sent (CTunnelReq m0) :: Got (MsgTunnelResp, raw) :: mid ++ Sent (CTunnelReq m) :: post ->
  Forall (fun ev => is_request ev = false) mid ->
  unmarshal_TunnelResponse raw = Ok resp -> filed token req l ts s s' resp -> tq_Type req = TunnelHTTP ->
  tq_Type m = TunnelHTTP /\ tq_LocalPort m = rc_localPort rc /\
  httpTunnels (srv_tunnelManager s') !! tq_Subdomain m = Some l.
Proof.
  intros Hty Hw0 Hrun Hwire Hmid Hun Hf Hreq.
  destruct (wp_run _ _ _ _ _ _ _ _ (wp_Run_wire n rc (start sub) w Hty) Hrun) as (out & _ & sub' & h & Eh & Hh).
  rewrite Hw0 in Eh. simpl in Eh. rewrite Eh in Hwire. subst h. destruct (Hh false) as [b' Hb]. clear Hh.
  rewrite wire_run_app in Hb. destruct (wire_run rc _ pre) as [[sub1 b1]|]; [|done].
  cbn [mbind option_bind wire_run wire_step fst] in Hb. destruct (decide (m0 = _)) as [_|]; [|done].
  cbn [mbind option_bind wire_run wire_step fst snd andb] in Hb. rewrite Z.eqb_refl in Hb.
  rewrite wire_run_app, wire_run_quiet in Hb by done.
  cbn [mbind option_bind wire_run wire_step fst snd] in Hb. destruct (decide (m = _)) as [->|]; [|done].
  cbn [http_request tq_Type tq_LocalPort tq_Subdomain]. split_and!; [done..|].
  destruct Hf as [sub2 _ Hs Hv _ _ Hlook _|port Htcp]; [|by rewrite Hreq in Htcp].
  apply ValidateSubdomain_None in Hv as Hrule. apply lr_chars, label_chars in Hrule as (_ & _ & Hdot).
  unfold granted_by. rewrite Hun. cbn [tr_Success tr_URL andb]. rewrite extractSubdomainFromURL_public by done.
  by rewrite Hlook, lookup_insert_eq.
Qed.

(** ** Delays *)

Lemma delay_bounds k : baseBackoff <= delay k <= maxBackoff.
Proof.
  unfold delay, baseBackoff, maxBackoff. assert (Second = 1000000000) as -> by reflexivity.
  assert (0 < 2 ^ Z.of_nat k) by (apply Z.pow_pos_nonneg; lia). lia.
Qed.

Lemma delay_saturates k : (6 <= k)%nat -> delay k = maxBackoff.
Proof.
  intros Hk. unfold delay, baseBackoff, maxBackoff. assert (Second = 1000000000) as -> by reflexivity.
  assert (2 ^ 6 <= 2 ^ Z.of_nat k) by (apply Z.pow_le_mono_r; lia). change (2 ^ 6) with 64 in *. lia.
Qed.

Lemma well_run_waits k tr d : well_run k tr -> RWait d ∈ tr -> baseBackoff <= d <= maxBackoff.
Proof.
  revert k. induction tr as [tr IH] using (induction_ltof1 _ (@length _)). unfold ltof in IH.
  intros k Hw Hd.
  destruct tr as [|[leaked| | |] tr]; simpl in Hw; try done; [by apply elem_of_nil in Hd| |].
  - destruct tr as [|[|d'| |] tr]; try done;
      [destruct Hw as (_ & -> & Hw) | destruct Hw as (_ & Hw) | destruct Hw as (_ & ->)].
    + rewrite !elem_of_cons in Hd. destruct Hd as [|[[= ->]|Hd]]; [done | apply delay_bounds |].
      eapply (IH tr); [simpl; lia | exact Hw | exact Hd].
    + rewrite !elem_of_cons in Hd. destruct Hd as [|[|Hd]]; [done..|].
      eapply (IH tr); [simpl; lia | exact Hw | exact Hd].
    + set_solver.
  - set_solver.
Qed.

(** However long it runs, the reconnector never waits less than a second or
    more than a minute, and the doubled delay stays far within an int64. *)
Theorem backoff_bounds n r subdomain cs w w' res rest d :
  idle_world w -> w_trace w = [] ->
  run cli_exec (Run n r (start subdomain)) cs w = Some (w', res, rest) ->
  RWait d ∈ w_trace w' -> 1 * Second <= d <= 60 * Second /\ in_int64 (d * 2).
Proof.
  intros Hw Ht Hrun Hd.
  destruct (wp_run _ _ _ _ _ _ _ _ (wp_Run n r (start subdomain) 0 w eq_refl Hw) Hrun)
    as (out & _ & _ & _ & tr & Htr & Hwr & _).
  rewrite Ht in Htr. simpl in Htr. rewrite Htr in Hd.
  pose proof (well_run_waits 0 tr d Hwr Hd) as Hb. unfold baseBackoff, maxBackoff in Hb.
  split; [done|]. assert (Second = 1000000000) as HS by reflexivity. rewrite HS in Hb. unfold in_int64. lia.
Qed.

(** ** Heartbeats *)

Definition is_ack (ev : hb_event) : bool :=
  match ev with HMsg (Ok (t, _)) => t =? MsgHeartbeatAck | _ => false end.
Definition is_tick (ev : hb_event) : bool := match ev with HTick None => true | _ => false end.
(** No error, and the context not done. *)
Definition healthy (ev : hb_event) : bool :=
  match ev with HMsg (Ok _) | HTick None => true | _ => false end.

(** The heartbeats sent since the last acknowledgement, latest event first. *)
Fixpoint quiet_rev (evs : list hb_event) : Z :=
  match evs with
  | [] => 0
  | ev :: evs => if is_ack ev then 0 else (if is_tick ev then 1 else 0) + quiet_rev evs
  end.
Definition quiet_ticks (evs : list hb_event) : Z := quiet_rev (reverse evs).

Lemma quiet_ticks_snoc evs ev :
  quiet_ticks (evs ++ [ev]) = if is_ack ev then 0 else (if is_tick ev then 1 else 0) + quiet_ticks evs.
Proof. unfold quiet_ticks. by rewrite reverse_snoc. Qed.

Lemma runHeartbeat_snoc m evs ev :
  runHeartbeat m (evs ++ [ev]) = match runHeartbeat m evs with inl m => hb_step m ev | inr r => inr r end.
Proof.
  revert m. induction evs as [|e evs IH]; intros m; simpl; [by destruct (hb_step m ev)|].
  destruct (hb_step m e); [apply IH | done].
Qed.

Lemma hb_step_healthy m ev :
  healthy ev = true ->
  let m' := if is_ack ev then 0 else (if is_tick ev then 1 else 0) + m in
  hb_step m ev = if is_tick ev && (3 <=? m')
                 then inr (Some ("connection dead: " +:+ Itoa m' +:+ " consecutive missed heartbeats")) else inl m'.
Proof.
  destruct ev as [[[t raw]|e]|[e|]|]; try done; cbn [healthy is_ack is_tick hb_step].
  intros _. cbv zeta. rewrite (Z.add_comm 1 m). cbn [andb]. unfold maxHeartbeatMisses.
  by destruct (3 <=? m + 1).
Qed.

Definition dead : option string := Some "connection dead: 3 consecutive missed heartbeats"%string.

(** C16: on a connection on which nothing fails, the heartbeat loop goes on,
    counting the heartbeats sent since the last acknowledgement, exactly as
    long as there are fewer than three of them; at the third it declares the
    connection dead.  A server that acknowledges within two ticks is never
    given up; a silent one always is, whatever else it sends. *)
Theorem heartbeat_spec evs :
  Forall (fun ev => healthy ev = true) evs ->
  match runHeartbeat 0 evs with
  | inl m => m = quiet_ticks evs /\ forall pre post, evs = pre ++ post -> quiet_ticks pre < maxHeartbeatMisses
  | inr r => r = dead /\ exists pre post, evs = pre ++ post /\ quiet_ticks pre = maxHeartbeatMisses
  end.
Proof.
  induction evs as [|ev evs IH] using rev_ind; intros Hev.
  { simpl. split; [done|]. by intros [|] post; [|]. }
  apply Forall_app in Hev as [Hevs Hev]. apply Forall_inv in Hev. specialize (IH Hevs).
  rewrite runHeartbeat_snoc. destruct (runHeartbeat 0 evs) as [m|r].
  - destruct IH as [-> Hlt]. pose proof (Hlt evs [] (eq_sym (app_nil_r _))) as Hq. unfold maxHeartbeatMisses in *.
    rewrite hb_step_healthy by done. cbv zeta. rewrite <- quiet_ticks_snoc.
    destruct (is_tick ev && (3 <=? quiet_ticks (evs ++ [ev]))) eqn:Et.
    + apply andb_true_iff in Et as [Ht Hge%Z.leb_le]. rewrite quiet_ticks_snoc, Ht in *.
      assert (is_ack ev = false) as Ha by (by destruct ev as [|[|]|]). rewrite Ha in *.
      assert (quiet_ticks evs = 2) as Hq2 by lia. rewrite Hq2. split; [done|].
      exists (evs ++ [ev]), []. rewrite app_nil_r. split; [done|]. rewrite quiet_ticks_snoc, Ht, Ha, Hq2. done.
    + split; [done|]. intros pre post Hpp. destruct post as [|x post _] using rev_ind.
      * rewrite app_nil_r in Hpp. subst pre. rewrite quiet_ticks_snoc in *.
        destruct (is_ack ev); [lia|]. destruct (is_tick ev); simpl in *; [by apply Z.leb_gt in Et | lia].
      * rewrite app_assoc in Hpp. apply app_inj_tail in Hpp as [-> _]. by apply (Hlt pre post).
  - destruct IH as (-> & pre & post & -> & Hq). split; [done|]. exists pre, (post ++ [ev]). by rewrite app_assoc.
Qed.
End Properties.

(** ** A client at work *)

Module Examples.
Import Handlers.Examples.

(** A server that grants whatever it is asked. *)
#[export] Instance granting : ServerJSON := {|
  unmarshal_AuthResponse _ := Ok {| ar_Success := true; ar_Message := "" |};
  unmarshal_TunnelResponse _ :=
    Ok {| tr_Success := true; tr_URL := "https://abc.example.com"; tr_RemotePort := 0; tr_Message := "" |};
  unmarshal_AccountInfo _ := Ok {| ai_Name := "a"; ai_Subdomains := ["abc"%string]; ai_MaxTunnels := 10; ai_Domain := "example.com" |};
  unmarshal_RequestLog _ := Err "unused"%string;
|}.

Definition cfg : ClientConfig := {| ServerAddr := "example.com:4443"; Token := "htn_1" |}.
Definition rc : Reconnector := {| rc_cfg := cfg; rc_tunnelType := "http"; rc_localPort := 3000; rc_version := "1.0" |}.
Definition w0 : World := {| w_conn := no_conn; w_trace := []; w_out := []; w_wire := [] |}.

(** Supplies: everything works and the connection is lost while the tunnel is
    served; nothing works. *)
Definition fine (t : MsgType) : cli_supply := {|
  k_err := None; k_recv := Ok (t, []); k_cancelled := false;
  k_events := [SAccept (Some "session shutdown"%string) false] |}.
Definition refusing : cli_supply := {|
  k_err := Some "connection refused"%string; k_recv := Err "EOF"%string; k_cancelled := false; k_events := [] |}.

Definition served_round : list cli_supply :=
  repeat (fine MsgAuthResponse) 7 ++ repeat (fine MsgTunnelResp) 6.

Definition end_of {A} (p : prog cliE A) (cs : list cli_supply) (w : World) : World :=
  match run cli_exec p cs w with Some (w', _, _) => w' | None => w end.

Definition wc : World := end_of (Connect cfg) (repeat (fine MsgAuthResponse) 5) w0.

Lemma run_Connect : run cli_exec (Connect cfg) (repeat (fine MsgAuthResponse) 5) w0 = Some (wc, Some None, []).
Proof. vm_compute. reflexivity. Qed.

Lemma Connect_spec_witness : exists err, Some None = Some err /\ connected cfg w0 err wc.
Proof. exact (Connect_spec cfg _ w0 wc (Some None) [] eq_refl run_Connect). Defined.

Definition info : TunnelInfo := {| ti_URL := "https://abc.example.com"; ti_RemotePort := 0; ti_LocalPort := 3000 |}.
Definition wt : World := end_of (requestTunnel rc "abc") (repeat (fine MsgTunnelResp) 2) wc.

Lemma run_requestTunnel :
  run cli_exec (requestTunnel rc "abc") (repeat (fine MsgTunnelResp) 2) wc = Some (wt, Some (Ok info), []).
Proof. vm_compute. reflexivity. Qed.

Lemma requestTunnel_spec_witness : exists res, Some (Ok info) = Some res /\ tunnel_result rc "abc" wc res wt.
Proof. exact (requestTunnel_spec rc "abc" _ wc wt (Some (Ok info)) [] run_requestTunnel). Defined.

(** Eight rounds in which the server cannot be reached: 1, 2, 4, 8, 16, 32, 60
    and 60 seconds. *)
Definition offline : list cli_supply := concat (repeat [fine 0; fine 0; refusing; fine 0] 8).
Definition wo : World := end_of (Run 8 rc (start "abc")) offline w0.

Lemma run_offline : run cli_exec (Run 8 rc (start "abc")) offline w0 = Some (wo, Some None, []).
Proof. vm_compute. reflexivity. Qed.

Example offline_delays :
  w_trace wo = concat (map (fun d => [RNewClient false; RWait (d * Second)]) [1; 2; 4; 8; 16; 32; 60; 60]).
Proof. vm_compute. reflexivity. Qed.

Lemma idle_w0 : idle_world w0.
Proof. by split. Qed.

Lemma Run_spec_witness : exists out, Some None = Some out /\ ran 0 8 w0 out wo.
Proof. exact (Run_spec 8 rc "abc" offline w0 wo (Some None) [] idle_w0 run_offline). Defined.

Lemma waited_60 : RWait (60 * Second) ∈ w_trace wo.
Proof. rewrite offline_delays. cbn. set_solver. Qed.

Lemma backoff_bounds_witness : 1 * Second <= 60 * Second <= 60 * Second /\ in_int64 (60 * Second * 2).
Proof.
  exact (backoff_bounds 8 rc "abc" offline w0 wo (Some None) [] (60 * Second) idle_w0 eq_refl run_offline waited_60).
Defined.

(** A connection that is lost while its tunnel is served is replaced at once: a
    server that grants tunnels and drops its clients is called in a loop with
    no delay at all. *)
Theorem no_delay_after_served :
  w_trace (end_of (Run 3 rc (start "abc")) (served_round ++ served_round ++ served_round) w0)
  = concat (repeat [RNewClient false; RServed] 3).
Proof. vm_compute. reflexivity. Qed.

Lemma filed_s1' :
  filed token req1 0%nat (deref (srv_tunnelManager s1') 0%nat) s1 s1'
    {| tr_Success := true; tr_URL := "https://" +:+ "myapp" +:+ "." +:+ Domain (srv_cfg s1);
       tr_RemotePort := 0; tr_Message := "" |}.
Proof.
  apply filed_http; try (vm_compute; reflexivity).
  intros l0 ts0 Hl. assert (httpTunnels (srv_tunnelManager s1) !! "myapp"%string = None) as E by (vm_compute; reflexivity).
  by rewrite E in Hl.
Qed.

(** The same server, telling the client so; the client, cut off and back. *)
Definition telling : ServerJSON := {|
  unmarshal_AuthResponse := @unmarshal_AuthResponse granting;
  unmarshal_TunnelResponse _ :=
    Ok {| tr_Success := true; tr_URL := "https://" +:+ "myapp" +:+ "." +:+ Domain (srv_cfg s1); tr_RemotePort := 0; tr_Message := "" |};
  unmarshal_AccountInfo := @unmarshal_AccountInfo granting;
  unmarshal_RequestLog := @unmarshal_RequestLog granting;
|}.
Definition w2 : World := end_of (@Run telling 2 rc (start "")) (served_round ++ served_round) w0.

Lemma run_w2 : run cli_exec (@Run telling 2 rc (start "")) (served_round ++ served_round) w0 = Some (w2, Some None, []).
Proof. vm_compute. reflexivity. Qed.

Lemma wire_w2 :
  w_wire w2 = [Sent (CAuth {| am_Token := "htn_1" |}); Got (MsgAuthResponse, [])] ++
    Sent (CTunnelReq (http_request rc "")) :: Got (MsgTunnelResp, []) ::
    [Sent (CAuth {| am_Token := "htn_1" |}); Got (MsgAuthResponse, [])] ++
    Sent (CTunnelReq (http_request rc "myapp")) :: [Got (MsgTunnelResp, [])].
Proof. vm_compute. reflexivity. Qed.

Lemma quiet_w2 :
  Forall (fun ev => is_request ev = false) [Sent (CAuth {| am_Token := "htn_1" |}); Got (MsgAuthResponse, [])].
Proof. by repeat constructor. Qed.

Lemma reconnect_asks_same_witness :
  httpTunnels (srv_tunnelManager s1') !! "myapp"%string = Some 0%nat.
Proof.
  exact (proj2 (proj2 (@reconnect_asks_same telling _ 2 rc "" _ w0 w2 _ _ _ _ _ _ _ _ token req1 0%nat _ s1 s1' _
    eq_refl eq_refl run_w2 wire_w2 quiet_w2 eq_refl filed_s1' eq_refl))).
Defined.

(** Acknowledged heartbeats, then silence broken by request logs only. *)
Definition beats : list hb_event :=
  [HTick None; HMsg (Ok (MsgHeartbeatAck, [])); HTick None; HMsg (Ok (MsgRequestLog, [])); HTick None; HTick None].

Lemma healthy_beats : Forall (fun ev => healthy ev = true) beats.
Proof. by repeat constructor. Qed.

Lemma heartbeat_spec_witness :
  runHeartbeat 0 beats = inr dead /\ exists pre post, beats = pre ++ post /\ quiet_ticks pre = maxHeartbeatMisses.
Proof. split; [reflexivity | exact (proj2 (heartbeat_spec beats healthy_beats))]. Defined.
End Examples.
