(* ===== verification/Cli.v ===== *)
(** * The client's commands (cmd/htn-tunnel/main.go)

    The commands as programs over the configuration file, the terminal, the
    browser and the connections of Client.v.  Parsing the command line itself
    is cobra's; the messages around the prompts are left out, the errors and
    what [status] shows are not. *)

From S2P Require Import Prelude Prog GoStrings Wire Config Display Client.
Local Open Scope Z_scope.

(** ** Arguments *)

Definition invalid_port (s : string) : string := "invalid port " +:+ Quote s +:+ " (must be 1-65535)".

(** [parsePort] *)
Definition parsePort (s : string) : result string Z :=
  match Atoi s with
  | Some p => if (p <? 1) || (65535 <? p) then Err (invalid_port s) else Ok p
  | None => Err (invalid_port s)
  end.

(** [parsePortSubdomain] *)
Definition parsePortSubdomain (arg : string) : result string (Z * string) :=
  let parts := SplitN2 arg ":" in
  let port := default "" (parts !! 0%nat) in
  match Atoi port with
  | None => Err (invalid_port port)
  | Some p =>
      if (p <? 1) || (65535 <? p) then Err (invalid_port port)
      else Ok (p, match parts !! 1%nat with
                  | Some s => if String.eqb s "" then "" else ToLower s
                  | None => ""
                  end)
  end.

(** [splitHostPort], [extractHost] *)
Definition splitHostPort (addr : string) : string * string :=
  match LastIndexByte addr ":" with
  | Some i => (slice_to addr i, slice_from addr (S i))
  | None => (addr, "")
  end.
Definition extractHost (addr : string) : string :=
  let '(host, _) := splitHostPort addr in if String.eqb host "" then addr else host.

(** [joinOrNone] *)
Fixpoint join_from (i : Z) (ss : list string) (result : string) : string :=
  match ss with
  | [] => result
  | s :: ss => join_from (i + 1) ss ((if 0 <? i then result +:+ ", " else result) +:+ s)
  end.
Definition joinOrNone (ss : list string) : string :=
  match ss with [] => "(none)" | _ => join_from 0 ss "" end.

(** The masked key of [status]. *)
Definition status_mask (token : string) : string :=
  if 12 <? len token then slice_to token 8 +:+ "..." +:+ slice_from token (String.length token - 4) else token.

(** [url.QueryEscape] *)
Definition unreserved (c : ascii) : bool :=
  in_range "a" "z" c || in_range "A" "Z" c || in_range "0" "9" c ||
  Ascii.eqb c "-" || Ascii.eqb c "_" || Ascii.eqb c "." || Ascii.eqb c "~".
Definition upper_hex (d : Z) : ascii :=
  if d <? 10 then ascii_of_N (Z.to_N (48 + d)) else ascii_of_N (Z.to_N (55 + d)).
Fixpoint QueryEscape (s : string) : string :=
  match s with
  | EmptyString => EmptyString
  | String c s =>
      (if unreserved c then String c EmptyString
       else if Ascii.eqb c " " then "+"
       else let n := Z.of_N (N_of_ascii c) in
            String "%" (String (upper_hex (n / 16)) (String (upper_hex (n mod 16)) EmptyString)))
      +:+ QueryEscape s
  end.

(** The host part of an address ([strings.Cut] at the first colon). *)
Definition cut_host (addr : string) : string :=
  match IndexByte addr ":" with Some i => slice_to addr i | None => addr end.

(** The default port of a server address. *)
Definition default_port (addr : string) : string := if Contains addr ":" then addr else addr +:+ ":4443".

(** ** The callback of a login (internal/client/auth_callback.go) *)

Record CallbackResult := { cb_Key : string; cb_Name : string }.

(** [StartCallbackServer]: the address, for the port of the listener. *)
Definition StartCallbackServer (port : result string Z) : result string string :=
  match port with
  | Ok port => Ok ("http://127.0.0.1:" +:+ Itoa port +:+ "/cb")
  | Err e => Err ("listen callback: " +:+ e)
  end.

(** The handler of [/cb]: the channel holds one result; the result of a later
    request is dropped. *)
Definition callback_handler (ch : option CallbackResult) (key_name : string * string) : option CallbackResult :=
  match ch with
  | None => Some {| cb_Key := key_name.1; cb_Name := key_name.2 |}
  | Some r => Some r
  end.

(** [OpenBrowser]: the command it starts. *)
Definition OpenBrowser (goos url : string) : result string (list string) :=
  if String.eqb goos "linux" then Ok ["xdg-open"; url]
  else if String.eqb goos "windows" then Ok ["rundll32"; "url.dll,FileProtocolHandler"; url]
  else if String.eqb goos "darwin" then Ok ["open"; url]
  else Err ("unsupported platform " +:+ goos).

(** ** Effects *)

Inductive cmdE : Type -> Type :=
  | Net {R} (e : cliE R) : cmdE R
  | DLoad : cmdE (result config_error ClientConfig)
  | DSave (cfg : ClientConfig) : cmdE (option config_error)
  | DScanLine : cmdE (option string)
  | DScanInt : cmdE Z
  | DSay (lines : list string) : cmdE unit
  | DCallback : cmdE (result string string)
  | DOpenBrowser (url : string) : cmdE (option string)
  | DAwait : cmdE (option CallbackResult).

Fixpoint net {A} (p : prog cliE A) : prog cmdE A :=
  match p with
  | Ret a => Ret a
  | Crash => Crash
  | Vis e k => Vis (Net e) (fun r => net (k r))
  end.

Inductive cmd_error :=
  | EText (s : string)
  | ELoad (e : config_error)
  | ESave (e : config_error)
  | EConnect (e : string).

(** The persistent flags [--server] and [--token]. *)
Record Flags := { flagServer : string; flagToken : string }.

Definition set_server (addr : string) (cfg : ClientConfig) : ClientConfig :=
  {| ServerAddr := addr; Token := Token cfg |}.
Definition set_token (token : string) (cfg : ClientConfig) : ClientConfig :=
  {| ServerAddr := ServerAddr cfg; Token := token |}.

Definition default_server : string := "localhost:4443".

(** [loadClientCfg]: the flags over the file, and the default address. *)
Definition apply_flags (fl : Flags) (cfg : ClientConfig) : ClientConfig :=
  let cfg := if String.eqb (flagServer fl) "" then cfg else set_server (flagServer fl) cfg in
  let cfg := if String.eqb (flagToken fl) "" then cfg else set_token (flagToken fl) cfg in
  if String.eqb (ServerAddr cfg) "" then set_server default_server cfg else cfg.
Definition loadClientCfg (fl : Flags) : prog cmdE (result config_error ClientConfig) :=
  r ← trigger DLoad;
  match r with
  | Err e => mret (Err e)
  | Ok cfg => mret (Ok (apply_flags fl cfg))
  end.

(** What the user typed, trimmed; [None] at the end of the input. *)
Definition read_trimmed : prog cmdE (option string) :=
  line ← trigger DScanLine;
  match line with Some l => mret (Some (TrimSpace l)) | None => mret None end.

(** [ensureServer]: the configuration afterwards and whether it has a server. *)
Definition has_server (cfg : ClientConfig) : bool :=
  negb (String.eqb (ServerAddr cfg) "") && negb (String.eqb (ServerAddr cfg) default_server).
Definition ensureServer (cfg : ClientConfig) : prog cmdE (ClientConfig * bool) :=
  if has_server cfg then mret (cfg, true) else
  line ← read_trimmed;
  match line with
  | Some addr =>
      if String.eqb addr "" then mret (cfg, false)
      else
        let cfg := set_server (default_port addr) cfg in
        _ ← trigger (DSave cfg);
        mret (cfg, true)
  | None => mret (cfg, false)
  end.

Definition dashboard_url (cfg : ClientConfig) : string :=
  "https://dashboard." +:+ extractHost (ServerAddr cfg) +:+ "/_dashboard/".

(** Saves the key: the end of each way through [runLogin]. *)
Definition save_key (key : string) (cfg : ClientConfig) : prog cmdE (ClientConfig * option cmd_error) :=
  let cfg := set_token key cfg in
  e ← trigger (DSave cfg);
  match e with
  | Some e => mret (cfg, Some (ESave e))
  | None => mret (cfg, None)
  end.

(** [runLogin] *)
Definition runLogin (cfg : ClientConfig) : prog cmdE (ClientConfig * option cmd_error) :=
  cb ← trigger DCallback;
  match cb with
  | Err e => mret (cfg, Some (EText e))
  | Ok callbackURL =>
      let url := dashboard_url cfg +:+ "#register?callback=" +:+ QueryEscape callbackURL in
      opened ← trigger (DOpenBrowser url);
      match opened with
      | Some _ =>
          line ← read_trimmed;
          match line with
          | Some key =>
              if String.eqb key "" then mret (cfg, Some (EText "không nhận được key")) else save_key key cfg
          | None => mret (cfg, Some (EText "không nhận được key"))
          end
      | None =>
          res ← trigger DAwait;
          match res with
          | Some result =>
              if String.eqb (cb_Key result) "" then mret (cfg, Some (EText "không nhận được key từ browser"))
              else save_key (cb_Key result) cfg
          | None => mret (cfg, Some (EText "timeout — không nhận được phản hồi từ browser"))
          end
      end
  end.

Section Commands.
Context `{ServerJSON}.

(** Connects, asks for the account and closes: the common part of the three
    functions below. [inl]: the connection failed. *)
Definition account (cfg : ClientConfig) : prog cliE (string + result string AccountInfoRespMsg) :=
  _ ← trigger CNewClient;
  err ← Connect cfg;
  match err with
  | Some e => mret (inl e)
  | None =>
      info ← GetAccountInfo;
      _ ← trigger CClose;
      mret (inr info)
  end.

Definition account_domain (cfg : ClientConfig) (info : AccountInfoRespMsg) : string :=
  if String.eqb (ai_Domain info) "" then cut_host (ServerAddr cfg) else ai_Domain info.

(** The numbered lines of a menu. *)
Fixpoint menu (i : Z) (f : string -> string) (subs : list string) : list string :=
  match subs with
  | [] => []
  | s :: subs => ("  [" +:+ Itoa i +:+ "] " +:+ f s) :: menu (i + 1) f subs
  end.

(** [subs[choice-1]] when the choice is one of them, else the random name. *)
Definition chosen (choice : Z) (subs : list string) : string :=
  if (1 <=? choice) && (choice <=? Z.of_nat (length subs))
  then default "" (subs !! Z.to_nat (choice - 1)) else "".

(** [pickSubdomain] *)
Definition pickSubdomain (cfg : ClientConfig) : prog cmdE (result cmd_error string) :=
  r ← net (account cfg);
  match r with
  | inr (Ok info) =>
      match ai_Subdomains info with
      | [] => mret (Ok "")
      | subs =>
          let domain := account_domain cfg info in
          _ ← trigger (DSay (menu 1 (fun s => s +:+ "." +:+ domain) subs));
          choice ← trigger DScanInt;
          mret (Ok (chosen choice subs))
      end
  | _ => mret (Ok "")
  end.

(** [validateSubdomain] *)
Definition validateSubdomain (cfg : ClientConfig) (sub : string) : prog cmdE (option cmd_error) :=
  r ← net (account cfg);
  match r with
  | inr (Ok info) =>
      if existsb (String.eqb sub) (ai_Subdomains info) then mret None
      else mret (Some (EText ("subdomain " +:+ String "034" (sub +:+ String "034" " không thuộc tài khoản của bạn"))))
  | _ => mret None
  end.

(** [handleSubdomainError] *)
Definition handleSubdomainError (cfg : ClientConfig) (origErr : cmd_error) : prog cmdE (result cmd_error string) :=
  r ← net (account cfg);
  match r with
  | inr (Ok info) =>
      match ai_Subdomains info with
      | [] => mret (Err origErr)
      | subs =>
          let domain := account_domain cfg info in
          _ ← trigger (DSay (map (fun s => "    " +:+ s +:+ "." +:+ domain) subs ++ menu 1 (fun s => "Dùng " +:+ s) subs));
          choice ← trigger DScanInt;
          if choice =? Z.of_nat (length subs) + 2 then mret (Err (EText "cancelled"))
          else mret (Ok (chosen choice subs))
      end
  | _ => mret (Err origErr)
  end.

(** ** Commands *)

(** [httpCmd] until the reconnector starts: the configuration and the name the
    tunnel is asked for. *)
Definition resolve_http (fl : Flags) (arg subdomain : string) : prog cmdE (result cmd_error (ClientConfig * Z * string)) :=
  match parsePortSubdomain arg with
  | Err e => mret (Err (EText e))
  | Ok (localPort, sub) =>
      let sub := if String.eqb sub "" && negb (String.eqb subdomain "") then subdomain else sub in
      r ← loadClientCfg fl;
      match r with
      | Err e => mret (Err (ELoad e))
      | Ok cfg =>
          logged ← (if negb (String.eqb sub "") && String.eqb (Token cfg) "" then
                      s ← ensureServer cfg;
                      let '(cfg, ok) := s in
                      if ok : bool then runLogin cfg
                      else mret (cfg, Some (EText "cần server address. Chạy: htn-tunnel setup"))
                    else mret (cfg, None));
          let '(cfg, err) := logged : ClientConfig * option cmd_error in
          match err with
          | Some e => mret (Err e)
          | None =>
              if String.eqb (Token cfg) "" then mret (Ok (cfg, localPort, sub))
              else if String.eqb sub "" then
                picked ← pickSubdomain cfg;
                mret (match picked with Ok sub => Ok (cfg, localPort, sub) | Err e => Err e end)
              else
                bad ← validateSubdomain cfg sub;
                match bad with
                | None => mret (Ok (cfg, localPort, sub))
                | Some e =>
                    picked ← handleSubdomainError cfg e;
                    mret (match picked with Ok sub => Ok (cfg, localPort, sub) | Err e => Err e end)
                end
          end
      end
  end.

(** A command's result: an error, success, or still running. *)
Inductive cmd_result := CmdOk | CmdErr (e : cmd_error) | Running.

Definition ran_result (r : option (option string)) : cmd_result :=
  match r with None => Running | Some None => CmdOk | Some (Some e) => CmdErr (EText e) end.

(** [httpCmd] *)
Definition httpCmd (version : string) (fl : Flags) (arg subdomain : string) (rounds : nat) : prog cmdE cmd_result :=
  r ← resolve_http fl arg subdomain;
  match r with
  | Err e => mret (CmdErr e)
  | Ok (cfg, localPort, sub) =>
      out ← net (Run rounds {| rc_cfg := cfg; rc_tunnelType := "http"; rc_localPort := localPort; rc_version := version |}
                   (start sub));
      mret (ran_result out)
  end.

(** [tcpCmd] *)
Definition tcpCmd (version : string) (fl : Flags) (arg : string) (rounds : nat) : prog cmdE cmd_result :=
  match parsePort arg with
  | Err e => mret (CmdErr (EText e))
  | Ok localPort =>
      r ← loadClientCfg fl;
      match r with
      | Err e => mret (CmdErr (ELoad e))
      | Ok cfg =>
          _ ← trigger (DSay ["  Server:    " +:+ ServerAddr cfg]);
          out ← net (Run rounds {| rc_cfg := cfg; rc_tunnelType := "tcp"; rc_localPort := localPort; rc_version := version |}
                       (start ""));
          mret (ran_result out)
      end
  end.

Definition saved (e : option config_error) : cmd_result :=
  match e with Some e => CmdErr (ESave e) | None => CmdOk end.

(** [authCmd] *)
Definition authCmd (fl : Flags) (token : string) : prog cmdE cmd_result :=
  e ← trigger (DSave {| ServerAddr := flagServer fl; Token := token |});
  mret (saved e).

(** [logoutCmd] *)
Definition logoutCmd : prog cmdE cmd_result :=
  old ← trigger DLoad;
  e ← trigger (DSave {| ServerAddr := match old with Ok old => ServerAddr old | Err _ => "" end; Token := "" |});
  mret (saved e).

(** [loginCmd]; the error of [loadClientCfg] is dropped, its nil result used. *)
Definition loginCmd (fl : Flags) : prog cmdE cmd_result :=
  r ← loadClientCfg fl;
  match r with
  | Err _ => Crash
  | Ok cfg =>
      s ← ensureServer cfg;
      let '(cfg, ok) := s in
      if ok : bool then
        l ← runLogin cfg;
        mret (match l.2 with Some e => CmdErr e | None => CmdOk end)
      else mret (CmdErr (EText "cần server address. Chạy: htn-tunnel setup"))
  end.

(** [dashboardCmd] *)
Definition dashboardCmd (fl : Flags) : prog cmdE cmd_result :=
  r ← loadClientCfg fl;
  match r with
  | Err _ => Crash
  | Ok cfg =>
      e ← trigger (DOpenBrowser (dashboard_url cfg));
      mret (match e with Some e => CmdErr (EText e) | None => CmdOk end)
  end.

(** [setupCmd] *)
Definition setupCmd (fl : Flags) : prog cmdE cmd_result :=
  r ← loadClientCfg fl;
  match r with
  | Err _ => Crash
  | Ok cfg =>
      line ← read_trimmed;
      match line with
      | Some addr =>
          if String.eqb addr "" then mret (CmdErr (EText "không nhận được địa chỉ server"))
          else e ← trigger (DSave (set_server (default_port addr) cfg)); mret (saved e)
      | None => mret (CmdErr (EText "không nhận được địa chỉ server"))
      end
  end.

(** The account lines of [status]. *)
Definition account_lines (cfg : ClientConfig) (info : AccountInfoRespMsg) : list string :=
  [ "  Key:         " +:+ status_mask (Token cfg);
    "  Name:        " +:+ ai_Name info;
    "  Subdomains:  " +:+ joinOrNone (ai_Subdomains info);
    "  Max tunnels: " +:+ Itoa (ai_MaxTunnels info);
    "  Server:      " +:+ ServerAddr cfg ].

(** [statusCmd] *)
Definition statusCmd (fl : Flags) : prog cmdE cmd_result :=
  r ← loadClientCfg fl;
  match r with
  | Err e => mret (CmdErr (ELoad e))
  | Ok cfg =>
      if String.eqb (Token cfg) "" then
        _ ← trigger (DSay ["  Server:    " +:+ ServerAddr cfg]); mret CmdOk
      else
        a ← net (account cfg);
        match a with
        | inl e => mret (CmdErr (EConnect e))
        | inr (Err e) => mret (CmdErr (EText e))
        | inr (Ok info) => _ ← trigger (DSay (account_lines cfg info)); mret CmdOk
        end
  end.
End Commands.

(** ** The machine the commands run on *)

Record Machine := {
  c_file : read_outcome;
  c_net : World;
  c_said : list string;
  c_started : list (list string);
}.

(** The outcomes of I/O; a failed write leaves [d_left] in the file;
    [d_requests] are the requests to the callback before the timeout. *)
Record cmd_supply := {
  d_net : cli_supply;
  d_path : result string string;
  d_written : option string;
  d_left : read_outcome;
  d_line : option string;
  d_int : Z;
  d_port : result string Z;
  d_goos : string;
  d_browser : option string;
  d_requests : list (string * string);
}.

Section Exec.
Context `{Yaml ClientConfig}.

Definition with_file (f : read_outcome) (s : Machine) : Machine :=
  {| c_file := f; c_net := c_net s; c_said := c_said s; c_started := c_started s |}.
Definition with_net (w : World) (s : Machine) : Machine :=
  {| c_file := c_file s; c_net := w; c_said := c_said s; c_started := c_started s |}.

Definition with_started (command : list string) (s : Machine) : Machine :=
  {| c_file := c_file s; c_net := c_net s; c_said := c_said s; c_started := c_started s ++ [command] |}.

Definition cmd_exec (R : Type) (e : cmdE R) (c : cmd_supply) (s : Machine) : option (Machine * R) :=
  match e in cmdE R return option (Machine * R) with
  | Net e => match cli_exec _ e (d_net c) (c_net s) with
             | Some (w, r) => Some (with_net w s, r)
             | None => None
             end
  | DLoad => Some (s, LoadClientConfig (d_path c) (c_file s))
  | DSave cfg =>
      Some (match SaveClientConfig (d_path c) (d_written c) cfg with
            | Ok file => (with_file file s, None)
            | Err (ErrWriteConfig e) => (with_file (d_left c) s, Some (ErrWriteConfig e))
            | Err e => (s, Some e)
            end)
  | DScanLine => Some (s, d_line c)
  | DScanInt => Some (s, d_int c)
  | DSay lines => Some ({| c_file := c_file s; c_net := c_net s; c_said := c_said s ++ lines; c_started := c_started s |}, tt)
  | DCallback => Some (s, StartCallbackServer (d_port c))
  | DOpenBrowser url =>
      Some (match OpenBrowser (d_goos c) url with
            | Ok command => (with_started command s, d_browser c)
            | Err e => (s, Some e)
            end)
  | DAwait => Some (s, foldl callback_handler None (d_requests c))
  end.
End Exec.

(** ** Arguments *)

Lemma port_guard p : (p <? 1) || (65535 <? p) = false <-> 1 <= p <= 65535.
Proof. rewrite orb_false_iff, !Z.ltb_ge. lia. Qed.

(** [parsePortSubdomain] accepts exactly a port between 1 and 65535 alone,
    or one before the first colon with a name after it, which it lowers. *)
Theorem parsePortSubdomain_spec arg p sub :
  parsePortSubdomain arg = Ok (p, sub) <->
  1 <= p <= 65535 /\
  ((IndexByte arg ":" = None /\ Atoi arg = Some p /\ sub = "") \/
   exists port name, arg = port +:+ String ":" name /\ IndexByte port ":" = None /\ Atoi port = Some p /\
     sub = ToLower name)%string.
Proof.
  unfold parsePortSubdomain. destruct (SplitN2_cases arg ":") as [[Hi ->]|(port & name & -> & Hport & ->)]; simpl.
  - split.
    + destruct (Atoi arg) as [q|] eqn:Ha; [|done]. destruct (_ || _) eqn:Hg; [done|]. intros [= <- <-].
      apply port_guard in Hg. auto.
    + intros [Hg [(_ & -> & ->)|(port & name & -> & Hp & _)]]; [by rewrite (proj2 (port_guard p) Hg)|].
      by rewrite IndexByte_sep in Hi.
  - split.
    + destruct (Atoi port) as [q|] eqn:Ha; [|done]. destruct (_ || _) eqn:Hg; [done|]. intros [= <- <-].
      apply port_guard in Hg. split; [done|]. right. exists port, name. split_and!; try done.
      by destruct (String.eqb_spec name "") as [->|].
    + intros [Hg [[Hn _]|(port' & name' & Heq & Hp' & Ha & ->)]]; [by rewrite IndexByte_sep in Hn|].
      assert ([port; name] = [port'; name']) as [= -> ->] by (by rewrite <- !(SplitN2_sep _ _ ":"), Heq).
      rewrite Ha, (proj2 (port_guard p) Hg). by destruct (String.eqb_spec name' "") as [->|].
Qed.

Lemma parsePort_range arg p sub : parsePortSubdomain arg = Ok (p, sub) -> 1 <= p <= 65535.
Proof.
  unfold parsePortSubdomain. destruct (Atoi _); [|done]. destruct (_ || _) eqn:Hg; [done|].
  intros [= <- _]. by apply port_guard.
Qed.

(** The first request to the callback decides, also one without a key. *)
Lemma callback_first reqs :
  foldl callback_handler None reqs = (fun r => {| cb_Key := r.1; cb_Name := r.2 |}) <$> head reqs.
Proof.
  destruct reqs as [|r reqs]; [done|]. simpl.
  assert (forall x, foldl callback_handler (Some x) reqs = Some x) as Hs; [|by rewrite Hs].
  induction reqs as [|r' reqs IH]; intros x; [done|]. apply IH.
Qed.

(** [joinOrNone] is [strings.Join] with a word for the empty list. *)
Lemma joinOrNone_spec ss : joinOrNone ss = match ss with [] => "(none)"%string | _ => Join ss ", " end.
Proof.
  assert (forall ss i acc, 0 < i -> join_from i ss acc = match ss with [] => acc | _ => acc +:+ ", " +:+ Join ss ", " end)%string as Hj.
  { clear. induction ss as [|s ss IH]; intros i acc Hi; simpl; [done|].
    rewrite (proj2 (Z.ltb_lt 0 i) Hi). rewrite IH by lia.
    destruct ss; rewrite <- ?string_app_assoc; done. }
  destruct ss as [|s ss]; [done|]. unfold joinOrNone. simpl. rewrite Hj by lia.
  by destruct ss.
Qed.

Lemma Contains_colon s : Contains s ":" = match IndexByte s ":" with Some _ => true | None => false end.
Proof.
  induction s as [|c s IH]; [done|]. cbn [Contains IndexByte]. rewrite IH. unfold HasPrefix. cbn [String.prefix].
  destruct (ascii_dec ":" c) as [<-|Hne]; [by destruct s|]. cbn [orb].
  assert (Ascii.eqb c ":" = false) as -> by (by apply Ascii.eqb_neq; congruence).
  by destruct (IndexByte s ":").
Qed.

Lemma IndexByte_LastIndexByte s c : IndexByte s c = None -> LastIndexByte s c = None.
Proof.
  induction s as [|a s IH]; simpl; [done|]. destruct (Ascii.eqb a c); [done|].
  destruct (IndexByte s c); [done|]. by rewrite IH.
Qed.

(** An address typed without a port leads to that host's dashboard. *)
Lemma extractHost_with_port host :
  IndexByte host ":" = None -> host <> ""%string -> extractHost (default_port host) = host.
Proof.
  intros Hi Hne. unfold default_port, extractHost, splitHostPort. rewrite Contains_colon, Hi.
  change ":4443"%string with (String ":" "4443"). rewrite LastIndexByte_sep by done.
  rewrite slice_to_app. by rewrite (proj2 (String.eqb_neq _ _) Hne).
Qed.

(** ** Total correctness of the commands *)

Section Properties.
Context `{ServerJSON} `{YamlLaws ClientConfig {| ServerAddr := ""; Token := "" |}}.

Abbreviation dwp := (wp cmd_exec).

Ltac dstep := apply wp_trigger; let c := fresh "c" in let He := fresh "He" in
  intros c ? ? He; cbn [cmd_exec] in He; injection He as <- <-.

(** A program over the connection keeps the rest of the machine. *)
Lemma wp_net {A} (p : prog cliE A) (Q : A -> World -> Prop) s :
  wp cli_exec p Q (c_net s) -> dwp (net p) (fun a s' => Q a (c_net s') /\ s' = with_net (c_net s') s) s.
Proof.
  intros Hp. assert (forall s0, wp cli_exec p Q (c_net s0) -> s0 = with_net (c_net s0) s ->
    dwp (net p) (fun a s' => Q a (c_net s') /\ s' = with_net (c_net s') s) s0) as Hw.
  { clear Hp. induction p as [a| |R e k IH]; intros s0; simpl; [by split | done |].
    intros Hp Hs c s1 r. destruct (cli_exec R e (d_net c) (c_net s0)) as [[w1 r1]|] eqn:He; [|done].
    intros [= <- <-]. apply IH; [by apply (Hp (d_net c)) | by rewrite Hs]. }
  apply Hw; [done | by destruct s].
Qed.

Definition idle_net (s : Machine) : Prop := idle_world (c_net s).

(** What an account request does to the history: nothing is taken back, and an
    account it reports is the answer received on a connection that had
    authenticated with the key of [cfg]. *)
Definition account_exchange (cfg : ClientConfig) (auth raw : list byte) : list wire_ev :=
  [Sent (CAuth {| am_Token := Token cfg |}); Got (MsgAuthResponse, auth); Sent CAccountInfo; Got (MsgAccountInfoResp, raw)].
Definition accepts (auth : list byte) : Prop := exists ok, unmarshal_AuthResponse auth = Ok ok /\ ar_Success ok = true.
Definition account_heard (cfg : ClientConfig) (r : string + result string AccountInfoRespMsg) (w w' : World) : Prop :=
  w_wire w `prefix_of` w_wire w' /\
  match r with
  | inr (Ok info) => exists auth raw, w_wire w' = w_wire w ++ account_exchange cfg auth raw /\ accepts auth /\
      unmarshal_AccountInfo raw = Ok info
  | _ => True
  end.

Lemma wp_GetAccountInfo w :
  wp cli_exec GetAccountInfo (fun r w' => w_wire w `prefix_of` w_wire w' /\
    match r with
    | Ok info => exists raw, w_wire w' = w_wire w ++ [Sent CAccountInfo; Got (MsgAccountInfoResp, raw)] /\
                   unmarshal_AccountInfo raw = Ok info
    | Err _ => True
    end) w.
Proof.
  unfold GetAccountInfo. apply wp_trigger. intros c w1 r He. cbn [cli_exec] in He. injection He as <- <-.
  destruct (k_err c) as [e|]; [split; [by apply prefix_app_r | done]|].
  apply wp_trigger. intros c1 w2 r He. cbn [cli_exec] in He. injection He as <- <-.
  assert (forall l1 l2, w_wire w `prefix_of` (w_wire w ++ l1) ++ l2) as Hpre by (intros; by do 2 apply prefix_app_r).
  destruct (k_recv c1) as [[t raw]|e]; [|by split; [apply Hpre|]].
  destruct (Z.eqb_spec t MsgAccountInfoResp) as [->|]; cbn [negb]; [|by split; [apply Hpre|]].
  destruct (unmarshal_AccountInfo raw) as [info|e] eqn:Hu; (split; [apply Hpre|]); [|done].
  exists raw. split; [cbn; by rewrite <- app_assoc | done].
Qed.

Lemma wp_account cfg s :
  dwp (net (account cfg)) (fun r s' => idle_net s' /\ c_file s' = c_file s /\ account_heard cfg r (c_net s) (c_net s')) s.
Proof.
  eapply wp_mono; [|apply (wp_net _ (fun r w => idle_world w /\ account_heard cfg r (c_net s) w))].
  { intros r s' [[Hi Hr] ->]. done. }
  unfold account. apply wp_trigger. intros c w1 r He. cbn [cli_exec] in He. injection He as <- <-.
  eapply wp_seq; [by apply wp_Connect|]. intros err w2 (_ & _ & Hc). destruct err as [e|].
  { destruct Hc as (? & ? & Hw). by split_and!. }
  destruct Hc as (_ & _ & _ & _ & auth & resp & _ & Hok & Hs & Hw2). cbn in Hw2.
  eapply wp_seq; [apply wp_GetAccountInfo|]. intros info w3 [Hp Hinfo].
  apply wp_trigger. intros c3 w4 r3 He. cbn [cli_exec] in He. injection He as <- <-. split; [done|].
  rewrite Hw2 in Hp. split; [etrans; [|exact Hp]; by apply prefix_app_r|].
  destruct info as [info|e]; [|done]. destruct Hinfo as (raw & Hw3 & Hu). exists auth, raw. split_and!; [|by exists resp | done].
  cbn. by rewrite Hw3, Hw2, <- app_assoc.
Qed.

(** A name the server has offered, between [w] and [w'], after it had accepted the
    key of [cfg]. *)
Definition offered (cfg : ClientConfig) (sub : string) (w w' : World) : Prop :=
  exists h1 auth raw h2 info,
    w_wire w' = w_wire w ++ h1 ++ account_exchange cfg auth raw ++ h2 /\ accepts auth /\
    unmarshal_AccountInfo raw = Ok info /\ sub ∈ ai_Subdomains info.

Lemma offered_earlier cfg sub w0 w w' : w_wire w0 `prefix_of` w_wire w -> offered cfg sub w w' -> offered cfg sub w0 w'.
Proof.
  intros [h0 E0] (h1 & auth & raw & h2 & info & E & Ha & Hu & Hin). exists (h0 ++ h1), auth, raw, h2, info.
  split; [|done]. by rewrite E, E0, <- !app_assoc.
Qed.

Lemma chosen_offered cfg choice info w w' :
  account_heard cfg (inr (Ok info)) w w' ->
  chosen choice (ai_Subdomains info) = ""%string \/ offered cfg (chosen choice (ai_Subdomains info)) w w'.
Proof.
  intros [_ (auth & raw & Hw & Ha & Hu)]. unfold chosen. destruct (Z.leb_spec 1 choice), (Z.leb_spec choice (Z.of_nat (length (ai_Subdomains info)))); simpl; auto.
  destruct (lookup_lt_is_Some_2 (ai_Subdomains info) (Z.to_nat (choice - 1))) as [x Hx]; [lia|].
  right. rewrite Hx. exists [], auth, raw, [], info. split_and!; [done | done | done |]. by eapply list_elem_of_lookup_2.
Qed.

Definition picks (cfg : ClientConfig) (s : Machine) (r : result cmd_error string) (s' : Machine) : Prop :=
  idle_net s' /\ c_file s' = c_file s /\
  match r with Ok sub => sub = ""%string \/ offered cfg sub (c_net s) (c_net s') | Err _ => True end.

Lemma wp_pickSubdomain cfg s : dwp (pickSubdomain cfg) (picks cfg s) s.
Proof.
  unfold pickSubdomain. eapply wp_seq; [apply wp_account|]. intros r s1 (Hi & Hf & Hr).
  destruct r as [e|[info|e]]; [by split_and!; auto | | by split_and!; auto].
  destruct (ai_Subdomains info) as [|x subs] eqn:Hs; [by split_and!; auto|].
  dstep. dstep. rewrite <- Hs. split_and!; [done | done |]. by apply chosen_offered.
Qed.

Lemma wp_handleSubdomainError cfg e0 s : dwp (handleSubdomainError cfg e0) (picks cfg s) s.
Proof.
  unfold handleSubdomainError. eapply wp_seq; [apply wp_account|]. intros r s1 (Hi & Hf & Hr).
  destruct r as [e|[info|e]]; [by split_and! | | by split_and!].
  destruct (ai_Subdomains info) as [|x subs] eqn:Hs; [by split_and!|].
  dstep. dstep. destruct (_ =? _); [by split_and!|]. rewrite <- Hs. split_and!; [done | done |]. by apply chosen_offered.
Qed.

Lemma wp_validateSubdomain cfg sub s :
  dwp (validateSubdomain cfg sub) (fun r s' => idle_net s' /\ c_file s' = c_file s /\
    w_wire (c_net s) `prefix_of` w_wire (c_net s')) s.
Proof.
  unfold validateSubdomain. eapply wp_seq; [apply wp_account|]. intros r s1 (Hi & Hf & Hr).
  destruct Hr as [Hp _]. destruct r as [e|[info|e]]; [by split_and! | | by split_and!].
  by destruct (existsb _ _); split_and!.
Qed.

(** What reading the file gives. *)
Definition on_disk (cfg : ClientConfig) (s : Machine) : Prop :=
  forall path, LoadClientConfig (Ok path) (c_file s) = Ok cfg.

Lemma wp_save {A} cfg (f : option config_error -> prog cmdE A) Q s :
  (forall s1, c_net s1 = c_net s -> on_disk cfg s1 -> dwp (f None) Q s1) ->
  (forall s1 e, c_net s1 = c_net s -> dwp (f (Some e)) Q s1) ->
  dwp (trigger (DSave cfg) ≫= f) Q s.
Proof.
  intros Hok Hno. apply wp_trigger. intros c s1 r He. cbn [cmd_exec] in He.
  destruct (SaveClientConfig (d_path c) (d_written c) cfg) as [file|e] eqn:Hs;
    [|by destruct e; injection He as <- <-; apply Hno].
  injection He as <- <-. apply Hok; [done|]. unfold SaveClientConfig in Hs. destruct (d_path c) as [p|]; [|done].
  destruct (yaml_roundtrip cfg) as (data & Hm & Hr). rewrite Hm in Hs.
  destruct (d_written c); [done|]. injection Hs as <-. intros path. unfold LoadClientConfig. simpl. by rewrite Hr.
Qed.

Lemma wp_read_trimmed {A} (f : option string -> prog cmdE A) Q s :
  (forall line, dwp (f line) Q s) -> dwp (read_trimmed ≫= f) Q s.
Proof. intros Hf. apply wp_bind. unfold read_trimmed. dstep. destruct (d_line c); apply Hf. Qed.

Lemma wp_load {A} fl (f : result config_error ClientConfig -> prog cmdE A) Q s :
  (forall cfg path, LoadClientConfig path (c_file s) = Ok cfg -> dwp (f (Ok (apply_flags fl cfg))) Q s) ->
  (forall e path, LoadClientConfig path (c_file s) = Err e -> dwp (f (Err e)) Q s) ->
  dwp (loadClientCfg fl ≫= f) Q s.
Proof.
  intros Hok Hno. apply wp_bind. unfold loadClientCfg. dstep.
  destruct (LoadClientConfig (d_path c) (c_file s)) as [cfg|e] eqn:Hl; [by eapply Hok | by eapply Hno].
Qed.

(** A login that succeeds has a key, keeps the server and has saved both. *)
Definition logs_in (s : Machine) (cfg : ClientConfig) (r : ClientConfig * option cmd_error) (s' : Machine) : Prop :=
  c_net s' = c_net s /\ ServerAddr r.1 = ServerAddr cfg /\
  (r.2 = None -> Token r.1 <> ""%string /\ on_disk r.1 s').

Lemma wp_save_key key cfg s : key <> ""%string -> dwp (save_key key cfg) (logs_in s cfg) s.
Proof. intros Hk. unfold save_key. apply wp_save; intros s1; by intros; split_and!. Qed.

Lemma wp_runLogin cfg s : dwp (runLogin cfg) (logs_in s cfg) s.
Proof.
  unfold runLogin. dstep. destruct (StartCallbackServer (d_port c)) as [url|e]; [|by split_and!].
  apply wp_trigger. intros c0 s1 opened He. cbn [cmd_exec] in He.
  assert (c_net s1 = c_net s) as Hn by (destruct (OpenBrowser _ _); by injection He as <- <-). clear He.
  assert (forall r s2, logs_in s1 cfg r s2 -> logs_in s cfg r s2) as Hto by (unfold logs_in; rewrite Hn; done).
  eapply wp_mono; [exact Hto|]. destruct opened.
  - apply wp_read_trimmed. intros [key|]; [|by split_and!].
    destruct (String.eqb_spec key ""); [by split_and! | by apply wp_save_key].
  - dstep. destruct (foldl callback_handler None (d_requests c1)) as [[key name]|]; [|by split_and!].
    cbn [cb_Key]. destruct (String.eqb_spec key ""); [by split_and! | by apply wp_save_key].
Qed.

Lemma wp_ensureServer cfg s :
  dwp (ensureServer cfg) (fun r s' => c_net s' = c_net s /\ Token r.1 = Token cfg /\
    (r.2 = true -> ServerAddr r.1 <> ""%string)) s.
Proof.
  unfold ensureServer. destruct (has_server cfg) eqn:Hh.
  { split_and!; try done. intros _. unfold has_server in Hh. apply andb_true_iff in Hh as [Hh _].
    by apply negb_true_iff, String.eqb_neq in Hh. }
  apply wp_read_trimmed. intros [addr|]; [|by split_and!].
  destruct (String.eqb_spec addr ""); [by split_and!|].
  assert (default_port addr <> ""%string) as Hp
    by (unfold default_port; destruct addr; [done|]; by destruct (Contains _ _)).
  by apply wp_save; intros s1; intros; split_and!.
Qed.

(** ** What a tunnel is asked for *)

(** The name on the command line. *)
Definition requested (arg subdomain : string) : string :=
  match parsePortSubdomain arg with
  | Ok (_, sub) => if String.eqb sub "" && negb (String.eqb subdomain "") then subdomain else sub
  | Err _ => ""
  end.

Definition resolved (arg subdomain : string) (s : Machine) (res : result cmd_error (ClientConfig * Z * string)) (s' : Machine) : Prop :=
  idle_net s' /\
  match res with
  | Ok (cfg, port, sub) =>
      1 <= port <= 65535 /\ ServerAddr cfg <> ""%string /\ (Token cfg = ""%string -> sub = ""%string) /\
      (sub = ""%string \/ sub = requested arg subdomain \/ offered cfg sub (c_net s) (c_net s'))
  | Err _ => True
  end.

Lemma apply_flags_server fl cfg : ServerAddr (apply_flags fl cfg) <> ""%string.
Proof.
  unfold apply_flags. destruct (String.eqb (ServerAddr _) "") eqn:E; [done|]. by apply String.eqb_neq in E.
Qed.

(** The login that a fixed name without a key triggers. *)
Lemma wp_login_for_name {A} cfg (f : ClientConfig * option cmd_error -> prog cmdE A) Q s :
  (forall cfg' s1, c_net s1 = c_net s -> ServerAddr cfg' <> ""%string -> Token cfg' <> ""%string -> dwp (f (cfg', None)) Q s1) ->
  (forall cfg' s1 e, c_net s1 = c_net s -> dwp (f (cfg', Some e)) Q s1) ->
  dwp ((s ← ensureServer cfg;
        let '(cfg, ok) := s in
        if ok : bool then runLogin cfg
        else mret (cfg, Some (EText "cần server address. Chạy: htn-tunnel setup"))) ≫= f) Q s.
Proof.
  intros Hok Hno. apply wp_bind. eapply wp_seq; [apply wp_ensureServer|]. intros [cfg1 ok] s1 (Hn1 & _ & Hs1).
  destruct ok; [|by apply Hno]. eapply wp_mono; [|apply wp_runLogin].
  intros [cfg2 e] s2 (Hn2 & Hs2 & Hr2). simpl in *. destruct e as [e|]; [apply Hno; congruence|].
  apply Hok; [congruence | rewrite Hs2; by apply Hs1 | by apply Hr2].
Qed.

Lemma wp_resolve_http fl arg subdomain s :
  idle_net s -> dwp (resolve_http fl arg subdomain) (resolved arg subdomain s) s.
Proof.
  intros Hidle. unfold resolve_http.
  assert (forall p sub, parsePortSubdomain arg = Ok (p, sub) ->
    requested arg subdomain = if String.eqb sub "" && negb (String.eqb subdomain "") then subdomain else sub) as Hreq
    by (unfold requested; by intros p sub ->).
  destruct (parsePortSubdomain arg) as [[p sub]|e] eqn:Hp; [|by split].
  apply parsePort_range in Hp as Hr. rewrite <- (Hreq _ _ eq_refl). set (name := requested arg subdomain).
  assert (forall cfg s1, idle_net s1 -> c_net s1 = c_net s -> ServerAddr cfg <> ""%string -> (name = ""%string \/ Token cfg <> ""%string) ->
    dwp (if String.eqb (Token cfg) "" then mret (Ok (cfg, p, name))
         else if String.eqb name "" then picked ← pickSubdomain cfg;
           mret (match picked with Ok sub => Ok (cfg, p, sub) | Err e => Err e end)
         else bad ← validateSubdomain cfg name;
           match bad with
           | None => mret (Ok (cfg, p, name))
           | Some e => picked ← handleSubdomainError cfg e;
               mret (match picked with Ok sub => Ok (cfg, p, sub) | Err e => Err e end)
           end) (resolved arg subdomain s) s1) as Hrest.
  { intros cfg s1 Hi1 Hn1 Hs1 Hname. apply (wp_mono _ (resolved arg subdomain s1)); [by unfold resolved; rewrite Hn1|]. destruct (String.eqb_spec (Token cfg) "") as [Ht|Ht].
    { split; [done|]. refine (conj Hr (conj Hs1 (conj _ _))); [by destruct Hname | auto]. }
    destruct (String.eqb_spec name "") as [Hn|Hn].
    - eapply wp_seq; [apply wp_pickSubdomain|]. intros [sub'|e] s2 (Hi2 & _ & Hsub); split; try done.
      refine (conj Hr (conj Hs1 (conj _ _))); tauto.
    - eapply wp_seq; [apply wp_validateSubdomain|]. intros [e|] s2 (Hi2 & _ & Hw2).
      + eapply wp_seq; [apply wp_handleSubdomainError|]. intros [sub'|e'] s3 (Hi3 & _ & Hsub); split; try done.
        refine (conj Hr (conj Hs1 (conj _ _))); [tauto|].
        destruct Hsub as [|Hsub]; [by left | right; right; by eapply offered_earlier].
      + split; [done|]. refine (conj Hr (conj Hs1 (conj _ _))); tauto. }
  apply wp_load; [|by split]. intros cfg0 path _. pose proof (apply_flags_server fl cfg0) as Hs0.
  destruct (negb (String.eqb name "") && String.eqb (Token (apply_flags fl cfg0)) "") eqn:Hneed.
  - apply wp_login_for_name; [|by intros cfg' s1 e Hn; split; [unfold idle_net; rewrite Hn|]].
    intros cfg' s1 Hn Hs Ht. apply Hrest; [unfold idle_net; by rewrite Hn | done | done | by right].
  - apply Hrest; [done | done | done |]. apply andb_false_iff in Hneed as [Hn|Ht].
    + left. by apply negb_false_iff, String.eqb_eq in Hn.
    + right. by apply String.eqb_neq in Ht.
Qed.

(** C18: what the [http] command asks for: a port between 1 and 65535, always
    with a server address; a fixed name only when there is a key, and then the
    name on the command line or one of an account answer received on the way, on
    a connection that had authenticated with that key; without a key, a random
    name.  No connection made on the way stays open. *)
Theorem resolve_http_spec fl arg subdomain cs s s' r rest :
  idle_net s -> run cmd_exec (resolve_http fl arg subdomain) cs s = Some (s', r, rest) ->
  exists res, r = Some res /\ resolved arg subdomain s res s'.
Proof. intros Hi. by apply wp_run, wp_resolve_http. Qed.

(** The [http] command as a whole never panics and never leaves a
    connection open, and it succeeds only when it has been cancelled. *)
Theorem httpCmd_spec version fl arg subdomain rounds cs s s' r rest :
  idle_net s -> run cmd_exec (httpCmd version fl arg subdomain rounds) cs s = Some (s', r, rest) ->
  exists out, r = Some out /\ idle_net s' /\
    (out = CmdOk -> exists tr, w_trace (c_net s') = tr ++ [RCancelled]).
Proof.
  intros Hi Hrun. refine (wp_run _ (fun out s' => idle_net s' /\
    (out = CmdOk -> exists tr, w_trace (c_net s') = tr ++ [RCancelled])) _ _ _ _ _ _ _ Hrun). clear Hrun.
  unfold httpCmd. eapply wp_seq; [by apply wp_resolve_http|].
  intros [[[cfg p] sub]|e] s1 [Hi1 _]; [|by split].
  eapply wp_seq; [apply wp_net, (wp_Run rounds _ (start sub) 0); [done | exact Hi1]|].
  intros out s2 [(Ho & Hs & tr & Htr & _ & Hout) _]. split; [by split|].
  destruct out as [[e|]|]; simpl; try done. intros _. destruct Hout as (_ & tr0 & ->).
  exists (w_trace (c_net s1) ++ tr0). by rewrite Htr, app_assoc.
Qed.

(** ** What the commands leave in the file *)

Lemma run_load {A} fl (f : ClientConfig -> prog cmdE A) cs s s' a rest :
  run cmd_exec (r ← loadClientCfg fl; match r with Err _ => Crash | Ok cfg => f cfg end) cs s = Some (s', Some a, rest) ->
  exists c cs0 cfg, cs = c :: cs0 /\ LoadClientConfig (d_path c) (c_file s) = Ok cfg /\
    run cmd_exec (f (apply_flags fl cfg)) cs0 s = Some (s', Some a, rest).
Proof.
  destruct cs as [|c cs]; [done|]. cbn.
  destruct (LoadClientConfig (d_path c) (c_file s)) as [cfg|e] eqn:Hl; [|done]. intros Hrun.
  by exists c, cs, cfg.
Qed.

(** C27: a login that succeeds has saved a key and a server address, and the
    next command started without flags works with exactly these. *)
Theorem loginCmd_spec fl cs s s' rest :
  run cmd_exec (loginCmd fl) cs s = Some (s', Some CmdOk, rest) ->
  exists cfg, on_disk cfg s' /\ Token cfg <> ""%string /\ ServerAddr cfg <> ""%string /\
    apply_flags {| flagServer := ""; flagToken := "" |} cfg = cfg.
Proof.
  intros (c & cs0 & cfg0 & -> & _ & Hrun)%run_load.
  assert (dwp (s ← ensureServer (apply_flags fl cfg0);
    let '(cfg, ok) := s in
    if ok : bool then l ← runLogin cfg; mret (match l.2 with Some e => CmdErr e | None => CmdOk end)
    else mret (CmdErr (EText "cần server address. Chạy: htn-tunnel setup")))
    (fun out s' => out = CmdOk -> exists cfg, on_disk cfg s' /\ Token cfg <> ""%string /\ ServerAddr cfg <> ""%string) s) as Hw.
  { eapply wp_seq; [apply wp_ensureServer|]. intros [cfg1 ok] s1 (_ & _ & Hs1). destruct ok; [|done].
    eapply wp_seq; [apply wp_runLogin|]. intros [cfg2 e] s2 (_ & Hs2 & Hr2). destruct e as [e|]; [done|].
    intros _. exists cfg2. simpl in *. destruct (Hr2 eq_refl). split_and!; [done..|]. rewrite Hs2. by apply Hs1. }
  destruct (wp_run _ _ _ _ _ _ _ _ Hw Hrun) as (out & [= <-] & Hout).
  destruct (Hout eq_refl) as (cfg & Hd & Ht & Hs). exists cfg. split_and!; try done.
  unfold apply_flags. simpl. by rewrite (proj2 (String.eqb_neq _ _) Hs).
Qed.

(** [logout] forgets the key and nothing else; [auth] stores its token but
    writes the address of the [--server] flag over the saved one, so that
    without the flag the client falls back to localhost:4443. *)
Theorem auth_forgets_server fl token cs s s' rest :
  (forall cfg, on_disk cfg s -> run cmd_exec logoutCmd cs s = Some (s', Some CmdOk, rest) ->
     (exists c cs0, cs = c :: cs0 /\ exists path, d_path c = Ok path) ->
     on_disk (set_token "" cfg) s') /\
  (run cmd_exec (authCmd fl token) cs s = Some (s', Some CmdOk, rest) ->
     on_disk {| ServerAddr := flagServer fl; Token := token |} s').
Proof.
  split.
  - intros cfg Hd Hrun (c & cs0 & -> & path & Hp).
    assert (dwp (e ← trigger (DSave (set_token "" cfg)); mret (saved e))
      (fun out s' => out = CmdOk -> on_disk (set_token "" cfg) s') s) as Hw
      by (apply wp_save; [by intros s1 _ Hd' _ | done]).
    cbn [run logoutCmd trigger mbind prog_mbind prog_bind cmd_exec] in Hrun. rewrite Hp, (Hd path) in Hrun.
    by destruct (wp_run _ _ _ _ _ _ _ _ Hw Hrun) as (out & [= <-] & Hout); apply Hout.
  - intros Hrun.
    assert (dwp (authCmd fl token) (fun out s' => out = CmdOk -> on_disk {| ServerAddr := flagServer fl; Token := token |} s') s)
      as Hw by (unfold authCmd; apply wp_save; [by intros s1 _ Hd' _ | done]).
    by destruct (wp_run _ _ _ _ _ _ _ _ Hw Hrun) as (out & [= <-] & Hout); apply Hout.
Qed.
End Properties.

(** ** Commands at work *)

Module Examples.
Import Client.Examples.

(** A marshaller: the length of the address in unary, then both strings. *)
Fixpoint unary (n : nat) (s : string) : string := match n with O => String "." s | S n => String "1" (unary n s) end.
Fixpoint read_unary (s : string) : option (nat * string) :=
  match s with
  | String c s => if Ascii.eqb c "." then Some (O, s)
                  else match read_unary s with Some (n, s) => Some (S n, s) | None => None end
  | EmptyString => None
  end.
#[export] Instance unary_yaml : Yaml ClientConfig :=
  {| yaml_Marshal c := Ok (unary (String.length (ServerAddr c)) (ServerAddr c +:+ Token c));
     yaml_Unmarshal s _ := match read_unary s with
                           | Some (n, s) => Ok {| ServerAddr := slice_to s n; Token := slice_from s n |}
                           | None => Err "bad"%string
                           end |}.

Lemma read_unary_unary n s : read_unary (unary n s) = Some (n, s).
Proof. induction n as [|n IH]; [done|]. simpl. by rewrite IH. Qed.

#[export] Instance unary_yaml_laws : YamlLaws ClientConfig {| ServerAddr := ""; Token := "" |}.
Proof.
  split. intros [addr token]. eexists. split; [done|]. simpl.
  by rewrite read_unary_unary, slice_to_app, slice_from_app.
Qed.

Definition fl : Flags := {| flagServer := ""; flagToken := "" |}.
Definition me : ClientConfig := {| ServerAddr := "example.com:4443"; Token := "htn_old" |}.
Definition file_of (cfg : ClientConfig) : read_outcome :=
  match yaml_Marshal cfg with Ok data => FileData data | Err _ => FileMissing end.
Definition m0 : Machine := {| c_file := file_of me; c_net := w0; c_said := []; c_started := [] |}.

(** Everything works; the user types [line] and picks [choice]; the browser
    answers with a key. *)
Definition sup (t : MsgType) (line : option string) (choice : Z) : cmd_supply := {|
  d_net := fine t; d_path := Ok "config.yaml"%string; d_written := None; d_left := FileMissing;
  d_line := line; d_int := choice; d_port := Ok 40000; d_goos := "linux"; d_browser := None;
  d_requests := [("htn_new", "Ann"); ("htn_late", "Eve")]%string |}.

Definition ok_sup : cmd_supply := sup 0 None 1.
Definition end_cmd {A} (p : prog cmdE A) (cs : list cmd_supply) (s : Machine) : Machine :=
  match run cmd_exec p cs s with Some (s', _, _) => s' | None => s end.

Lemma parsePortSubdomain_spec_witness :
  parsePortSubdomain "3000:MyApp" = Ok (3000, "myapp"%string).
Proof.
  apply (proj2 (parsePortSubdomain_spec "3000:MyApp" 3000 "myapp")). split; [lia|]. right.
  exists "3000"%string, "MyApp"%string. vm_compute. auto.
Defined.

(** A key and no name: the account is asked and the first name picked. *)
Definition picking : list cmd_supply :=
  ok_sup :: repeat (sup MsgAuthResponse None 1) 6 ++ repeat (sup MsgAccountInfoResp None 1) 5.
Definition m1 : Machine := end_cmd (resolve_http fl "3000" "") picking m0.

Lemma run_resolve :
  run cmd_exec (resolve_http fl "3000" "") picking m0 = Some (m1, Some (Ok (me, 3000, "abc"%string)), []).
Proof. vm_compute. reflexivity. Qed.

Lemma idle_m0 : idle_net m0.
Proof. by split. Qed.

Lemma resolve_http_spec_witness :
  exists res, Some (Ok (me, 3000, "abc"%string)) = Some res /\ resolved "3000" "" m0 res m1.
Proof. exact (resolve_http_spec fl "3000" "" picking m0 m1 (Some (Ok (me, 3000, "abc"%string))) [] idle_m0 run_resolve). Defined.

(** The same command with a server that drops the tunnel, for one round. *)
Definition serving : list cmd_supply :=
  picking ++ map (fun k => {| d_net := k; d_path := Ok "config.yaml"%string; d_written := None; d_left := FileMissing;
    d_line := None; d_int := 0; d_port := Ok 0; d_goos := "linux"; d_browser := None; d_requests := [] |}) served_round.
Definition m2 : Machine := end_cmd (httpCmd "1.0" fl "3000" "" 1) serving m0.

Lemma run_httpCmd : run cmd_exec (httpCmd "1.0" fl "3000" "" 1) serving m0 = Some (m2, Some Running, []).
Proof. vm_compute. reflexivity. Qed.

Lemma httpCmd_spec_witness :
  exists out, Some Running = Some out /\ idle_net m2 /\
    (out = CmdOk -> exists tr, w_trace (c_net m2) = tr ++ [RCancelled]).
Proof. exact (httpCmd_spec "1.0" fl "3000" "" 1 serving m0 m2 (Some Running) [] idle_m0 run_httpCmd). Defined.

Definition logging : list cmd_supply := repeat ok_sup 5.
Definition m3 : Machine := end_cmd (loginCmd fl) logging m0.

Lemma run_login : run cmd_exec (loginCmd fl) logging m0 = Some (m3, Some CmdOk, []).
Proof. vm_compute. reflexivity. Qed.

Lemma loginCmd_spec_witness :
  exists cfg, on_disk cfg m3 /\ Token cfg <> ""%string /\ ServerAddr cfg <> ""%string /\ apply_flags fl cfg = cfg.
Proof. exact (loginCmd_spec fl logging m0 m3 [] run_login). Defined.

Definition m4 : Machine := end_cmd (authCmd fl "htn_x") [ok_sup] m0.

Lemma run_auth : run cmd_exec (authCmd fl "htn_x") [ok_sup] m0 = Some (m4, Some CmdOk, []).
Proof. vm_compute. reflexivity. Qed.

Lemma auth_forgets_server_witness : on_disk {| ServerAddr := ""; Token := "htn_x" |} m4.
Proof. exact (proj2 (auth_forgets_server fl "htn_x" [ok_sup] m0 m4 []) run_auth). Defined.

(** A file that cannot be parsed: [login], [setup] and [dashboard] use the nil
    configuration and panic, where the other commands report the error. *)
Definition broken : Machine := {| c_file := FileData "???"; c_net := w0; c_said := []; c_started := [] |}.

Theorem malformed_config_panics :
  map (fun p => match run cmd_exec p [ok_sup; ok_sup] broken with Some (_, None, _) => true | _ => false end)
    [loginCmd fl; setupCmd fl; dashboardCmd fl; statusCmd fl; tcpCmd "1" fl "22" 1] = [true; true; true; false; false].
Proof. vm_compute. reflexivity. Qed.
End Examples.
