(* ===== verification/Host.v ===== *)
(** * The host of the server's commands (cmd/server)

    The files, external commands and network queries that the commands of
    [htn-server] use, as events of a program and their effect on a state: a
    file system of named files (without links), the ports that cannot be
    listened on, and the commands run so far.  A file's content
    is its bytes, or a gzipped tar archive seen as its entries ([archive/tar] and
    [compress/gzip] write and read these). *)

From S2P Require Import Prelude Prog GoStrings.
Local Open Scope Z_scope.

(** ** Files *)

(** An archive ends well or in an error; so does the data of an entry. *)
Inductive content :=
  | Raw (s : string)
  | TarGz (es : list entry) (err : option string)
with entry :=
  | Entry (name : string) (mode : Z) (regular : bool) (data : content) (cut : option string).

Definition e_name (e : entry) : string := match e with Entry n _ _ _ _ => n end.
Definition e_mode (e : entry) : Z := match e with Entry _ m _ _ _ => m end.
Definition e_regular (e : entry) : bool := match e with Entry _ _ r _ _ => r end.
Definition e_data (e : entry) : content := match e with Entry _ _ _ d _ => d end.
Definition e_cut (e : entry) : option string := match e with Entry _ _ _ _ c => c end.

Record File := { f_mode : Z; f_regular : bool; f_data : content }.

Record Host := { fs : gmap string File; umask : Z; busy : list Z; execs : list (list string) }.

Definition with_fs (m : gmap string File) (h : Host) : Host :=
  {| fs := m; umask := umask h; busy := busy h; execs := execs h |}.

(** What a path holds. *)
Definition data_at (path : string) (h : Host) : option content := f_data <$> fs h !! path.

(** Writing through an open file: the mode stays. *)
Definition set_data (path : string) (c : content) (h : Host) : Host :=
  with_fs (alter (fun f => {| f_mode := f_mode f; f_regular := f_regular f; f_data := c |}) path (fs h)) h.

(** [os.OpenFile(path, O_WRONLY|O_CREATE|O_TRUNC, mode)]: a file that exists
    keeps its mode. *)
Definition open_trunc (path : string) (mode : Z) (h : Host) : Host :=
  with_fs (<[path := match fs h !! path with
                     | Some f => {| f_mode := f_mode f; f_regular := f_regular f; f_data := Raw "" |}
                     | None => {| f_mode := Z.land mode (Z.lnot (umask h)); f_regular := true; f_data := Raw "" |}
                     end]> (fs h)) h.

(** [sed -i 's/from/to/g' dir/*suffix], for plain texts: the files right in the
    directory whose names end in the suffix and start with no dot. *)
Record sed := { sd_dir : string; sd_suffix : string; sd_from : string; sd_to : string }.
Definition sed_matches (c : sed) (path : string) : bool :=
  let dir := sd_dir c +:+ "/" in
  HasPrefix path dir &&
  (let name := TrimPrefix path dir in
   negb (Contains name "/") && negb (HasPrefix name ".") && negb (String.eqb name "") && HasSuffix name (sd_suffix c)).
Definition sed_file (f : File) (c : sed) : File :=
  match f_data f with
  | Raw s => {| f_mode := f_mode f; f_regular := f_regular f; f_data := Raw (ReplaceAll s (sd_from c) (sd_to c)) |}
  | TarGz _ _ => f
  end.
(** It edits the regular ones, those of [done] that it managed to. *)
Definition sed_run (c : sed) (done : list string) (m : gmap string File) : gmap string File :=
  map_imap (fun p f => Some (if sed_matches c p && f_regular f && bool_decide (p ∈ done) then sed_file f c else f)) m.

(** ** Effects

    [HTry] is an operation that only succeeds or fails. *)

Inductive hostE : Type -> Type :=
  | HStat (path : string) : hostE (option bool)
  | HOpen (path : string) : hostE (result string (content * Z))
  | HOpenFile (path : string) (mode : Z) : hostE (option string)
  | HCopy (path : string) (data : content) (cut : option string) : hostE (option string)
  | HMkdirAll (path : string) : hostE (option string)
  | HTry : hostE (option string)
  | HRename (old new : string) : hostE (option string)
  | HRemove (path : string) : hostE unit
  | HCreateTemp (pattern : string) : hostE (result string string)
  | HExec (argv : list string) : hostE (option string)
  | HSed (c : sed) : hostE unit
  | HExecutable : hostE (result string string)
  | HGet (url : string) : hostE (result string content)
  | HStdin : hostE (option string)
  | HSay (lines : list string) : hostE unit
  | HPortInUse (port : Z) : hostE bool
  | HLookupHost (host : string) : hostE (result string (list string)).

(** The outcomes of I/O. [s_left] is what a failed copy leaves behind, [s_files]
    the files [sed] can edit. *)
Record host_supply := {
  s_err : option string;
  s_left : content;
  s_temp : string;
  s_exec : string;
  s_body : content;
  s_line : option string;
  s_files : list string;
  s_ips : list string;
}.

Definition host_exec (R : Type) (e : hostE R) (c : host_supply) (h : Host) : option (Host * R) :=
  match e in hostE R return option (Host * R) with
  | HStat path => Some (h, match s_err c with Some _ => None | None => f_regular <$> fs h !! path end)
  | HOpen path =>
      Some (h, match s_err c, fs h !! path with
               | Some e, _ => Err e
               | None, Some f => Ok (f_data f, f_mode f)
               | None, None => Err "no such file or directory"%string
               end)
  | HOpenFile path mode =>
      Some (match s_err c with Some _ => h | None => open_trunc path mode h end, s_err c)
  | HCopy path data cut =>
      Some (match s_err c, cut with
            | None, None => (set_data path data h, None)
            | Some e, _ => (set_data path (s_left c) h, Some e)
            | None, Some e => (set_data path (s_left c) h, Some e)
            end)
  | HMkdirAll _ | HTry => Some (h, s_err c)
  | HRename old new =>
      Some (match s_err c, fs h !! old with
            | None, Some f => (with_fs (<[new := f]> (delete old (fs h))) h, None)
            | Some e, _ => (h, Some e)
            | None, None => (h, Some "no such file or directory"%string)
            end)
  | HRemove path => Some (match s_err c with Some _ => h | None => with_fs (delete path (fs h)) h end, tt)
  | HCreateTemp _ =>
      match s_err c with
      | Some e => Some (h, Err e)
      | None =>
          if decide (fs h !! s_temp c = None) then
            Some (with_fs (<[s_temp c := {| f_mode := 384; f_regular := true; f_data := Raw "" |}]> (fs h)) h, Ok (s_temp c))
          else None
      end
  | HExec argv => Some ({| fs := fs h; umask := umask h; busy := busy h; execs := execs h ++ [argv] |}, s_err c)
  | HSed cmd => Some (with_fs (sed_run cmd (s_files c) (fs h)) h, tt)
  | HExecutable => Some (h, match s_err c with Some e => Err e | None => Ok (s_exec c) end)
  | HGet _ => Some (h, match s_err c with Some e => Err e | None => Ok (s_body c) end)
  | HStdin => Some (h, s_line c)
  | HSay _ => Some (h, tt)
  | HPortInUse port => Some (h, bool_decide (port ∈ busy h))
  | HLookupHost _ => Some (h, match s_err c with Some e => Err e | None => Ok (s_ips c) end)
  end.

(** ** Lemmas *)

(** What a path has become of some of the commands that match it. *)
Definition edited_by (cmds : list sed) (path : string) (before after : option File) : Prop :=
  match before with
  | None => after = None
  | Some f => exists k, k `sublist_of` cmds /\ Forall (fun c => sed_matches c path = true) k /\
      (k <> [] -> f_regular f = true) /\ after = Some (foldl sed_file f k)
  end.

Lemma edited_by_same cmds path o : edited_by cmds path o o.
Proof. destruct o as [f|]; [|done]. exists []. split_and!; [apply sublist_nil_l | done..]. Qed.

Lemma edited_by_unmatched cmds path o o' :
  Forall (fun c => sed_matches c path = false) cmds -> edited_by cmds path o o' -> o' = o.
Proof.
  intros Hc. destruct o as [f|]; [|done]. intros (k & Hk & Hm & _ & ->).
  destruct k as [|c k]; [done|]. exfalso. apply Forall_cons in Hm as [Hm _].
  assert (c ∈ cmds) as Hin by (eapply elem_of_sublist; [apply list_elem_of_here | exact Hk]).
  rewrite Forall_forall in Hc. specialize (Hc c Hin). congruence.
Qed.

Lemma sed_file_regular f c : f_regular (sed_file f c) = f_regular f.
Proof. unfold sed_file. by destruct (f_data f). Qed.

Lemma edited_by_cons c cmds path done m o :
  edited_by cmds path (sed_run c done m !! path) o -> edited_by (c :: cmds) path (m !! path) o.
Proof.
  unfold sed_run. rewrite map_lookup_imap. destruct (m !! path) as [f|]; cbn [mbind option_bind]; [|done].
  destruct (sed_matches c path) eqn:Hm, (f_regular f) eqn:Hr, (bool_decide (path ∈ done)); cbn [andb];
    intros (k & Hk & Hall & Hreg & ->); try (exists k; split_and!; [by apply sublist_cons | done..]).
  exists (c :: k). split_and!; [by apply sublist_skip | by constructor | done | done].
Qed.

Lemma data_at_set path c h : is_Some (fs h !! path) -> data_at path (set_data path c h) = Some c.
Proof. intros [f Hf]. unfold data_at, set_data. simpl. by rewrite lookup_alter_eq, Hf. Qed.

Lemma fs_set_other path path' c h : path <> path' -> fs (set_data path c h) !! path' = fs h !! path'.
Proof. intros Hne. simpl. by rewrite lookup_alter_ne. Qed.

Lemma open_trunc_is_Some path mode h : is_Some (fs (open_trunc path mode h) !! path).
Proof. simpl. rewrite lookup_insert_eq. eauto. Qed.

Lemma fs_open_other path path' mode h : path <> path' -> fs (open_trunc path mode h) !! path' = fs h !! path'.
Proof. intros Hne. simpl. by rewrite lookup_insert_ne. Qed.

(** Writing a whole file. *)
Lemma data_at_write path mode c h : data_at path (set_data path c (open_trunc path mode h)) = Some c.
Proof. apply data_at_set, open_trunc_is_Some. Qed.

(** A host on which nothing fails. *)
Definition reliable_exec (R : Type) (e : hostE R) (c : host_supply) (h : Host) : option (Host * R) :=
  match s_err c with None => host_exec R e c h | Some _ => None end.

Lemma run_reliable {A} (p : prog hostE A) cs h :
  Forall (fun c => s_err c = None) cs -> run reliable_exec p cs h = run host_exec p cs h.
Proof.
  revert cs h. induction p as [a| |R e k IH]; intros cs h Hcs; [done..|].
  destruct Hcs as [|c cs Hc Hcs]; [done|]. cbn [run]. unfold reliable_exec at 1. rewrite Hc.
  destruct (host_exec R e c h) as [[h1 r]|]; [by apply IH|done].
Qed.
