(* ===== verification/Ops.v ===== *)
(** * Maintenance commands of the server (cmd/server: backup, restore, upgrade,
      health, status, serve)

    Backup, restore and upgrade as programs over Host.v, health and status as
    functions of what the server answers.  What the former print is left out;
    gzip and tar are the entries of an archive; the release information of
    GitHub is a parameter. *)

From S2P Require Import Prelude Prog GoStrings Config Host.
Local Open Scope Z_scope.

(** ** Paths and addresses *)

(** [resolveConfigPath]; [flag] is [--config]. *)
Definition resolveConfigPath (flag : string) : string :=
  if String.eqb flag "" then "/etc/htn-tunnel/server.yaml" else flag.

(** The path [serveCmd] loads. *)
Definition serve_path (flag : string) : string :=
  if String.eqb flag "" then "server.yaml" else flag.

(** The address [healthCmd] and [runStatus] probe. *)
Definition probe_addr (dashboard_addr : string) : string :=
  let addr := if String.eqb dashboard_addr "" then ":1807" else dashboard_addr in
  if HasPrefix addr ":" then "localhost" +:+ addr else addr.
Definition probe_url (dashboard_addr : string) : string := "http://" +:+ probe_addr dashboard_addr +:+ "/_healthz".

(** ** Health and status

    [load] is [LoadServerConfig], [get] the outcome of [http.Get]: the status code
    and the body.  The JSON decoder and the verbs [%v] and [%.0f] on a decoded
    value are parameters; a missing value is printed by [%v] as well. *)

Section Probe.
Context {J : Type}.
Variable decode : string -> result string (gmap string J).
Variable fmt_v : option J -> string.
Variable fmt_0f : J -> string.

Record printed := { stdout : list string; stderr : list string; exit_code : Z }.

Definition healthCmd (flag : string) (load : string -> result config_error ServerConfig)
    (get : string -> result string (Z * string)) : printed :=
  let dashboard_addr := match load (resolveConfigPath flag) with Ok cfg => DashboardAddr cfg | Err _ => ":1807" end in
  match get (probe_url dashboard_addr) with
  | Err e => {| stdout := []; stderr := ["  health check failed: " +:+ e;
                  "  Is the server running? (dashboard addr: " +:+ dashboard_addr +:+ ")"]; exit_code := 1%Z |}
  | Ok (code, body) =>
      match decode body with
      | Err e => {| stdout := []; stderr := ["  invalid response from server: " +:+ e]; exit_code := 1%Z |}
      | Ok result =>
          {| stdout := [ (if (code =? 200)%Z then "  status:    " +:+ fmt_v (result !! "status")
                          else "  status: DEGRADED (HTTP " +:+ Itoa code +:+ ")");
                         "  version:   " +:+ fmt_v (result !! "version");
                         "  tunnels:   " +:+ fmt_v (result !! "tunnels");
                         "  users:     " +:+ fmt_v (result !! "users");
                         "  bytes_in:  " +:+ fmt_v (result !! "bytes_in");
                         "  bytes_out: " +:+ fmt_v (result !! "bytes_out") ];
             stderr := []; exit_code := 0%Z |}
      end
  end%string.

(** [runStatus]; a body that cannot be decoded leaves the map empty. *)
Definition runStatus (flag version : string) (load : string -> result config_error ServerConfig)
    (get : string -> result string (Z * string)) : result config_error (list string) :=
  let cfgPath := resolveConfigPath flag in
  cfg ← load cfgPath;
  Ok ([ "  htn-tunnel Server Status";
        "  Version:     " +:+ version; "  Config:      " +:+ cfgPath; "  Domain:      " +:+ Domain cfg;
        "  Listen:      " +:+ ListenAddr cfg; "  Dashboard:   " +:+ DashboardAddr cfg;
        "  HTTP Proxy:  " +:+ HTTPProxyAddr cfg; "  Keys file:   " +:+ KeyStorePath cfg;
        "  Anonymous:   " +:+ (if bool_decide (AllowAnonymous cfg = Some true) then "true" else "false") ]
      ++ match get (probe_url (DashboardAddr cfg)) with
         | Err _ => ["  Server:      offline"]
         | Ok (_, body) =>
             let health := match decode body with Ok m => m | Err _ => ∅ end in
             ["  Server:      online"]
             ++ match health !! "tunnels" with Some t => ["  Tunnels:     " +:+ fmt_0f t] | None => [] end
             ++ match health !! "users" with Some u => ["  Users:       " +:+ fmt_0f u] | None => [] end
         end)%list%string.
End Probe.

(** [filepath.Dir] of a clean path. *)
Definition Dir (path : string) : string :=
  match LastIndexByte path "/" with
  | Some O => "/"
  | Some i => slice_to path i
  | None => "."
  end.

(** ** Backup *)

(** [fileExists] *)
Definition fileExists (path : string) : prog hostE bool :=
  r ← trigger (HStat path); mret (match r with Some regular => regular | None => false end).

(** [addFileToTar]: the entry it has written, whole or cut, and its error. *)
Definition addFileToTar (path : string) : prog hostE (option entry * option string) :=
  f ← trigger (HOpen path);
  match f with
  | Err e => mret (None, Some ("open " +:+ path +:+ ": " +:+ e))
  | Ok (data, mode) =>
      stat ← trigger HTry;
      match stat with
      | Some e => mret (None, Some e)
      | None =>
          header ← trigger HTry;
          match header with
          | Some e => mret (None, Some ("write tar header for " +:+ path +:+ ": " +:+ e))
          | None =>
              body ← trigger HTry;
              match body with
              | Some e => mret (Some (Entry path mode true data (Some "unexpected EOF")),
                                Some ("write tar body for " +:+ path +:+ ": " +:+ e))
              | None => mret (Some (Entry path mode true data None), None)
              end
          end
      end
  end.

Fixpoint add_files (files : list string) (es : list entry) : prog hostE (list entry * option string) :=
  match files with
  | [] => mret (es, None)
  | path :: files =>
      r ← addFileToTar path;
      let '(e, err) := r : option entry * option string in
      let es := es ++ match e with Some e => [e] | None => [] end in
      match err with Some err => mret (es, Some err) | None => add_files files es end
  end.

(** [createTarGz]: the deferred closes write the archive out, also on an error. *)
Definition createTarGz (dest : string) (files : list string) : prog hostE (option string) :=
  created ← trigger (HOpenFile dest 438);
  match created with
  | Some e => mret (Some ("create archive: " +:+ e))
  | None =>
      r ← add_files files [];
      let '(es, err) := r : list entry * option string in
      _ ← trigger (HCopy dest (TarGz es None) None);
      mret err
  end.

(** [runBackup]; [load] is [config.LoadServerConfig] on the file. *)
Definition runBackup (flag outPath : string) (load : string -> result config_error ServerConfig) : prog hostE (option string) :=
  let cfgPath := resolveConfigPath flag in
  have_cfg ← fileExists cfgPath;
  let files := if have_cfg : bool then [cfgPath] else [] in
  files ← (match load cfgPath with
           | Ok cfg => have_keys ← fileExists (KeyStorePath cfg);
                       mret (if have_keys : bool then files ++ [KeyStorePath cfg] else files)
           | Err _ => mret files
           end);
  match files with
  | [] => mret (Some ("no files to backup (config: " +:+ cfgPath +:+ ")"))
  | _ => createTarGz outPath files
  end.

(** ** Restore *)

(** One entry of [extractTarGz]. *)
Definition extract_entry (e : entry) : prog hostE (option string) :=
  let dest := e_name e in
  made ← trigger (HMkdirAll (Dir dest));
  match made with
  | Some err => mret (Some ("create dir for " +:+ dest +:+ ": " +:+ err))
  | None =>
      out ← trigger (HOpenFile dest (e_mode e));
      match out with
      | Some err => mret (Some ("create " +:+ dest +:+ ": " +:+ err))
      | None =>
          r ← trigger (HCopy dest (e_data e) (e_cut e));
          mret (match r with Some err => Some ("write " +:+ dest +:+ ": " +:+ err) | None => None end)
      end
  end.

Fixpoint extract_entries (es : list entry) (err : option string) (restored : list string) :
    prog hostE (result string (list string)) :=
  match es with
  | [] => mret (match err with Some e => Err ("read archive: " +:+ e) | None => Ok restored end)
  | e :: es =>
      if negb (e_regular e) then extract_entries es err restored
      else
        r ← extract_entry e;
        match r with
        | Some msg => mret (Err msg)
        | None => extract_entries es err (restored ++ [e_name e])
        end
  end.

(** [extractTarGz] *)
Definition extractTarGz (src : string) : prog hostE (result string (list string)) :=
  f ← trigger (HOpen src);
  match f with
  | Err e => mret (Err ("open archive: " +:+ e))
  | Ok (Raw _, _) => mret (Err "gzip reader: gzip: invalid header")
  | Ok (TarGz es err, _) =>
      r ← extract_entries es err [];
      mret (match r with Ok [] => Err "archive contained no files" | r => r end)
  end.

(** [runRestore] *)
Definition runRestore (backupPath : string) : prog hostE (option string) :=
  r ← extractTarGz backupPath; mret (match r with Err e => Some e | Ok _ => None end).

(** ** Upgrade *)

Record Asset := { as_Name : string; as_URL : string }.
Record githubRelease := { TagName : string; Assets : list Asset }.
Class ReleaseJSON := { decode_release : content -> result string githubRelease }.

Section Upgrade.
Context `{ReleaseJSON}.
Variables (GOOS GOARCH version : string).

(** The asset of a release for this platform. *)
Definition wanted_asset (tag : string) : string :=
  "htn-server_" +:+ tag +:+ "_" +:+ GOOS +:+ "_" +:+ GOARCH +:+ ".tar.gz".
Definition find_asset (rel : githubRelease) : result string (string * string) :=
  let tag := TrimPrefix (TagName rel) "v" in
  let want := wanted_asset tag in
  match first_such (fun a => String.eqb (as_Name a) want) (Assets rel) with
  | Some a => Ok (tag, as_URL a)
  | None => Err ("no asset found for " +:+ GOOS +:+ "/" +:+ GOARCH +:+ " (wanted " +:+ want +:+ ")")
  end.

(** [getLatestRelease] *)
Definition release_url : string := "https://api.github.com/repos/nhh0718/htn-tunnel/releases/latest".
Definition getLatestRelease : prog hostE (result string (string * string)) :=
  r ← trigger (HGet release_url);
  mret (match r with
        | Err e => Err e
        | Ok body => match decode_release body with
                     | Err e => Err ("parse release: " +:+ e)
                     | Ok rel => find_asset rel
                     end
        end).

(** [downloadBinary]: the first regular entry with the suffix. *)
Fixpoint extract_binary (es : list entry) (err : option string) : prog hostE (result string string) :=
  match es with
  | [] => mret (Err (match err with Some e => "tar read: " +:+ e | None => "htn-server binary not found in archive" end))
  | e :: es =>
      if negb (e_regular e) || negb (HasSuffix (e_name e) "htn-server") then extract_binary es err
      else
        t ← trigger (HCreateTemp "htn-server-*");
        match t with
        | Err msg => mret (Err msg)
        | Ok tmp =>
            r ← trigger (HCopy tmp (e_data e) (e_cut e));
            match r with
            | Some msg => _ ← trigger (HRemove tmp); mret (Err ("extract binary: " +:+ msg))
            | None => mret (Ok tmp)
            end
        end
  end.
Definition downloadBinary (url : string) : prog hostE (result string string) :=
  r ← trigger (HGet url);
  match r with
  | Err e => mret (Err e)
  | Ok (Raw _) => mret (Err "gzip reader: gzip: invalid header")
  | Ok (TarGz es err) => extract_binary es err
  end.

(** [replaceBinary] *)
Definition replaceBinary (newPath currentPath : string) : prog hostE (option string) :=
  let backupPath := currentPath +:+ ".bak" in
  _ ← trigger (HRename currentPath backupPath);
  src ← trigger (HOpen newPath);
  match src with
  | Err e => mret (Some e)
  | Ok (data, _) =>
      dst ← trigger (HOpenFile currentPath 493);
      match dst with
      | Some e => _ ← trigger (HRename backupPath currentPath); mret (Some e)
      | None =>
          r ← trigger (HCopy currentPath data None);
          match r with
          | Some e => _ ← trigger (HRename backupPath currentPath); mret (Some ("copy binary: " +:+ e))
          | None => mret None
          end
      end
  end.

(** [runUpgrade] *)
Definition runUpgrade : prog hostE (option string) :=
  rel ← getLatestRelease;
  match rel with
  | Err e => mret (Some ("check update: " +:+ e))
  | Ok (latest, downloadURL) =>
      if String.eqb latest version then mret None
      else
        tmp ← downloadBinary downloadURL;
        match tmp with
        | Err e => mret (Some ("download: " +:+ e))
        | Ok tmpPath =>
            ex ← trigger HExecutable;
            match ex with
            | Err e => _ ← trigger (HRemove tmpPath); mret (Some ("resolve executable: " +:+ e))
            | Ok execPath =>
                r ← replaceBinary tmpPath execPath;
                match r with
                | Some e => _ ← trigger (HRemove tmpPath); mret (Some ("replace: " +:+ e))
                | None =>
                    _ ← trigger (HExec ["systemctl"; "restart"; "htn-tunnel"]);
                    _ ← trigger (HRemove tmpPath);
                    mret None
                end
            end
        end
  end.
End Upgrade.

(** ** What health and status tell *)

(** [health] exits with 0 exactly when something answers JSON at the address
    of the dashboard, whatever the status code. *)
Theorem healthCmd_exit {J} (decode : string -> result string (gmap string J)) fmt_v flag load get :
  exit_code (healthCmd decode fmt_v flag load get) = 0 <->
  exists code body m,
    get (probe_url match load (resolveConfigPath flag) with Ok cfg => DashboardAddr cfg | Err _ => ":1807"%string end) =
      Ok (code, body) /\ decode body = Ok m.
Proof.
  unfold healthCmd. destruct (get _) as [[code body]|e]; [|by split; [|intros (? & ? & ? & ? & ?)]].
  destruct (decode body) as [m|e] eqn:Hd; cbn; split; try done.
  - intros _. by exists code, body, m.
  - intros (? & ? & ? & [= -> ->] & ?). congruence.
Qed.

(** ** What a backup holds and what a restore does *)

Abbreviation rwp := (wp reliable_exec).
Abbreviation hwp := (wp host_exec).

(** One step on a host on which nothing fails. *)
Ltac rstep := apply wp_trigger; let c := fresh "c" in let He := fresh "He" in let Hc := fresh "Hc" in
  intros c ? ? He; unfold reliable_exec in He; destruct (s_err c) eqn:Hc; [discriminate He|];
  cbn [host_exec] in He; rewrite ?Hc in He; injection He as <- <-.

(** The entry of a file. *)
Definition entry_of (h : Host) (path : string) (e : entry) : Prop :=
  exists f, fs h !! path = Some f /\ e = Entry path (f_mode f) true (f_data f) None.

(** The host's files, apart from some. *)
Definition same_but (paths : list string) (h h' : Host) : Prop :=
  umask h' = umask h /\ forall p, ~ (p ∈ paths) -> fs h' !! p = fs h !! p.

Lemma same_but_trans paths h1 h2 h3 : same_but paths h1 h2 -> same_but paths h2 h3 -> same_but paths h1 h3.
Proof. intros [Hu1 H1] [Hu2 H2]. split; [congruence|]. intros p Hp. by rewrite H2, H1. Qed.

Lemma same_but_write path mode c h paths : path ∈ paths -> same_but paths h (set_data path c (open_trunc path mode h)).
Proof. intros Hp. split; [done|]. intros p Hn. rewrite fs_set_other, fs_open_other; set_solver. Qed.

Lemma wp_add_files h files es0 es :
  Forall2 (entry_of h) files es ->
  rwp (add_files files es0) (fun r h' => h' = h /\ r = (es0 ++ es, None)) h.
Proof.
  intros Hes. revert es0. induction Hes as [|path e files es (f & Hf & ->) _ IH]; intros es0.
  - split; [done|]. by rewrite app_nil_r.
  - cbn [add_files]. apply wp_bind. unfold addFileToTar. rstep. rewrite Hf. rstep. rstep. rstep. cbn [mret prog_ret wp].
    eapply wp_mono; [|by apply IH]. intros r h' [-> ->]. split; [done|]. by rewrite <- app_assoc.
Qed.

Lemma entries_open dest mode h files es :
  ~ (dest ∈ files) -> Forall2 (entry_of h) files es -> Forall2 (entry_of (open_trunc dest mode h)) files es.
Proof.
  intros Hd Hes. induction Hes as [|path e files es (f & Hf & ->) _ IH]; constructor; [|apply IH; set_solver].
  exists f. rewrite fs_open_other by (intros ->; set_solver). done.
Qed.

Lemma wp_createTarGz h dest files es :
  ~ (dest ∈ files) -> Forall2 (entry_of h) files es ->
  rwp (createTarGz dest files)
    (fun r h' => r = None /\ data_at dest h' = Some (TarGz es None) /\ same_but [dest] h h') h.
Proof.
  intros Hd Hes. unfold createTarGz. rstep. eapply wp_seq.
  - apply (wp_add_files (open_trunc dest 438 h) files [] es). by apply entries_open.
  - intros r h1 [-> ->]. rstep. split; [done|]. split; [apply data_at_write | apply same_but_write; set_solver].
Qed.

(** ** Restoring *)

(** The last entry of a name is what the restored file holds. *)
Fixpoint restored_as (es : list entry) (p : string) (old : option content) : option content :=
  match es with
  | [] => old
  | e :: es => restored_as es p (if decide (e_name e = p) then Some (e_data e) else old)
  end.

Definition whole (e : entry) : Prop := e_regular e = true /\ e_cut e = None.

Lemma wp_extract_entries es done_ h :
  Forall whole es ->
  rwp (extract_entries es None done_) (fun r h' => r = Ok (done_ ++ map e_name es) /\
    same_but (map e_name es) h h' /\ forall p, data_at p h' = restored_as es p (data_at p h)) h.
Proof.
  intros Hes. revert done_ h. induction Hes as [|e es [Hr Hc] _ IH]; intros done_ h.
  { split; [by rewrite app_nil_r|]. by repeat split. }
  cbn [extract_entries]. rewrite Hr. cbn [negb]. apply wp_bind. unfold extract_entry.
  rstep. rstep. apply wp_trigger. intros k h1 r1 Hk. unfold reliable_exec in Hk.
  destruct (s_err k) eqn:Hok; [done|]. cbn [host_exec] in Hk. rewrite Hok, Hc in Hk. injection Hk as <- <-.
  cbn [mret prog_ret wp]. eapply wp_mono; [|apply IH]. intros r h' (-> & Hsame & Hdata).
  split; [by rewrite <- app_assoc|]. split.
  - eapply same_but_trans; [apply (same_but_write (e_name e) (e_mode e) (e_data e)); set_solver|].
    destruct Hsame as [Hu Hs]. split; [done|]. intros p Hp. apply Hs. set_solver.
  - intros p. rewrite Hdata. simpl. destruct (decide (e_name e = p)) as [<-|Hne]; [by rewrite data_at_write|].
    unfold data_at. by rewrite fs_set_other, fs_open_other.
Qed.

Lemma restored_as_None es p old : ~ (p ∈ map e_name es) -> restored_as es p old = old.
Proof.
  revert old. induction es as [|e es IH]; intros old Hp; [done|]. simpl in *.
  rewrite decide_False by set_solver. apply IH. set_solver.
Qed.

(** The entries of files hold these files. *)
Lemma restored_entries h files es p old f :
  Forall2 (entry_of h) files es -> p ∈ files -> fs h !! p = Some f -> restored_as es p old = Some (f_data f).
Proof.
  intros Hes Hp Hf. revert old. induction Hes as [|path e files es (g & Hg & ->) Hes IH]; intros old; [by apply elem_of_nil in Hp|].
  simpl. destruct (decide (p ∈ files)) as [Hin|Hnot]; [by apply IH|].
  assert (p = path) as <- by set_solver. rewrite decide_True by done.
  rewrite restored_as_None; [congruence|]. intros Hn. apply Hnot.
  assert (map e_name es = files) as <-; [|done]. clear -Hes. induction Hes as [|? ? ? ? (? & _ & ->) _ IH]; simpl; congruence.
Qed.

Lemma entries_whole h files es : Forall2 (entry_of h) files es -> Forall whole es /\ map e_name es = files.
Proof. induction 1 as [|? ? ? ? (? & _ & ->) _ [IH1 IH2]]; split; simpl; try done; [by constructor | congruence]. Qed.

Lemma wp_runRestore src es h :
  data_at src h = Some (TarGz es None) -> Forall whole es -> es <> [] ->
  rwp (runRestore src) (fun r h' => r = None /\ same_but (map e_name es) h h' /\
    forall p, data_at p h' = restored_as es p (data_at p h)) h.
Proof.
  intros Hsrc Hes Hne. unfold runRestore, extractTarGz. apply wp_bind. rstep.
  unfold data_at in Hsrc. destruct (fs h !! src) as [f|]; [|done]. injection Hsrc as Hf. rewrite Hf.
  eapply wp_seq; [by apply wp_extract_entries|]. intros r h' (-> & Hs & Hd). cbn [mret prog_ret wp].
  destruct es as [|e es]; [done|]. by split_and!.
Qed.

(** ** A backup restores *)

Definition is_file (p : string) (h : Host) : bool :=
  match fs h !! p with Some f => f_regular f | None => false end.

(** The files of a backup: the configuration and the keys, where they exist. *)
Definition backup_files (flag : string) (load : string -> result config_error ServerConfig) (h : Host) : list string :=
  let cfgPath := resolveConfigPath flag in
  (if is_file cfgPath h then [cfgPath] else []) ++
  match load cfgPath with
  | Ok cfg => if is_file (KeyStorePath cfg) h then [KeyStorePath cfg] else []
  | Err _ => []
  end.

Lemma wp_fileExists {A} p (f : bool -> prog hostE A) Q h :
  rwp (f (is_file p h)) Q h -> rwp (fileExists p ≫= f) Q h.
Proof.
  intros Hf. apply wp_bind. unfold fileExists. rstep. cbn [mret prog_ret wp]. unfold is_file in Hf.
  by destruct (fs h !! p).
Qed.

Lemma is_file_entry p h : is_file p h = true -> exists e, entry_of h p e.
Proof. unfold is_file, entry_of. destruct (fs h !! p) as [f|]; [|done]. eauto. Qed.

Lemma backup_entries flag load h : exists es, Forall2 (entry_of h) (backup_files flag load h) es.
Proof.
  assert (forall p, exists es, Forall2 (entry_of h) (if is_file p h then [p] else []) es) as Hone.
  { intros p. destruct (is_file p h) eqn:Hp; [|by exists []]. destruct (is_file_entry p h Hp) as [e He].
    exists [e]. by repeat constructor. }
  unfold backup_files. destruct (Hone (resolveConfigPath flag)) as [es1 H1].
  destruct (load _) as [cfg|e]; [|exists (es1 ++ []); by apply Forall2_app].
  destruct (Hone (KeyStorePath cfg)) as [es2 H2]. exists (es1 ++ es2). by apply Forall2_app.
Qed.

Lemma wp_runBackup flag out load es h :
  backup_files flag load h <> [] -> ~ (out ∈ backup_files flag load h) ->
  Forall2 (entry_of h) (backup_files flag load h) es ->
  rwp (runBackup flag out load)
    (fun r h' => r = None /\ data_at out h' = Some (TarGz es None) /\ same_but [out] h h') h.
Proof.
  intros Hne Hout Hes. unfold runBackup. apply wp_fileExists.
  eapply (wp_seq _ _ (fun files h' => h' = h /\ files = backup_files flag load h)).
  - unfold backup_files. destruct (load (resolveConfigPath flag)) as [cfg|e]; [|split; [done|by rewrite app_nil_r]].
    apply wp_fileExists. split; [done|]. destruct (is_file (KeyStorePath cfg) h); [done|by rewrite app_nil_r].
  - intros files h1 [-> ->]. destruct (backup_files flag load h) as [|x files]; [done|]. by apply wp_createTarGz.
Qed.

(** C31: a backup restores: on a host on which no operation fails, and to an
    archive that is none of the files to save, [backup] succeeds whenever there
    is something to save and changes no file but the archive, and [restore] of that archive, whatever has happened to the other
    files since, gives the configuration and the keys the contents they had,
    and changes nothing else. *)
Theorem backup_restore flag out load cs h h1 r rest :
  backup_files flag load h <> [] -> ~ (out ∈ backup_files flag load h) ->
  Forall (fun c => s_err c = None) cs -> run host_exec (runBackup flag out load) cs h = Some (h1, r, rest) ->
  r = Some None /\ same_but [out] h h1 /\
  forall h2 cs2 h3 r3 rest3,
    fs h2 !! out = fs h1 !! out -> Forall (fun c => s_err c = None) cs2 ->
    run host_exec (runRestore out) cs2 h2 = Some (h3, r3, rest3) ->
    r3 = Some None /\ same_but (backup_files flag load h) h2 h3 /\
    forall p, p ∈ backup_files flag load h -> data_at p h3 = data_at p h.
Proof.
  intros Hne Hout Hcs Hrun. rewrite <- run_reliable in Hrun by done.
  destruct (backup_entries flag load h) as [es Hes].
  destruct (wp_run _ _ _ _ _ _ _ _ (wp_runBackup flag out load es h Hne Hout Hes) Hrun) as (a & -> & -> & Hd & Hs).
  split; [done|]. split; [done|]. intros h2 cs2 h3 r3 rest3 Hsame Hcs2 Hrun2. rewrite <- run_reliable in Hrun2 by done.
  destruct (entries_whole _ _ _ Hes) as [Hw Hn].
  assert (es <> []) as Hes0 by (intros ->; by rewrite <- Hn in Hne).
  assert (data_at out h2 = Some (TarGz es None)) as Hd2 by (unfold data_at in *; by rewrite Hsame).
  destruct (wp_run _ _ _ _ _ _ _ _ (wp_runRestore out es h2 Hd2 Hw Hes0) Hrun2) as (b & -> & -> & Hs3 & Hd3).
  rewrite Hn in Hs3. split; [done|]. split; [exact Hs3|]. intros p Hp. rewrite Hd3.
  assert (exists f, fs h !! p = Some f) as [f Hf].
  { clear -Hes Hp. induction Hes as [|path e files es (f & Hf & _) _ IH]; [by apply elem_of_nil in Hp|].
    apply elem_of_cons in Hp as [->|Hp]; [eauto | auto]. }
  rewrite (restored_entries h _ es p _ f Hes Hp Hf). unfold data_at. by rewrite Hf.
Qed.

(** ** A restore that fails *)

Lemma same_but_refl paths h : same_but paths h h.
Proof. by split. Qed.

Lemma same_but_set p c h paths : p ∈ paths -> same_but paths h (set_data p c h).
Proof. intros Hp. split; [done|]. intros q Hq. apply fs_set_other. set_solver. Qed.

Lemma wp_extract_any es err done_ paths h :
  (forall e, e ∈ es -> e_regular e = true -> e_name e ∈ paths) ->
  hwp (extract_entries es err done_) (fun _ h' => same_but paths h h') h.
Proof.
  revert done_ h. induction es as [|e es IH]; intros done_ h Hp; [apply same_but_refl|].
  cbn [extract_entries]. destruct (e_regular e) eqn:Hr; cbn [negb]; [|apply IH; set_solver].
  assert (e_name e ∈ paths) as Hin by (apply Hp; [set_solver|done]). unfold extract_entry.
  apply wp_bind. apply wp_trigger. intros c1 h1 r1 He. cbn [host_exec] in He. injection He as <- <-.
  destruct (s_err c1); [apply same_but_refl|].
  apply wp_trigger. intros c2 h2 r2 He. cbn [host_exec] in He. injection He as <- <-.
  destruct (s_err c2); [apply same_but_refl|].
  assert (same_but paths h (open_trunc (e_name e) (e_mode e) h)) as Hopen
    by (split; [done|]; intros p Hn; apply fs_open_other; set_solver).
  apply wp_trigger. intros c3 h3 r3 He. cbn [host_exec] in He.
  assert (same_but paths h h3) as H3.
  { eapply same_but_trans; [exact Hopen|]. destruct (s_err c3), (e_cut e); injection He as <- <-; by apply same_but_set. }
  cbn [mret prog_ret wp]. destruct r3; [done|]. eapply wp_mono; [|apply IH; set_solver].
  intros r h'. by apply same_but_trans.
Qed.

(** Whatever fails on the way, [restore] touches no file that the archive
    does not name as a regular entry; an archive that cannot be read, or that is
    not one, changes nothing. *)
Theorem restore_touches_only src cs h h' r rest :
  run host_exec (runRestore src) cs h = Some (h', r, rest) ->
  match data_at src h with
  | Some (TarGz es _) => same_but (map e_name (List.filter e_regular es)) h h'
  | _ => h' = h /\ exists e, r = Some (Some e)
  end.
Proof.
  intros Hrun.
  assert (hwp (runRestore src) (fun a h' => match data_at src h with
    | Some (TarGz es _) => same_but (map e_name (List.filter e_regular es)) h h'
    | _ => h' = h /\ exists e, Some a = Some (Some e) end) h) as Hw.
  { unfold runRestore, extractTarGz. apply wp_bind. apply wp_trigger. intros c h1 r1 He. cbn [host_exec] in He.
    injection He as <- <-. unfold data_at. destruct (s_err c).
    { cbn. destruct (fs h !! src) as [f|]; cbn; [|by eauto]. destruct (f_data f); [by eauto | apply same_but_refl]. }
    destruct (fs h !! src) as [f|]; cbn [fmap option_fmap option_map]; [|cbn; by eauto].
    destruct (f_data f) as [s|es err]; [cbn; by eauto|].
    eapply wp_seq; [apply (wp_extract_any es err [] (map e_name (List.filter e_regular es)))|].
    - intros e He Hr. apply list_elem_of_fmap. exists e. split; [done|].
      by apply list_elem_of_In, filter_In; rewrite list_elem_of_In in He.
    - intros a h1 Hs. destruct a as [[|x l]|e]; exact Hs. }
  destruct (wp_run _ _ _ _ _ _ _ _ Hw Hrun) as (a & -> & Ha). exact Ha.
Qed.

(** ** Upgrading *)

Section UpgradeSpec.
Context `{ReleaseJSON}.
Variables (GOOS GOARCH version : string).

(** The entry of a downloaded archive that becomes the new binary. *)
Definition binary_in (es : list entry) : option entry :=
  first_such (fun e => e_regular e && HasSuffix (e_name e) "htn-server") es.

Lemma wp_replaceBinary newPath cur data h :
  data_at newPath h = Some data -> newPath <> cur -> newPath <> cur +:+ ".bak" -> is_Some (fs h !! cur) ->
  rwp (replaceBinary newPath cur) (fun r h' => r = None /\ data_at cur h' = Some data /\
    data_at (cur +:+ ".bak") h' = data_at cur h /\ same_but [cur; cur +:+ ".bak"] h h') h.
Proof.
  intros Hnew Hn1 Hn2 [f Hf].
  assert (cur +:+ ".bak" <> cur) as Hb.
  { intros E. apply (f_equal String.length) in E. rewrite length_string_app in E. simpl in E. lia. }
  unfold replaceBinary. apply wp_trigger. intros k h1 r1 Hk. unfold reliable_exec in Hk.
  destruct (s_err k) eqn:Hok; [done|]. cbn [host_exec] in Hk. rewrite Hok, Hf in Hk. injection Hk as <- <-.
  rstep. unfold data_at in Hnew. destruct (fs h !! newPath) as [g|] eqn:Hg; [|done]. injection Hnew as Hnew.
  cbn [fs with_fs]. rewrite lookup_insert_ne, lookup_delete_ne, Hg by done. rstep. rstep. cbn [mret prog_ret wp].
  split; [done|]. rewrite Hnew. split; [apply data_at_write|]. split.
  - unfold data_at. rewrite fs_set_other, fs_open_other by done. cbn [fs with_fs]. by rewrite lookup_insert_eq, Hf.
  - split; [done|]. intros p Hp. rewrite fs_set_other, fs_open_other by set_solver. cbn [fs with_fs].
    rewrite lookup_insert_ne, lookup_delete_ne; set_solver.
Qed.
(** On a host on which no operation fails, replacing the binary installs
    the downloaded contents, keeps the previous binary next to it as [.bak], and
    changes no other file. *)
Theorem replaceBinary_spec newPath cur data cs h h' r rest :
  data_at newPath h = Some data -> newPath <> cur -> newPath <> cur +:+ ".bak" -> is_Some (fs h !! cur) ->
  Forall (fun c => s_err c = None) cs -> run host_exec (replaceBinary newPath cur) cs h = Some (h', r, rest) ->
  r = Some None /\ data_at cur h' = Some data /\ data_at (cur +:+ ".bak") h' = data_at cur h /\
  same_but [cur; cur +:+ ".bak"] h h'.
Proof.
  intros Hd H1 H2 Hc Hcs Hrun. rewrite <- run_reliable in Hrun by done.
  by destruct (wp_run _ _ _ _ _ _ _ _ (wp_replaceBinary newPath cur data h Hd H1 H2 Hc) Hrun)
    as (a & -> & -> & Hrest).
Qed.

(** *** When the service is restarted *)

Fixpoint no_exec {A} (p : prog hostE A) : Prop :=
  match p with
  | Ret _ | Crash => True
  | Vis e k => match e with HExec _ => False | _ => True end /\ forall r, no_exec (k r)
  end.

Lemma no_exec_bind {A B} (p : prog hostE A) (f : A -> prog hostE B) :
  no_exec p -> (forall a, no_exec (f a)) -> no_exec (p ≫= f).
Proof. induction p as [a| |R e k IH]; [intros _ Hf; apply Hf | done |]. intros [He Hk] Hf. split; [done|]. intros r. by apply IH. Qed.

Fixpoint no_crash {A} (p : prog hostE A) : Prop :=
  match p with Ret _ => True | Crash => False | Vis _ k => forall r, no_crash (k r) end.

Lemma host_exec_execs R (e : hostE R) c h h' r :
  (match e with HExec _ => False | _ => True end) -> host_exec R e c h = Some (h', r) -> execs h' = execs h.
Proof.
  destruct e; simpl; try done; intros _; repeat case_match; intros; simplify_eq/=; done.
Qed.

Lemma wp_no_exec {A} (p : prog hostE A) h :
  no_exec p -> no_crash p -> hwp p (fun _ h' => execs h' = execs h) h.
Proof.
  revert h. induction p as [a| |R e k IH]; intros h; simpl; [done..|]. intros [He Hk] Hc c h1 r Hs.
  apply host_exec_execs in Hs as Hx; [|done]. eapply wp_mono; [|apply IH; [apply Hk | apply Hc]].
  intros ? ? ->. exact Hx.
Qed.

Ltac no_exec_steps :=
  repeat first [ progress intros | apply no_exec_bind | case_match | split | exact I | progress cbn ].

Lemma extract_binary_quiet es err : no_exec (extract_binary es err) /\ no_crash (extract_binary es err).
Proof.
  induction es as [|e es [IH1 IH2]]; [done|]. cbn [extract_binary]. destruct (_ || _); [done|].
  split; cbn; repeat (intros; split; try done); intros; repeat (case_match; cbn; try done);
    repeat (split; try done); intros; repeat case_match; done.
Qed.

Definition restarted (h : Host) (err : option string) (h' : Host) : Prop :=
  match err with
  | Some _ => execs h' = execs h
  | None => execs h' = execs h \/ execs h' = execs h ++ [["systemctl"; "restart"; "htn-tunnel"]]%string
  end.

(** Whatever fails on the way, [upgrade] restarts the service only as its
    last action before it reports success, after the binary has been replaced;
    every failure, and a version that is already the latest, leaves the running
    service alone. *)
Theorem upgrade_restarts_last cs h h' r rest :
  run host_exec (runUpgrade GOOS GOARCH version) cs h = Some (h', r, rest) ->
  exists err, r = Some err /\ restarted h err h'.
Proof.
  intros Hrun. refine (wp_run _ (restarted h) _ _ _ _ _ _ _ Hrun). clear Hrun. unfold runUpgrade, getLatestRelease. apply wp_bind. apply wp_trigger. intros c h1 r1 He.
  apply host_exec_execs in He as E1; [|done]. cbn [mret prog_ret wp].
  set (rel := match r1 with Ok body => _ | Err e => _ end). clearbody rel.
  destruct rel as [[latest url]|e]; [|exact E1]. destruct (String.eqb latest version); [by left|].
  unfold downloadBinary. eapply (wp_seq _ _ (fun _ h' => execs h' = execs h)).
  - apply wp_trigger. intros c2 h2 r2 He2. apply host_exec_execs in He2 as E2; [|done]. rewrite E1 in E2.
    destruct r2 as [[s|es err]|e]; [exact E2 | | exact E2].
    destruct (extract_binary_quiet es err) as [Hx Hc].
    eapply wp_mono; [|by apply wp_no_exec]. by intros ? ? ->.
  - intros tmp h2 E2. destruct tmp as [tmpPath|e]; [|exact E2].
    apply wp_trigger. intros c3 h3 r3 He3. apply host_exec_execs in He3 as E3; [|done]. rewrite E2 in E3.
    destruct r3 as [execPath|e].
    + eapply (wp_seq _ _ (fun _ h' => execs h' = execs h)).
      { eapply wp_mono; [|apply wp_no_exec].
        - intros ? ? ->. exact E3.
        - unfold replaceBinary. no_exec_steps.
        - unfold replaceBinary. cbn. intros. repeat (case_match; cbn; intros); done. }
      intros err h4 E4. destruct err as [e|].
      * apply wp_trigger. intros c5 h5 r5 He5. apply host_exec_execs in He5 as E5; [|done]. cbn. congruence.
      * apply wp_trigger. intros c5 h5 r5 He5. cbn [host_exec] in He5. injection He5 as <- <-.
        apply wp_trigger. intros c6 h6 r6 He6. apply host_exec_execs in He6 as E6; [|done].
        right. rewrite E6. cbn. by rewrite E4.
    + apply wp_trigger. intros c4 h4 r4 He4. apply host_exec_execs in He4 as E4; [|done]. cbn. congruence.
Qed.
End UpgradeSpec.

(** ** The commands at work *)

Module Examples.
Definition good : host_supply := {|
  s_err := None; s_left := Raw "partial"; s_temp := "/tmp/htn-server-1"; s_exec := "/usr/local/bin/htn-server";
  s_body := TarGz [Entry "README" 420 true (Raw "docs") None; Entry "htn-server" 493 true (Raw "new") None] None;
  s_line := None; s_files := []; s_ips := [] |}.
Definition failing : host_supply := {|
  s_err := Some "no space left on device"%string; s_left := Raw "partial"; s_temp := ""; s_exec := ""; s_body := Raw "";
  s_line := None; s_files := []; s_ips := [] |}.

Definition file (mode : Z) (s : string) : File := {| f_mode := mode; f_regular := true; f_data := Raw s |}.
Definition cfg_path : string := "/etc/htn-tunnel/server.yaml".
Definition keys_path : string := "/etc/htn-tunnel/keys.json".
Definition h0 : Host := {|
  fs := <[cfg_path := file 384 "domain: a"]> (<[keys_path := file 384 "keys"]>
    (<["/usr/local/bin/htn-server" := file 493 "old"]> ∅))%string;
  umask := 18; busy := []; execs := [] |}.
Definition load (_ : string) : result config_error ServerConfig :=
  Ok {| ListenAddr := ""; Domain := "a"; Email := ""; Tokens := []; MaxTunnelsPerToken := 0;
     RateLimit := 0; GlobalRateLimit := 0; TCPPortRange := (0, 0); CertStorage := "";
     DevMode := false; DNSProvider := ""; DNSAPIToken := ""; DashboardEnabled := false;
     DashboardAddr := ""; AdminToken := ""; HTTPProxyAddr := ""; HTTPRedirectAddr := "";
     KeyStorePath := keys_path; AllowRegistration := None; AllowAnonymous := None; AnonTunnelTTL := 0 |}.
Definition out : string := "htn-tunnel-backup.tar.gz".

Definition end_host {A} (p : prog hostE A) (cs : list host_supply) (h : Host) : Host :=
  match run host_exec p cs h with Some (h', _, _) => h' | None => h end.
Definition h1 : Host := end_host (runBackup "" out load) (repeat good 12) h0.

Lemma files_h0 : backup_files "" load h0 = [cfg_path; keys_path].
Proof. vm_compute. reflexivity. Qed.

Lemma run_backup : run host_exec (runBackup "" out load) (repeat good 12) h0 = Some (h1, Some None, []).
Proof. vm_compute. reflexivity. Qed.

Lemma all_good n : Forall (fun c => s_err c = None) (repeat good n).
Proof. by induction n; constructor. Qed.

(** Both files are lost and the archive restored. *)
Definition h2 : Host := with_fs (delete cfg_path (<[keys_path := file 420 "other"]> (fs h1))) h1.
Definition h3 : Host := end_host (runRestore out) (repeat good 7) h2.
Lemma run_restore : run host_exec (runRestore out) (repeat good 7) h2 = Some (h3, Some None, []).
Proof. vm_compute. reflexivity. Qed.

Lemma backup_restore_witness :
  data_at cfg_path h3 = Some (Raw "domain: a") /\ data_at keys_path h3 = data_at keys_path h0.
Proof.
  split; [vm_compute; reflexivity|].
  assert (backup_files "" load h0 <> []) as Hne by (rewrite files_h0; discriminate).
  assert (~ (out ∈ backup_files "" load h0)) as Hout
    by (rewrite files_h0; intros [E|[E|E%elem_of_nil]%elem_of_cons]%elem_of_cons; [discriminate E | discriminate E | exact E]).
  assert (keys_path ∈ backup_files "" load h0) as Hin by (rewrite files_h0; apply elem_of_cons; right; by apply elem_of_cons; left).
  assert (fs h2 !! out = fs h1 !! out) as Hsame by (vm_compute; reflexivity).
  exact (proj2 (proj2 (proj2 (proj2 (backup_restore "" out load (repeat good 12) h0 h1 (Some None) [] Hne Hout (all_good 12) run_backup))
    h2 (repeat good 7) h3 (Some None) [] Hsame (all_good 7) run_restore)) keys_path Hin).
Defined.

Lemma restore_touches_only_witness : same_but [cfg_path; keys_path] h2 h3.
Proof. exact (restore_touches_only out (repeat good 7) h2 h3 (Some None) [] run_restore). Defined.

(** The writers of the archive are closed by deferred calls whose errors nobody
    looks at: on a full disk the backup is cut and reported as made. *)
Theorem backup_reports_truncated :
  match run host_exec (runBackup "" out load) (repeat good 11 ++ [failing]) h0 with
  | Some (h, r, _) => r = Some None /\ data_at out h = Some (Raw "partial")
  | None => False
  end.
Proof. vm_compute. done. Qed.

#[local] Instance release : ReleaseJSON :=
  {| decode_release _ := Ok {| TagName := "v2.0"; Assets := [{| as_Name := "htn-server_2.0_linux_amd64.tar.gz"; as_URL := "https://x" |}] |} |}.

Definition bin : string := "/usr/local/bin/htn-server".
Definition ht : Host := with_fs (<["/tmp/new"%string := file 384 "new"]> (fs h0)) h0.
Definition hr : Host := end_host (replaceBinary "/tmp/new" bin) (repeat good 4) ht.
Lemma run_replace : run host_exec (replaceBinary "/tmp/new" bin) (repeat good 4) ht = Some (hr, Some None, []).
Proof. vm_compute. reflexivity. Qed.

Lemma replaceBinary_spec_witness :
  data_at bin hr = Some (Raw "new") /\ data_at (bin +:+ ".bak") hr = Some (Raw "old").
Proof.
  assert (data_at "/tmp/new" ht = Some (Raw "new")) as Hd by (vm_compute; reflexivity).
  assert (is_Some (fs ht !! bin)) as Hb by (by eexists).
  destruct (replaceBinary_spec "/tmp/new" bin (Raw "new") (repeat good 4) ht hr (Some None) [] Hd
    ltac:(discriminate) ltac:(discriminate) Hb (all_good 4) run_replace) as (_ & H1 & H2 & _).
  split; [exact H1 | rewrite H2; vm_compute; reflexivity].
Defined.

(** When the downloaded file cannot be opened the binary has already been moved
    away and is not moved back. *)
Theorem replace_leaves_nothing :
  match run host_exec (replaceBinary "/tmp/new" bin) [good; failing] ht with
  | Some (h, r, _) => (exists e, r = Some (Some e)) /\ fs h !! bin = None
  | None => False
  end.
Proof. vm_compute. eauto. Qed.

Definition upgrade : prog hostE (option string) := runUpgrade "linux" "amd64" "1.0".
Definition hu : Host := end_host upgrade (repeat good 11) h0.
Lemma run_upgrade : run host_exec upgrade (repeat good 11) h0 = Some (hu, Some None, []).
Proof. vm_compute. reflexivity. Qed.

Lemma upgrade_restarts_last_witness : data_at bin hu = Some (Raw "new") /\ restarted h0 None hu.
Proof.
  split; [vm_compute; reflexivity|].
  destruct (@upgrade_restarts_last release "linux" "amd64" "1.0" (repeat good 11) h0 hu (Some None) [] run_upgrade) as (err & [= <-] & Hr).
  exact Hr.
Defined.

(** Without [--config] the server reads one file and the other commands
    another. *)
Example default_paths_differ : serve_path "" <> resolveConfigPath "".
Proof. discriminate. Qed.

Example probe_urls :
  map probe_url [""; ":1807"; "127.0.0.1:9000"]%string
  = ["http://localhost:1807/_healthz"; "http://localhost:1807/_healthz"; "http://127.0.0.1:9000/_healthz"]%string.
Proof. reflexivity. Qed.
End Examples.
