(* ===== verification/Wizard.v ===== *)
(** * The setup wizard of the server (cmd/server/wizard.go)

    [htn-server init] as a program over Host.v: the questions, the detection of
    a service on port 443, the change of nginx with the shell script that moves
    its sites to another port, the DNS check, the configuration
    file, the systemd unit and the closing instructions. *)

From S2P Require Import Prelude Prog GoStrings Host.
Local Open Scope Z_scope.

(** ** Texts *)

Definition nl : string := String "010" EmptyString.
Definition lines (l : list string) : string := Join l nl.
Definition quoted (s : string) : string := String "034" (s +:+ String "034" EmptyString).

(** [generateConfig] *)
Definition generateConfig (domain email cfToken adminPass httpProxy httpRedirect : string) : string :=
  lines [ "# htn-tunnel server config — generated by htn-server init";
          "domain: " +:+ domain;
          "email: " +:+ email;
          "listen_addr: " +:+ quoted ":4443";
          "http_proxy_addr: " +:+ quoted httpProxy;
          "http_redirect_addr: " +:+ quoted httpRedirect;
          "dashboard_enabled: true";
          "dashboard_addr: " +:+ quoted ":1807";
          "dns_provider: cloudflare";
          "dns_api_token: " +:+ cfToken;
          "admin_token: " +:+ adminPass;
          "key_store_path: /etc/htn-tunnel/keys.json";
          "cert_storage: /var/lib/htn-tunnel/certs";
          "allow_registration: true";
          "allow_anonymous: true";
          "max_tunnels_per_token: 10";
          "rate_limit: 100";
          "global_rate_limit: 1000";
          "" ].

Definition systemd_unit (binPath : string) : string :=
  lines [ "[Unit]";
          "Description=htn-tunnel server";
          "After=network-online.target";
          "Wants=network-online.target";
          "";
          "[Service]";
          "Type=simple";
          "ExecStart=" +:+ binPath +:+ " serve --config /etc/htn-tunnel/server.yaml";
          "Restart=always";
          "RestartSec=5";
          "LimitNOFILE=65535";
          "AmbientCapabilities=CAP_NET_BIND_SERVICE";
          "";
          "[Install]";
          "WantedBy=multi-user.target";
          "" ].

(** [strings.ReplaceAll(domain, ".", "\\.")] *)
Definition escape_dots (domain : string) : string := ReplaceAll domain "." "\.".

Definition stream_block (domain : string) : string :=
  lines [ "";
          "stream {";
          "    map $ssl_preread_server_name $backend {";
          "        ~^(.+\.)?" +:+ escape_dots domain +:+ "$    127.0.0.1:8443;";
          "        default      127.0.0.1:4430;";
          "    }";
          "    server {";
          "        listen 443;";
          "        ssl_preread on;";
          "        proxy_pass $backend;";
          "    }";
          "}";
          "" ].

(** ** Steps *)

Definition config_dir : string := "/etc/htn-tunnel".
Definition config_path : string := "/etc/htn-tunnel/server.yaml".
Definition nginx_conf : string := "/etc/nginx/nginx.conf".
Definition unit_path : string := "/etc/systemd/system/htn-tunnel.service".

(** [prompt]: the end of the input reads as an empty line. *)
Definition prompt : prog hostE string :=
  line ← trigger HStdin; mret (match line with Some s => TrimSpace s | None => "" end).
Definition promptSecret : prog hostE string := prompt.
Definition promptDefault (defaultVal : string) : prog hostE string :=
  v ← prompt; mret (if String.eqb v "" then defaultVal else v).

(** [os.WriteFile] *)
Definition WriteFile (path data : string) (mode : Z) : prog hostE (option string) :=
  o ← trigger (HOpenFile path mode);
  match o with Some e => mret (Some e) | None => trigger (HCopy path (Raw data) None) end.

(** [getPublicIP] *)
Definition getPublicIP : prog hostE (result string string) :=
  r ← trigger (HGet "https://api.ipify.org");
  mret (match r with Ok (Raw body) => Ok (TrimSpace body) | Ok _ => Ok "" | Err e => Err e end).

(** [validateDNS]; [show] is how [%v] prints the addresses. *)
Definition validateDNS (show : list string -> string) (domain : string) : prog hostE (option string) :=
  ips ← trigger (HLookupHost ("test-dns-check." +:+ domain));
  match ips with
  | Err _ => mret (Some ("could not resolve *." +:+ domain +:+ " — add a wildcard DNS A record pointing to this server's IP"))
  | Ok ips =>
      serverIP ← getPublicIP;
      mret (match serverIP with
            | Err _ => None
            | Ok ip => if existsb (String.eqb ip) ips then None
                       else Some ("*." +:+ domain +:+ " resolves to " +:+ show ips +:+
                                  " but this server's public IP is " +:+ ip)
            end)
  end.

(** [writeConfig] *)
Definition writeConfig (dir path data : string) : prog hostE (option string) :=
  made ← trigger (HMkdirAll dir);
  match made with
  | Some e => mret (Some ("create config dir " +:+ dir +:+ ": " +:+ e))
  | None => WriteFile path data 384
  end.

(** [createSystemdService], [startService] *)
Definition createSystemdService : prog hostE (option string) :=
  ex ← trigger HExecutable;
  let binPath := match ex with Ok p => p | Err _ => "/usr/local/bin/htn-server" end in
  w ← WriteFile unit_path (systemd_unit binPath) 420;
  match w with
  | Some e => mret (Some ("write service file: " +:+ e))
  | None => trigger (HExec ["systemctl"; "daemon-reload"])
  end.
Definition startService : prog hostE (option string) := trigger (HExec ["systemctl"; "enable"; "--now"; "htn-tunnel"]).

(** The end of [autoConfigureNginx]. *)
Definition reload_nginx : prog hostE (option string) :=
  t ← trigger (HExec ["nginx"; "-t"]);
  match t with
  | Some _ => mret (Some "nginx -t báo lỗi. Kiểm tra cú pháp /etc/nginx/nginx.conf")
  | None =>
      r ← trigger (HExec ["systemctl"; "reload"; "nginx"]);
      mret (match r with Some _ => Some "lỗi reload nginx qua systemctl" | None => None end)
  end.

(** The shell script of [autoConfigureNginx], and its commands in their order
    (both [if] only skip directories that do not exist, and [|| true] their
    errors). *)
Definition indent (tabs : nat) (line : string) : string := String.concat "" (repeat (String "009" EmptyString) tabs) +:+ line.
Definition nginx_script : string := lines [
    indent 0 "";
    indent 1 "if [ -d /etc/nginx/conf.d ]; then";
    indent 2 "sed -i 's/listen 443 ssl/listen 4430 ssl/g' /etc/nginx/conf.d/*.conf 2>/dev/null || true";
    indent 2 "sed -i 's/listen \[::\]:443 ssl/listen [::]:4430 ssl/g' /etc/nginx/conf.d/*.conf 2>/dev/null || true";
    indent 2 "sed -i 's/listen 443;/listen 4430;/g' /etc/nginx/conf.d/*.conf 2>/dev/null || true";
    indent 1 "fi";
    indent 1 "if [ -d /etc/nginx/sites-enabled ]; then";
    indent 2 "sed -i 's/listen 443 ssl/listen 4430 ssl/g' /etc/nginx/sites-enabled/* 2>/dev/null || true";
    indent 2 "sed -i 's/listen \[::\]:443 ssl/listen [::]:4430 ssl/g' /etc/nginx/sites-enabled/* 2>/dev/null || true";
    indent 2 "sed -i 's/listen 443;/listen 4430;/g' /etc/nginx/sites-enabled/* 2>/dev/null || true";
    indent 1 "fi";
    indent 1 ""].
Definition port_rewrites : list (string * string) :=
  [("listen 443 ssl", "listen 4430 ssl"); ("listen [::]:443 ssl", "listen [::]:4430 ssl"); ("listen 443;", "listen 4430;")]%string.
Definition seds_in (dir suffix : string) : list sed :=
  map (fun r => {| sd_dir := dir; sd_suffix := suffix; sd_from := r.1; sd_to := r.2 |}) port_rewrites.
Definition nginx_seds : list sed := seds_in "/etc/nginx/conf.d" ".conf" ++ seds_in "/etc/nginx/sites-enabled" "".
Definition move_sites : prog hostE unit := for_each (fun c => trigger (HSed c)) nginx_seds.

(** [autoConfigureNginx]; an error of [bash], which may have edited some of the
    files, is only printed. *)
Definition autoConfigureNginx (domain : string) : prog hostE (option string) :=
  _ ← trigger (HExec ["bash"; "-c"; nginx_script]);
  _ ← move_sites;
  f ← trigger (HOpen nginx_conf);
  match f with
  | Err e => mret (Some ("không đọc được /etc/nginx/nginx.conf: " +:+ e))
  | Ok (data, _) =>
      let text := match data with Raw s => s | TarGz _ _ => "" end in
      w ← (if Contains text "stream {" then mret None
           else WriteFile nginx_conf (text +:+ nl +:+ stream_block domain +:+ nl) 420);
      match w with
      | Some e => mret (Some ("không ghi được /etc/nginx/nginx.conf: " +:+ e))
      | None => reload_nginx
      end
  end.

(** The part of [runWizard] about a service on port 443: whether nginx still has
    to be set up by hand. *)
Definition detect_nginx (domain : string) : prog hostE bool :=
  st ← trigger (HStat nginx_conf);
  match st with
  | None => mret true
  | Some _ =>
      ans ← promptDefault "y";
      let a := ToLower ans in
      if String.eqb a "y" || String.eqb a "yes" then
        err ← autoConfigureNginx domain;
        mret (match err with Some _ => true | None => false end)
      else mret true
  end.

(** The instructions at the end of [runWizard]; those for nginx only when it
    has not been set up. *)
Definition closing_messages (domain : string) (nginxDetected : bool) : list string :=
  [ "  Done! Your tunnel server is ready."; "";
    "  Dashboard:  https://dashboard." +:+ domain +:+ "/_dashboard/";
    "  Admin:      https://dashboard." +:+ domain +:+ "/_admin/";
    "  Config:     " +:+ config_path; "";
    "  Clients connect with:";
    "    htn-tunnel login --server " +:+ domain +:+ ":4443"; "" ] ++
  (if nginxDetected then
  [ "  NOTE: nginx detected on port 443.";
    "  Add SNI passthrough in nginx stream block:"; "";
    "    stream {";
    "      map $ssl_preread_server_name $backend {";
    "        ~^(.+\.)?" +:+ escape_dots domain +:+ "$  127.0.0.1:8443;";
    "        default         127.0.0.1:4430;";
    "      }";
    "      server {";
    "        listen 443;";
    "        proxy_pass $backend;";
    "        ssl_preread on;";
    "      }";
    "    }"; "";
    "  See: docs/deployment-guide.md for full nginx setup."; "" ] else []).

(** [runWizard] *)
Definition runWizard (show : list string -> string) : prog hostE (option string) :=
  domain ← prompt;
  email ← prompt;
  cfToken ← promptSecret;
  adminPass ← promptSecret;
  used ← trigger (HPortInUse 443);
  nginxDetected ← (if used : bool then detect_nginx domain else mret false);
  dns ← validateDNS show domain;
  match dns with
  | Some e => mret (Some e)
  | None =>
      let cfg := generateConfig domain email cfToken adminPass
                   (if used : bool then ":8443" else ":443") (if used : bool then ":8444" else ":80") in
      w ← writeConfig config_dir config_path cfg;
      match w with
      | Some e => mret (Some e)
      | None =>
          u ← createSystemdService;
          _ ← (match u with
               | Some _ => mret None
               | None => startService
               end);
          _ ← trigger (HSay (closing_messages domain nginxDetected));
          mret None
      end
  end.

(** ** What the wizard changes *)

Abbreviation hwp := (wp host_exec).









(** A site of nginx whose ports were moved, or any other file, unchanged. *)
Definition moved (h h' : Host) (p : string) : Prop := edited_by nginx_seds p (fs h !! p) (fs h' !! p).

Lemma moved_refl h p : moved h h p.
Proof. apply edited_by_same. Qed.














(** ** The wizard at work *)

Module Examples.
Definition site : string := "/etc/nginx/sites-enabled/blog".
Definition say (line : string) : host_supply := {|
  s_err := None; s_left := Raw ""; s_temp := ""; s_exec := "/usr/local/bin/htn-server"; s_body := Raw "1.2.3.4";
  s_line := Some line; s_files := [site; "/etc/nginx/conf.d/.old.conf"; "/etc/nginx/conf.d/notes.txt"]; s_ips := ["1.2.3.4"%string] |}.
Definition elsewhere : host_supply := {|
  s_err := None; s_left := Raw ""; s_temp := ""; s_exec := ""; s_body := Raw "1.2.3.4";
  s_line := None; s_files := []; s_ips := ["9.9.9.9"%string] |}.

Definition h0 : Host := {|
  fs := <[site := {| f_mode := 420; f_regular := true; f_data := Raw "listen 443 ssl; listen [::]:443 ssl; listen 4433;" |}]>
    (<["/etc/nginx/conf.d/notes.txt" := {| f_mode := 420; f_regular := true; f_data := Raw "listen 443;" |}]>
    {[ nginx_conf := {| f_mode := 420; f_regular := true; f_data := Raw "http {}" |} ]})%string;
  umask := 18; busy := [443]; execs := [] |}.
Definition show (l : list string) : string := "[" +:+ Join l " " +:+ "]".

Definition answers : list host_supply := map say ["t.example.com"; "a@b.c"; "cf"; "pw"]%string.
Definition all_well : list host_supply := answers ++ repeat (say "") 26.
Definition end_of (cs : list host_supply) : Host :=
  match run host_exec (runWizard show) cs h0 with Some (h, _, _) => h | None => h0 end.
Definition h1 : Host := end_of all_well.



(** What the script makes of a site and of a file that is none. *)
Example sites_moved :
  data_at site h1 = Some (Raw "listen 4430 ssl; listen [::]:4430 ssl; listen 4433;") /\
  data_at "/etc/nginx/conf.d/notes.txt" h1 = Some (Raw "listen 443;").
Proof. vm_compute. done. Qed.

(** The DNS of the domain points elsewhere: the wizard stops, but it has moved
    nginx off port 443 already. *)
Theorem nginx_moved_before_dns :
  match run host_exec (runWizard show) (answers ++ repeat (say "") 15 ++ repeat elsewhere 2) h0 with
  | Some (h, Some (Some _), _) =>
      fs h !! config_path = None /\
      data_at nginx_conf h = Some (Raw ("http {}" +:+ nl +:+ stream_block "t.example.com" +:+ nl)) /\ execs h <> []
  | _ => False
  end.
Proof. vm_compute. split_and!; done. Qed.
End Examples.
