(* ===== verification/Startup.v ===== *)
(** * Starting and stopping the server (server.go, http_proxy.go, cmd/server)

    The certificates a server starts with, then the goroutines that open its
    listeners, accept connections and close them again when the context is
    cancelled: a state machine whose steps are one action of one goroutine.
    What a connection's handler does is in Server.v, HttpProxy.v and
    Dashboard.v; here it only counts as served.  The periodic goroutines of
    [NewServer] (the reaper, the anonymous expiry, the clean-ups of the limiters)
    hold no listener, run until the process ends, and are not part of it. *)

From S2P Require Import Prelude GoStrings KeyStore Auth Config Server Ops.
Local Open Scope string_scope.

(** ** Certificates *)

Section Certificates.
(** Keys, signed certificates, key pairs and the greetings of TLS clients, with
    the functions of [crypto] and of certmagic that the code calls. *)
Context {Key Der Cert Hello : Type}.

Record tls_config := {
  Certificates : list Cert;
  MinVersion : option string;
  NextProtos : list string;
  GetCertificate : option (Hello -> result string (option Cert));
}.

(** What [certmagicTLSConfig] sets before it makes the certmagic instance. *)
Record issuer := { acme_Email : string; acme_Agreed : bool; cloudflare_token : string; file_storage : string }.

Variable GenerateKey : result string Key.
Variable CreateCertificate : Key -> result string Der.
Variable X509KeyPair : Der -> Key -> result string Cert.
Variable ManageAsync : issuer -> list string -> option string.
Variable MagicTLSConfig : issuer -> tls_config.
Variable LoadX509KeyPair : string -> string -> result string Cert.

Definition selfSignedTLSConfig : result string tls_config :=
  priv ← GenerateKey;
  der ← CreateCertificate priv;
  cert ← X509KeyPair der priv;
  Ok {| Certificates := [cert]; MinVersion := Some "TLS12"; NextProtos := []; GetCertificate := None |}.

(** [Server.buildTLSConfig]: both branches. *)
Definition Server_buildTLSConfig (cfg : ServerConfig) : result string tls_config :=
  if DevMode cfg || String.eqb (Domain cfg) "" then selfSignedTLSConfig else selfSignedTLSConfig.

Definition wildcard_paths (cfg : ServerConfig) : string * string :=
  let wildcardName := "wildcard_." +:+ Domain cfg in
  let certDir := FilepathJoin [CertStorage cfg; "certificates"; "acme-v02.api.letsencrypt.org-directory"; wildcardName] in
  (FilepathJoin [certDir; wildcardName +:+ ".crt"], FilepathJoin [certDir; wildcardName +:+ ".key"]).

(** The replacement of [GetCertificate] when the certificate is on disk. *)
Definition with_fallback (cert : Cert) (c : tls_config) : tls_config :=
  {| Certificates := Certificates c; MinVersion := MinVersion c; NextProtos := NextProtos c;
     GetCertificate := Some (fun hello =>
       match GetCertificate c with
       | Some origGetCert =>
           match origGetCert hello with Ok (Some c) => Ok (Some c) | _ => Ok (Some cert) end
       | None => Ok (Some cert)
       end) |}.

Definition certmagicTLSConfig (cfg : ServerConfig) : result string tls_config :=
  if String.eqb (DNSAPIToken cfg) "" then
    Err "dns_api_token is required for wildcard cert issuance (DNS-01 challenge)"
  else if negb (String.eqb (ToLower (DNSProvider cfg)) "cloudflare") then
    Err ("unsupported dns_provider " +:+ Quote (DNSProvider cfg) +:+ "; supported: cloudflare")
  else
    let magic := {| acme_Email := Email cfg; acme_Agreed := true;
                    cloudflare_token := DNSAPIToken cfg; file_storage := CertStorage cfg |} in
    match ManageAsync magic [Domain cfg; "*." +:+ Domain cfg] with
    | Some e => Err ("certmagic manage domains: " +:+ e)
    | None =>
        let m := MagicTLSConfig magic in
        let tlsCfg := {| Certificates := Certificates m; MinVersion := MinVersion m;
                         NextProtos := ["http/1.1"]; GetCertificate := GetCertificate m |} in
        let '(certPath, keyPath) := wildcard_paths cfg in
        Ok (match LoadX509KeyPair certPath keyPath with Ok cert => with_fallback cert tlsCfg | Err _ => tlsCfg end)
    end.

(** [HTTPProxy.buildTLSConfig] *)
Definition HTTPProxy_buildTLSConfig (cfg : ServerConfig) : result string tls_config :=
  if DevMode cfg || String.eqb (Domain cfg) "" then selfSignedTLSConfig else certmagicTLSConfig cfg.

(** The certificates of the HTTP proxy.  In development mode, or without a
    domain, they are self-signed.  Otherwise a start that succeeds has a DNS
    token for cloudflare, has asked for the domain and its wildcard, offers only
    HTTP/1.1, and, once the wildcard certificate is on disk, gives every
    visitor a certificate: certmagic's if it has one, else that one. *)
Theorem buildTLSConfig_spec cfg c :
  HTTPProxy_buildTLSConfig cfg = Ok c ->
  if DevMode cfg || String.eqb (Domain cfg) "" then
    exists cert, Certificates c = [cert] /\ GetCertificate c = None
  else
    DNSAPIToken cfg <> "" /\ ToLower (DNSProvider cfg) = "cloudflare" /\ NextProtos c = ["http/1.1"] /\
    exists magic, file_storage magic = CertStorage cfg /\ cloudflare_token magic = DNSAPIToken cfg /\
      ManageAsync magic [Domain cfg; "*." +:+ Domain cfg] = None /\
      match LoadX509KeyPair (wildcard_paths cfg).1 (wildcard_paths cfg).2 with
      | Err _ => GetCertificate c = GetCertificate (MagicTLSConfig magic)
      | Ok cert => exists get, GetCertificate c = Some get /\ forall hello,
          get hello = Ok (Some (match g ← GetCertificate (MagicTLSConfig magic);
                                     match g hello with Ok o => o | Err _ => None end with
                                Some own => own | None => cert end))
      end.
Proof.
  unfold HTTPProxy_buildTLSConfig. destruct (_ || _).
  - unfold selfSignedTLSConfig. destruct GenerateKey as [k|]; [|done]. cbn.
    destruct (CreateCertificate k) as [d|]; [|done]. cbn. destruct (X509KeyPair d k) as [cert|]; [|done].
    cbn. intros [= <-]. by exists cert.
  - unfold certmagicTLSConfig. destruct (String.eqb_spec (DNSAPIToken cfg) "") as [|Ht]; [done|].
    destruct (String.eqb_spec (ToLower (DNSProvider cfg)) "cloudflare") as [Hp|]; [|done].
    cbn [negb]. set (magic := Build_issuer _ _ _ _). destruct (ManageAsync magic _) eqn:Hm; [done|].
    rewrite (surjective_pairing (wildcard_paths cfg)). intros [= <-]. split; [done|]. split; [done|].
    split; [by destruct (LoadX509KeyPair _ _)|]. exists magic. split_and!; [done..|].
    destruct (LoadX509KeyPair _ _) as [cert|]; [|done]. eexists. split; [done|]. intros hello. cbn.
    destruct (GetCertificate (MagicTLSConfig magic)) as [g|]; [|done]. cbn. by destruct (g hello) as [[]|].
Qed.
End Certificates.
Arguments tls_config : clear implicits.

(** ** The command *)

Section Serve.
Context {L : Type} `{Limiter L} `{Bcrypt}.

(** [serveCmd]: the exit status, 1 from [os.Exit].  [flag] is [--config], [load]
    is [LoadServerConfig], [keyFile] what the key file holds ([None] for one
    outside the model), [start] the outcome of [Start]. *)
Definition serveCmd (flag : string) (load : string -> result config_error ServerConfig)
    (keyFile : string -> disk_file) (start : Server L -> option string) : option Z :=
  match load (serve_path flag) with
  | Err _ => Some 1
  | Ok cfg =>
      srv ← NewServer cfg (keyFile (KeyStorePath cfg));
      Some (match srv with
            | Err _ => 1
            | Ok srv => match start srv with Some _ => 1 | None => 0 end
            end)
  end%Z.
End Serve.

(** ** Listeners and goroutines *)

Inductive socket := Control | ProxyTLS | ProxyPlain | DashboardSocket.
#[export] Instance socket_eq_dec : EqDecision socket.
Proof. solve_decision. Defined.

(** The two [http.Server]s that own a listener, with what [net/http] keeps of
    them: whether [Close] was called, and whether [Serve] has put the listener
    on the list that [Close] closes. *)
Inductive http_server := Dash | Redirect.
#[export] Instance http_server_eq_dec : EqDecision http_server.
Proof. solve_decision. Defined.

Definition socket_of (h : http_server) : socket :=
  match h with Dash => DashboardSocket | Redirect => ProxyPlain end.

(** Where a goroutine is. *)
Inductive position :=
  (* Server.Start *)
  | Start_build | Start_listen | Start_dashboard | Start_proxy | Start_watch | Start_accept
  (* its goroutine [<-ctx.Done(); ln.Close()] *)
  | Watch
  (* HTTPProxy.Start *)
  | Proxy_build | Proxy_listen_tls | Proxy_listen_plain | Proxy_redirect | Proxy_tls
  | Proxy_wait | Proxy_close_plain
  (* serveHTTPRedirect and serveTLS *)
  | Redirect_start | Tls_accept
  (* ListenAndServe, Serve, and [<-ctx.Done(); srv.Close()] *)
  | Dash_listen | Http_track (h : http_server) | Http_serve (h : http_server)
  | Http_close (h : http_server).
#[export] Instance position_eq_dec : EqDecision position.
Proof. solve_decision. Defined.

(** [returned] is what [Start] has returned, [logged] the error lines, [served]
    the connections handed to a handler, both newest first. *)
Record shared := {
  opened : socket -> bool;
  ctx_done : bool;
  closed_srv : http_server -> bool;
  tracked : http_server -> bool;
  returned : option (option string);
  logged : list string;
  served : list socket;
}.

Definition set_open (s : socket) (b : bool) (w : shared) : shared :=
  {| opened := fun t => if decide (t = s) then b else opened w t; ctx_done := ctx_done w;
     closed_srv := closed_srv w; tracked := tracked w; returned := returned w;
     logged := logged w; served := served w |}.
Definition close_srv (h : http_server) (w : shared) : shared :=
  {| opened := opened w; ctx_done := ctx_done w;
     closed_srv := fun g => if decide (g = h) then true else closed_srv w g; tracked := tracked w;
     returned := returned w; logged := logged w; served := served w |}.
Definition track (h : http_server) (w : shared) : shared :=
  {| opened := opened w; ctx_done := ctx_done w; closed_srv := closed_srv w;
     tracked := fun g => if decide (g = h) then true else tracked w g;
     returned := returned w; logged := logged w; served := served w |}.
Definition cancel (w : shared) : shared :=
  {| opened := opened w; ctx_done := true; closed_srv := closed_srv w; tracked := tracked w;
     returned := returned w; logged := logged w; served := served w |}.
Definition return_ (r : option string) (w : shared) : shared :=
  {| opened := opened w; ctx_done := ctx_done w; closed_srv := closed_srv w; tracked := tracked w;
     returned := Some r; logged := logged w; served := served w |}.
Definition log (line : string) (w : shared) : shared :=
  {| opened := opened w; ctx_done := ctx_done w; closed_srv := closed_srv w; tracked := tracked w;
     returned := returned w; logged := line :: logged w; served := served w |}.
Definition serve (s : socket) (w : shared) : shared :=
  {| opened := opened w; ctx_done := ctx_done w; closed_srv := closed_srv w; tracked := tracked w;
     returned := returned w; logged := logged w; served := s :: served w |}.

(** What the call a goroutine makes gives back: success, an error, or, for an
    [Accept], a connection or an error that [net/http] takes for temporary (no
    descriptor left, a connection aborted). *)
Inductive answer := Fine | Refused (e : string) | Arrives | Temporary.

(** The answers an open listener may give any number of times. *)
Definition from_outside (a : answer) : bool :=
  match a with Arrives | Temporary => true | Fine | Refused _ => false end.

Section Step.
Variable cfg : ServerConfig.

(** One action of a goroutine: the shared state after it, and the goroutines in
    its place (itself further on, and those it starts); [None] when it cannot
    move with that answer.  One definition for each function of the source. *)
Definition outcome : Type := option (shared * list position).

(** [<-ctx.Done()] *)
Definition on_done (w : shared) (r : shared * list position) : outcome :=
  if ctx_done w then Some r else None.

(** The goroutines that [startDashboard] starts. *)
Definition startDashboard : list position :=
  if DashboardEnabled cfg then [Dash_listen; Http_close Dash] else [].

(** [Server.Start], with its goroutine that closes the listener. *)
Definition Server_Start (p : position) (a : answer) (w : shared) : outcome :=
  match p, a with
  | Start_build, Fine => Some (w, [Start_listen])
  | Start_build, Refused e => Some (return_ (Some ("build TLS config: " +:+ e)) w, [])
  | Start_listen, Fine => Some (set_open Control true w, [Start_dashboard])
  | Start_listen, Refused e => Some (return_ (Some ("listen " +:+ ListenAddr cfg +:+ ": " +:+ e)) w, [])
  | Start_dashboard, Fine => Some (w, Start_proxy :: startDashboard)
  | Start_proxy, Fine => Some (w, [Start_watch; Proxy_build])
  | Start_watch, Fine => Some (w, [Start_accept; Watch])
  | Start_accept, Arrives => if opened w Control then Some (serve Control w, [Start_accept]) else None
  | Start_accept, Refused e =>
      if ctx_done w then Some (return_ None w, []) else Some (log ("accept error " +:+ e) w, [Start_accept])
  | Watch, Fine => on_done w (set_open Control false w, [])
  | _, _ => None
  end.

(** [HTTPProxy.Start], and the line [Server.Start] logs when it fails. *)
Definition HTTPProxy_Start (p : position) (a : answer) (w : shared) : outcome :=
  let fails e w := Some (log ("HTTP proxy error " +:+ e) w, []) in
  match p, a with
  | Proxy_build, Fine => Some (w, [Proxy_listen_tls])
  | Proxy_build, Refused e => fails ("HTTPProxy TLS config: " +:+ e) w
  | Proxy_listen_tls, Fine => Some (set_open ProxyTLS true w, [Proxy_listen_plain])
  | Proxy_listen_tls, Refused e => fails ("HTTPProxy TLS listen " +:+ HTTPProxyAddr cfg +:+ ": " +:+ e) w
  | Proxy_listen_plain, Fine => Some (set_open ProxyPlain true w, [Proxy_redirect])
  | Proxy_listen_plain, Refused e =>
      fails ("HTTPProxy HTTP listen " +:+ HTTPRedirectAddr cfg +:+ ": " +:+ e) (set_open ProxyTLS false w)
  | Proxy_redirect, Fine => Some (w, [Proxy_tls; Redirect_start])
  | Proxy_tls, Fine => Some (w, [Proxy_wait; Tls_accept])
  | Proxy_wait, Fine => on_done w (set_open ProxyTLS false w, [Proxy_close_plain])
  | Proxy_close_plain, Fine => Some (set_open ProxyPlain false w, [])
  | _, _ => None
  end.

(** [serveHTTPRedirect], up to its call of [Serve]. *)
Definition serveHTTPRedirect (a : answer) (w : shared) : outcome :=
  match a with Fine => Some (w, [Http_track Redirect; Http_close Redirect]) | _ => None end.

Definition serveTLS (a : answer) (w : shared) : outcome :=
  match a with
  | Arrives => if opened w ProxyTLS then Some (serve ProxyTLS w, [Tls_accept]) else None
  | Refused e =>
      if ctx_done w then Some (w, []) else Some (log ("HTTPProxy accept error " +:+ e) w, [Tls_accept])
  | Fine | Temporary => None
  end.

(** [srv.ListenAndServe] of the dashboard, up to [Serve]; after [Close] it
    returns [http.ErrServerClosed]. *)
Definition ListenAndServe (a : answer) (w : shared) : outcome :=
  match a with
  | Fine => if closed_srv w Dash then Some (w, []) else Some (set_open DashboardSocket true w, [Http_track Dash])
  | Refused e => if closed_srv w Dash then None else Some (log ("dashboard server error " +:+ e) w, [])
  | Arrives | Temporary => None
  end.

(** [srv.Serve] puts the listener on the server's list, unless the server is
    closed, and accepts; after a temporary error it sleeps and accepts again,
    unless the server is closed; it closes the listener when it returns.
    [srv.Close] closes the listeners on the list. *)
Definition http_Serve (h : http_server) (p : position) (a : answer) (w : shared) : outcome :=
  match p, a with
  | Http_track _, Fine =>
      if closed_srv w h then Some (set_open (socket_of h) false w, []) else Some (track h w, [Http_serve h])
  | Http_serve _, Arrives =>
      if opened w (socket_of h) then Some (serve (socket_of h) w, [Http_serve h]) else None
  | Http_serve _, Temporary =>
      if opened w (socket_of h) then
        Some (if closed_srv w h then (set_open (socket_of h) false w, []) else (w, [Http_serve h]))
      else None
  | Http_serve _, Refused e =>
      let w' := set_open (socket_of h) false w in
      Some (if closed_srv w h then w'
            else match h with Dash => log ("dashboard server error " +:+ e) w' | Redirect => w' end, [])
  | Http_close _, Fine =>
      on_done w (close_srv h (if tracked w h then set_open (socket_of h) false w else w), [])
  | _, _ => None
  end.

Definition goroutine_step (p : position) (a : answer) (w : shared) : outcome :=
  match p with
  | Start_build | Start_listen | Start_dashboard | Start_proxy | Start_watch | Start_accept | Watch => Server_Start p a w
  | Proxy_build | Proxy_listen_tls | Proxy_listen_plain | Proxy_redirect | Proxy_tls
  | Proxy_wait | Proxy_close_plain => HTTPProxy_Start p a w
  | Redirect_start => serveHTTPRedirect a w
  | Tls_accept => serveTLS a w
  | Dash_listen => ListenAndServe a w
  | Http_track h | Http_serve h | Http_close h => http_Serve h p a w
  end.

(** [Server.Shutdown] *)
Definition Server_Shutdown (w : shared) : shared := set_open Control false w.

(** The running goroutines of a server, and what can happen next: one of them
    acts, the context is cancelled (a signal), or [Shutdown] is called. *)
Record world := { sh : shared; running : list position }.

Inductive label := Go (i : nat) (a : answer) | Cancel | Shutdown.

Definition step (l : label) (w : world) : option world :=
  match l with
  | Go i a =>
      p ← running w !! i;
      '(s, ps) ← goroutine_step p a (sh w);
      Some {| sh := s; running := take i (running w) ++ ps ++ drop (S i) (running w) |}
  | Cancel => Some {| sh := cancel (sh w); running := running w |}
  | Shutdown => Some {| sh := Server_Shutdown (sh w); running := running w |}
  end.

Fixpoint steps (ls : list label) (w : world) : option world :=
  match ls with [] => Some w | l :: ls => w' ← step l w; steps ls w' end.

Definition idle : shared :=
  {| opened := fun _ => false; ctx_done := false; closed_srv := fun _ => false;
     tracked := fun _ => false; returned := None; logged := []; served := [] |}.

(** A call of [Start]. *)
Definition started : world := {| sh := idle; running := [Start_build] |}.

Definition reaches (w : world) : Prop := exists ls, steps ls started = Some w.
End Step.

(** ** Invariants *)

Section Invariants.
Variable cfg : ServerConfig.
Implicit Types (s : shared) (l : list position) (p q : position).

(** The goroutines of [Start] itself. *)
Definition in_Start p : bool :=
  match p with
  | Start_build | Start_listen | Start_dashboard | Start_proxy | Start_watch | Start_accept => true
  | _ => false
  end.

(** The goroutines that will close a listener they hold. *)
Definition holds (x : socket) p : bool :=
  match x, p with
  | Control, (Start_dashboard | Start_proxy | Start_watch | Watch) => true
  | ProxyTLS, (Proxy_listen_plain | Proxy_redirect | Proxy_tls | Proxy_wait) => true
  | ProxyPlain, (Proxy_redirect | Proxy_tls | Proxy_wait | Proxy_close_plain) => true
  | DashboardSocket, (Http_track Dash | Http_serve Dash) => true
  | _, _ => false
  end.

Record wf_life s l : Prop := {
  wf_early p : p = Start_build \/ p = Start_listen -> p ∈ l -> l = [p] /\ forall x, opened s x = false;
  wf_failed e : returned s = Some (Some e) -> l = [] /\ forall x, opened s x = false;
  wf_clean : returned s = Some None -> ctx_done s = true;
  wf_blocked : returned s = None -> exists p, p ∈ l /\ in_Start p = true;
  wf_owner x : opened s x = true -> exists p, p ∈ l /\ holds x p = true;
}.

(** The dashboard's server: a listener that [Serve] has is on the list of the
    goroutine that will close it. *)
Record wf_dash s l : Prop := {
  wf_tracked : Http_serve Dash ∈ l -> tracked s Dash = true;
  wf_closer : Dash_listen ∈ l \/ Http_track Dash ∈ l -> closed_srv s Dash = false -> Http_close Dash ∈ l;
  wf_serving : Http_serve Dash ∈ l -> opened s DashboardSocket = true -> Http_close Dash ∈ l;
}.

Lemma wf_life_perm s l l' : l ≡ₚ l' -> wf_life s l -> wf_life s l'.
Proof.
  intros Hp [He Hf Hc Hb Ho]. pose proof (fun q => elem_of_Permutation_proper q l l' Hp) as Hin.
  split; try setoid_rewrite <- Hin; try done.
  - intros p Hq Hl. destruct (He p Hq Hl) as [-> Hop]. split; [|done]. by apply Permutation_singleton_l in Hp.
  - intros e Hr. destruct (Hf e Hr) as [-> Hop]. split; [|done]. by apply Permutation_nil_l in Hp.
Qed.

Lemma wf_dash_perm s l l' : l ≡ₚ l' -> wf_dash s l -> wf_dash s l'.
Proof. intros Hp []. by split; rewrite <- !Hp. Qed.

(** Case analysis of one action. *)
Ltac go_cases H :=
  repeat match type of H with
  | goroutine_step _ ?p ?a _ = _ =>
      destruct p, a; cbn in H; unfold startDashboard, on_done in H; try discriminate H
  | context [if ?b then _ else _] => destruct b eqn:?
  | context [match ?h with Dash => _ | Redirect => _ end] => destruct h
  | None = Some _ => discriminate H
  | Some _ = Some _ => injection H as <- <-
  end.

Lemma go_ctx p a s s' ps : goroutine_step cfg p a s = Some (s', ps) -> ctx_done s' = ctx_done s.
Proof. intros H. go_cases H; done. Qed.

Lemma go_owner p a s s' ps x :
  goroutine_step cfg p a s = Some (s', ps) -> opened s' x = true ->
  (exists q, q ∈ ps /\ holds x q = true) \/ opened s x = true /\ holds x p = false.
Proof.
  intros H. assert (opened s' x = true -> existsb (holds x) ps = true \/ opened s x = true /\ holds x p = false) as Hb.
  { go_cases H; try (destruct h); destruct x; cbn -[decide]; auto;
      repeat first [case_decide | case_match]; try done; auto. }
  intros Ho. destruct (Hb Ho) as [He|]; [left|by right].
  apply existsb_exists in He as (q & Hq & Hown). exists q. by rewrite list_elem_of_In.
Qed.

Lemma go_Start p a s s' ps :
  goroutine_step cfg p a s = Some (s', ps) -> in_Start p = true ->
  (exists q, q ∈ ps /\ in_Start q = true) \/ exists r, returned s' = Some r.
Proof.
  intros H Hp. go_cases H; try discriminate Hp; cbn [returned return_];
    first [right; by eexists | left; eexists; split; [apply list_elem_of_here | reflexivity]].
Qed.

(** Only [Start] returns: an error before anything else runs, success once the
    context is done. *)
Lemma go_returned p a s s' ps :
  goroutine_step cfg p a s = Some (s', ps) ->
  returned s' = returned s \/
  ps = [] /\ (p = Start_accept /\ returned s' = Some None /\ ctx_done s = true \/
             (p = Start_build \/ p = Start_listen) /\ opened s' = opened s /\ exists e, returned s' = Some (Some e)).
Proof. intros H. go_cases H; try (destruct h); cbn; eauto 12. Qed.

Lemma go_early p a s s' ps q :
  goroutine_step cfg p a s = Some (s', ps) -> q ∈ ps -> q = Start_build \/ q = Start_listen ->
  p = Start_build /\ ps = [q] /\ opened s' = opened s.
Proof.
  intros H Hin Hq. assert (existsb (fun q => bool_decide (q = Start_build \/ q = Start_listen)) ps = true) as Hb.
  { apply existsb_exists. exists q. split; [by apply list_elem_of_In | by apply bool_decide_eq_true]. }
  go_cases H; try discriminate Hb. by apply list_elem_of_singleton in Hin as ->.
Qed.

(** What an action changes of the dashboard's server. *)
Lemma go_dash p a s s' ps :
  goroutine_step cfg p a s = Some (s', ps) ->
  (tracked s Dash = true -> tracked s' Dash = true) /\
  (closed_srv s' Dash = false -> closed_srv s Dash = false /\ p <> Http_close Dash) /\
  (opened s' DashboardSocket = true ->
   (opened s DashboardSocket = true \/ p = Dash_listen /\ closed_srv s Dash = false) /\
   (p = Http_close Dash -> tracked s Dash = false)).
Proof.
  intros H. go_cases H; try (destruct h); cbn; repeat case_decide; simplify_eq; intuition congruence.
Qed.

Lemma go_dash_started p a s s' ps :
  goroutine_step cfg p a s = Some (s', ps) ->
  (Http_serve Dash ∈ ps ->
   p = Http_serve Dash \/ p = Http_track Dash /\ closed_srv s Dash = false /\ tracked s' Dash = true) /\
  (Dash_listen ∈ ps \/ Http_track Dash ∈ ps ->
   Http_close Dash ∈ ps \/ p = Dash_listen /\ closed_srv s Dash = false).
Proof.
  intros H. rewrite !list_elem_of_In. go_cases H; try (destruct h); cbn; intuition (try congruence; auto).
Qed.

Lemma wf_life_go p a s s' ps l :
  wf_life s (p :: l) -> goroutine_step cfg p a s = Some (s', ps) -> wf_life s' (ps ++ l).
Proof.
  intros [He Hf Hc Hb Ho] H.
  assert (forall q, q = Start_build \/ q = Start_listen -> ~ (q ∈ l)) as Hearly.
  { intros q Hq Hin. destruct (He q Hq) as [Hl _]; [set_solver|]. injection Hl as <- ->. by apply elem_of_nil in Hin. }
  split.
  - intros q Hq Hin. apply elem_of_app in Hin as [Hin|Hin]; [|by destruct (Hearly q Hq)].
    destruct (go_early _ _ _ _ _ _ H Hin Hq) as (-> & -> & ->).
    destruct (He Start_build) as [[= ->] Hop]; [by left | set_solver | done].
  - intros e Hr. destruct (go_returned _ _ _ _ _ H) as [E|[-> [(_ & E & _)|(Hp & -> & _)]]]; [|congruence|].
    + rewrite E in Hr. by destruct (Hf e Hr).
    + destruct (He p Hp) as [[= ->] Hop]; [set_solver | done].
  - rewrite (go_ctx _ _ _ _ _ H). intros Hr.
    destruct (go_returned _ _ _ _ _ H) as [E|[_ [(_ & _ & Hd)|(_ & _ & e & E)]]]; [|done|congruence].
    apply Hc. by rewrite <- E.
  - intros Hr. destruct (go_returned _ _ _ _ _ H) as [E|[_ [(_ & E & _)|(_ & _ & e & E)]]]; [|congruence..].
    rewrite E in Hr. destruct (Hb Hr) as (q & [->|Hq]%elem_of_cons & Hin); [|exists q; set_solver].
    destruct (go_Start _ _ _ _ _ H Hin) as [(r & Hr' & ?)|[r Hr']]; [exists r; set_solver | congruence].
  - intros x Hx. destruct (go_owner _ _ _ _ _ _ H Hx) as [(q & Hq & ?)|[Hx' Hn]]; [exists q; set_solver|].
    destruct (Ho x Hx') as (q & [->|Hq]%elem_of_cons & Hown); [congruence | exists q; set_solver].
Qed.

Lemma wf_dash_go p a s s' ps l :
  wf_dash s (p :: l) -> goroutine_step cfg p a s = Some (s', ps) -> wf_dash s' (ps ++ l).
Proof.
  intros [Ht Hcl Hs] H.
  destruct (go_dash _ _ _ _ _ H) as (Htr & Hcm & Hod). destruct (go_dash_started _ _ _ _ _ H) as [Hds Hdl].
  assert (closed_srv s Dash = false -> Dash_listen ∈ p :: l \/ Http_track Dash ∈ p :: l ->
          p <> Http_close Dash -> Http_close Dash ∈ l) as Hold.
  { intros Hcf Hq Hne. by destruct (proj1 (elem_of_cons _ _ _) (Hcl Hq Hcf)). }
  split.
  - intros [Hq|Hq]%elem_of_app; [|by apply Htr, Ht; right].
    destruct (Hds Hq) as [->|(_ & _ & ?)]; [by apply Htr, Ht; left | done].
  - intros Hq Hcf. destruct (Hcm Hcf) as [Hcf' Hne]. apply elem_of_app.
    destruct (decide (Dash_listen ∈ l \/ Http_track Dash ∈ l)) as [Hl|Hl]; [right; apply Hold; set_solver|].
    destruct Hdl as [?|[-> _]]; [set_solver | by left | right; apply Hold; set_solver].
  - intros Hq Hx. destruct (Hod Hx) as [Hx' Hne]. apply elem_of_app. right.
    assert (Http_serve Dash ∈ p :: l -> opened s DashboardSocket = true -> Http_close Dash ∈ l) as Hcl'.
    { intros Hq' Ho. destruct (proj1 (elem_of_cons _ _ _) (Hs Hq' Ho)) as [E|]; [|done].
      rewrite (Ht Hq') in Hne. by specialize (Hne (eq_sym E)). }
    destruct Hx' as [Hx'|[-> Hcf]]; [|apply Hold; set_solver].
    apply elem_of_app in Hq as [Hq|Hq]; [|apply Hcl'; set_solver].
    destruct (Hds Hq) as [->|(-> & Hcf & _)]; [apply Hcl' | apply Hold]; set_solver.
Qed.

(** Both hold of every server that [Start] has started. *)
Definition wf (w : world) : Prop := wf_life (sh w) (running w) /\ wf_dash (sh w) (running w).

Lemma wf_started : wf started.
Proof.
  split; split; cbn; try done.
  - intros p _ Hp%list_elem_of_singleton. by subst.
  - intros _. exists Start_build. split; [apply list_elem_of_here | done].
  - by intros Hp%list_elem_of_singleton.
  - intros [Hp|Hp]%or_comm; by apply list_elem_of_singleton in Hp.
Qed.

(** A step of the server, goroutine by goroutine. *)
Lemma step_go i a w w' :
  step cfg (Go i a) w = Some w' ->
  exists p ps l, running w ≡ₚ p :: l /\ goroutine_step cfg p a (sh w) = Some (sh w', ps) /\ running w' ≡ₚ ps ++ l.
Proof.
  cbn. destruct (running w !! i) as [p|] eqn:Hi; [|done]. cbn.
  destruct (goroutine_step cfg p a (sh w)) as [[s ps]|] eqn:Hg; [|done]. cbn. intros [= <-]. cbn.
  exists p, ps, (take i (running w) ++ drop (S i) (running w))%list. split; [|split; [done|]].
  - rewrite <- (take_drop_middle (running w) i p Hi) at 1. by rewrite Permutation_middle.
  - by rewrite Permutation_app_swap_app.
Qed.

(** Cancelling the context, or closing the control listener, keeps them. *)
Lemma wf_outside s s' l :
  (forall x, opened s' x = true -> opened s x = true) -> (ctx_done s = true -> ctx_done s' = true) ->
  closed_srv s' = closed_srv s -> tracked s' = tracked s -> returned s' = returned s ->
  wf_life s l /\ wf_dash s l -> wf_life s' l /\ wf_dash s' l.
Proof.
  intros Hop Hd Hc Ht Hr [[He Hf Hcl Hb Ho] [Htr Hclo Hs]].
  assert ((forall x, opened s x = false) -> forall x, opened s' x = false) as Hop'.
  { intros H x. specialize (H x). specialize (Hop x). destruct (opened s' x); [|done]. by rewrite Hop in H. }
  split; split; rewrite ?Hr, ?Hc, ?Ht; auto.
  - intros p Hq Hin. destruct (He p Hq Hin). auto.
  - intros e E. destruct (Hf e E). auto.
Qed.

Lemma wf_step lb w w' : wf w -> step cfg lb w = Some w' -> wf w'.
Proof.
  intros [Hl Hd]. destruct lb as [i a| |].
  - intros (p & ps & l & Hp & Hg & Hp')%step_go. split.
    + eapply wf_life_perm; [symmetry; exact Hp'|]. eapply wf_life_go; [|exact Hg]. by eapply wf_life_perm.
    + eapply wf_dash_perm; [symmetry; exact Hp'|]. eapply wf_dash_go; [|exact Hg]. by eapply wf_dash_perm.
  - intros [= <-]. by apply (wf_outside (sh w)).
  - intros [= <-]. apply (wf_outside (sh w)); try done. intros x. cbn. by case_decide.
Qed.

Lemma wf_steps ls w w' : wf w -> steps cfg ls w = Some w' -> wf w'.
Proof.
  revert w. induction ls as [|lb ls IH]; intros w Hw; cbn; [by intros [= <-]|].
  destruct (step cfg lb w) as [w1|] eqn:Hs; [|done]. apply IH. by eapply wf_step.
Qed.

Lemma wf_reaches w : reaches cfg w -> wf w.
Proof. intros [ls H]. by eapply wf_steps; [apply wf_started|]. Qed.

(** ** The work left *)

(** How many actions a goroutine and those it will start have before them,
    connections not counted. *)
Definition weight p : nat :=
  match p with
  | Start_build => 23 | Start_listen => 22 | Start_dashboard => 21 | Start_proxy => 16 | Start_watch => 3
  | Start_accept | Watch => 1
  | Proxy_build => 12 | Proxy_listen_tls => 11 | Proxy_listen_plain => 10 | Proxy_redirect => 9 | Proxy_tls => 4
  | Proxy_wait => 2 | Proxy_close_plain => 1
  | Redirect_start => 4 | Tls_accept => 1
  | Dash_listen => 3 | Http_track _ => 2 | Http_serve _ => 1 | Http_close _ => 1
  end.
Definition work l : nat := sum_list (map weight l).

Lemma work_app l l' : work (l ++ l') = work l + work l'.
Proof. unfold work. rewrite map_app. induction (map weight l); cbn in *; lia. Qed.

Lemma work_perm l l' : l ≡ₚ l' -> work l = work l'.
Proof. unfold work. induction 1; cbn; lia. Qed.

Lemma go_work p a s s' ps :
  goroutine_step cfg p a s = Some (s', ps) ->
  work ps <= weight p /\ (ctx_done s = true -> from_outside a = false -> work ps < weight p).
Proof. intros H. go_cases H; try (destruct h); split; try done; try (cbn; lia); intros; try done; try (cbn; lia); congruence. Qed.

#[local] Arguments work : simpl never.

(** Steps that take work off: every action of a goroutine but those an open
    listener makes it repeat. *)
Definition own_action (lb : label) : bool :=
  match lb with Go _ a => negb (from_outside a) | _ => false end.

Lemma step_work lb w w' :
  step cfg lb w = Some w' -> ctx_done (sh w) = true ->
  ctx_done (sh w') = true /\ work (running w') + (if own_action lb then 1 else 0) <= work (running w).
Proof.
  destruct lb as [i a| |]; [|intros [= <-]; cbn; intros; split; (done || lia)..].
  intros (p & ps & l & Hp & Hg & Hp')%step_go Hd. rewrite (go_ctx _ _ _ _ _ Hg). split; [done|].
  destruct (go_work _ _ _ _ _ Hg) as [Hle Hlt]. rewrite (work_perm _ _ Hp), (work_perm _ _ Hp'), work_app.
  change (work (p :: l)) with (weight p + work l).
  cbn [own_action]. destruct (from_outside a); [cbn [negb]; lia|]. specialize (Hlt Hd eq_refl). cbn [negb]. lia.
Qed.

Lemma steps_work ls w w' :
  steps cfg ls w = Some w' -> ctx_done (sh w) = true ->
  ctx_done (sh w') = true /\ work (running w') + length (List.filter own_action ls) <= work (running w).
Proof.
  revert w. induction ls as [|lb ls IH]; intros w; cbn; [intros [= <-]; split; (done || lia)|].
  destruct (step cfg lb w) as [w1|] eqn:Hs; [|done]. cbn. intros H Hd.
  destruct (step_work _ _ _ Hs Hd) as [Hd1 Hw1]. destruct (IH w1 H Hd1) as [? ?]. split; [done|].
  destruct (own_action lb); cbn; lia.
Qed.

Lemma go_work_le lb w w' : step cfg lb w = Some w' -> work (running w') <= work (running w).
Proof.
  destruct lb as [i a| |]; [|by intros [= <-]..].
  intros (p & ps & l & Hp & Hg & Hp')%step_go. destruct (go_work _ _ _ _ _ Hg) as [Hle _].
  rewrite (work_perm _ _ Hp), (work_perm _ _ Hp'), work_app. change (work (p :: l)) with (weight p + work l). lia.
Qed.

Lemma work_reaches w : reaches cfg w -> work (running w) <= 23.
Proof.
  intros [ls H]. assert (forall w0, steps cfg ls w0 = Some w -> work (running w) <= work (running w0)) as Hw.
  { clear H. induction ls as [|lb ls IH]; intros w0; cbn; [by intros [= <-]|].
    destruct (step cfg lb w0) as [w1|] eqn:Hs; [|done]. intros H. specialize (IH _ H).
    apply go_work_le in Hs. lia. }
  by specialize (Hw _ H).
Qed.

(** A goroutine that can act without help from outside: one that waits for the
    context needs it done, one in [Accept] needs its listener closed. *)
Definition ready s p : bool :=
  match p with
  | Watch | Proxy_wait | Http_close _ => ctx_done s
  | Start_accept => negb (opened s Control)
  | Tls_accept => negb (opened s ProxyTLS)
  | Http_serve h => negb (opened s (socket_of h))
  | _ => true
  end.

(** What it then does, with [Accept] failing on a closed listener. *)
Definition own_answer p : answer :=
  match p with Start_accept | Tls_accept | Http_serve _ => Refused "use of closed network connection" | _ => Fine end.

Lemma ready_go s p : ready s p = true -> is_Some (goroutine_step cfg p (own_answer p) s).
Proof.
  destruct p; cbn; unfold on_done; intros Hr; rewrite ?Hr; repeat case_match; eauto; discriminate Hr.
Qed.

Lemma owner_ready s x p : ctx_done s = true -> holds x p = true -> x <> DashboardSocket -> ready s p = true.
Proof. intros Hd Ho Hx. destruct x, p; try discriminate Ho; done. Qed.

(** When the context is done, somebody can act until nobody is left. *)
Lemma someone_ready w :
  wf w -> ctx_done (sh w) = true -> running w <> [] -> exists p, p ∈ running w /\ ready (sh w) p = true.
Proof.
  intros [Hl Hda] Hd Hne. destruct (running w) as [|p l] eqn:Hr; [done|].
  assert (forall x, opened (sh w) x = true -> x <> DashboardSocket -> exists q, q ∈ p :: l /\ ready (sh w) q = true) as Hown.
  { intros x Hx Hn. destruct (wf_owner _ _ Hl x Hx) as (q & Hq & Ho). exists q. split; [done|]. by eapply owner_ready. }
  destruct (ready (sh w) p) eqn:Hp; [exists p; set_solver|].
  destruct p as [| | | | | | | | | | | | | | | | |h|h|h]; cbn in Hp; try congruence; apply negb_false_iff in Hp;
    try (by apply (Hown _ Hp)).
  destruct h; [|by apply (Hown _ Hp)]. exists (Http_close Dash). split; [|done].
  apply (wf_serving _ _ Hda); [set_solver | done].
Qed.
End Invariants.

(** ** What [Start] promises *)

(** C32: [Start] blocks: while it has not returned, one of its own goroutines is
    there.  An error means that nothing is left behind, neither a goroutine nor
    a listener; success means that the context is done. *)
Theorem Start_spec cfg w :
  reaches cfg w ->
  match returned (sh w) with
  | None => exists p, p ∈ running w /\ in_Start p = true
  | Some (Some e) => running w = [] /\ forall x, opened (sh w) x = false
  | Some None => ctx_done (sh w) = true
  end.
Proof.
  intros [Hl _]%wf_reaches. destruct (returned (sh w)) as [[e|]|] eqn:Hr.
  - by apply (wf_failed _ _ Hl e).
  - by apply (wf_clean _ _ Hl).
  - by apply (wf_blocked _ _ Hl).
Qed.

(** C20: a stop completes.  Once the context is cancelled, in whatever moment of
    the start, the goroutines that [Start] started, handlers of connections
    apart, have at most 23 actions left between them, whatever the schedule and
    however many connections still arrive or fail to; as long as one of them runs, some one
    can act without help from outside; and when none is left every listener is
    closed and [Start] has returned. *)
Theorem stop_completes cfg w :
  reaches cfg w -> ctx_done (sh w) = true ->
  (forall ls w', steps cfg ls w = Some w' -> length (List.filter own_action ls) <= 23) /\
  (running w <> [] -> exists i p, running w !! i = Some p /\ ready (sh w) p = true /\
     is_Some (step cfg (Go i (own_answer p)) w)) /\
  (running w = [] -> (forall x, opened (sh w) x = false) /\ returned (sh w) <> None).
Proof.
  intros Hw Hd. pose proof (wf_reaches _ _ Hw) as [Hl Hda]. split; [|split].
  - intros ls w' H. pose proof (work_reaches _ _ Hw). destruct (steps_work _ _ _ _ H Hd) as [_ ?]. lia.
  - intros Hne. destruct (someone_ready w (conj Hl Hda) Hd Hne) as (p & Hp & Hr).
    apply list_elem_of_lookup in Hp as [i Hi]. exists i, p. split; [done|]. split; [done|].
    cbn. rewrite Hi. cbn. destruct (ready_go cfg _ _ Hr) as [[s ps] ->]. by eexists.
  - intros Hr. rewrite Hr in Hl. split.
    + intros x. destruct (opened (sh w) x) eqn:Ho; [|done]. destruct (wf_owner _ _ Hl x Ho) as (p & Hp & _).
      by apply elem_of_nil in Hp.
    + intros Hn. destruct (wf_blocked _ _ Hl Hn) as (p & Hp & _). by apply elem_of_nil in Hp.
Qed.

Lemma ctx_only_cancel cfg ls w w' :
  ~ (Cancel ∈ ls) -> steps cfg ls w = Some w' -> ctx_done (sh w') = ctx_done (sh w).
Proof.
  revert w. induction ls as [|lb ls IH]; intros w Hn; cbn; [by intros [= <-]|].
  destruct (step cfg lb w) as [w1|] eqn:Hs; [|done]. cbn. intros H. rewrite (IH w1) by (done || set_solver).
  destruct lb as [i a| |]; [|set_solver|by injection Hs as <-].
  apply step_go in Hs as (p & ps & l & _ & Hg & _). by apply go_ctx in Hg.
Qed.

(** [Shutdown] closes the listener but not the context: a server that is not
    cancelled as well never returns cleanly. *)
Theorem Shutdown_does_not_stop cfg ls w :
  ~ (Cancel ∈ ls) -> steps cfg ls started = Some w -> returned (sh w) <> Some None.
Proof.
  intros Hn Hs Hr. pose proof (Start_spec cfg w (ex_intro _ ls Hs)) as H. rewrite Hr in H.
  by rewrite (ctx_only_cancel _ _ _ _ Hn Hs) in H.
Qed.

(** ** Examples *)

Module Examples.

Definition cfg : ServerConfig := defaults {|
  ListenAddr := ""; Domain := "example.com"; Email := ""; Tokens := []; MaxTunnelsPerToken := 0;
  RateLimit := 0; GlobalRateLimit := 0; TCPPortRange := (0, 0)%Z; CertStorage := "/var/lib/../lib/htn//certs";
  DevMode := false; DNSProvider := "Cloudflare"; DNSAPIToken := "t"; DashboardEnabled := true;
  DashboardAddr := ""; AdminToken := ""; HTTPProxyAddr := ""; HTTPRedirectAddr := "";
  KeyStorePath := ""; AllowRegistration := None; AllowAnonymous := None; AnonTunnelTTL := 0 |}.

(** Everything starts; one connection arrives on each listener. *)
Definition start_all : list label :=
  repeat (Go 0 Fine) 5                      (* Start: to its accept loop *)
  ++ repeat (Go 2 Fine) 5                   (* HTTPProxy.Start *)
  ++ [Go 4 Fine; Go 4 Fine; Go 6 Fine; Go 6 Fine]   (* the two http.Servers *)
  ++ [Go 0 Arrives; Go 3 Arrives; Go 4 Arrives; Go 6 Arrives].

Definition at_ (ls : list label) : world := default started (steps cfg ls started).

Lemma reaches_at ls w : steps cfg ls started = Some w -> reaches cfg (at_ ls).
Proof. intros H. exists ls. unfold at_. by rewrite H. Qed.

Example up_running :
  let w := at_ start_all in
  running w = [Start_accept; Watch; Proxy_wait; Tls_accept; Http_serve Redirect; Http_close Redirect;
               Http_serve Dash; Http_close Dash] /\
  served (sh w) = [DashboardSocket; ProxyPlain; ProxyTLS; Control] /\
  Forall (fun x => opened (sh w) x = true) [Control; ProxyTLS; ProxyPlain; DashboardSocket].
Proof. vm_compute. split; [reflexivity|]. split; [reflexivity|]. repeat constructor. Qed.

(** The signal comes; the goroutines end in this order. *)
Definition stopping : list label :=
  start_all ++ [Cancel; Go 0 Arrives; Go 1 Fine; Go 0 (own_answer Start_accept); Go 5 Fine; Go 0 Fine;
                Go 0 Fine; Go 2 Fine; Go 0 (own_answer Tls_accept); Go 0 (own_answer (Http_serve Redirect));
                Go 0 (own_answer (Http_serve Dash))].

Example stopped :
  let w := at_ stopping in
  running w = [] /\ returned (sh w) = Some None /\ logged (sh w) = [] /\
  Forall (fun x => opened (sh w) x = false) [Control; ProxyTLS; ProxyPlain; DashboardSocket].
Proof. vm_compute. split; [reflexivity|]. split; [reflexivity|]. split; [reflexivity|]. repeat constructor. Qed.

Definition signalled : world := at_ (start_all ++ [Cancel]).

Lemma run_signalled : exists w, steps cfg (start_all ++ [Cancel]) started = Some w.
Proof. eexists. vm_compute. reflexivity. Qed.

Lemma reaches_signalled : reaches cfg signalled.
Proof. destruct run_signalled as [w H]. exact (reaches_at _ w H). Qed.

Lemma stop_completes_witness :
  exists i p, running signalled !! i = Some p /\ ready (sh signalled) p = true /\
    is_Some (step cfg (Go i (own_answer p)) signalled).
Proof.
  apply (proj1 (proj2 (stop_completes cfg signalled reaches_signalled eq_refl))).
  vm_compute. discriminate.
Defined.

(** The address of the control plane is taken. *)
Definition refused : world := at_ [Go 0 Fine; Go 0 (Refused "address already in use")].

Lemma reaches_refused : reaches cfg refused.
Proof. exists [Go 0 Fine; Go 0 (Refused "address already in use")]. reflexivity. Qed.

Lemma Start_spec_witness :
  returned (sh refused) = Some (Some "listen :4443: address already in use") /\
  running refused = [] /\ forall x, opened (sh refused) x = false.
Proof. split; [reflexivity|]. exact (Start_spec cfg refused reaches_refused). Defined.

(** A busy port of the HTTP proxy leaves the control plane running without it. *)
Example proxy_not_fatal :
  let w := at_ (repeat (Go 0 Fine) 5 ++ [Go 2 Fine; Go 2 Fine; Go 2 (Refused "address already in use")]) in
  running w = [Start_accept; Watch; Dash_listen; Http_close Dash] /\
  logged (sh w) = ["HTTP proxy error HTTPProxy HTTP listen :80: address already in use"] /\
  opened (sh w) ProxyTLS = false.
Proof. vm_compute. auto. Qed.

(** After [Shutdown] alone the accept loop of [Start] goes round as fast as it
    can: [n] failed [Accept]s, [n] lines in the log, and no end. *)
Definition shut : world := at_ (start_all ++ [Shutdown]).

Example shutdown_spins n :
  exists w, steps cfg (repeat (Go 0 (own_answer Start_accept)) n) shut = Some w /\
    running w = running shut /\ returned (sh w) = None /\
    logged (sh w) = (repeat "accept error use of closed network connection" n ++ logged (sh shut))%list.
Proof.
  assert (forall w, ctx_done (sh w) = false -> running w !! 0 = Some Start_accept -> returned (sh w) = None ->
    exists w', steps cfg (repeat (Go 0 (own_answer Start_accept)) n) w = Some w' /\
      running w' = running w /\ returned (sh w') = None /\
      logged (sh w') = (repeat "accept error use of closed network connection" n ++ logged (sh w))%list) as Hn;
    [|by apply Hn].
  induction n as [|n IH]; intros w Hd Hr Hre; [by exists w|].
  destruct w as [s [|p l]]; [done|]. injection Hr as ->. cbn in Hd, Hre. cbn. rewrite Hd. cbn.
  destruct (IH {| sh := log "accept error use of closed network connection" s; running := Start_accept :: l |})
    as (w' & Hw & H1 & H2 & H3); [done..|]. exists w'. split; [exact Hw|]. split; [done|]. split; [done|].
  rewrite H3. cbn. by rewrite app_comm_cons, repeat_cons, <- app_assoc.
Qed.
End Examples.
